(* ===== verification/_CoqProject ===== *)
-Q . S2P
Prelude.v
Persister.v
Raft.v
RaftFacts.v
RaftNet.v
RaftSafety.v
RaftProps.v
Bitset.v
LinkedList.v
Porcupine.v
CheckerFacts.v
CheckerSim.v
CheckerInit.v
CheckerSpec.v
CheckerProps.v
KvModel.v
KvModelProps.v
Visualization.v
VisualizationProps.v
Render.v
RenderFacts.v
RenderProps.v
RenderCheck.v
RenderDraw.v
RenderUi.v
RenderUiProps.v
RenderDrawProps.v
RenderPageProps.v
KvSrv.v
KvSrvFacts.v
KvSrvProps.v
Text.v
Random.v
Decimal.v
MapReduce.v
MapReduceFacts.v
MapReduceInv.v
MrApps.v
MrTiming.v
MapReduceProps.v
MrMain.v
OldCommands.v
LabRPC.v
LabRPCProps.v
LabGob.v
TestNet.v
RaftConfig.v
RaftConfigProps.v
RaftAgree.v
RaftCluster.v
RaftClusterSim.v
RaftClusterSteps.v
RaftClusterTest.v
RaftClusterProps.v
KvRaft.v
Tester.v
TesterFacts.v
TesterProps.v
TesterPersist.v
ShardCtrler.v
ShardKv.v
CtrlerTester.v
ShardTester.v
ShardTesterProps.v
KvSrvTester.v
KvCluster.v
KvClusterSim.v
KvClusterSteps.v
KvClusterProps.v
KvClusterLive.v
UserService.v
UserPrime.v
UserTime.v
UserServiceProps.v
