(* ===== verification/Prelude.v ===== *)
(** * A verification of the 6.5840 distributed-systems labs and a web service

    The repository holds two Go programs.  src/6.5840-golabs-2024/src has the labs of a
    distributed-systems course as one student worked through them: a MapReduce framework, a
    key/value server with exactly-once semantics, the Raft consensus protocol, the skeletons of
    a replicated and of a sharded key/value store, and the support code, a simulated network,
    testers and the linearizability checker porcupine.  src/gintest is a web service for users.
    This library models these programs definition by definition and proves what makes them
    correct, or shows where they are not.

    ** The parts and how they interact

    - [Persister], [Raft] (raft/persister.go, raft.go, rpc.go): one Raft peer.  Its state is the
      record [Raft.Raft]; every RPC handler, timer, goroutine body and method is a function on
      it; a Go panic is [None].  [RaftNet] puts peers on a network that delays, loses and
      reorders messages and lets peers crash and restart from their persister: the step relation
      [exec] and the reachable states.  [RaftFacts] has the invariant of a peer, [RaftSafety]
      that of a cluster, [RaftProps] the theorems.
    - [Bitset], [LinkedList], [Porcupine] (porcupine/bitset.go, checker.go, model.go,
      porcupine.go): the linearizability checker.  The doubly linked list of entries lives on an
      explicit heap; [checkSingle] is the search with its cache and its stack; [checkParallel]
      takes the order in which goroutines answer, and the timeout, as arguments.
      [CheckerFacts] is an abstract search, [CheckerSim] shows that the concrete one simulates
      it, [CheckerInit] that the initial list is right, [CheckerSpec] defines linearizability
      and relates it to runs of the abstract search, [CheckerProps] has the theorems.
    - [KvModel] (models/kv.go): the specification the labs give to the checker; [KvModelProps]
      shows that checking key by key is checking the store.
    - [Visualization] (porcupine/visualization.go): the data of the picture of a check;
      [VisualizationProps].  The page that shows it is a script in the same file: [Render] is its
      layout, [RenderDraw] what it draws, [RenderUi] its event handlers.  [RenderFacts] has the
      specification of the layout by numbers, [RenderProps] that of a partitioned history,
      [RenderCheck] joins it to the checker; [RenderUiProps] has the modes of the page,
      [RenderDrawProps] the boxes and points on it, [RenderPageProps] the theorems.
    - [KvSrv] (kvsrv/common.go, server.go, client.go): the key/value server and its clerks, whose
      calls and retries interleave over a lossy network.  [KvSrvFacts] has the invariant that
      carries a linearization, [KvSrvProps] the theorems.
    - [Text], [Decimal], [MapReduce], [MrApps] (mr/coordinator.go, worker.go, rpc.go,
      main/mrsequential.go, mrapps/): coordinator, workers as state machines on a directory, the
      sequential program and the applications.  [MapReduceFacts] computes what map and reduce
      tasks write, [MapReduceInv] has the invariant of the system, [MapReduceProps] the theorems.
      [MrTiming] (mrapps/mtiming.go, rtiming.go) has the applications that count each other,
      [MrMain] (main/mrcoordinator.go, mrworker.go) the commands.  [OldCommands] (main/diskvd.go, lockc.go, lockd.go,
      pbc.go, pbd.go, viewd.go) has the commands of older labs: their arguments and what they start.
    - [Random] (randstring of kvsrv/config.go, nrand of kvsrv/client.go): names and numbers from random bytes.
    - [LabRPC] (labrpc/labrpc.go): the simulated network that the labs run on; [LabRPCProps].
      [LabGob] (labgob/labgob.go): the checks around the encoder.
    - [TestNet]: what the testers share of the network.  [RaftConfig], [RaftAgree]
      (raft/config.go): the tester that partitions the network, crashes and restarts servers,
      checks what they apply and waits for agreement; [RaftConfigProps].
    - [RaftCluster]: the parts together.  The peers of [Raft] are the receivers of services on the
      network of [LabRPC], and the statements of a test on [RaftConfig] connect, crash and restart them;
      a crashed instance goes on running, and the tester shares the persister of a running one.
      [RaftClusterSim] relates its states to those of [RaftNet], [RaftClusterSteps] and
      [RaftClusterTest] show that every event keeps the relation, [RaftClusterProps] has the theorems.
    - [KvRaft] (kvraft/common.go, server.go, client.go): the skeleton of the replicated store, and
      the class of what a tester needs of its servers.  [Tester] (kvraft/config.go) is its tester, with
      server instances and persisters on a heap because they are shared; [TesterFacts] is an
      abstract machine of links that it simulates, [TesterProps] and [TesterPersist] the
      theorems.  [CtrlerTester] (shardctrler/config.go) is the same code at another server,
      [KvSrvTester] (kvsrv/config.go) the tester of the single server.
    - [KvCluster]: the single server together with its surroundings.  The clerks call over [LabRPC], the server of [KvSrv] is the
      receiver of a service, and [KvSrvTester] makes and deletes clerks.  [KvClusterSim] and [KvClusterSteps] relate it
      to [KvSrv] event by event, [KvClusterProps] and [KvClusterLive] have the theorems.
    - [ShardCtrler], [ShardKv] (shardctrler/, shardkv/: common.go, client.go, server.go): the
      skeletons of the shard controller and of the sharded store with their clerks;
      [ShardTester] (shardkv/config.go) and [ShardTesterProps]: their tester.
    - [UserService] (src/gintest): the web service, its handlers in a monad over the request, the
      table of users, the token store and the keys; [UserPrime] and [UserServiceProps].
      [UserTime] (types/PostReq.go) has its time format.
    - [Prelude]: Go's integers at their width, slices with out-of-range accesses as [None], sorted
      strings, and shared lemmas, tactics and hints.

    ** What the theorems show

    The numbers are those of the claims.

    - Raft (C1-C3, C15-C24): at most one leader per term in every reachable state, of the network
      model and, because the peers on labrpc under their tester refine it, of these; the tester, which reads the
      servers one after another and each without its lock, finds the leader, unless a server came to lead another term
      between the two reads of its state, and such a read can make it report two leaders ([RaftClusterProps]); what was persisted
      is recovered after a crash; the shape of every peer's data; a peer applies log entries in
      order and without gaps; terms grow and votes stay; the behaviour of the vote and append
      handlers on every branch, with the place of a conflict; the commit rule.  Theorems are also about defects: a delayed
      request can remove a committed entry (C24), the applier can index outside the log (C17);
      further ones in [RaftProps] show a follower that sends as a leader, a stale leader that is
      not deposed and a conflict that leaves duplicate entries.
    - Checker (C8, C9, C14, C25, C29): [checkSingle] terminates without a nil dereference
      and answers true exactly when the history is linearizable; so does the parallel checker for
      any order of answers when there is a partition, and with the key/value model for the whole store; an answer within a
      timeout is sound, and a linearizable history is never found illegal (a lemma of [CheckerProps]); checking
      key by key is right ([KvModelProps]); the data of the picture is true.  Bitsets are sets ([Bitset]), and lifting
      an entry out of the list can be undone ([LinkedList]).
    - Page of the checker (C26-C28): the greedy scan of the layout satisfies the constraints that
      its comment states and is the least layout that does; what is drawn is in its place, and the error points are those of the
      elements that could come next; the page
      refines a machine with three modes under every sequence of mouse events; [RenderPageProps] also has that its link leads
      to an error that stays visible, [RenderCheck] that an operation that starts at the very last
      timestamp breaks it.
    - Key/value server (C4-C7): a run of clerks with distinct ids in which the server holds no error string as a value is
      linearizable for one map; the clerks on labrpc under their
      tester refine this model, so that the test that records their operations and hands them to the
      checker passes under the same conditions, whatever the network does, and no method of a clerk gets stuck; [KvSrvProps] also has that an
      append takes effect exactly once, that handlers are idempotent, that methods make progress,
      and that two error strings cannot be read back.
    - MapReduce (C10): a finished job has the output of the sequential program, under every
      interleaving and with any crashes, as long as no map task is reported after the map phase, for a reduce function
      that does not depend on the order of the values and a map function that emits UTF-8;
      without the first the job can end without its output or the coordinator panics, and JSON replaces bytes that are not UTF-8
      ([MapReduceProps]); a finished word count counts.  The timing applications count the live workers
      ([MrTiming]).
    - Network and testers (C11-C13, C30-C32, C40): a call is executed at most once and a
      reply that is reported is the handler's; the testers' networks are what they ask for; the
      Raft tester accepts exactly the runs with agreement and order, reports only agreements and finds one that is seen at a look;
      a restarted server gets what its predecessor last persisted; the walk over types terminates
      on cyclic graphs.  Further theorems: a partition cuts off the leader ([TesterProps]), the
      sharded tester works for three servers per group only ([ShardTesterProps]), the waiting
      loops sleep for a bounded time ([RaftAgree]).
    - Sharded store (C38, C39): a clerk talks to the owner of a key only, and returns once the owner
      serves it.
    - Web service (C33-C37): a login is worth an hour, as long as the token store answers its token; after that the token ends the
      process; a second login replaces the token ([UserServiceProps]); a
      refused check protects nothing; the prime validator is right for every 64-bit integer; a time
      is read back from JSON without its location.  Nobody can register ([UserServiceProps]).
    - Commands: diskvd starts its server exactly when its options say so, but a group that is not a number
      counts as group 0 ([OldCommands]).

    ** Interfaces

    [Gob] (in Persister) is what clients rely on of the encoder: decoding what was encoded.
    [Sorter] (in Porcupine) is [sort.Sort] with the order of equivalent elements left free.
    [Replica] (in KvRaft) is what a tester relies on of a server, with instances for the
    replicated store and the shard controller.  [Gin], [Binding], [UserTable], [TokenStore],
    [Jwt] and [Engine] (in UserService) are the framework, the database, the token store, whose commands may fail, and the
    token library, with what their documentation promises as laws; the module [Simple] of
    UserServiceProps has instances.  [JsonStrings] (in UserTime) is JSON on strings.  The theorems are proved against these classes.  [job_ok]
    collects what a MapReduce job needs of its functions and of the directory.

    ** Bounds and fuel

    Loops that are not structural take fuel: the search of the checker ([searchFuel], proved
    enough), the walk of [checkType] (the number of types is enough, C40), the loop of the
    sequential program (the number of pairs), the prime loop (the number itself, C36).  The loops
    of clerks that may go on for ever take a number of rounds, and theorems say after which round
    they return.  Integers are kept at 64 (32) bits where the code could overflow: sequence
    numbers (C4 and C6 assume fewer than 2^63 - 1 events), hash words, network counters, the squares of
    the prime validator.  The terms of Raft are not wrapped: one election takes a term, and 2^63 of them do not happen.  The page computes with exact numbers: times in halves, lengths in
    fractions of a pixel.

    ** What is not modelled

    The style sheet of the page and the browser's text measure, which is an argument; the
    packages of older labs, which are not in the repository; sockets, logging, and the set-up of
    libraries, servers and databases in gintest.  The text of log messages is left out everywhere.
    Random numbers, clocks, map iteration order and process ids are arguments. *)

(** ** Go integers, slices, panics and the lemmas every component shares *)

From stdpp Require Export base tactics option list gmap strings sorting.
From Stdlib Require Export ZArith Lia.

(** ** Notations and automation *)

Declare Scope golang_scope.

(** Hints that close the side goals on slices and lookups. *)
Create HintDb golang.
Create Rewrite HintDb golang.

(** [case_bool]: split on every boolean comparison and [decide] the goal or
    the context branches on, turning the comparison into a proposition. *)
Ltac case_bool_step :=
  match goal with
  | |- context [if decide ?P then _ else _] => destruct (decide P)
  | H : context [if decide ?P then _ else _] |- _ => destruct (decide P)
  | |- context [if ?b then _ else _] => let E := fresh "E" in destruct b eqn:E
  | H : context [if ?b then _ else _] |- _ => let E := fresh "E" in destruct b eqn:E
  end.

Ltac bool_to_prop :=
  repeat match goal with
  | H : andb _ _ = true |- _ => apply andb_true_iff in H; destruct H
  | H : andb _ _ = false |- _ => apply andb_false_iff in H
  | H : orb _ _ = true |- _ => apply orb_true_iff in H
  | H : orb _ _ = false |- _ => apply orb_false_iff in H; destruct H
  | H : negb _ = true |- _ => apply negb_true_iff in H
  | H : negb _ = false |- _ => apply negb_false_iff in H
  | H : Z.eqb _ _ = true |- _ => apply Z.eqb_eq in H
  | H : Z.eqb _ _ = false |- _ => apply Z.eqb_neq in H
  | H : Z.leb _ _ = true |- _ => apply Z.leb_le in H
  | H : Z.leb _ _ = false |- _ => apply Z.leb_gt in H
  | H : Z.ltb _ _ = true |- _ => apply Z.ltb_lt in H
  | H : Z.ltb _ _ = false |- _ => apply Z.ltb_ge in H
  | H : Z.geb _ _ = _ |- _ => rewrite Z.geb_leb in H
  | H : Z.gtb _ _ = _ |- _ => rewrite Z.gtb_ltb in H
  | H : bool_decide _ = true |- _ => apply bool_decide_eq_true in H
  | H : bool_decide _ = false |- _ => apply bool_decide_eq_false in H
  end.

Ltac case_bool := repeat (case_bool_step; bool_to_prop); bool_to_prop.

(** ** Machine integers *)

Section Ints.
Local Open Scope Z_scope.

(** The value of an unsigned [w]-bit Go integer after wrap-around. *)
Definition uwrap (w z : Z) : Z := z mod 2 ^ w.

(** The value of a signed [w]-bit Go integer after wrap-around. *)
Definition swrap (w z : Z) : Z := (z + 2 ^ (w - 1)) mod 2 ^ w - 2 ^ (w - 1).

Definition is_int64 (z : Z) : Prop := - 2 ^ 63 <= z < 2 ^ 63.

Lemma uwrap_small w z : 0 <= z < 2 ^ w -> uwrap w z = z.
Proof. apply Z.mod_small. Qed.

Lemma uwrap_range w z : 0 <= w -> 0 <= uwrap w z < 2 ^ w.
Proof. intros; apply Z.mod_pos_bound; lia. Qed.

Lemma swrap64_small z : is_int64 z -> swrap 64 z = z.
Proof.
  unfold is_int64, swrap. change (64 - 1) with 63. change (2 ^ 64) with (2 * 2 ^ 63).
  intros. rewrite Z.mod_small by lia. lia.
Qed.

Lemma swrap64_range z : is_int64 (swrap 64 z).
Proof.
  unfold is_int64, swrap. change (64 - 1) with 63. change (2 ^ 64) with (2 * 2 ^ 63).
  pose proof (Z.mod_pos_bound (z + 2 ^ 63) (2 * 2 ^ 63) ltac:(lia)). lia.
Qed.
End Ints.

(** ** Slices

    A Go slice is a list.  Reading or cutting it outside its bounds is a panic,
    the value [None]. *)

Section Slices.
Context {A : Type}.
Local Open Scope Z_scope.

(** [len(l)] *)
Definition zlen (l : list A) : Z := Z.of_nat (length l).

(** [l[i]] *)
Definition go_index (l : list A) (i : Z) : option A :=
  if i <? 0 then None else l !! Z.to_nat i.

(** [l[i] = x] *)
Definition go_store (l : list A) (i : Z) (x : A) : option (list A) :=
  if (0 <=? i) && (i <? zlen l) then Some (<[Z.to_nat i := x]> l) else None.

(** [l[:i]] *)
Definition go_take (l : list A) (i : Z) : option (list A) :=
  if (0 <=? i) && (i <=? zlen l) then Some (take (Z.to_nat i) l) else None.

(** [l[i:]] *)
Definition go_drop (l : list A) (i : Z) : option (list A) :=
  if (0 <=? i) && (i <=? zlen l) then Some (drop (Z.to_nat i) l) else None.

Lemma zlen_nonneg (l : list A) : 0 <= zlen l.
Proof. unfold zlen. lia. Qed.

Lemma zlen_app (l k : list A) : zlen (l ++ k) = zlen l + zlen k.
Proof. unfold zlen. rewrite length_app. lia. Qed.

Lemma zlen_insert (l : list A) i x : zlen (<[i:=x]> l) = zlen l.
Proof. unfold zlen. by rewrite length_insert. Qed.

Lemma go_index_Some (l : list A) i x :
  go_index l i = Some x <-> 0 <= i < zlen l /\ l !! Z.to_nat i = Some x.
Proof.
  unfold go_index, zlen. case_bool; split; intros H.
  - done.
  - lia.
  - split; [|done]. apply lookup_lt_Some in H. lia.
  - tauto.
Qed.

Lemma go_index_in_range (l : list A) i :
  0 <= i < zlen l -> exists x, go_index l i = Some x.
Proof.
  intros Hi. unfold zlen in Hi.
  destruct (lookup_lt_is_Some_2 l (Z.to_nat i)) as [x Hx]; [lia|].
  exists x. apply go_index_Some. unfold zlen. auto.
Qed.

Lemma go_store_in_range (l : list A) i x :
  0 <= i < zlen l -> go_store l i x = Some (<[Z.to_nat i := x]> l).
Proof. intros. unfold go_store. case_bool; [done|lia]. Qed.

Lemma go_store_Some (l l' : list A) i x :
  go_store l i x = Some l' -> 0 <= i < zlen l /\ l' = <[Z.to_nat i := x]> l.
Proof. unfold go_store. case_bool; intros; simplify_eq; split; [lia|done]. Qed.

Lemma go_take_in_range (l : list A) i :
  0 <= i <= zlen l -> go_take l i = Some (take (Z.to_nat i) l).
Proof. intros. unfold go_take. case_bool; [done|lia]. Qed.

Lemma go_drop_in_range (l : list A) i :
  0 <= i <= zlen l -> go_drop l i = Some (drop (Z.to_nat i) l).
Proof. intros. unfold go_drop. case_bool; [done|lia]. Qed.

Lemma go_take_Some (l k : list A) i :
  go_take l i = Some k -> 0 <= i <= zlen l /\ k = take (Z.to_nat i) l.
Proof. unfold go_take. case_bool; intros; simplify_eq; split; [lia|done]. Qed.

Lemma go_drop_Some (l k : list A) i :
  go_drop l i = Some k -> 0 <= i <= zlen l /\ k = drop (Z.to_nat i) l.
Proof. unfold go_drop. case_bool; intros; simplify_eq; split; [lia|done]. Qed.
End Slices.

Notation "l .[ i ]" := (go_index l i) (at level 1, format "l .[ i ]") : golang_scope.

#[export] Hint Resolve zlen_nonneg : golang.
#[export] Hint Rewrite @zlen_app @zlen_insert : golang.

(** ** The largest element *)

Lemma foldl_max_le (m : Z) (l : list Z) x : (x <= m \/ x ∈ l)%Z -> (x <= foldl Z.max m l)%Z.
Proof.
  revert m. induction l as [|a l IH]; intros m Hx; cbn; [by destruct Hx as [|?%not_elem_of_nil]|]. apply IH.
  destruct Hx as [|[->|?]%elem_of_cons]; [left; lia|left; lia|by right].
Qed.

Lemma foldl_max_in (m : Z) (l : list Z) : foldl Z.max m l = m \/ foldl Z.max m l ∈ l.
Proof.
  revert m. induction l as [|a l IH]; intros m; cbn; [by left|]. rewrite elem_of_cons. destruct (IH (Z.max m a)) as [->|]; [|tauto].
  destruct (Z.max_spec m a) as [[_ ->]|[_ ->]]; tauto.
Qed.

Lemma length_le_1 {A} (l : list A) : NoDup l -> (forall x y, x ∈ l -> y ∈ l -> x = y) -> (length l <= 1)%nat.
Proof.
  destruct l as [|x [|y l]]; intros Hnd Heq; cbn; [lia..|]. exfalso. apply NoDup_cons in Hnd as [Hnin _]. apply Hnin.
  rewrite (Heq x y); [by left|by left|right; by left].
Qed.

(** ** Counting and quorums *)

Section Quorum.
(** Two duplicate-free sets of peers below [n], together larger than [n],
    share a peer. *)
Lemma quorum_intersection (n : nat) (q1 q2 : list nat) :
  NoDup q1 -> NoDup q2 ->
  Forall (fun i => i < n) q1 -> Forall (fun i => i < n) q2 ->
  n < length q1 + length q2 ->
  exists i, i ∈ q1 /\ i ∈ q2.
Proof.
  intros Hd1 Hd2 Hb1 Hb2 Hlen.
  destruct (decide (Exists (fun i => i ∈ q2) q1)) as [He|He].
  { apply Exists_exists in He. naive_solver. }
  exfalso. rewrite <- Forall_Exists_neg in He. rewrite Forall_forall in He.
  assert (Hd : NoDup (q1 ++ q2)) by (apply NoDup_app; naive_solver).
  assert (Hs : q1 ++ q2 ⊆+ seq 0 n).
  { apply NoDup_submseteq; [done|]. intros x Hx. apply elem_of_seq.
    rewrite Forall_forall in Hb1, Hb2.
    apply elem_of_app in Hx as [Hx|Hx]; [apply Hb1 in Hx|apply Hb2 in Hx]; lia. }
  apply submseteq_length in Hs. rewrite length_app, length_seq in Hs. lia.
Qed.
End Quorum.

(** ** Lists that change in one place *)

Section OnePlace.
Context {A B : Type} (P : A -> Prop) `{!forall x, Decision (P x)} (f : A -> B).

Lemma split_at (l : list A) k x :
  l !! k = Some x -> exists l1 l2, l = l1 ++ x :: l2 /\ length l1 = k.
Proof.
  intros Hk. exists (take k l), (drop (S k) l). rewrite take_drop_middle by done.
  split; [done|]. apply lookup_lt_Some in Hk. rewrite length_take. lia.
Qed.

Lemma filter_insert_keep (l : list A) k x y :
  l !! k = Some x -> (P x <-> P y) -> f x = f y ->
  f <$> filter P (<[k:=y]> l) = f <$> filter P l.
Proof.
  intros (l1 & l2 & -> & <-)%split_at Hp Hf.
  rewrite insert_app_r_alt, Nat.sub_diag by lia. cbn.
  rewrite !filter_app, !fmap_app, !filter_cons. f_equal.
  repeat case_decide; try tauto. cbn. by rewrite Hf.
Qed.

Lemma filter_insert_add (l : list A) k x y :
  l !! k = Some x -> ~ P x -> P y ->
  f <$> filter P (<[k:=y]> l) ≡ₚ f y :: (f <$> filter P l).
Proof.
  intros (l1 & l2 & -> & <-)%split_at Hx Hy.
  rewrite insert_app_r_alt, Nat.sub_diag by lia. cbn.
  rewrite !filter_app, !fmap_app, !filter_cons.
  repeat case_decide; try tauto. cbn. by rewrite Permutation_middle.
Qed.

Lemma filter_delete_sublist (l : list A) k :
  f <$> filter P (delete k l) `sublist_of` f <$> filter P l.
Proof.
  apply fmap_sublist. revert k. induction l as [|x l IH]; intros [|k]; cbn [delete list_delete]; try done.
  - rewrite filter_cons. case_decide; [by apply sublist_cons|done].
  - rewrite !filter_cons. case_decide; [by apply sublist_skip|done].
Qed.

Lemma filter_delete_one (l : list A) k x :
  l !! k = Some x -> P x -> f <$> filter P l ≡ₚ f x :: (f <$> filter P (delete k l)).
Proof.
  intros (l1 & l2 & -> & <-)%split_at Hx. rewrite delete_middle.
  rewrite !filter_app, !fmap_app, !filter_cons. case_decide; [|done]. cbn.
  by rewrite Permutation_middle.
Qed.
End OnePlace.

(** ** Splitting and filtering lists *)

(** Two ways to split a list at an element that occurs once are the same. *)
Lemma split_unique {A} (x : A) (l1 l2 k1 k2 : list A) :
  NoDup (l1 ++ x :: l2) -> l1 ++ x :: l2 = k1 ++ x :: k2 -> l1 = k1 /\ l2 = k2.
Proof.
  revert k1. induction l1 as [|y l1 IH]; intros k1 Hnd Heq.
  - destruct k1 as [|z k1]; [by simplify_eq/=|]. simplify_eq/=. exfalso.
    apply NoDup_cons in Hnd as [Hx _]. apply Hx. set_solver.
  - destruct k1 as [|z k1]; simplify_eq/=.
    + exfalso. apply NoDup_cons in Hnd as [Hx _]. apply Hx. set_solver.
    + apply NoDup_cons in Hnd as [_ Hnd]. by destruct (IH k1 Hnd) as [-> ->].
Qed.

Lemma filter_all {A} (P : A -> Prop) `{!forall x, Decision (P x)} (l : list A) :
  (forall x, x ∈ l -> P x) -> filter P l = l.
Proof.
  induction l as [|x l IH]; intros Hall; [done|]. rewrite filter_cons_True by (apply Hall; by left).
  f_equal. apply IH. intros y Hy. apply Hall. by right.
Qed.

Lemma filter_all_not {A} (P : A -> Prop) `{!forall x, Decision (P x)} (l : list A) :
  (forall x, x ∈ l -> ~ P x) -> filter P l = [].
Proof.
  intros Hn. induction l as [|x l IH]; [done|]. rewrite filter_cons_False; [|apply Hn; by left].
  apply IH. intros y Hy. apply Hn. by right.
Qed.

(** Elements of a sorted list are related in the order of their positions. *)
Lemma StronglySorted_lookup {A} (R : relation A) (l : list A) p q x y :
  StronglySorted R l -> l !! p = Some x -> l !! q = Some y -> (p < q)%nat -> R x y.
Proof.
  intros Hs Hp Hq Hlt. rewrite <- (take_drop q l) in Hs.
  eapply StronglySorted_app_1_elem_of; [done|apply list_elem_of_lookup..].
  - exists p. by rewrite lookup_take_lt.
  - exists 0%nat. by rewrite lookup_drop, Nat.add_0_r.
Qed.

(** ** Strings *)

(** [sort.Strings]: Go compares strings byte by byte. *)
Definition sortStrings (keys : list string) : list string := merge_sort String.le keys.

Lemma sortStrings_perm keys : sortStrings keys ≡ₚ keys.
Proof. apply merge_sort_Permutation. Qed.

Lemma sortStrings_sorted keys : StronglySorted String.le (sortStrings keys).
Proof. apply StronglySorted_merge_sort; apply _. Qed.

(** A sorted list of strings is determined by its elements. *)
Lemma sortStrings_unique l keys : StronglySorted String.le l -> l ≡ₚ keys -> l = sortStrings keys.
Proof.
  intros Hs Hp. apply (StronglySorted_unique String.le); [done|apply sortStrings_sorted|].
  by rewrite sortStrings_perm.
Qed.

Lemma sortStrings_filter (P : string -> Prop) `{!forall x, Decision (P x)} keys :
  filter P (sortStrings keys) = sortStrings (filter P keys).
Proof.
  apply sortStrings_unique; [|by rewrite sortStrings_perm].
  pose proof (sortStrings_sorted keys) as Hs. induction Hs as [|x l Hs IH Hx]; [constructor|].
  destruct (decide (P x)); [rewrite filter_cons_True by done|by rewrite filter_cons_False].
  constructor; [done|]. rewrite Forall_forall in Hx |- *. intros y [_ Hy]%list_elem_of_filter. by apply Hx.
Qed.

Lemma sortStrings_eq keys keys' : keys ≡ₚ keys' -> sortStrings keys = sortStrings keys'.
Proof. intros Hp. apply sortStrings_unique; [apply sortStrings_sorted|by rewrite sortStrings_perm]. Qed.

(** A defined option is its value. *)
Lemma some_default {A} (d : A) (x : option A) : bool_decide (is_Some x) = true -> x = Some (default d x).
Proof. rewrite bool_decide_eq_true. by intros [y ->]. Qed.
