(* ===== verification/Persister.v ===== *)
(** * Persister: stable storage and the gob stream it holds

    [Persister] models src/6.5840-golabs-2024/src/raft/persister.go.  The class
    [Gob] is what a client of labgob relies on: a value written by [Encode] is
    read back by [Decode], leaving the bytes that follow it.  Raft's theorems are
    proved against the class; the instances below discharge it for integers,
    pairs and lists. *)

From S2P Require Import Prelude.
Local Open Scope Z_scope.

(** ** The encoder and decoder as an interface *)

Class Gob (byte T : Type) := {
  gob_encode : T -> list byte;
  gob_decode : list byte -> option (T * list byte);
  gob_nonempty : forall x, gob_encode x <> [];
  gob_decode_encode : forall x rest, gob_decode (gob_encode x ++ rest) = Some (x, rest)
}.

(** A stream of integers: one word per integer. *)
#[export] Program Instance gob_Z : Gob Z Z := {|
  gob_encode z := [z];
  gob_decode bs := match bs with [] => None | z :: rest => Some (z, rest) end
|}.
Next Obligation. done. Qed.
Next Obligation. done. Qed.

Section Composite.
Context {byte T U : Type} `{!Gob byte T} `{!Gob byte U}.

#[export] Program Instance gob_prod : Gob byte (T * U) := {|
  gob_encode '(x, y) := gob_encode x ++ gob_encode y;
  gob_decode bs := '(x, rest) ← gob_decode bs; '(y, rest') ← gob_decode rest; Some (x, y, rest')
|}.
Next Obligation.
  intros [x y] H. apply app_eq_nil in H as [H _]. by apply gob_nonempty in H.
Qed.
Next Obligation.
  intros [x y] rest. cbn. rewrite <- app_assoc, gob_decode_encode. cbn.
  by rewrite gob_decode_encode.
Qed.

(** The [n] values that follow in the stream. *)
Fixpoint decode_many (n : nat) (bs : list byte) : option (list T * list byte) :=
  match n with
  | O => Some ([], bs)
  | S n => '(x, rest) ← gob_decode bs; '(l, rest') ← decode_many n rest; Some (x :: l, rest')
  end.

Lemma decode_many_encode (l : list T) rest :
  decode_many (length l) (concat (gob_encode <$> l) ++ rest) = Some (l, rest).
Proof.
  induction l as [|x l IH]; [done|]. cbn.
  rewrite <- app_assoc, gob_decode_encode. cbn. by rewrite IH.
Qed.
End Composite.

(** A list is its length followed by its elements. *)
#[export] Program Instance gob_list {T} `{!Gob Z T} : Gob Z (list T) := {|
  gob_encode l := zlen l :: concat (gob_encode <$> l);
  gob_decode bs := match bs with [] => None | n :: rest => decode_many (Z.to_nat n) rest end
|}.
Next Obligation. done. Qed.
Next Obligation. intros T ? l rest. cbn. unfold zlen. by rewrite Nat2Z.id, decode_many_encode. Qed.

(** ** The persister *)

Section Persister.
Context {byte : Type}.

Record Persister := mkPersister {
  raftstate : list byte;
  snapshot : list byte
}.

Definition MakePersister : Persister := mkPersister [] [].

(** [make] then [copy]: a zero-filled slice overwritten element by element. *)
Definition clone (orig : list byte) : list byte := take (length orig) orig.

Definition Copy (ps : Persister) : Persister := mkPersister (raftstate ps) (snapshot ps).

Definition ReadRaftState (ps : Persister) : list byte := clone (raftstate ps).

Definition RaftStateSize (ps : Persister) : Z := zlen (raftstate ps).

Definition Save (rs snap : list byte) (ps : Persister) : Persister :=
  mkPersister (clone rs) (clone snap).

Definition ReadSnapshot (ps : Persister) : list byte := clone (snapshot ps).

Definition SnapshotSize (ps : Persister) : Z := zlen (snapshot ps).

Lemma clone_id (l : list byte) : clone l = l.
Proof. apply take_ge. lia. Qed.

Lemma ReadRaftState_Save rs snap ps : ReadRaftState (Save rs snap ps) = rs.
Proof. transitivity (clone (clone rs)); [done|]. by rewrite !clone_id. Qed.

Lemma Copy_id ps : Copy ps = ps.
Proof. by destruct ps. Qed.

Lemma ReadRaftState_Copy ps : ReadRaftState (Copy ps) = ReadRaftState ps.
Proof. done. Qed.
End Persister.
Arguments Persister : clear implicits.
#[export] Hint Rewrite @clone_id @ReadRaftState_Save : golang.
