(* ===== verification/Raft.v ===== *)
(** * Raft: one peer (src/6.5840-golabs-2024/src/raft/raft.go and rpc.go)

    A peer is the record [Raft].  Every method is a function on it; a method that
    indexes or cuts a slice returns [None] where Go panics.  A statement [go f()]
    pushes [f] on [spawned], the peer's pool of goroutines that have not run yet;
    RaftNet runs them in any order.  Code between [mu.Lock()] and [mu.Unlock()] is
    one function.  The wall clock and [rand.Int63()] are arguments. *)

From S2P Require Import Prelude Persister.
Local Open Scope Z_scope.

(** ** Data *)

Inductive NodeType := Leader | Candidate | Follower.
#[export] Instance NodeType_eq_dec : EqDecision NodeType.
Proof. solve_decision. Defined.

Record LogEntries {C : Type} := mkEntry { le_Term : Z; le_Command : C }.
Arguments LogEntries : clear implicits.
Arguments mkEntry {C}.

#[export] Program Instance gob_entry {byte C} `{!Gob byte (Z * C)} : Gob byte (LogEntries C) := {|
  gob_encode e := gob_encode (le_Term e, le_Command e);
  gob_decode bs :=
    match gob_decode (T:=Z * C) bs with
    | Some ((t, c), rest) => Some (mkEntry t c, rest)
    | None => None
    end
|}.
Next Obligation. intros byte C ? x. apply gob_nonempty. Qed.
Next Obligation. intros byte C ? [t c] rest. cbn. by rewrite gob_decode_encode. Qed.

Record LeaderState := mkLeaderState { nextIndex : list Z; matchIndex : list Z }.

Record State {C : Type} := mkState {
  currentTerm : Z;
  votedFor : Z;
  log : list (LogEntries C);
  committedIndex : Z;
  lastApplied : Z;
  leaderState : LeaderState
}.
Arguments State : clear implicits.
Arguments mkState {C}.

Record RequestVoteArgs := mkRequestVoteArgs {
  rv_Term : Z;
  rv_CandidateId : Z;
  rv_LastLogIndex : Z;
  rv_LastLogTerm : Z
}.

Record RequestVoteReply := mkRequestVoteReply { rvr_Term : Z; rvr_VoteGranted : bool }.

(** [ae_Entries]: [None] is Go's nil slice, which the leader tells from an empty one. *)
Record AppendEntriesArgs {C : Type} := mkAppendEntriesArgs {
  ae_Term : Z;
  ae_LeaderId : Z;
  ae_PrevLogIndex : Z;
  ae_PrevLogTerm : Z;
  ae_Entries : option (list (LogEntries C));
  ae_LeaderCommit : Z
}.
Arguments AppendEntriesArgs : clear implicits.
Arguments mkAppendEntriesArgs {C}.

Record AppendEntriesReply := mkAppendEntriesReply {
  aer_Term : Z;
  aer_Success : bool;
  aer_ConflictTerm : Z;
  aer_ConflictIndex : Z
}.

Record ApplyMsg {C : Type} := mkApplyMsg {
  CommandValid : bool;
  Command : C;
  CommandIndex : Z
}.
Arguments ApplyMsg : clear implicits.
Arguments mkApplyMsg {C}.

(** The goroutines a peer starts.  [GVote i e] is the closure of
    [CandidateRequestVote] for peer [i]; [e] names the variables it shares with
    the other closures of the same election ([args] and [voteCounts]). *)
Inductive Goroutine :=
| GResetTimer
| GHeartbeat
| GReplicate (isHeartbeat : bool)
| GAppend (server : nat) (isHeartbeat : bool)
| GVote (server : nat) (e : nat).

Record Raft {C byte : Type} := mkRaft {
  peers : nat;                                   (* len(rf.peers) *)
  persister : Persister byte;
  me : nat;
  dead : Z;
  whoami : NodeType;
  Stat : State C;
  lastElectionTime : Z;
  electionTimeout : Z;
  spawned : list Goroutine;                      (* goroutines not yet run *)
  elections : list (RequestVoteArgs * Z)         (* args and voteCounts of each election *)
}.
Arguments Raft : clear implicits.
Arguments mkRaft {C byte}.

(** ** Field updates *)

Section Updates.
Context {C byte : Type}.
Implicit Types (rf : Raft C byte) (st : State C).

Definition set_Stat f rf : Raft C byte :=
  mkRaft (peers rf) (persister rf) (me rf) (dead rf) (whoami rf) (f (Stat rf))
    (lastElectionTime rf) (electionTimeout rf) (spawned rf) (elections rf).
Definition set_whoami x rf : Raft C byte :=
  mkRaft (peers rf) (persister rf) (me rf) (dead rf) x (Stat rf)
    (lastElectionTime rf) (electionTimeout rf) (spawned rf) (elections rf).
Definition set_persister x rf : Raft C byte :=
  mkRaft (peers rf) x (me rf) (dead rf) (whoami rf) (Stat rf)
    (lastElectionTime rf) (electionTimeout rf) (spawned rf) (elections rf).
Definition set_dead x rf : Raft C byte :=
  mkRaft (peers rf) (persister rf) (me rf) x (whoami rf) (Stat rf)
    (lastElectionTime rf) (electionTimeout rf) (spawned rf) (elections rf).
Definition set_timer t d rf : Raft C byte :=
  mkRaft (peers rf) (persister rf) (me rf) (dead rf) (whoami rf) (Stat rf)
    t d (spawned rf) (elections rf).
Definition set_spawned x rf : Raft C byte :=
  mkRaft (peers rf) (persister rf) (me rf) (dead rf) (whoami rf) (Stat rf)
    (lastElectionTime rf) (electionTimeout rf) x (elections rf).
Definition set_elections x rf : Raft C byte :=
  mkRaft (peers rf) (persister rf) (me rf) (dead rf) (whoami rf) (Stat rf)
    (lastElectionTime rf) (electionTimeout rf) (spawned rf) x.

Definition set_currentTerm x st : State C :=
  mkState x (votedFor st) (log st) (committedIndex st) (lastApplied st) (leaderState st).
Definition set_votedFor x st : State C :=
  mkState (currentTerm st) x (log st) (committedIndex st) (lastApplied st) (leaderState st).
Definition set_log x st : State C :=
  mkState (currentTerm st) (votedFor st) x (committedIndex st) (lastApplied st) (leaderState st).
Definition set_committedIndex x st : State C :=
  mkState (currentTerm st) (votedFor st) (log st) x (lastApplied st) (leaderState st).
Definition set_lastApplied x st : State C :=
  mkState (currentTerm st) (votedFor st) (log st) (committedIndex st) x (leaderState st).
Definition set_leaderState x st : State C :=
  mkState (currentTerm st) (votedFor st) (log st) (committedIndex st) (lastApplied st) x.

(** [go g] *)
Definition spawn (g : Goroutine) rf : Raft C byte := set_spawned (spawned rf ++ [g]) rf.
End Updates.

(** ** The methods of a peer *)

Section Peer.
Context {C byte : Type} `{!Gob byte Z} `{!Gob byte (list (LogEntries C))}.
(** The integer 0 as a command: entry 0 of a fresh log is [LogEntries{0, 0}]. *)
Context (zero_cmd : C).
Implicit Types (rf : Raft C byte).

(** [GetState] when nothing runs between its two reads. *)
Definition GetState rf : Z * bool :=
  (currentTerm (Stat rf), bool_decide (whoami rf = Leader)).

(** [GetState] takes no lock: it reads the term in the state [rf] and the role in a later state [rf']. *)
Definition GetState_reads rf rf' : Z * bool :=
  (currentTerm (Stat rf), bool_decide (whoami rf' = Leader)).

Definition persist rf : Raft C byte :=
  let nodeStat := gob_encode (currentTerm (Stat rf)) ++ gob_encode (votedFor (Stat rf))
                  ++ gob_encode (log (Stat rf)) in
  set_persister (Save nodeStat [] (persister rf)) rf.

(** The three [Decode] calls of [readPersist]: the first failure stops the
    reading, and the variables not yet read keep Go's zero values. *)
Definition decodeState (data : list byte) : Z * Z * list (LogEntries C) :=
  match gob_decode data with
  | None => (0, 0, [])
  | Some (term, r1) =>
      match gob_decode r1 with
      | None => (term, 0, [])
      | Some (vote, r2) =>
          match gob_decode r2 with
          | None => (term, vote, [])
          | Some (lg, _) => (term, vote, lg)
          end
      end
  end.

Definition readPersist (data : list byte) rf : Raft C byte :=
  if zlen data <? 1 then rf
  else let '(term, vote, lg) := decodeState data in
       set_Stat (fun st => set_log lg (set_votedFor vote (set_currentTerm term st))) rf.

(** [Snapshot] has an empty body. *)
Definition Snapshot (index : Z) (snap : list byte) rf : Raft C byte := rf.

Definition getLastLogIndex rf : Z :=
  if zlen (log (Stat rf)) =? 0 then 0 else zlen (log (Stat rf)) - 1.

(** [rf.Stat.log[index].Term] after the range test, so the access cannot panic. *)
Definition getLogTerm rf (index : Z) : Z :=
  if (index =? -1) || (index <? 0) || (index >=? zlen (log (Stat rf))) then 0
  else match go_index (log (Stat rf)) index with Some e => le_Term e | None => 0 end.

Definition getRandResetElectionTime (r : Z) : Z := 300 + r mod 150.

Definition resetElectionTimer (now r : Z) rf : Raft C byte :=
  set_timer now (getRandResetElectionTime r) rf.

Definition isElectionTimeout (now : Z) rf : bool :=
  now - lastElectionTime rf >? electionTimeout rf.

Definition Kill rf : Raft C byte := set_dead 1 rf.
Definition killed rf : bool := dead rf =? 1.

Definition convertToFollower (term : Z) rf : Raft C byte :=
  let rf := set_Stat (set_currentTerm term) rf in
  let rf := set_whoami Follower rf in
  let rf := set_Stat (set_votedFor (-1)) rf in
  let rf := persist rf in
  spawn GResetTimer rf.

(** The loop over [rf.peers] stores [len(log)+1] and [0] at every index; the two
    slices have the length of [rf.peers] from [Make] on. *)
Definition convertToLeader rf : Raft C byte :=
  let rf := set_whoami Leader rf in
  let n := zlen (log (Stat rf)) + 1 in
  let rf := set_Stat (set_leaderState (mkLeaderState (replicate (peers rf) n)
                                                      (replicate (peers rf) 0))) rf in
  spawn GHeartbeat rf.

(** *** Elections *)

(** The peers other than [rf.me], in the order of [range rf.peers]. *)
Definition others rf : list nat := filter (fun i => i <> me rf) (seq 0 (peers rf)).

Definition CandidateRequestVote rf : Raft C byte :=
  let lastLogIndex := getLastLogIndex rf in
  let args := mkRequestVoteArgs (currentTerm (Stat rf)) (Z.of_nat (me rf)) lastLogIndex
                                (getLogTerm rf lastLogIndex) in
  let e := length (elections rf) in
  let rf := set_elections (elections rf ++ [(args, 1)]) rf in
  set_spawned (spawned rf ++ ((fun i => GVote i e) <$> others rf)) rf.

Definition StartElection (now r : Z) rf : Raft C byte :=
  let rf := set_Stat (set_votedFor (Z.of_nat (me rf))) rf in
  let rf := set_whoami Candidate rf in
  let rf := set_Stat (fun st => set_currentTerm (currentTerm st + 1) st) rf in
  let rf := persist rf in
  let rf := resetElectionTimer now r rf in
  CandidateRequestVote rf.

(** One iteration of [ticker]'s loop. *)
Definition ticker (now r : Z) rf : Raft C byte :=
  if killed rf then rf
  else if bool_decide (whoami rf <> Leader) && isElectionTimeout now rf
  then StartElection now r rf else rf.

(** What the closure of [CandidateRequestVote] does with the reply to the call of
    election [e]; [args] and [voteCounts] are the closure's variables. *)
Definition handleVoteReply (e : nat) (reply : RequestVoteReply) rf : Raft C byte :=
  match elections rf !! e with
  | None => rf
  | Some (args, voteCounts) =>
      if (rv_Term args =? currentTerm (Stat rf)) && bool_decide (whoami rf = Candidate) then
        if rvr_Term reply >? currentTerm (Stat rf) then convertToFollower (rvr_Term reply) rf
        else if rvr_VoteGranted reply then
          let voteCounts := voteCounts + 1 in
          let rf := set_elections (<[e := (args, voteCounts)]> (elections rf)) rf in
          if voteCounts >? Z.of_nat (peers rf) / 2 then convertToLeader rf else rf
        else rf
      else rf
  end.

Definition RequestVote (now r : Z) (args : RequestVoteArgs) rf : Raft C byte * RequestVoteReply :=
  let term0 := currentTerm (Stat rf) in
  if rv_Term args <? term0 then (rf, mkRequestVoteReply term0 false)
  else
    let rf := if rv_Term args >? currentTerm (Stat rf)
              then convertToFollower (rv_Term args) rf else rf in
    let lastLogIndex := getLastLogIndex rf in
    let lastLogTerm := getLogTerm rf lastLogIndex in
    let candidateIsUpToDate :=
      (rv_LastLogTerm args >? lastLogTerm)
      || ((rv_LastLogTerm args =? lastLogTerm) && (rv_LastLogIndex args >=? lastLogIndex)) in
    let canVote := (votedFor (Stat rf) =? -1) || (votedFor (Stat rf) =? rv_CandidateId args) in
    if canVote && candidateIsUpToDate then
      let rf := set_Stat (set_votedFor (rv_CandidateId args)) rf in
      let rf := persist rf in
      (resetElectionTimer now r rf, mkRequestVoteReply term0 true)
    else (rf, mkRequestVoteReply term0 false).

(** *** Replication *)

(** The search for the first index of the conflicting term:
    [for i := PrevLogIndex-1; i >= 0; i--]; [fuel] is the number of iterations left,
    [PrevLogIndex] at the start. *)
Fixpoint firstOfTerm rf (conflictTerm : Z) (fuel : nat) (i conflictIndex : Z) : Z :=
  match fuel with
  | O => conflictIndex
  | S fuel =>
      if i <? 0 then conflictIndex
      else if negb (conflictTerm =? getLogTerm rf i) then conflictIndex
      else firstOfTerm rf conflictTerm fuel (i - 1) i
  end.

(** The loop over [args.Entries]: the offset of the first entry whose term differs
    from the log's, looking only below [getLastLogIndex()]; -1 if there is none.
    The outer [None] is the panic of [rf.Stat.log[currentIndex]]. *)
Fixpoint findConflict rf (newEntriesStart i : Z) (entries : list (LogEntries C)) : option Z :=
  match entries with
  | [] => Some (-1)
  | entry :: rest =>
      let currentIndex := newEntriesStart + i in
      if currentIndex >=? getLastLogIndex rf then Some (-1)
      else
        old ← go_index (log (Stat rf)) currentIndex;
        if negb (le_Term old =? le_Term entry) then Some i
        else findConflict rf newEntriesStart (i + 1) rest
  end.

Definition entriesOf (args : AppendEntriesArgs C) : list (LogEntries C) :=
  default [] (ae_Entries args).

(** The truncation and the two [append]s. *)
Definition appendLog (args : AppendEntriesArgs C) rf : option (list (LogEntries C)) :=
  let newEntriesStart := ae_PrevLogIndex args + 1 in
  conflictIndex ← findConflict rf newEntriesStart 0 (entriesOf args);
  lg ← (if conflictIndex =? -1 then Some (log (Stat rf))
        else go_take (log (Stat rf)) (newEntriesStart + conflictIndex));
  if negb (conflictIndex =? -1) && (zlen lg >? 0)
  then Some (lg ++ entriesOf args)
  else kept ← go_take lg (ae_PrevLogIndex args + 1); Some (kept ++ entriesOf args).

Definition AppendEntries (now r : Z) (args : AppendEntriesArgs C) rf
    : option (Raft C byte * AppendEntriesReply) :=
  let term0 := currentTerm (Stat rf) in
  if ae_Term args <? term0 then Some (rf, mkAppendEntriesReply term0 false 0 0)
  else
    let rf := resetElectionTimer now r rf in
    let rf := if ae_Term args >? currentTerm (Stat rf)
              then convertToFollower (ae_Term args) rf else rf in
    if ae_PrevLogIndex args >? getLastLogIndex rf then
      Some (rf, mkAppendEntriesReply term0 false (-1) (zlen (log (Stat rf))))
    else if negb (ae_PrevLogTerm args =? getLogTerm rf (ae_PrevLogIndex args)) then
      let conflictTerm := getLogTerm rf (ae_PrevLogIndex args) in
      let conflictIndex := firstOfTerm rf conflictTerm (Z.to_nat (ae_PrevLogIndex args))
                             (ae_PrevLogIndex args - 1) (ae_PrevLogIndex args) in
      Some (rf, mkAppendEntriesReply term0 false conflictTerm conflictIndex)
    else
      lg ← appendLog args rf;
      let rf := persist (set_Stat (set_log lg) rf) in
      let rf := if ae_LeaderCommit args >? committedIndex (Stat rf)
                then set_Stat (set_committedIndex
                                 (Z.min (ae_LeaderCommit args) (zlen (log (Stat rf)) - 1))) rf
                else rf in
      Some (rf, mkAppendEntriesReply term0 true 0 0).

(** The count of [checkAndCommitLogs]: 1 for the leader and 1 for each other peer
    whose [matchIndex] reaches [n]. *)
Fixpoint countMatches (mi : list Z) (self peer : nat) (n : Z) : Z :=
  match mi with
  | [] => 0
  | m :: rest =>
      (if negb (Nat.eqb peer self) && (m >=? n) then 1 else 0) + countMatches rest self (S peer) n
  end.

(** [for n := getLastLogIndex(); n > committedIndex; n--]; [fuel] bounds the
    iterations and starts at the length of the log. *)
Fixpoint commitScan rf (majority : Z) (fuel : nat) (n : Z) : option (Raft C byte) :=
  match fuel with
  | O => Some rf
  | S fuel =>
      if n <=? committedIndex (Stat rf) then Some rf
      else
        e ← go_index (log (Stat rf)) n;
        if negb (le_Term e =? currentTerm (Stat rf)) then commitScan rf majority fuel (n - 1)
        else
          let count := 1 + countMatches (take (peers rf) (matchIndex (leaderState (Stat rf))))
                             (me rf) 0 n in
          if count >=? majority then Some (set_Stat (set_committedIndex n) rf)
          else commitScan rf majority fuel (n - 1)
  end.

Definition checkAndCommitLogs rf : option (Raft C byte) :=
  let majority := Z.of_nat (peers rf) / 2 + 1 in
  commitScan rf majority (S (length (log (Stat rf)))) (getLastLogIndex rf).

(** The first half of [processAppendEntriesReply]: the arguments built under the lock. *)
Definition makeAppendEntriesArgs (server : nat) (isHeartbeat : bool) rf
    : option (AppendEntriesArgs C) :=
  next ← go_index (nextIndex (leaderState (Stat rf))) (Z.of_nat server);
  let prevLogIndex := next - 1 in
  let prevLogTerm := getLogTerm rf prevLogIndex in
  entries ← (if next <? zlen (log (Stat rf)) then Some <$> go_drop (log (Stat rf)) next
             else if isHeartbeat then Some None else Some (Some []));
  Some (mkAppendEntriesArgs (currentTerm (Stat rf)) (Z.of_nat (me rf)) prevLogIndex prevLogTerm
          entries (committedIndex (Stat rf))).

(** The last index of the log whose term is [t]: [for i := len(log)-1; i >= 0; i--]. *)
Fixpoint lastOfTerm (lg : list (LogEntries C)) (t : Z) (i : Z) : Z :=
  match lg with
  | [] => -1
  | e :: rest =>
      let later := lastOfTerm rest t (i + 1) in
      if negb (later =? -1) then later else if t =? le_Term e then i else -1
  end.

Definition set_nextIndex (server : nat) (x : Z) rf : option (Raft C byte) :=
  ni ← go_store (nextIndex (leaderState (Stat rf))) (Z.of_nat server) x;
  Some (set_Stat (fun st => set_leaderState (mkLeaderState ni (matchIndex (leaderState st))) st) rf).

Definition set_matchIndex (server : nat) (x : Z) rf : option (Raft C byte) :=
  mi ← go_store (matchIndex (leaderState (Stat rf))) (Z.of_nat server) x;
  Some (set_Stat (fun st => set_leaderState (mkLeaderState (nextIndex (leaderState st)) mi) st) rf).

(** The second half of [processAppendEntriesReply]: the reply handled under the lock. *)
Definition handleAppendReply (server : nat) (args : AppendEntriesArgs C)
    (reply : AppendEntriesReply) rf : option (Raft C byte) :=
  if negb (ae_Term args =? currentTerm (Stat rf)) || bool_decide (whoami rf <> Leader) then
    if aer_Term reply >? currentTerm (Stat rf)
    then Some (convertToFollower (aer_Term reply) rf) else Some rf
  else if negb (aer_Success reply) then
    if aer_ConflictTerm reply =? -1 then set_nextIndex server (aer_ConflictIndex reply) rf
    else
      let lastConflictIndexInTerm := lastOfTerm (log (Stat rf)) (aer_ConflictTerm reply) 0 in
      if negb (lastConflictIndexInTerm =? -1)
      then set_nextIndex server (lastConflictIndexInTerm + 1) rf
      else set_nextIndex server (aer_ConflictIndex reply) rf
  else
    match ae_Entries args with
    | None => Some rf
    | Some entries =>
        rf ← set_matchIndex server (ae_PrevLogIndex args + zlen entries) rf;
        matched ← go_index (matchIndex (leaderState (Stat rf))) (Z.of_nat server);
        rf ← set_nextIndex server (matched + 1) rf;
        checkAndCommitLogs rf
    end.

Definition replicateLogsToFollower (isHeartbeat : bool) rf : Raft C byte :=
  set_spawned (spawned rf ++ ((fun i => GAppend i isHeartbeat) <$> others rf)) rf.

(** One iteration of [heartbeat]'s loop; the goroutine lives on when the flag is true. *)
Definition heartbeat rf : Raft C byte * bool :=
  if killed rf then (rf, false)
  else if bool_decide (whoami rf <> Leader) then (rf, false)
  else (spawn (GReplicate true) rf, true).

(** *** Clients and the state machine *)

Definition Start (command : C) rf : Raft C byte * (Z * Z * bool) :=
  if bool_decide (whoami rf <> Leader) then (rf, (-1, -1, false))
  else
    let term := currentTerm (Stat rf) in
    let rf := set_Stat (fun st => set_log (log st ++ [mkEntry term command]) st) rf in
    let rf := persist rf in
    (rf, (getLastLogIndex rf, term, true)).

(** The locked part of [applyCommittedLogs] that copies the entries to apply.
    The guard is the loop around [applyCond.Wait()]: [None] keeps waiting.  A peer
    killed while its applier waits still applies when woken; the test of [killed()]
    is made at the head of the loop ([EvApplyEnd] of RaftNet).
    The inner [None] is a slice expression past the end of the log: Go panics when the
    bound is past the capacity of the backing array, and otherwise reads entries that
    were cut off the log. *)
Definition applyBegin rf : option (option (Z * list (LogEntries C))) :=
  if lastApplied (Stat rf) >=? committedIndex (Stat rf) then None
  else
    let applyStart := lastApplied (Stat rf) + 1 in
    let applyEnd := committedIndex (Stat rf) in
    Some (upto ← go_take (log (Stat rf)) (applyEnd + 1);
          entries ← go_drop upto applyStart;
          Some (applyStart, entries)).

(** The messages sent on [applyCh] for the copied entries. *)
Definition applyMsgs (applyStart : Z) (entries : list (LogEntries C)) : list (ApplyMsg C) :=
  imap (fun i e => mkApplyMsg true (le_Command e) (applyStart + Z.of_nat i)) entries.

(** The last locked part of [applyCommittedLogs]. *)
Definition applyEnd_ (applyStart : Z) (entries : list (LogEntries C)) rf : Raft C byte :=
  let applyEnd := applyStart + zlen entries - 1 in
  if applyEnd >? lastApplied (Stat rf) then set_Stat (set_lastApplied applyEnd) rf else rf.

Definition Make (npeers self : nat) (ps : Persister byte) (now r : Z) : Raft C byte :=
  let st := mkState 0 (-1) [mkEntry 0 zero_cmd] 0 0
              (mkLeaderState (replicate npeers 0) (replicate npeers 0)) in
  let rf := mkRaft npeers ps self 0 Follower st 0 0 [] [] in
  let lastLogIndex := getLastLogIndex rf in
  let rf := set_Stat (set_leaderState (mkLeaderState (replicate npeers (lastLogIndex + 1))
                                                     (replicate npeers 0))) rf in
  let rf := resetElectionTimer now r rf in
  readPersist (ReadRaftState ps) rf.
End Peer.
