(* ===== verification/RaftFacts.v ===== *)
(** * RaftFacts: what each method of a peer does

    The invariant [peer_ok] of one peer, the order [advances] in which its term and
    vote move, and for each method of Raft.v the lemma that it keeps both.  The
    properties are the functional behaviour of the handlers on every branch. *)

From S2P Require Import Prelude Persister Raft.
Local Open Scope Z_scope.

Section Facts.
Context {C byte : Type} `{!Gob byte Z} `{!Gob byte (list (LogEntries C))}.
Context (zero_cmd : C).
Implicit Types (rf : Raft C byte) (lg : list (LogEntries C)).

(** Entry 0 has term 0 and every later entry a positive term. *)
Definition log_ok lg : Prop :=
  exists e rest, lg = e :: rest /\ le_Term e = 0 /\ Forall (fun e => 1 <= le_Term e) rest.

(** What a restart from the persister gives back is the peer's own term, vote and log. *)
Definition durable rf : Prop :=
  forall now r, let rf' := Make zero_cmd (peers rf) (me rf) (persister rf) now r in
    currentTerm (Stat rf') = currentTerm (Stat rf) /\
    votedFor (Stat rf') = votedFor (Stat rf) /\
    log (Stat rf') = log (Stat rf).

Record peer_ok rf : Prop := mk_peer_ok {
  ok_log : log_ok (log (Stat rf));
  ok_durable : durable rf;
  ok_me : (me rf < peers rf)%nat;
  ok_next_len : length (nextIndex (leaderState (Stat rf))) = peers rf;
  ok_match_len : length (matchIndex (leaderState (Stat rf))) = peers rf;
  ok_next : Forall (fun x => 1 <= x) (nextIndex (leaderState (Stat rf)));
  ok_term : 0 <= currentTerm (Stat rf);
  ok_active : whoami rf <> Follower -> 1 <= currentTerm (Stat rf);
  ok_commit : 0 <= committedIndex (Stat rf)
}.

(** A peer's term never falls, and within a term its vote is cast once. *)
Definition advances rf rf' : Prop :=
  me rf' = me rf /\ peers rf' = peers rf /\
  (currentTerm (Stat rf) < currentTerm (Stat rf') \/
   currentTerm (Stat rf) = currentTerm (Stat rf') /\
   (votedFor (Stat rf') = votedFor (Stat rf) \/ votedFor (Stat rf) = -1)).

#[local] Instance advances_refl : Reflexive advances.
Proof. intros rf. unfold advances. split_and!; auto. Qed.

#[local] Instance advances_trans : Transitive advances.
Proof. intros a b c. unfold advances. intuition (lia || congruence). Qed.

(** ** Logs *)

Lemma log_ok_nonempty lg : log_ok lg -> 1 <= zlen lg.
Proof. intros (e & rest & -> & _). unfold zlen. cbn. lia. Qed.

Lemma log_ok_app lg k :
  log_ok lg -> Forall (fun e => 1 <= le_Term e) k -> log_ok (lg ++ k).
Proof.
  intros (e & rest & -> & He & Hr) Hk. exists e, (rest ++ k).
  split; [done|]. split; [done|]. by apply Forall_app.
Qed.

Lemma log_ok_take lg n : log_ok lg -> (0 < n)%nat -> log_ok (take n lg).
Proof.
  intros (e & rest & -> & He & Hr) Hn. destruct n as [|n]; [lia|].
  exists e, (take n rest). split; [done|]. split; [done|]. by apply Forall_take.
Qed.

Lemma log_ok_lookup lg (i : nat) e :
  log_ok lg -> lg !! i = Some e -> (i = 0%nat /\ le_Term e = 0) \/ (0 < i)%nat /\ 1 <= le_Term e.
Proof.
  intros (e0 & rest & -> & He & Hr) Hi. destruct i as [|i]; cbn in Hi; [by left; simplify_eq|].
  right. split; [lia|]. rewrite Forall_forall in Hr. apply Hr, list_elem_of_lookup. eauto.
Qed.

Lemma log_ok_drop lg n : log_ok lg -> (0 < n)%nat -> Forall (fun e => 1 <= le_Term e) (drop n lg).
Proof.
  intros (e & rest & -> & He & Hr) Hn. destruct n as [|n]; [lia|]. cbn. by apply Forall_drop.
Qed.

Lemma getLastLogIndex_ok rf :
  log_ok (log (Stat rf)) -> getLastLogIndex rf = zlen (log (Stat rf)) - 1.
Proof.
  intros H. apply log_ok_nonempty in H. unfold getLastLogIndex. case_bool; lia.
Qed.

Lemma getLogTerm_in_range rf i e :
  go_index (log (Stat rf)) i = Some e -> getLogTerm rf i = le_Term e.
Proof.
  intros H. unfold getLogTerm. rewrite H. apply go_index_Some in H. case_bool; [|done].
  intuition lia.
Qed.

Lemma getLogTerm_out rf i : ~ (0 <= i < zlen (log (Stat rf))) -> getLogTerm rf i = 0.
Proof.
  intros H. unfold getLogTerm. case_bool; [done|]. intuition lia.
Qed.

Lemma getLogTerm_pos rf i :
  log_ok (log (Stat rf)) -> 1 <= i < zlen (log (Stat rf)) -> 1 <= getLogTerm rf i.
Proof.
  intros Hok Hi. destruct (go_index_in_range (log (Stat rf)) i) as [e He]; [lia|].
  rewrite (getLogTerm_in_range _ _ _ He). apply go_index_Some in He as [_ He].
  apply log_ok_lookup in He; [|done]. lia.
Qed.

Lemma getLogTerm_0 rf : log_ok (log (Stat rf)) -> getLogTerm rf 0 = 0.
Proof.
  intros Hok. pose proof (log_ok_nonempty _ Hok).
  destruct (go_index_in_range (log (Stat rf)) 0) as [e He]; [lia|].
  rewrite (getLogTerm_in_range _ _ _ He). apply go_index_Some in He as [_ He].
  apply log_ok_lookup in He; [|done]. lia.
Qed.

Lemma getLogTerm_ext rf rf' i : log (Stat rf') = log (Stat rf) -> getLogTerm rf' i = getLogTerm rf i.
Proof. unfold getLogTerm. by intros ->. Qed.

(** ** Persistence *)

Lemma decodeState_encode (t v : Z) lg :
  decodeState (gob_encode t ++ gob_encode v ++ gob_encode lg) = (t, v, lg).
Proof.
  unfold decodeState. rewrite !gob_decode_encode.
  by rewrite <- (app_nil_r (gob_encode lg)), gob_decode_encode.
Qed.

Lemma encode_zlen (t : Z) (rest : list byte) : 1 <= zlen (gob_encode t ++ rest).
Proof.
  unfold zlen. rewrite length_app. pose proof (gob_nonempty t).
  destruct (gob_encode t); [done|cbn; lia].
Qed.

Lemma readPersist_persist rf rf0 :
  readPersist (ReadRaftState (persister (persist rf))) rf0 =
  set_Stat (fun st => set_log (log (Stat rf)) (set_votedFor (votedFor (Stat rf))
                        (set_currentTerm (currentTerm (Stat rf)) st))) rf0.
Proof.
  unfold persist. cbn [persister set_persister]. rewrite ReadRaftState_Save.
  unfold readPersist. rewrite decodeState_encode.
  pose proof (encode_zlen (currentTerm (Stat rf))
    (gob_encode (votedFor (Stat rf)) ++ gob_encode (log (Stat rf)))).
  case_bool; [lia|done].
Qed.

Lemma durable_persist rf : durable (persist rf).
Proof.
  intros now r. unfold Make. rewrite readPersist_persist. cbn. auto.
Qed.

(** A change that leaves the persister and the persisted fields alone. *)
Lemma durable_frame rf rf' :
  durable rf -> peers rf' = peers rf -> me rf' = me rf -> persister rf' = persister rf ->
  currentTerm (Stat rf') = currentTerm (Stat rf) -> votedFor (Stat rf') = votedFor (Stat rf) ->
  log (Stat rf') = log (Stat rf) -> durable rf'.
Proof. intros Hd Hp Hm Hps Ht Hv Hl now r. rewrite Hp, Hm, Hps, Ht, Hv, Hl. apply Hd. Qed.

Lemma Make_fields npeers self ps now r :
  let rf := Make zero_cmd npeers self ps now r in
  peers rf = npeers /\ me rf = self /\ persister rf = ps /\ whoami rf = Follower /\
  spawned rf = [] /\ elections rf = [] /\ dead rf = 0 /\
  committedIndex (Stat rf) = 0 /\ lastApplied (Stat rf) = 0 /\
  nextIndex (leaderState (Stat rf)) = replicate npeers 1 /\
  matchIndex (leaderState (Stat rf)) = replicate npeers 0.
Proof.
  unfold Make, readPersist. destruct (zlen (ReadRaftState ps) <? 1); cbn; [tauto|].
  destruct (decodeState (ReadRaftState ps)) as [[t v] lg]. cbn. tauto.
Qed.

(** ** The invariant and the order, method by method *)

Lemma peer_ok_frame rf rf' :
  peer_ok rf -> peers rf' = peers rf -> me rf' = me rf -> persister rf' = persister rf ->
  whoami rf' = whoami rf -> Stat rf' = Stat rf -> peer_ok rf'.
Proof.
  intros [] Hp Hm Hps Hw Hst. constructor; rewrite ?Hst, ?Hp, ?Hm, ?Hw; auto.
  eapply durable_frame; eauto; by rewrite Hst.
Qed.

Lemma advances_frame rf rf' :
  peers rf' = peers rf -> me rf' = me rf -> currentTerm (Stat rf') = currentTerm (Stat rf) ->
  votedFor (Stat rf') = votedFor (Stat rf) -> advances rf rf'.
Proof. intros Hp Hm Ht Hv. unfold advances. rewrite Ht, Hv. split_and!; auto. Qed.

Lemma convertToFollower_ok term rf :
  peer_ok rf -> currentTerm (Stat rf) < term ->
  peer_ok (convertToFollower term rf) /\ advances rf (convertToFollower term rf).
Proof.
  intros [] Ht. split.
  - constructor; cbn; auto; try lia; try done.
    eapply (durable_frame (persist _)); [apply durable_persist|reflexivity..].
  - unfold advances. cbn. split_and!; auto.
Qed.

Lemma convertToLeader_ok rf :
  peer_ok rf -> whoami rf = Candidate ->
  peer_ok (convertToLeader rf) /\ advances rf (convertToLeader rf).
Proof.
  intros [] Hw. split; [|by apply advances_frame].
  constructor; cbn; auto; rewrite ?length_replicate; auto.
  - apply Forall_replicate. pose proof (zlen_nonneg (log (Stat rf))). lia.
  - intros _. apply ok_active0. by rewrite Hw.
Qed.

Lemma StartElection_ok now r rf :
  peer_ok rf ->
  peer_ok (StartElection now r rf) /\ advances rf (StartElection now r rf).
Proof.
  intros []. split.
  - constructor; cbn; auto; try lia.
    eapply (durable_frame (persist _)); [apply durable_persist|reflexivity..].
  - unfold advances. cbn. split_and!; auto. lia.
Qed.

Lemma ticker_ok now r rf :
  peer_ok rf -> peer_ok (ticker now r rf) /\ advances rf (ticker now r rf).
Proof.
  intros Hok. unfold ticker. case_bool; try by split; [|apply advances_refl].
  by apply StartElection_ok.
Qed.

Lemma handleVoteReply_ok e reply rf :
  peer_ok rf -> peer_ok (handleVoteReply e reply rf) /\ advances rf (handleVoteReply e reply rf).
Proof.
  intros Hok. unfold handleVoteReply.
  destruct (elections rf !! e) as [[args v]|]; [|by split; [|apply advances_refl]].
  case_bool; try by split; [|apply advances_refl].
  - apply convertToFollower_ok; [done|lia].
  - refine (convertToLeader_ok (set_elections _ rf) _ H0). by eapply peer_ok_frame.
  - split; [by eapply peer_ok_frame|by apply advances_frame].
Qed.

(** The vote is recorded and saved. *)
Lemma cast_vote_ok now r c rf :
  peer_ok rf -> (votedFor (Stat rf) = -1 \/ votedFor (Stat rf) = c) ->
  let rf' := resetElectionTimer now r (persist (set_Stat (set_votedFor c) rf)) in
  peer_ok rf' /\ advances rf rf'.
Proof.
  intros [] Hv. cbn. split.
  - constructor; cbn; auto.
    eapply (durable_frame (persist (set_Stat (set_votedFor c) rf))); [apply durable_persist|reflexivity..].
  - unfold advances. cbn. split_and!; auto. destruct Hv; auto.
Qed.

Lemma RequestVote_ok now r args rf :
  peer_ok rf ->
  peer_ok (RequestVote now r args rf).1 /\ advances rf (RequestVote now r args rf).1.
Proof.
  intros Hok. unfold RequestVote. destruct (rv_Term args <? _) eqn:E1.
  { split; [done|apply advances_refl]. }
  set (rf1 := if rv_Term args >? _ then _ else _).
  assert (H1 : peer_ok rf1 /\ advances rf rf1).
  { subst rf1. case_bool; [apply convertToFollower_ok; [done|lia]|].
    split; [done|apply advances_refl]. }
  destruct H1 as [Hok1 Hadv1]. case_bool; cbn; [|done].
  destruct (cast_vote_ok now r (rv_CandidateId args) rf1) as [? ?]; [done|..].
  { destruct_or?; bool_to_prop; auto. }
  split; [done|]. by etrans.
Qed.

(** ** AppendEntries *)

(** What every [AppendEntries] request in the network satisfies. *)
Record append_args_ok (args : AppendEntriesArgs C) : Prop := mk_append_args_ok {
  aok_prev : 0 <= ae_PrevLogIndex args;
  aok_prev0 : ae_PrevLogIndex args = 0 -> ae_PrevLogTerm args = 0;
  aok_entries : Forall (fun e => 1 <= le_Term e) (entriesOf args);
  aok_commit : 0 <= ae_LeaderCommit args
}.

(** The index a rejection sends back is one the leader can use. *)
Definition append_reply_ok (reply : AppendEntriesReply) : Prop :=
  aer_Success reply = false -> 1 <= aer_ConflictIndex reply \/ aer_ConflictTerm reply = 0.

(** Entry [k] of a request and the entry of the log at its place have different terms.  The last entry of the log is not looked at. *)
Definition differs (lg : list (LogEntries C)) (start : Z) (entries : list (LogEntries C)) (k : nat) : Prop :=
  start + Z.of_nat k < zlen lg - 1 /\
  exists old new, lg !! Z.to_nat (start + Z.of_nat k) = Some old /\ entries !! k = Some new /\ le_Term old <> le_Term new.

Lemma differs_cons lg start e entries k : differs lg start (e :: entries) (S k) <-> differs lg (start + 1) entries k.
Proof. unfold differs. by replace (start + Z.of_nat (S k)) with (start + 1 + Z.of_nat k) by lia. Qed.

(** The search finds the first place where the terms differ. *)
Lemma findConflict_spec rf start i entries :
  log_ok (log (Stat rf)) -> 0 <= start -> 0 <= i ->
  (findConflict rf start i entries = Some (-1) /\ forall k, ~ differs (log (Stat rf)) (start + i) entries k) \/
  exists k : nat, findConflict rf start i entries = Some (i + Z.of_nat k) /\ differs (log (Stat rf)) (start + i) entries k /\
    forall j, (j < k)%nat -> ~ differs (log (Stat rf)) (start + i) entries j.
Proof.
  intros Hok Hs. pose proof (getLastLogIndex_ok rf Hok) as Hlast. revert i. induction entries as [|e entries IH]; intros i Hi; cbn [findConflict].
  { left. split; [done|]. by intros k (_ & ? & ? & _ & ? & _). }
  case_bool; [left; split; [done|]; intros k [Hk _]; lia|].
  destruct (go_index_in_range (log (Stat rf)) (start + i)) as [old Hold]; [lia|]. rewrite Hold. cbn [mbind option_bind].
  apply go_index_Some in Hold as [_ Hold]. destruct (Z.eqb_spec (le_Term old) (le_Term e)) as [Heq|Hne]; cbn [negb].
  - assert (~ differs (log (Stat rf)) (start + i) (e :: entries) 0) as H0.
    { intros (_ & old' & new & Ho & Hn & Hd). rewrite Z.add_0_r in Ho. by simplify_eq/=. }
    destruct (IH (i + 1)) as [[Hf Hno]|(k & Hf & Hd & Hno)]; [lia|left|right].
    + rewrite Z.add_assoc in Hno. split; [done|]. intros [|k]; [done|]. rewrite differs_cons. apply Hno.
    + rewrite Z.add_assoc in Hd, Hno. exists (S k). split; [rewrite Hf; f_equal; lia|]. rewrite differs_cons. split; [done|].
      intros [|j] Hj; [done|]. rewrite differs_cons. apply Hno. lia.
  - right. exists 0%nat. rewrite Z.add_0_r. split; [done|]. split; [|lia]. split; [lia|]. exists old, e. by rewrite Z.add_0_r.
Qed.

Lemma findConflict_ok rf start i entries :
  log_ok (log (Stat rf)) -> 0 <= start -> 0 <= i ->
  exists x, findConflict rf start i entries = Some x /\
            (x = -1 \/ i <= x /\ start + x < getLastLogIndex rf).
Proof.
  intros Hok Hs Hi. rewrite getLastLogIndex_ok by done.
  destruct (findConflict_spec rf start i entries Hok Hs Hi) as [[-> _]|(k & -> & [Hlt _] & _)]; eexists; (split; [done|]); lia.
Qed.

Lemma appendLog_ok args rf :
  log_ok (log (Stat rf)) -> append_args_ok args -> ae_PrevLogIndex args <= getLastLogIndex rf ->
  exists lg, appendLog args rf = Some lg /\ log_ok lg.
Proof.
  intros Hok [] Hle. unfold appendLog.
  pose proof (getLastLogIndex_ok rf Hok). pose proof (log_ok_nonempty _ Hok).
  destruct (findConflict_ok rf (ae_PrevLogIndex args + 1) 0 (entriesOf args)) as (x & -> & Hx);
    [done|lia..|]. cbn.
  destruct (Z.eqb_spec x (-1)) as [->|Hne]; cbn.
  - rewrite go_take_in_range by lia. cbn. eexists. split; [done|].
    apply log_ok_app; [apply log_ok_take; [done|lia]|done].
  - rewrite go_take_in_range by lia. cbn.
    assert (Hl : log_ok (take (Z.to_nat (ae_PrevLogIndex args + 1 + x)) (log (Stat rf))))
      by (apply log_ok_take; [done|lia]).
    pose proof (log_ok_nonempty _ Hl). case_bool; [|lia].
    eexists. split; [done|]. by apply log_ok_app.
Qed.

Lemma firstOfTerm_bound rf t fuel i c :
  log_ok (log (Stat rf)) -> t <> 0 -> i < c -> 1 <= c -> 1 <= firstOfTerm rf t fuel i c.
Proof.
  intros Hok Ht. revert i c. induction fuel as [|fuel IH]; intros i c Hi Hc; cbn; [done|].
  case_bool; [done..|].
  destruct (decide (i = 0)) as [->|]; [by rewrite getLogTerm_0 in *|].
  apply IH; lia.
Qed.

(** Storing a new log and, possibly, a new commit index. *)
Lemma store_log_ok lg (x : Z) (b : bool) rf :
  peer_ok rf -> log_ok lg -> (b = true -> 0 <= x) ->
  let rf1 := persist (set_Stat (set_log lg) rf) in
  let rf2 := if b then set_Stat (set_committedIndex x) rf1 else rf1 in
  peer_ok rf2 /\ advances rf rf2.
Proof.
  intros [] Hl Hb. cbn. split.
  - destruct b; constructor; cbn; auto;
      (eapply (durable_frame (persist (set_Stat (set_log lg) rf))); [apply durable_persist|reflexivity..]).
  - destruct b; unfold advances; cbn; split_and!; auto.
Qed.

Lemma AppendEntries_ok now r args rf :
  peer_ok rf -> append_args_ok args ->
  exists rf' reply, AppendEntries now r args rf = Some (rf', reply) /\
    peer_ok rf' /\ advances rf rf' /\ append_reply_ok reply.
Proof.
  intros Hok Hargs. unfold AppendEntries.
  destruct (ae_Term args <? currentTerm (Stat rf)) eqn:E; bool_to_prop.
  { eexists _, _. split; [done|]. split; [done|]. split; [apply advances_refl|by right]. }
  set (rf0 := resetElectionTimer now r rf).
  assert (Hok0 : peer_ok rf0) by by eapply peer_ok_frame.
  assert (Hadv0 : advances rf rf0) by by apply advances_frame.
  set (rf1 := if ae_Term args >? _ then _ else rf0).
  assert (H1 : peer_ok rf1 /\ advances rf rf1).
  { subst rf1. case_bool; [|done].
    destruct (convertToFollower_ok (ae_Term args) rf0); [done|lia|]. split; [done|by etrans]. }
  destruct H1 as [Hok1 Hadv1]. pose proof (ok_log _ Hok1) as Hl1.
  pose proof (log_ok_nonempty _ Hl1). pose proof (getLastLogIndex_ok _ Hl1).
  destruct Hargs as [Hp Hp0 He Hc].
  case_bool.
  - eexists _, _. split; [done|]. split_and!; [done..|]. left. cbn. lia.
  - eexists _, _. split; [done|]. split_and!; [done..|]. intros _. cbn.
    assert (0 < ae_PrevLogIndex args).
    { destruct (decide (ae_PrevLogIndex args = 0)) as [Hz|]; [|lia].
      rewrite Hz in *. rewrite getLogTerm_0 in * by done. naive_solver. }
    pose proof (getLogTerm_pos rf1 (ae_PrevLogIndex args) Hl1 ltac:(lia)).
    left. apply firstOfTerm_bound; lia || done.
  - destruct (appendLog_ok args rf1) as (lg & -> & Hlg); [done|by constructor|lia|]. cbn.
    pose proof (log_ok_nonempty _ Hlg).
    destruct (store_log_ok lg (Z.min (ae_LeaderCommit args) (zlen lg - 1))
                (ae_LeaderCommit args >? committedIndex (Stat rf1)) rf1) as [? ?]; [done..|lia|].
    eexists _, _. split; [done|]. split_and!; [done|by etrans|done].
Qed.

(** ** The leader's side of replication *)

(** The pieces of a peer that committing and applying leave alone. *)
Lemma commit_frame x rf :
  peer_ok rf -> 0 <= x ->
  peer_ok (set_Stat (set_committedIndex x) rf) /\ advances rf (set_Stat (set_committedIndex x) rf).
Proof.
  intros [] Hx. split; [|by apply advances_frame].
  constructor; cbn; auto; by eapply durable_frame.
Qed.

(** The index [checkAndCommitLogs] may commit: beyond the commit index, in the
    current term, and held by a majority. *)
Definition committable rf (n : Z) : Prop :=
  committedIndex (Stat rf) < n < zlen (log (Stat rf)) /\
  getLogTerm rf n = currentTerm (Stat rf) /\
  Z.of_nat (peers rf) / 2 + 1 <=
    1 + countMatches (take (peers rf) (matchIndex (leaderState (Stat rf)))) (me rf) 0 n.

Lemma commitScan_spec rf fuel n :
  0 <= committedIndex (Stat rf) -> n < zlen (log (Stat rf)) -> n - committedIndex (Stat rf) < Z.of_nat fuel ->
  exists rf', commitScan rf (Z.of_nat (peers rf) / 2 + 1) fuel n = Some rf' /\
    ((exists m, m <= n /\ committable rf m /\ (forall k, m < k <= n -> ~ committable rf k) /\
                rf' = set_Stat (set_committedIndex m) rf) \/
     (forall k, k <= n -> ~ committable rf k) /\ rf' = rf).
Proof.
  intros Hc. revert n. induction fuel as [|fuel IH]; intros n Hn Hf; [|cbn].
  { exists rf. split; [done|]. right. split; [|done]. intros k Hk [? _]. lia. }
  destruct (n <=? committedIndex (Stat rf)) eqn:E; bool_to_prop.
  { exists rf. split; [done|]. right. split; [|done]. intros k Hk [? _]. lia. }
  destruct (go_index_in_range (log (Stat rf)) n) as [e He]; [lia|]. rewrite He. cbn [mbind option_bind].
  pose proof (getLogTerm_in_range _ _ _ He) as Ht.
  assert (Hskip : ~ committable rf n ->
    exists rf', commitScan rf (Z.of_nat (peers rf) / 2 + 1) fuel (n - 1) = Some rf' /\
    ((exists m, m <= n /\ committable rf m /\ (forall k, m < k <= n -> ~ committable rf k) /\
                rf' = set_Stat (set_committedIndex m) rf) \/
     (forall k, k <= n -> ~ committable rf k) /\ rf' = rf)).
  { intros Hno. destruct (IH (n - 1)) as (rf' & -> & Hor); [lia..|]. exists rf'. split; [done|].
    destruct Hor as [(m & Hm & Hcm & Hgap & ->)|[Hnone ->]]; [left|right].
    - exists m. split_and!; [lia|done| |done]. intros k Hk.
      destruct (decide (k = n)) as [->|]; [done|]. apply Hgap. lia.
    - split; [|done]. intros k Hk. destruct (decide (k = n)) as [->|]; [done|]. apply Hnone. lia. }
  destruct (le_Term e =? currentTerm (Stat rf)) eqn:E2; bool_to_prop; cbn [negb].
  - case_bool.
    + eexists. split; [done|]. left. exists n. split_and!; [lia| |intros k Hk; lia|done].
      split_and!; [lia..|congruence|lia].
    + apply Hskip. intros (_ & _ & Hge). lia.
  - apply Hskip. intros (_ & Hterm & _). congruence.
Qed.

Lemma checkAndCommitLogs_spec rf :
  log_ok (log (Stat rf)) -> 0 <= committedIndex (Stat rf) ->
  exists rf', checkAndCommitLogs rf = Some rf' /\
    ((exists m, committable rf m /\ (forall k, m < k -> ~ committable rf k) /\
                rf' = set_Stat (set_committedIndex m) rf) \/
     (forall k, ~ committable rf k) /\ rf' = rf).
Proof.
  intros Hl Hc. unfold checkAndCommitLogs.
  pose proof (getLastLogIndex_ok rf Hl). pose proof (log_ok_nonempty _ Hl).
  assert (Hbig : forall k, getLastLogIndex rf < k -> ~ committable rf k)
    by (intros k Hk (? & _); lia).
  destruct (commitScan_spec rf (S (length (log (Stat rf)))) (getLastLogIndex rf))
    as (rf' & -> & Hor); [done|lia|unfold zlen in *; lia|].
  exists rf'. split; [done|].
  destruct Hor as [(m & Hm & Hcm & Hgap & ->)|[Hnone ->]]; [left|right].
  - exists m. split_and!; [done| |done]. intros k Hk.
    destruct (decide (k <= getLastLogIndex rf)); [apply Hgap|apply Hbig]; lia.
  - split; [|done]. intros k.
    destruct (decide (k <= getLastLogIndex rf)); [apply Hnone|apply Hbig]; lia.
Qed.

Lemma checkAndCommitLogs_ok rf :
  peer_ok rf -> exists rf', checkAndCommitLogs rf = Some rf' /\ peer_ok rf' /\ advances rf rf'.
Proof.
  intros Hok. destruct (checkAndCommitLogs_spec rf) as (rf' & -> & Hor); [apply Hok..|].
  exists rf'. split; [done|].
  destruct Hor as [(m & Hcm & _ & ->)|[_ ->]]; [|split; [done|apply advances_refl]].
  apply commit_frame; [done|]. destruct Hcm as [? _]. pose proof (ok_commit _ Hok). lia.
Qed.

Lemma makeAppendEntriesArgs_ok server hb rf :
  peer_ok rf -> (server < peers rf)%nat ->
  exists args, makeAppendEntriesArgs server hb rf = Some args /\ append_args_ok args /\
               ae_Term args = currentTerm (Stat rf).
Proof.
  intros [] Hs. unfold makeAppendEntriesArgs.
  destruct (go_index_in_range (nextIndex (leaderState (Stat rf))) (Z.of_nat server)) as [next Hn].
  { unfold zlen. lia. }
  rewrite Hn. cbn [mbind option_bind].
  assert (1 <= next).
  { apply go_index_Some in Hn as [_ Hn]. rewrite Forall_forall in ok_next0.
    apply ok_next0, list_elem_of_lookup. eauto. }
  assert (Hp0 : next - 1 = 0 -> getLogTerm rf (next - 1) = 0)
    by (intros ->; by apply getLogTerm_0).
  destruct (next <? zlen (log (Stat rf))) eqn:E; bool_to_prop.
  - rewrite go_drop_in_range by lia. cbn. eexists. split; [done|]. split; [|done].
    constructor; cbn; auto; [lia|]. apply log_ok_drop; [done|lia].
  - destruct hb; cbn; (eexists; split; [done|]); (split; [|done]);
      constructor; cbn; auto; lia.
Qed.

Lemma set_nextIndex_ok (server : nat) x rf :
  peer_ok rf -> (server < peers rf)%nat -> 1 <= x ->
  exists rf', set_nextIndex server x rf = Some rf' /\ peer_ok rf' /\ advances rf rf' /\
              matchIndex (leaderState (Stat rf')) = matchIndex (leaderState (Stat rf)) /\
              peers rf' = peers rf.
Proof.
  intros [] Hs Hx. unfold set_nextIndex. rewrite go_store_in_range by (unfold zlen; lia). cbn.
  eexists. split; [done|]. split; [|split; [by apply advances_frame|done]].
  constructor; cbn; auto; rewrite ?length_insert; auto; try by eapply durable_frame.
  by apply Forall_insert.
Qed.

Lemma set_matchIndex_ok (server : nat) x rf :
  peer_ok rf -> (server < peers rf)%nat ->
  exists rf', set_matchIndex server x rf = Some rf' /\ peer_ok rf' /\ advances rf rf' /\
              go_index (matchIndex (leaderState (Stat rf'))) (Z.of_nat server) = Some x /\
              peers rf' = peers rf.
Proof.
  intros [] Hs. unfold set_matchIndex. rewrite go_store_in_range by (unfold zlen; lia). cbn.
  eexists. split; [done|]. split; [|split; [by apply advances_frame|]].
  - constructor; cbn; auto; rewrite ?length_insert; auto; by eapply durable_frame.
  - split; [|done]. cbn. apply go_index_Some. rewrite Nat2Z.id, zlen_insert. unfold zlen.
    split; [lia|]. apply list_lookup_insert_eq. lia.
Qed.

Lemma lastOfTerm_ge lg t i : 0 <= i -> lastOfTerm lg t i = -1 \/ i <= lastOfTerm lg t i.
Proof.
  revert i. induction lg as [|e lg IH]; intros i Hi; cbn; [auto|].
  specialize (IH (i + 1) ltac:(lia)). case_bool; lia.
Qed.

Lemma lastOfTerm_log_ok lg : log_ok lg -> 0 <= lastOfTerm lg 0 0.
Proof.
  intros (e & rest & -> & He & _). cbn [lastOfTerm]. pose proof (lastOfTerm_ge rest 0 (0 + 1) ltac:(lia)).
  case_bool; lia.
Qed.

Lemma handleAppendReply_ok server args reply rf :
  peer_ok rf -> (server < peers rf)%nat -> append_args_ok args -> append_reply_ok reply ->
  exists rf', handleAppendReply server args reply rf = Some rf' /\ peer_ok rf' /\ advances rf rf'.
Proof.
  intros Hok Hs Ha Hr. unfold handleAppendReply.
  destruct (negb (ae_Term args =? currentTerm (Stat rf)) || bool_decide (whoami rf <> Leader)) eqn:E.
  { case_bool; (eexists; split; [done|]).
    - apply convertToFollower_ok; [done|lia].
    - split; [done|apply advances_refl]. }
  destruct (aer_Success reply) eqn:Es; cbn [negb].
  - destruct (ae_Entries args) as [entries|] eqn:Ee;
      [|eexists; split; [done|]; split; [done|apply advances_refl]].
    destruct (set_matchIndex_ok server (ae_PrevLogIndex args + zlen entries) rf)
      as (rf1 & -> & Hok1 & Hadv1 & Hm & Hp1); [done..|]. cbn [mbind option_bind]. rewrite Hm. cbn [mbind option_bind].
    destruct (set_nextIndex_ok server (ae_PrevLogIndex args + zlen entries + 1) rf1)
      as (rf2 & -> & Hok2 & Hadv2 & _); [done|lia|pose proof (zlen_nonneg entries);
      pose proof (aok_prev _ Ha); lia|]. cbn [mbind option_bind].
    destruct (checkAndCommitLogs_ok rf2 Hok2) as (rf3 & -> & Hok3 & Hadv3).
    exists rf3. split; [done|]. split; [done|]. by do 2 (etrans; [done|]).
  - assert (Hset : forall x, 1 <= x ->
      exists rf', set_nextIndex server x rf = Some rf' /\ peer_ok rf' /\ advances rf rf').
    { intros x Hx. destruct (set_nextIndex_ok server x rf) as (rf' & -> & ? & ? & _); eauto. }
    specialize (Hr Es). pose proof (lastOfTerm_ge (log (Stat rf)) (aer_ConflictTerm reply) 0).
    pose proof (lastOfTerm_log_ok _ (ok_log _ Hok)) as H0.
    assert (Hz : aer_ConflictTerm reply = 0 -> 0 <= lastOfTerm (log (Stat rf)) (aer_ConflictTerm reply) 0)
      by by intros ->.
    case_bool; apply Hset; lia.
Qed.

(** ** Clients *)

Lemma Start_ok command rf :
  peer_ok rf -> peer_ok (Start command rf).1 /\ advances rf (Start command rf).1.
Proof.
  intros Hok. unfold Start. case_bool; cbn; [by split; [|apply advances_refl]|].
  destruct Hok. destruct (store_log_ok (log (Stat rf) ++ [mkEntry (currentTerm (Stat rf)) command]) 0 false rf);
    [by constructor| |done|done].
  apply log_ok_app; [done|]. repeat constructor. cbn. apply ok_active0.
  apply dec_stable in E. by rewrite E.
Qed.

Lemma applyEnd_ok start entries rf :
  peer_ok rf -> peer_ok (applyEnd_ start entries rf) /\ advances rf (applyEnd_ start entries rf).
Proof.
  intros Hok. unfold applyEnd_. case_bool; [|by split; [|apply advances_refl]].
  destruct Hok. split; [|by apply advances_frame]. constructor; cbn; auto; by eapply durable_frame.
Qed.

Lemma Make_fresh_ok npeers self now r :
  (self < npeers)%nat -> peer_ok (Make zero_cmd npeers self MakePersister now r).
Proof.
  intros Hs. set (rf := Make _ _ _ _ _ _).
  assert (Hst : Stat rf = mkState 0 (-1) [mkEntry 0 zero_cmd] 0 0
            (mkLeaderState (replicate npeers 1) (replicate npeers 0))) by reflexivity.
  constructor; rewrite ?Hst; cbn; rewrite ?length_replicate; auto; try lia; try done.
  - exists (mkEntry 0 zero_cmd), []. auto.
  - by apply Forall_replicate.
Qed.

(** A restart from a peer's persister is the same peer, a follower. *)
Lemma Make_restart_ok now r rf :
  peer_ok rf ->
  let rf' := Make zero_cmd (peers rf) (me rf) (Copy (persister rf)) now r in
  peer_ok rf' /\ advances rf rf' /\ currentTerm (Stat rf') = currentTerm (Stat rf) /\
  votedFor (Stat rf') = votedFor (Stat rf) /\ log (Stat rf') = log (Stat rf).
Proof.
  intros []. replace (Copy (persister rf)) with (persister rf) by by destruct (persister rf).
  intros rf'.
  destruct (ok_durable0 now r) as (Ht & Hv & Hl). fold rf' in Ht, Hv, Hl.
  destruct (Make_fields (peers rf) (me rf) (persister rf) now r)
    as (Hp & Hm & Hps & Hw & _ & _ & _ & Hc & _ & Hn & Hmi). fold rf' in Hp, Hm, Hps, Hw, Hc, Hn, Hmi.
  split; [|split; [by apply advances_frame|done]].
  constructor; rewrite ?Hl, ?Ht, ?Hp, ?Hm, ?Hw, ?Hc, ?Hn, ?Hmi, ?length_replicate; auto; try done.
  - intros now' r'. rewrite Hp, Hm, Hps, Ht, Hv, Hl. apply ok_durable0.
  - by apply Forall_replicate.
Qed.
End Facts.
