(* ===== verification/RaftNet.v ===== *)
(** * RaftNet: a cluster of Raft peers over the lossy network

    The peers of Raft.v run beside each other.  An [Event] is one atomic piece of
    the program: a locked region of a peer, the network delivering or losing one
    message, a client calling [Start], or the test harness crashing and restarting a
    peer from its persister (src/6.5840-golabs-2024/src/raft/config.go, [crash1] and
    [start1]).  [exec] runs one event; any sequence of events is an interleaving.
    A call is delivered at most once and may be delayed, reordered or lost, which is
    what labrpc's [processReq] does. *)

From S2P Require Import Prelude Persister Raft.
Local Open Scope Z_scope.

Section World.
Context {C byte : Type} `{!Gob byte Z} `{!Gob byte (list (LogEntries C))}.
Context (zero_cmd : C).

(** An outstanding [Call] with what its goroutine needs when it returns. *)
Inductive Body :=
| VoteCall (e : nat) (args : RequestVoteArgs)
| AppendCall (args : AppendEntriesArgs C).

Inductive Reply :=
| VoteReply (r : RequestVoteReply)
| AppendReply (r : AppendEntriesReply).

(** [Executed]: the handler ran and the reply is on its way; [Finished]: the reply
    was handled; [Failed]: [Call] returned false. *)
Inductive Status := Sent | Executed (r : Reply) | Finished (r : Reply) | Failed.

Record RpcCall := mkRpcCall {
  c_from : nat;
  c_epoch : nat;      (* the incarnation of the caller *)
  c_to : nat;
  c_body : Body;
  c_status : Status
}.

Definition set_status (s : Status) (c : RpcCall) : RpcCall :=
  mkRpcCall (c_from c) (c_epoch c) (c_to c) (c_body c) s.

(** Where the goroutine of [applyCommittedLogs] is: before or in [applyCond.Wait()],
    between its two locked regions with the copied entries, or returned. *)
Inductive Applier :=
| Waiting
| Sending (applyStart : Z) (entries : list (LogEntries C))
| Stopped.

(** A running peer: its incarnation, its state, where its applier is, and the messages
    it has sent on [applyCh]. *)
Record Server := mkServer {
  s_epoch : nat;
  s_raft : Raft C byte;
  s_applying : Applier;
  s_applied : list (ApplyMsg C)
}.

Definition set_raft (rf : Raft C byte) (s : Server) : Server :=
  mkServer (s_epoch s) rf (s_applying s) (s_applied s).

Record World := mkWorld { servers : list Server; calls : list RpcCall }.

Inductive Event :=
| EvTick (i : nat) (now r : Z)
| EvRun (i k : nat) (now r : Z)
| EvDeliver (k : nat) (now r : Z)
| EvLose (k : nat)
| EvReply (k : nat)
| EvStart (i : nat) (command : C)
| EvApplyBegin (i : nat)
| EvApplyEnd (i : nat)
| EvKill (i : nat)
| EvCrash (i : nat) (now r : Z).

Inductive Outcome := Next (w : World) | Disabled | Panicked.

Definition upd_server (i : nat) (s : Server) (w : World) : World :=
  mkWorld (<[i := s]> (servers w)) (calls w).

Definition upd_call (k : nat) (c : RpcCall) (w : World) : World :=
  mkWorld (servers w) (<[k := c]> (calls w)).

Definition add_call (c : RpcCall) (w : World) : World :=
  mkWorld (servers w) (calls w ++ [c]).

(** A freshly started cluster of [n] peers: [make_config]'s loop over [start1]. *)
Definition boot (n i : nat) (ps : Persister byte) (epoch : nat) (now r : Z) : Server :=
  mkServer epoch (Make zero_cmd n i ps now r) Waiting [].

Definition init (n : nat) : World :=
  mkWorld ((fun i => boot n i MakePersister 0 0 0) <$> seq 0 n) [].

(** Goroutine [g] of peer [i] runs; it was taken out of the pool of [s]. *)
Definition run_goroutine (i : nat) (g : Goroutine) (now r : Z) (s : Server) (w : World) : Outcome :=
  let rf := s_raft s in
  match g with
  | GResetTimer => Next (upd_server i (set_raft (resetElectionTimer now r rf) s) w)
  | GHeartbeat =>
      let '(rf, again) := heartbeat rf in
      let rf := if again : bool then spawn GHeartbeat rf else rf in
      Next (upd_server i (set_raft rf s) w)
  | GReplicate hb => Next (upd_server i (set_raft (replicateLogsToFollower hb rf) s) w)
  | GAppend server hb =>
      match makeAppendEntriesArgs server hb rf with
      | None => Panicked
      | Some args =>
          Next (add_call (mkRpcCall i (s_epoch s) server (AppendCall args) Sent)
                  (upd_server i s w))
      end
  | GVote server e =>
      match elections rf !! e with
      | None => Panicked
      | Some (args, _) =>
          Next (add_call (mkRpcCall i (s_epoch s) server (VoteCall e args) Sent)
                  (upd_server i s w))
      end
  end.

(** The handler of the called peer. *)
Definition deliver (now r : Z) (b : Body) (rf : Raft C byte) : option (Raft C byte * Reply) :=
  match b with
  | VoteCall _ args => let '(rf, rep) := RequestVote now r args rf in Some (rf, VoteReply rep)
  | AppendCall args => '(rf, rep) ← AppendEntries now r args rf; Some (rf, AppendReply rep)
  end.

(** The rest of the calling goroutine once [Call] has returned true. *)
Definition handle (to : nat) (b : Body) (rep : Reply) (rf : Raft C byte) : option (Raft C byte) :=
  match b, rep with
  | VoteCall e _, VoteReply rep => Some (handleVoteReply e rep rf)
  | AppendCall args, AppendReply rep => handleAppendReply to args rep rf
  | _, _ => Some rf
  end.

Definition exec (ev : Event) (w : World) : Outcome :=
  match ev with
  | EvTick i now r =>
      match servers w !! i with
      | None => Disabled
      | Some s => Next (upd_server i (set_raft (ticker now r (s_raft s)) s) w)
      end
  | EvRun i k now r =>
      match servers w !! i with
      | None => Disabled
      | Some s =>
          match spawned (s_raft s) !! k with
          | None => Disabled
          | Some g =>
              run_goroutine i g now r
                (set_raft (set_spawned (delete k (spawned (s_raft s))) (s_raft s)) s) w
          end
      end
  | EvDeliver k now r =>
      match calls w !! k with
      | None => Disabled
      | Some c =>
          match c_status c, servers w !! c_to c with
          | Sent, Some s =>
              match deliver now r (c_body c) (s_raft s) with
              | None => Panicked
              | Some (rf, rep) =>
                  Next (upd_call k (set_status (Executed rep) c)
                          (upd_server (c_to c) (set_raft rf s) w))
              end
          | _, _ => Disabled
          end
      end
  | EvLose k =>
      match calls w !! k with
      | None => Disabled
      | Some c =>
          match c_status c with
          | Sent | Executed _ => Next (upd_call k (set_status Failed c) w)
          | _ => Disabled
          end
      end
  | EvReply k =>
      match calls w !! k with
      | None => Disabled
      | Some c =>
          match c_status c, servers w !! c_from c with
          | Executed rep, Some s =>
              if Nat.eqb (c_epoch c) (s_epoch s) then
                match handle (c_to c) (c_body c) rep (s_raft s) with
                | None => Panicked
                | Some rf =>
                    Next (upd_call k (set_status (Finished rep) c)
                            (upd_server (c_from c) (set_raft rf s) w))
                end
              else Disabled
          | _, _ => Disabled
          end
      end
  | EvStart i command =>
      match servers w !! i with
      | None => Disabled
      | Some s => Next (upd_server i (set_raft (Start command (s_raft s)).1 s) w)
      end
  | EvApplyBegin i =>
      match servers w !! i with
      | Some (mkServer ep rf Waiting msgs) =>
          match applyBegin rf with
          | None => Disabled
          | Some None => Panicked
          | Some (Some (start, entries)) =>
              Next (upd_server i (mkServer ep rf (Sending start entries)
                                    (msgs ++ applyMsgs start entries)) w)
          end
      | _ => Disabled
      end
  | EvApplyEnd i =>
      match servers w !! i with
      | Some (mkServer ep rf (Sending start entries) msgs) =>
          let rf := applyEnd_ start entries rf in
          Next (upd_server i (mkServer ep rf (if killed rf then Stopped else Waiting) msgs) w)
      | _ => Disabled
      end
  | EvKill i =>
      match servers w !! i with
      | None => Disabled
      | Some s => Next (upd_server i (set_raft (Kill (s_raft s)) s) w)
      end
  | EvCrash i now r =>
      match servers w !! i with
      | None => Disabled
      | Some s =>
          Next (upd_server i (boot (length (servers w)) i (Copy (persister (s_raft s)))
                                (S (s_epoch s)) now r) w)
      end
  end.

(** Running a list of events from a world. *)
Fixpoint run (evs : list Event) (w : World) : Outcome :=
  match evs with
  | [] => Next w
  | ev :: evs => match exec ev w with Next w' => run evs w' | o => o end
  end.

Inductive reachable (n : nat) : World -> Prop :=
| reach_init : reachable n (init n)
| reach_step w ev w' : reachable n w -> exec ev w = Next w' -> reachable n w'.

Lemma reachable_run n evs w w' : reachable n w -> run evs w = Next w' -> reachable n w'.
Proof.
  revert w. induction evs as [|ev evs IH]; intros w Hr Hrun; cbn in Hrun; [by simplify_eq|].
  destruct (exec ev w) as [w1| |] eqn:E; [|done..]. eapply IH; [|done]. by eapply reach_step.
Qed.
End World.
Arguments World : clear implicits.
Arguments Event : clear implicits.
Arguments Server : clear implicits.
Arguments RpcCall : clear implicits.
Arguments Body : clear implicits.
Arguments Applier : clear implicits.
