(* ===== verification/RaftSafety.v ===== *)
(** * RaftSafety: the cluster's invariant and election safety

    [Inv] ties the peers' terms and votes to the calls in the network; every event
    of RaftNet keeps it.  From it: at most one peer is ever elected in a term, no
    event panics except the applier's slice expression, and terms stay far from the
    integers' bound. *)

From S2P Require Import Prelude Persister Raft RaftFacts RaftNet.
Local Open Scope Z_scope.

Section Safety.
Context {C byte : Type} `{!Gob byte Z} `{!Gob byte (list (LogEntries C))}.
Context (zero_cmd : C).
Implicit Types (rf : Raft C byte) (w : World C byte) (c : RpcCall C).

(** ** Methods that start no election *)

Definition harmless (n : nat) (g : Goroutine) : Prop :=
  match g with GVote _ _ => False | GAppend j _ => (j < n)%nat | _ => True end.

(** [rf'] keeps the elections of [rf], starts only goroutines that ask for no
    votes, and leads only where [rf] led. *)
Definition quiet rf rf' : Prop :=
  elections rf' = elections rf /\
  (exists extra, spawned rf' = spawned rf ++ extra /\ Forall (harmless (peers rf)) extra) /\
  peers rf' = peers rf /\
  (whoami rf' = Leader -> whoami rf = Leader /\ currentTerm (Stat rf') = currentTerm (Stat rf)).

Lemma quiet_intro rf rf' extra :
  elections rf' = elections rf -> spawned rf' = spawned rf ++ extra ->
  Forall (harmless (peers rf)) extra -> peers rf' = peers rf ->
  (whoami rf' = Leader -> whoami rf = Leader /\ currentTerm (Stat rf') = currentTerm (Stat rf)) ->
  quiet rf rf'.
Proof. unfold quiet. eauto 10. Qed.

Lemma quiet_frame rf rf' :
  elections rf' = elections rf -> spawned rf' = spawned rf -> peers rf' = peers rf ->
  whoami rf' = whoami rf -> currentTerm (Stat rf') = currentTerm (Stat rf) -> quiet rf rf'.
Proof.
  intros He Hs Hp Hw Ht. apply (quiet_intro _ _ []); auto; [by rewrite app_nil_r|].
  rewrite Hw, Ht. auto.
Qed.

#[local] Instance quiet_trans : Transitive quiet.
Proof.
  intros a b c (He1 & (x1 & Hs1 & Hx1) & Hp1 & Hl1) (He2 & (x2 & Hs2 & Hx2) & Hp2 & Hl2).
  apply (quiet_intro _ _ (x1 ++ x2)).
  - congruence.
  - by rewrite Hs2, Hs1, app_assoc.
  - apply Forall_app. split; [done|]. by rewrite <- Hp1.
  - congruence.
  - intros H. destruct (Hl2 H) as [H1 ->]. auto.
Qed.

Lemma quiet_convertToFollower t rf : quiet rf (convertToFollower t rf).
Proof. apply (quiet_intro _ _ [GResetTimer]); try done. by repeat constructor. Qed.

#[local] Ltac quiet_done := by apply quiet_frame.

Lemma quiet_RequestVote now r args rf : quiet rf (RequestVote now r args rf).1.
Proof.
  unfold RequestVote. destruct (rv_Term args <? _); [quiet_done|].
  set (rf1 := if rv_Term args >? _ then _ else _).
  assert (quiet rf rf1) by (subst rf1; case_bool; [apply quiet_convertToFollower|quiet_done]).
  case_bool; cbn; [|done]. etrans; [done|quiet_done].
Qed.

Lemma quiet_AppendEntries now r args rf rf' reply :
  AppendEntries now r args rf = Some (rf', reply) -> quiet rf rf'.
Proof.
  unfold AppendEntries. destruct (ae_Term args <? _); [intros; simplify_eq; quiet_done|].
  set (rf1 := if ae_Term args >? _ then _ else _).
  assert (quiet rf rf1).
  { subst rf1. case_bool; [|quiet_done]. etrans; [|apply quiet_convertToFollower]. quiet_done. }
  case_bool; intros H'; simplify_eq; [done..|].
  apply bind_Some in H' as (lg & _ & H'). case_bool; simplify_eq; (etrans; [done|quiet_done]).
Qed.

Lemma quiet_commitScan rf maj fuel n rf' :
  commitScan rf maj fuel n = Some rf' -> quiet rf rf'.
Proof.
  revert n. induction fuel as [|fuel IH]; intros n; cbn; [intros; simplify_eq; quiet_done|].
  case_bool_step; [intros; simplify_eq; quiet_done|].
  intros (e & _ & H)%bind_Some. case_bool; eauto. simplify_eq. quiet_done.
Qed.

Lemma quiet_handleAppendReply server args reply rf rf' :
  handleAppendReply server args reply rf = Some rf' -> quiet rf rf'.
Proof.
  assert (Hn : forall i x rf1 rf2, set_nextIndex i x rf1 = Some rf2 -> quiet rf1 rf2).
  { unfold set_nextIndex. intros i x rf1 rf2 (ni & _ & H)%bind_Some. simplify_eq. quiet_done. }
  unfold handleAppendReply. case_bool; try (intros; simplify_eq; quiet_done); eauto.
  - intros; simplify_eq. apply quiet_convertToFollower.
  - destruct (ae_Entries args); [|intros; simplify_eq; quiet_done].
    intros (rf1 & H1 & (m & _ & (rf2 & H2 & H3)%bind_Some)%bind_Some)%bind_Some.
    apply quiet_commitScan in H3. apply Hn in H2.
    unfold set_matchIndex in H1. apply bind_Some in H1 as (mi & _ & H1). simplify_eq.
    etrans; [|etrans; [exact H2|exact H3]]. quiet_done.
Qed.

Lemma quiet_Start command rf : quiet rf (Start command rf).1.
Proof. unfold Start. case_bool; quiet_done. Qed.

Lemma quiet_applyEnd start entries rf : quiet rf (applyEnd_ start entries rf).
Proof. unfold applyEnd_. case_bool; quiet_done. Qed.

Lemma others_ok rf j : j ∈ others rf -> j <> me rf /\ (j < peers rf)%nat.
Proof. unfold others. intros [? ?%elem_of_seq]%list_elem_of_filter. lia. Qed.

Lemma others_NoDup rf : NoDup (others rf).
Proof. apply NoDup_filter, NoDup_seq. Qed.

Lemma quiet_replicate hb rf : quiet rf (replicateLogsToFollower hb rf).
Proof.
  apply (quiet_intro _ _ ((fun i => GAppend i hb) <$> others rf)); try done.
  apply Forall_fmap, Forall_forall. intros j Hj. apply others_ok in Hj as [_ Hj]. exact Hj.
Qed.

Lemma quiet_heartbeat rf :
  quiet rf (let '(rf', again) := heartbeat rf in if again : bool then spawn GHeartbeat rf' else rf').
Proof.
  unfold heartbeat. case_bool; [quiet_done..|].
  apply (quiet_intro _ _ [GReplicate true; GHeartbeat]); try done; [|by repeat constructor].
  cbn. by rewrite <- app_assoc.
Qed.

(** The two ways a vote reply is handled. *)
Lemma handleVoteReply_cases e reply rf :
  quiet rf (handleVoteReply e reply rf) \/
  exists args v, elections rf !! e = Some (args, v) /\ rv_Term args = currentTerm (Stat rf) /\
    whoami rf = Candidate /\ rvr_VoteGranted reply = true /\
    let rf' := handleVoteReply e reply rf in
    elections rf' = <[e := (args, v + 1)]> (elections rf) /\
    currentTerm (Stat rf') = currentTerm (Stat rf) /\ votedFor (Stat rf') = votedFor (Stat rf) /\
    peers rf' = peers rf /\
    (spawned rf' = spawned rf \/ spawned rf' = spawned rf ++ [GHeartbeat]) /\
    (whoami rf' = Leader -> v + 1 > Z.of_nat (peers rf) / 2).
Proof.
  unfold handleVoteReply. destruct (elections rf !! e) as [[args v]|] eqn:E; [|left; quiet_done].
  case_bool; try (left; quiet_done); [left; apply quiet_convertToFollower|right..];
    exists args, v; cbn in *; split_and!; auto; (lia || congruence).
Qed.

(** ** Votes in the network *)

Definition vote_call c : option (nat * RequestVoteArgs) :=
  match c_body c with VoteCall e a => Some (e, a) | AppendCall _ => None end.

Definition granted c : bool :=
  match c_status c with
  | Executed (VoteReply r) | Finished (VoteReply r) => rvr_VoteGranted r
  | _ => false
  end.

Definition counted c : bool :=
  match c_status c with Finished (VoteReply r) => rvr_VoteGranted r | _ => false end.

(** Call [c] asks for a vote in election [e] of incarnation [ep] of peer [i]. *)
Definition of_election (i ep e : nat) c : bool :=
  Nat.eqb (c_from c) i && Nat.eqb (c_epoch c) ep &&
  match c_body c with VoteCall e' _ => Nat.eqb e' e | AppendCall _ => false end.

Definition targets (i ep e : nat) (cs : list (RpcCall C)) : list nat :=
  c_to <$> filter (fun c => of_election i ep e c = true) cs.

Definition voters (i ep e : nat) (cs : list (RpcCall C)) : list nat :=
  c_to <$> filter (fun c => of_election i ep e c && counted c = true) cs.

Definition asks (e : nat) (g : Goroutine) : bool :=
  match g with GVote _ e' => Nat.eqb e' e | _ => false end.

Definition vote_target (g : Goroutine) : nat := match g with GVote j _ => j | _ => 0%nat end.

Definition pool_targets (e : nat) (pool : list Goroutine) : list nat :=
  vote_target <$> filter (fun g => asks e g = true) pool.

(** Peer [v] is past term [t], or in it with its vote given to [x]. *)
Definition stands w (v : nat) (t x : Z) : Prop :=
  exists s, servers w !! v = Some s /\
    (t < currentTerm (Stat (s_raft s)) \/
     t = currentTerm (Stat (s_raft s)) /\ votedFor (Stat (s_raft s)) = x).

(** Peer [v] has run an election in term [t]. *)
Definition ran w (v : nat) (t : Z) : Prop :=
  (exists k c e a, calls w !! k = Some c /\ c_from c = v /\ vote_call c = Some (e, a) /\ rv_Term a = t) \/
  (exists s e a cnt, servers w !! v = Some s /\ elections (s_raft s) !! e = Some (a, cnt) /\ rv_Term a = t).

Definition call_ok w c : Prop :=
  (c_from c < length (servers w))%nat /\ (c_to c < length (servers w))%nat /\
  (forall args, c_body c = AppendCall args ->
     append_args_ok args /\ (forall r, c_status c = Executed (AppendReply r) -> append_reply_ok r)) /\
  (forall e a, vote_call c = Some (e, a) ->
     c_from c <> c_to c /\ rv_CandidateId a = Z.of_nat (c_from c) /\
     forall s, servers w !! c_from c = Some s ->
       (c_epoch c <= s_epoch s)%nat /\
       (c_epoch c = s_epoch s -> exists cnt, elections (s_raft s) !! e = Some (a, cnt))).

Definition goroutine_ok (i n m : nat) (g : Goroutine) : Prop :=
  match g with
  | GVote j e => j <> i /\ (j < n)%nat /\ (e < m)%nat
  | GAppend j _ => (j < n)%nat
  | _ => True
  end.

Definition leader_ok rf : Prop :=
  exists e a cnt, elections rf !! e = Some (a, cnt) /\
    rv_Term a = currentTerm (Stat rf) /\ Z.of_nat (peers rf) / 2 < cnt.

Record Inv w : Prop := mk_Inv {
  inv_server : forall i s, servers w !! i = Some s ->
    peer_ok zero_cmd (s_raft s) /\ me (s_raft s) = i /\ peers (s_raft s) = length (servers w);
  inv_call : forall k c, calls w !! k = Some c -> call_ok w c;
  inv_election : forall i s e a cnt, servers w !! i = Some s ->
    elections (s_raft s) !! e = Some (a, cnt) ->
    rv_CandidateId a = Z.of_nat i /\ cnt <= 1 + zlen (voters i (s_epoch s) e (calls w));
  inv_ran : forall v t, ran w v t -> stands w v t (Z.of_nat v);
  inv_granted : forall k c e a, calls w !! k = Some c -> vote_call c = Some (e, a) ->
    granted c = true ->
    stands w (c_to c) (rv_Term a) (rv_CandidateId a) /\ ~ ran w (c_to c) (rv_Term a);
  inv_unique : forall k1 k2 c1 c2 e1 e2 a1 a2,
    calls w !! k1 = Some c1 -> calls w !! k2 = Some c2 ->
    vote_call c1 = Some (e1, a1) -> vote_call c2 = Some (e2, a2) ->
    granted c1 = true -> granted c2 = true ->
    c_to c1 = c_to c2 -> rv_Term a1 = rv_Term a2 -> rv_CandidateId a1 = rv_CandidateId a2;
  inv_pool : forall i s, servers w !! i = Some s ->
    Forall (goroutine_ok i (length (servers w)) (length (elections (s_raft s)))) (spawned (s_raft s)) /\
    forall e, NoDup (pool_targets e (spawned (s_raft s)) ++ targets i (s_epoch s) e (calls w));
  inv_leader : forall i s, servers w !! i = Some s ->
    whoami (s_raft s) = Leader -> leader_ok (s_raft s)
}.

Lemma of_election_true i ep e c :
  of_election i ep e c = true <->
  c_from c = i /\ c_epoch c = ep /\ exists a, vote_call c = Some (e, a).
Proof.
  unfold of_election, vote_call. rewrite !andb_true_iff, !Nat.eqb_eq.
  destruct (c_body c) as [e' a|]; rewrite ?Nat.eqb_eq; split.
  - intros [[-> ->] ->]. eauto.
  - intros (-> & -> & a' & ?). by simplify_eq.
  - by intros [_ ?].
  - by intros (_ & _ & a & ?).
Qed.

Lemma counted_granted c : counted c = true -> granted c = true.
Proof. unfold counted, granted. destruct (c_status c) as [| |[]|]; done. Qed.

Lemma voters_sublist i ep e cs : voters i ep e cs `sublist_of` targets i ep e cs.
Proof.
  apply fmap_sublist. induction cs as [|c cs IH]; [done|].
  rewrite !filter_cons. repeat case_decide; bool_to_prop;
    [by apply sublist_skip|congruence|by apply sublist_cons|done].
Qed.

(** ** One server changes *)

Lemma stands_upd w i s s' v t x :
  servers w !! i = Some s -> advances (s_raft s) (s_raft s') -> x <> -1 ->
  stands w v t x -> stands (upd_server i s' w) v t x.
Proof.
  intros Hi (_ & _ & Hadv) Hx (sv & Hv & Hst). unfold stands. cbn.
  destruct (decide (v = i)) as [->|Hne].
  - simplify_eq. exists s'. split; [by eapply list_lookup_insert_eq, lookup_lt_Some|].
    intuition (lia || congruence).
  - exists sv. by rewrite list_lookup_insert_ne.
Qed.

Lemma ran_upd w i s s' v t :
  servers w !! i = Some s ->
  (forall e a cnt, elections (s_raft s') !! e = Some (a, cnt) ->
     exists e cnt', elections (s_raft s) !! e = Some (a, cnt')) ->
  ran (upd_server i s' w) v t -> ran w v t.
Proof.
  intros Hi He [?|(sv & e & a & cnt & Hv & Hel & Ht)]; [by left|]. right.
  apply list_lookup_insert_Some in Hv as [(-> & -> & _)|(Hne & Hv)]; [|by eauto 10].
  apply He in Hel as (e' & cnt' & ?). eauto 10.
Qed.

Lemma elections_args (l l' : list (RequestVoteArgs * Z)) e a cnt :
  fst <$> l' = fst <$> l -> l' !! e = Some (a, cnt) -> exists cnt', l !! e = Some (a, cnt').
Proof.
  intros Heq Hl. assert (H : (fst <$> l) !! e = Some a) by (rewrite <- Heq, list_lookup_fmap, Hl; done).
  rewrite list_lookup_fmap in H. destruct (l !! e) as [[a' c']|]; cbn in H; simplify_eq. eauto.
Qed.

Lemma Inv_server w i s s' :
  Inv w -> servers w !! i = Some s ->
  peer_ok zero_cmd (s_raft s') -> advances (s_raft s) (s_raft s') -> s_epoch s' = s_epoch s ->
  fst <$> elections (s_raft s') = fst <$> elections (s_raft s) ->
  (forall e a cnt, elections (s_raft s') !! e = Some (a, cnt) ->
     cnt <= 1 + zlen (voters i (s_epoch s) e (calls w))) ->
  Forall (goroutine_ok i (length (servers w)) (length (elections (s_raft s')))) (spawned (s_raft s')) ->
  (forall e, pool_targets e (spawned (s_raft s')) `sublist_of` pool_targets e (spawned (s_raft s))) ->
  (whoami (s_raft s') = Leader -> leader_ok (s_raft s')) ->
  Inv (upd_server i s' w).
Proof.
  intros [] Hi Hok Hadv Hep Hel Hcnt Hpool Hsub Hlead.
  assert (Hlen : length (servers (upd_server i s' w)) = length (servers w)) by apply length_insert.
  assert (Hran : forall v t, ran (upd_server i s' w) v t -> ran w v t).
  { intros v t. apply (ran_upd _ _ s); [done|]. intros e a cnt H.
    destruct (elections_args _ _ _ _ _ Hel H) as [cnt' ?]. eauto. }
  destruct (inv_server0 i s Hi) as (_ & Hme & Hpe). destruct (Hadv) as (Hme' & Hpe' & _).
  constructor; rewrite ?Hlen.
  - intros j sj [(<- & <- & _)|(Hne & Hj)]%list_lookup_insert_Some; [|by eauto].
    split; [done|]. split; congruence.
  - intros k c Hk. destruct (inv_call0 k c Hk) as (Hf & Ht & Hap & Hv).
    unfold call_ok. rewrite Hlen. split_and!; auto. intros e a Hc.
    destruct (Hv e a Hc) as (? & ? & Hs). split_and!; auto.
    intros sj [(Hfi & <- & _)|(Hne & Hj)]%list_lookup_insert_Some; [|by eauto].
    rewrite <- Hfi in Hs.
    destruct (Hs s Hi) as [Hle He]. rewrite Hep. split; [done|].
    intros Heq. destruct (He Heq) as [cnt Hcnt'].
    exact (elections_args _ _ _ _ _ (eq_sym Hel) Hcnt').
  - intros j sj e a cnt [(<- & <- & _)|(Hne & Hj)]%list_lookup_insert_Some Hx; [|by eauto].
    rewrite Hep. split; [|by eauto].
    destruct (elections_args _ _ _ _ _ Hel Hx) as [cnt' H']. by destruct (inv_election0 _ _ _ _ _ Hi H').
  - intros v t Hr. apply (stands_upd _ _ s); [done..|lia|]. by apply inv_ran0, Hran.
  - intros k c e a Hk Hc Hg. destruct (inv_granted0 k c e a Hk Hc Hg) as [Hs Hn]. split; [|by auto].
    apply (stands_upd _ _ s); [done..| |done].
    destruct (inv_call0 k c Hk) as (_ & _ & _ & Hv). destruct (Hv e a Hc) as (_ & -> & _). lia.
  - done.
  - intros j sj [(<- & <- & _)|(Hne & Hj)]%list_lookup_insert_Some; [|by eauto].
    rewrite Hep. split; [done|]. intros e. destruct (inv_pool0 i s Hi) as [_ Hnd].
    eapply sublist_NoDup; [apply Hnd|]. apply sublist_app; [done|]. done.
  - intros j sj [(<- & <- & _)|(Hne & Hj)]%list_lookup_insert_Some; by eauto.
Qed.

Lemma pool_targets_app e p q : pool_targets e (p ++ q) = pool_targets e p ++ pool_targets e q.
Proof. unfold pool_targets. by rewrite filter_app, fmap_app. Qed.

Lemma pool_targets_harmless n e p : Forall (harmless n) p -> pool_targets e p = [].
Proof.
  unfold pool_targets. induction 1 as [|g p Hg _ IH]; [done|]. rewrite filter_cons.
  by destruct g.
Qed.

Lemma harmless_ok i n m p : Forall (harmless n) p -> Forall (goroutine_ok i n m) p.
Proof. intros Hp. eapply Forall_impl; [done|]. intros []; cbn; tauto. Qed.

(** A server makes a quiet change. *)
Lemma Inv_quiet w i s s' :
  Inv w -> servers w !! i = Some s -> s_epoch s' = s_epoch s ->
  peer_ok zero_cmd (s_raft s') /\ advances (s_raft s) (s_raft s') ->
  quiet (s_raft s) (s_raft s') ->
  Inv (upd_server i s' w).
Proof.
  intros HI Hi Hep [Hok Hadv] (Hel & (extra & Hsp & Hx) & Hpe & Hl).
  destruct (inv_pool _ HI i s Hi) as [Hpool _].
  destruct (inv_server _ HI i s Hi) as (_ & _ & Hpe').
  eapply Inv_server; eauto.
  - by rewrite Hel.
  - rewrite Hel. intros e a cnt He. by destruct (inv_election _ HI _ _ _ _ _ Hi He).
  - rewrite Hel, Hsp. apply Forall_app. split; [done|]. rewrite <- Hpe'. by apply harmless_ok.
  - intros e. rewrite Hsp, pool_targets_app, (pool_targets_harmless _ _ _ Hx), app_nil_r. done.
  - intros Hw. destruct (Hl Hw) as [Hw' Ht].
    destruct (inv_leader _ HI _ _ Hi Hw') as (e & a & cnt & He & Hta & Hc).
    exists e, a, cnt. by rewrite Hel, Ht, Hpe.
Qed.

(** A goroutine leaves the pool. *)
Lemma Inv_unpool w i s k :
  Inv w -> servers w !! i = Some s ->
  Inv (upd_server i (set_raft (set_spawned (delete k (spawned (s_raft s))) (s_raft s)) s) w).
Proof.
  intros HI Hi. destruct (inv_pool _ HI i s Hi) as [Hpool _].
  destruct (inv_server _ HI i s Hi) as (Hok & _ & _).
  eapply Inv_server; eauto; cbn.
  - by eapply peer_ok_frame.
  - by apply advances_frame.
  - intros e a cnt He. by destruct (inv_election _ HI _ _ _ _ _ Hi He).
  - apply Forall_forall. intros g Hg. rewrite Forall_forall in Hpool. apply Hpool.
    by eapply sublist_subseteq; [apply sublist_delete|].
  - intros e. apply filter_delete_sublist.
  - apply (inv_leader _ HI i s Hi).
Qed.

(** A vote is counted: the call's status was set before, so it is among the voters. *)
Lemma Inv_count w i s e reply :
  Inv w -> servers w !! i = Some s ->
  (forall a v, elections (s_raft s) !! e = Some (a, v) -> rvr_VoteGranted reply = true ->
     v + 1 <= 1 + zlen (voters i (s_epoch s) e (calls w))) ->
  Inv (upd_server i (set_raft (handleVoteReply e reply (s_raft s)) s) w).
Proof.
  intros HI Hi Hv. destruct (inv_server _ HI i s Hi) as (Hok & Hme & Hpe).
  pose proof (handleVoteReply_ok zero_cmd e reply (s_raft s) Hok) as [Hok' Hadv].
  destruct (handleVoteReply_cases e reply (s_raft s))
    as [Hq|(a & v & He & Hta & Hw & Hg & Hel & Ht & Hvf & Hp & Hsp & Hl)].
  { eapply Inv_quiet; eauto. }
  destruct (inv_pool _ HI i s Hi) as [Hpool _].
  eapply Inv_server; eauto; cbn.
  - rewrite Hel, list_fmap_insert. apply list_insert_id. by rewrite list_lookup_fmap, He.
  - rewrite Hel. intros e' a' cnt' [(<- & ? & _)|(Hne & He')]%list_lookup_insert_Some.
    + simplify_eq. eauto.
    + by destruct (inv_election _ HI _ _ _ _ _ Hi He').
  - rewrite Hel, length_insert. destruct Hsp as [-> | ->]; [done|].
    apply Forall_app. split; [done|by repeat constructor].
  - intros e'. destruct Hsp as [-> | ->]; [done|]. by rewrite pool_targets_app, app_nil_r.
  - intros Hld. exists e, a, (v + 1). rewrite Hel, Ht, Hp. split_and!; [|done|].
    + by eapply list_lookup_insert_eq, lookup_lt_Some.
    + specialize (Hl Hld). lia.
Qed.

(** ** A call is added or changes its status *)

Lemma ran_call w k c st v t :
  calls w !! k = Some c -> ran (upd_call k (set_status st c) w) v t <-> ran w v t.
Proof.
  intros Hk. unfold ran. cbn. apply or_iff_compat_r. split.
  - intros (k' & c' & e & a & [(<- & <- & _)|(Hne & H)]%list_lookup_insert_Some & Hf & Hv & Ht);
      [by exists k, c, e, a|by exists k', c', e, a].
  - intros (k' & c' & e & a & H & Hf & Hv & Ht). destruct (decide (k = k')) as [<-|Hne].
    + simplify_eq. exists k, (set_status st c), e, a. split; [|done].
      by eapply list_lookup_insert_eq, lookup_lt_Some.
    + exists k', c', e, a. by rewrite list_lookup_insert_ne.
Qed.

Lemma voters_status w k c st i ep e :
  calls w !! k = Some c -> counted c = false ->
  voters i ep e (calls (upd_call k (set_status st c) w)) ≡ₚ
  (if of_election i ep e c && counted (set_status st c) then [c_to c] else [])
    ++ voters i ep e (calls w).
Proof.
  intros Hk Hc. unfold voters. cbn.
  assert (Hof : of_election i ep e (set_status st c) = of_election i ep e c) by done.
  destruct (of_election i ep e c && counted (set_status st c)) eqn:E; cbn.
  - rewrite (filter_insert_add _ c_to _ _ c); [done|done| |by rewrite Hof].
    rewrite Hc, andb_false_r. done.
  - rewrite (filter_insert_keep _ c_to _ _ c); [done|done| |done].
    rewrite Hof, E, Hc, andb_false_r. done.
Qed.

Lemma targets_status w k c st i ep e :
  calls w !! k = Some c ->
  targets i ep e (calls (upd_call k (set_status st c) w)) = targets i ep e (calls w).
Proof. intros Hk. by apply (filter_insert_keep _ c_to _ _ c). Qed.

Lemma Inv_status w k c st :
  Inv w -> calls w !! k = Some c -> counted c = false ->
  (forall r, st = Executed (AppendReply r) -> append_reply_ok r) ->
  (granted (set_status st c) = true -> granted c = false -> forall e a, vote_call c = Some (e, a) ->
     stands w (c_to c) (rv_Term a) (rv_CandidateId a) /\ ~ ran w (c_to c) (rv_Term a) /\
     forall k' c' e' a', calls w !! k' = Some c' -> vote_call c' = Some (e', a') ->
       granted c' = true -> c_to c' = c_to c -> rv_Term a' = rv_Term a ->
       rv_CandidateId a' = rv_CandidateId a) ->
  Inv (upd_call k (set_status st c) w).
Proof.
  intros HI Hk Hcnt Hap Hnew. pose proof HI as [].
  assert (Hlk : forall k' c', calls (upd_call k (set_status st c) w) !! k' = Some c' ->
    exists c0, calls w !! k' = Some c0 /\
      (c' = c0 \/ k' = k /\ c0 = c /\ c' = set_status st c)).
  { intros k' c' [(<- & <- & _)|(Hne & H)]%list_lookup_insert_Some; eauto 10. }
  assert (Hcase : forall k' c' e a, calls (upd_call k (set_status st c) w) !! k' = Some c' ->
    vote_call c' = Some (e, a) -> granted c' = true ->
    exists c0, calls w !! k' = Some c0 /\ vote_call c0 = Some (e, a) /\ c_to c' = c_to c0 /\
      (granted c0 = true \/ granted c0 = false /\ c0 = c /\ granted (set_status st c) = true)).
  { intros k' c' e a (c0 & Hc0 & [->|(-> & -> & ->)])%Hlk Hv Hg; [by eauto 10|].
    exists c. destruct (granted c) eqn:E; eauto 10. }
  constructor; auto; cbn [servers upd_call].
  - intros k' c' (c0 & Hc0 & Hor)%Hlk. destruct (inv_call0 _ _ Hc0) as (Hf & Ht & Ha & Hv).
    destruct Hor as [->|(-> & -> & ->)]; [done|]. split_and!; auto.
    intros args Hb. destruct (Ha args Hb). split; [done|]. cbn. by apply Hap.
  - intros i s e a cnt Hi He. destruct (inv_election0 _ _ _ _ _ Hi He) as [? Hle]. split; [done|].
    unfold zlen in *. rewrite (voters_status w k c st _ _ _ Hk Hcnt), length_app. lia.
  - intros v t Hr. apply inv_ran0. by apply (ran_call w k c st) in Hr.
  - intros k' c' e a Hk' Hv Hg. rewrite (ran_call w k c st) by done.
    destruct (Hcase _ _ _ _ Hk' Hv Hg) as (c0 & Hc0 & Hv0 & -> & [Hg0|(Hg0 & -> & Hst)]).
    + by eapply inv_granted0.
    + by destruct (Hnew Hst Hg0 e a Hv0) as (? & ? & _).
  - intros k1 k2 c1 c2 e1 e2 a1 a2 H1 H2 Hv1 Hv2 Hg1 Hg2 Hto Ht.
    destruct (Hcase _ _ _ _ H1 Hv1 Hg1) as (d1 & Hd1 & Hw1 & Ht1 & [Hh1|(Hh1 & -> & Hs1)]);
    destruct (Hcase _ _ _ _ H2 Hv2 Hg2) as (d2 & Hd2 & Hw2 & Ht2 & [Hh2|(Hh2 & -> & Hs2)]).
    + eapply (inv_unique0 k1 k2); eauto; congruence.
    + destruct (Hnew Hs2 Hh2 _ _ Hw2) as (_ & _ & Hu). apply (Hu k1 d1 e1 a1); done || congruence.
    + destruct (Hnew Hs1 Hh1 _ _ Hw1) as (_ & _ & Hu). symmetry.
      apply (Hu k2 d2 e2 a2); done || congruence.
    + congruence.
  - intros i s Hi. destruct (inv_pool0 _ _ Hi) as [? Hnd]. split; [done|].
    intros e. rewrite (targets_status w k c st) by done. apply Hnd.
Qed.

Lemma ran_add w c v t :
  (forall e a, vote_call c = Some (e, a) -> ran w (c_from c) (rv_Term a)) ->
  ran (add_call c w) v t -> ran w v t.
Proof.
  intros Hc [(k & c' & e & a & Hk & Hf & Hv & Ht)|?]; [|by right].
  apply lookup_app_Some in Hk as [Hk|[_ Hk]]; [left; eauto 10|].
  apply list_lookup_singleton_Some in Hk as [_ <-]. subst. eauto.
Qed.

Lemma voters_app i ep e cs c :
  voters i ep e (cs ++ [c]) = voters i ep e cs ++ voters i ep e [c].
Proof. unfold voters. by rewrite filter_app, fmap_app. Qed.

Lemma targets_app i ep e cs c :
  targets i ep e (cs ++ [c]) =
  targets i ep e cs ++ (if of_election i ep e c then [c_to c] else []).
Proof.
  unfold targets. rewrite filter_app, fmap_app. f_equal. rewrite filter_cons.
  by destruct (of_election i ep e c).
Qed.

Lemma Inv_add w c :
  Inv w -> call_ok w c -> c_status c = Sent ->
  (forall e a, vote_call c = Some (e, a) -> ran w (c_from c) (rv_Term a)) ->
  (forall s e, servers w !! c_from c = Some s -> of_election (c_from c) (s_epoch s) e c = true ->
     c_to c ∉ pool_targets e (spawned (s_raft s)) ++ targets (c_from c) (s_epoch s) e (calls w)) ->
  Inv (add_call c w).
Proof.
  intros [] Hc Hst Hran Hfresh.
  assert (Hlk : forall k c', calls (add_call c w) !! k = Some c' -> calls w !! k = Some c' \/ c' = c).
  { intros k c' [Hk|[_ Hk]]%lookup_app_Some; [by left|].
    apply list_lookup_singleton_Some in Hk as [_ <-]. by right. }
  assert (Hng : granted c = false) by (unfold granted; by rewrite Hst).
  constructor; auto; cbn [servers add_call].
  - intros k c' [Hk| ->]%Hlk; [by eapply inv_call0|done].
  - intros i s e a cnt Hi He. destruct (inv_election0 _ _ _ _ _ Hi He) as [? Hle]. split; [done|].
    cbn [calls add_call]. rewrite voters_app, zlen_app. pose proof (zlen_nonneg (voters i (s_epoch s) e [c])). lia.
  - intros v t Hr. apply inv_ran0. by eapply ran_add.
  - intros k c' e a [Hk| ->]%Hlk Hv Hg; [|congruence].
    destruct (inv_granted0 _ _ _ _ Hk Hv Hg) as [? Hn]. split; [done|].
    intros Hr. by eapply Hn, ran_add.
  - intros k1 k2 c1 c2 e1 e2 a1 a2 [H1| ->]%Hlk [H2| ->]%Hlk ?? Hg1 Hg2; try congruence.
    by eapply inv_unique0.
  - intros i s Hi. destruct (inv_pool0 _ _ Hi) as [? Hnd]. split; [done|]. intros e.
    cbn [calls add_call]. rewrite targets_app. specialize (Hnd e).
    destruct (of_election i (s_epoch s) e c) eqn:E; [|by rewrite app_nil_r].
    rewrite app_assoc. apply NoDup_app. split; [done|]. split; [|apply NoDup_singleton].
    intros x Hx ->%list_elem_of_singleton. pose proof E as (<- & _)%of_election_true.
    by apply (Hfresh s e).
Qed.

(** The closure of [CandidateRequestVote] for one peer sends its request. *)
Lemma Inv_ask w i s k j e a cnt :
  Inv w -> servers w !! i = Some s -> spawned (s_raft s) !! k = Some (GVote j e) ->
  elections (s_raft s) !! e = Some (a, cnt) ->
  let s' := set_raft (set_spawned (delete k (spawned (s_raft s))) (s_raft s)) s in
  Inv (add_call (mkRpcCall i (s_epoch s) j (VoteCall e a) Sent) (upd_server i s' w)).
Proof.
  intros HI Hi Hk He s'. pose proof (Inv_unpool w i s k HI Hi) as HI'. fold s' in HI'.
  assert (Hs' : servers (upd_server i s' w) !! i = Some s')
    by (by eapply list_lookup_insert_eq, lookup_lt_Some).
  destruct (inv_pool _ HI i s Hi) as [Hpool Hnd].
  pose proof (Forall_lookup_1 _ _ _ _ Hpool Hk) as (Hji & Hjn & Hem).
  destruct (inv_election _ HI _ _ _ _ _ Hi He) as [Hcand _].
  assert (Hlen : length (servers (upd_server i s' w)) = length (servers w)) by apply length_insert.
  apply Inv_add; [done| |done| |].
  - split_and!; cbn; rewrite ?length_insert; [by eapply lookup_lt_Some|done|done|].
    intros e0 a0 Hv. injection Hv as <- <-. split_and!; [done|done|]. intros s0 Hs0.
    pose proof (eq_trans (eq_sym Hs') Hs0) as Heq. injection Heq as <-. cbn. split; [done|]. eauto.
  - intros e0 a0 Hv. injection Hv as <- <-. right. exists s', e, a, cnt. split_and!; [exact Hs'|exact He|done].
  - cbn. intros s0 e0 Hs0 (_ & _ & a0 & Hv)%of_election_true.
    pose proof (eq_trans (eq_sym Hs') Hs0) as Heq. injection Heq as <-. injection Hv as <- <-. specialize (Hnd e).
    unfold pool_targets in *.
    rewrite (filter_delete_one _ vote_target _ _ _ Hk) in Hnd by (cbn; by rewrite Nat.eqb_refl).
    cbn in Hnd. by apply NoDup_cons in Hnd as [? _].
Qed.

Lemma Inv_send_append w i s j args :
  Inv w -> servers w !! i = Some s -> (j < length (servers w))%nat -> append_args_ok args ->
  Inv (add_call (mkRpcCall i (s_epoch s) j (AppendCall args) Sent) w).
Proof.
  intros HI Hi Hj Ha. apply Inv_add; [done| |done|done|].
  - split_and!; cbn; [by eapply lookup_lt_Some|done| |done]. intros args' Hb. by simplify_eq.
  - intros s0 e _ H. apply of_election_true in H as (_ & _ & a & Hv). done.
Qed.

(** ** Elections and restarts *)

Lemma call_election w i s k c e a :
  Inv w -> servers w !! i = Some s -> calls w !! k = Some c -> c_from c = i ->
  vote_call c = Some (e, a) -> c_epoch c = s_epoch s -> (e < length (elections (s_raft s)))%nat.
Proof.
  intros HI Hi Hk <- Hv Hep. destruct (inv_call _ HI _ _ Hk) as (_ & _ & _ & Hc).
  destruct (Hc _ _ Hv) as (_ & _ & Hs). destruct (Hs _ Hi) as [_ He].
  destruct (He Hep) as [cnt Hl]. by eapply lookup_lt_Some.
Qed.

(** No call has a vote target where no election or incarnation is. *)
Lemma targets_none i ep e (cs : list (RpcCall C)) :
  (forall k c, cs !! k = Some c -> of_election i ep e c = false) -> targets i ep e cs = [].
Proof.
  unfold targets. induction cs as [|c cs IH]; intros Hno; [done|].
  rewrite filter_cons, (Hno 0%nat c eq_refl). case_decide; [done|].
  apply IH. intros k c'. apply (Hno (S k)).
Qed.

Lemma StartElection_fields now r rf :
  let rf' := StartElection now r rf in
  currentTerm (Stat rf') = currentTerm (Stat rf) + 1 /\ votedFor (Stat rf') = Z.of_nat (me rf) /\
  whoami rf' = Candidate /\
  spawned rf' = spawned rf ++ ((fun i => GVote i (length (elections rf))) <$> others rf) /\
  exists a, elections rf' = elections rf ++ [(a, 1)] /\ rv_Term a = currentTerm (Stat rf) + 1 /\
            rv_CandidateId a = Z.of_nat (me rf).
Proof. cbn. split_and!; try done. eexists. split_and!; done. Qed.

Lemma pool_targets_fresh i n m p : Forall (goroutine_ok i n m) p -> pool_targets m p = [].
Proof.
  unfold pool_targets. induction 1 as [|g p Hg _ IH]; [done|]. rewrite filter_cons.
  case_decide as Ha; [|done]. destruct g; try done. cbn in Ha, Hg.
  apply Nat.eqb_eq in Ha. lia.
Qed.

Lemma pool_targets_vote e l : forall e', pool_targets e' ((fun i => GVote i e) <$> l) = if Nat.eqb e e' then l else [].
Proof.
  intros e'. unfold pool_targets. induction l as [|j l IH]; [by destruct (Nat.eqb e e')|].
  rewrite fmap_cons, filter_cons. cbn [asks]. destruct (Nat.eqb e e') eqn:E; case_decide; try done.
  cbn. by rewrite IH.
Qed.

(** [StartElection] extends what was run by one term, above the peer's old one. *)
Lemma ran_start w i s now r v t :
  servers w !! i = Some s ->
  ran (upd_server i (set_raft (StartElection now r (s_raft s)) s) w) v t ->
  ran w v t \/ v = i /\ t = currentTerm (Stat (s_raft s)) + 1.
Proof.
  intros Hi [?|(sv & e & a & cnt & Hv & Hel & Ht)]; [by left; left|].
  apply list_lookup_insert_Some in Hv as [(<- & <- & _)|(Hne & Hv)]; [|by left; right; eauto 10].
  destruct (StartElection_fields now r (s_raft s)) as (_ & _ & _ & _ & a' & He' & Ht' & _).
  cbn [s_raft set_raft] in Hel. rewrite He' in Hel.
  apply lookup_app_Some in Hel as [Hel|[_ Hel]]; [left; right; eauto 10|].
  apply list_lookup_singleton_Some in Hel as [_ Hel]. right. split; [done|congruence].
Qed.

(** The goroutines that a new election adds ask every other peer once. *)
Lemma pool_start w i s :
  Inv w -> servers w !! i = Some s ->
  let m := length (elections (s_raft s)) in
  let p := spawned (s_raft s) ++ ((fun j => GVote j m) <$> others (s_raft s)) in
  Forall (goroutine_ok i (length (servers w)) (m + 1)) p /\
  forall e, NoDup (pool_targets e p ++ targets i (s_epoch s) e (calls w)).
Proof.
  intros HI Hi m p. destruct (inv_server _ HI _ _ Hi) as (_ & Hme & Hpe). destruct (inv_pool _ HI _ _ Hi) as [Hpool Hnd].
  subst m p. split.
  - apply Forall_app. split.
    + eapply Forall_impl; [exact Hpool|]. intros []; cbn; lia.
    + apply Forall_fmap, Forall_forall. intros x Hx. apply others_ok in Hx. cbn. lia.
  - intros e. rewrite pool_targets_app, pool_targets_vote.
    destruct (Nat.eqb_spec (length (elections (s_raft s))) e) as [<-|Hne]; [|rewrite app_nil_r; apply Hnd].
    rewrite (pool_targets_fresh _ _ _ _ Hpool), targets_none, app_nil_r; [apply others_NoDup|].
    intros k c Hk. apply not_true_is_false. intros (Hf & Hep & b & Hb)%of_election_true.
    pose proof (call_election w i s k c _ b HI Hi Hk Hf Hb Hep). lia.
Qed.

Lemma Inv_start w i s now r :
  Inv w -> servers w !! i = Some s ->
  Inv (upd_server i (set_raft (StartElection now r (s_raft s)) s) w).
Proof.
  intros HI Hi. pose proof HI as []. destruct (inv_server0 _ _ Hi) as (Hok & Hme & Hpe).
  destruct (StartElection_ok zero_cmd now r (s_raft s) Hok) as [Hok' Hadv].
  destruct (StartElection_fields now r (s_raft s)) as (Ht & Hv & Hw & Hsp & a & Hel & Hta & Hca).
  pose proof (ran_start w i s now r) as Hran.
  set (rf' := StartElection now r (s_raft s)) in *. clearbody rf'. set (s' := set_raft rf' s) in *.
  assert (Hlen : length (servers (upd_server i s' w)) = length (servers w)) by apply length_insert.
  assert (Hs' : servers (upd_server i s' w) !! i = Some s')
    by (by eapply list_lookup_insert_eq, lookup_lt_Some).
  destruct (inv_pool0 _ _ Hi) as [Hpool Hnd].
  assert (Hadv' : advances (s_raft s) (s_raft s')) by done.
  constructor; rewrite ?Hlen.
  - intros j sj [(<- & <- & _)|(Hne & Hj)]%list_lookup_insert_Some; [|by eauto].
    destruct Hadv as (? & ? & _). split; [done|]. cbn. split; congruence.
  - intros k c Hk. destruct (inv_call0 k c Hk) as (Hf & Hto & Hap & Hvc).
    unfold call_ok. rewrite Hlen. split_and!; auto. intros e b Hc.
    destruct (Hvc e b Hc) as (? & ? & Hs). split_and!; auto.
    intros sj [(Hfi & <- & _)|(Hne & Hj)]%list_lookup_insert_Some; [|by eauto].
    rewrite <- Hfi in Hs. destruct (Hs s Hi) as [Hle He]. cbn. split; [done|].
    intros Heq. destruct (He Heq) as [cnt Hc']. exists cnt. rewrite Hel.
    by apply lookup_app_l_Some.
  - intros j sj e b cnt [(<- & <- & _)|(Hne & Hj)]%list_lookup_insert_Some Hx; [|by eauto].
    cbn in Hx |- *. rewrite Hel in Hx. apply lookup_app_Some in Hx as [Hx|[_ Hx]]; [by eauto|].
    apply list_lookup_singleton_Some in Hx as [_ Hx]. simplify_eq. split; [congruence|].
    match goal with |- context [zlen ?l] => pose proof (zlen_nonneg l) end. lia.
  - intros v t [Hr|[-> ->]]%Hran; [|exists s'; split; [done|]; cbn; right; split; congruence|done].
    apply (stands_upd _ _ s); [done..|lia|]. by apply inv_ran0.
  - intros k c e b Hk Hc Hg. destruct (inv_granted0 k c e b Hk Hc Hg) as [Hst Hn]. split.
    + apply (stands_upd _ _ s); [done..| |done].
      destruct (inv_call0 k c Hk) as (_ & _ & _ & Hvc). destruct (Hvc e b Hc) as (_ & -> & _). lia.
    + intros [Hr|[Hci Htb]]%Hran; [by apply Hn| |done].
      destruct Hst as (s0 & Hs0 & Hor). rewrite Hci in Hs0. simplify_eq. lia.
  - done.
  - intros j sj [(<- & <- & _)|(Hne & Hj)]%list_lookup_insert_Some; [|by eauto].
    cbn [s' s_raft set_raft s_epoch calls upd_server]. rewrite Hsp, Hel, length_app. apply (pool_start w i s HI Hi).
  - intros j sj [(<- & <- & _)|(Hne & Hj)]%list_lookup_insert_Some; [|by eauto]. cbn. by rewrite Hw.
Qed.

Lemma Inv_crash w i s now r :
  Inv w -> servers w !! i = Some s ->
  Inv (upd_server i (boot zero_cmd (length (servers w)) i (Copy (persister (s_raft s)))
                       (S (s_epoch s)) now r) w).
Proof.
  intros HI Hi. pose proof HI as []. destruct (inv_server0 _ _ Hi) as (Hok & Hme & Hpe).
  destruct (Make_restart_ok zero_cmd now r (s_raft s) Hok) as (Hok' & Hadv & _).
  rewrite Hme, Hpe in Hok', Hadv.
  destruct (Make_fields zero_cmd (length (servers w)) i (Copy (persister (s_raft s))) now r)
    as (Hp & Hm & _ & Hw & Hsp & Hel & _).
  set (s' := boot _ _ _ _ _ _ _).
  assert (Hlen : length (servers (upd_server i s' w)) = length (servers w)) by apply length_insert.
  assert (Hran : forall v t, ran (upd_server i s' w) v t -> ran w v t).
  { intros v t. apply (ran_upd _ _ s); [done|]. cbn. rewrite Hel. done. }
  constructor; rewrite ?Hlen.
  - intros j sj [(<- & <- & _)|(Hne & Hj)]%list_lookup_insert_Some; by eauto.
  - intros k c Hk. destruct (inv_call0 k c Hk) as (Hf & Hto & Hap & Hvc).
    unfold call_ok. rewrite Hlen. split_and!; auto. intros e b Hc.
    destruct (Hvc e b Hc) as (? & ? & Hs). split_and!; auto.
    intros sj [(Hfi & <- & _)|(Hne & Hj)]%list_lookup_insert_Some; [|by eauto].
    rewrite <- Hfi in Hs. destruct (Hs s Hi) as [Hle _]. cbn. lia.
  - intros j sj e b cnt [(<- & <- & _)|(Hne & Hj)]%list_lookup_insert_Some Hx; [|by eauto].
    cbn in Hx. by rewrite Hel in Hx.
  - intros v t Hr%Hran. apply (stands_upd _ _ s); [done..|lia|]. by apply inv_ran0.
  - intros k c e b Hk Hc Hg. destruct (inv_granted0 k c e b Hk Hc Hg) as [Hst Hn]. split; [|by auto].
    apply (stands_upd _ _ s); [done..| |done].
    destruct (inv_call0 k c Hk) as (_ & _ & _ & Hvc). destruct (Hvc e b Hc) as (_ & -> & _). lia.
  - done.
  - intros j sj [(<- & <- & _)|(Hne & Hj)]%list_lookup_insert_Some; [|by eauto].
    cbn [s' boot s_raft s_epoch calls upd_server]. rewrite Hsp. split; [done|].
    intros e. rewrite targets_none; [constructor|].
    intros k c Hk. apply not_true_is_false. intros (<- & Hep & b & Hb)%of_election_true.
    destruct (inv_call0 k c Hk) as (_ & _ & _ & Hvc). destruct (Hvc _ _ Hb) as (_ & _ & Hs).
    destruct (Hs _ Hi). lia.
  - intros j sj [(<- & <- & _)|(Hne & Hj)]%list_lookup_insert_Some; [|by eauto]. cbn. by rewrite Hw.
Qed.

Lemma Inv_init n : Inv (init zero_cmd n).
Proof.
  assert (Hlk : forall i s, servers (init zero_cmd n) !! i = Some s ->
            (i < n)%nat /\ s = boot (byte:=byte) zero_cmd n i MakePersister 0 0 0).
  { intros i s. cbn. rewrite list_lookup_fmap. intros (j & Hj & ->)%fmap_Some.
    apply lookup_seq in Hj as [-> ?]. done. }
  assert (Hnr : forall v t, ~ ran (init (byte:=byte) zero_cmd n) v t).
  { intros v t [(k & c & e & a & Hk & _)|(s & e & a & cnt & [_ ->]%Hlk & He & _)]; done. }
  constructor.
  - intros i s [Hi ->]%Hlk. cbn [s_raft boot]. split; [by apply Make_fresh_ok|].
    split; [done|]. cbn. by rewrite length_fmap, length_seq.
  - done.
  - intros i s e a cnt [_ ->]%Hlk He. done.
  - intros v t Hr. by destruct (Hnr v t).
  - done.
  - done.
  - intros i s [_ ->]%Hlk. cbn. split; [done|]. intros e. constructor.
  - intros i s [_ ->]%Hlk. done.
Qed.

(** ** Every event keeps the invariant *)

Lemma RequestVote_granted now r args rf rf' reply :
  RequestVote now r args rf = (rf', reply) -> rvr_VoteGranted reply = true ->
  currentTerm (Stat rf') = rv_Term args /\ votedFor (Stat rf') = rv_CandidateId args /\
  (currentTerm (Stat rf) < rv_Term args \/
   currentTerm (Stat rf) = rv_Term args /\
   (votedFor (Stat rf) = -1 \/ votedFor (Stat rf) = rv_CandidateId args)).
Proof.
  unfold RequestVote. intros H Hg. destruct (rv_Term args <? _) eqn:E1; [simplify_eq; done|].
  destruct (rv_Term args >? _) eqn:E2; bool_to_prop;
    case_bool; simplify_eq; cbn in *; try done; split_and!; try lia; auto;
    right; (split; [lia|]); destruct_or?; bool_to_prop; auto.
Qed.

Lemma Inv_deliver_vote w k c e a s now r :
  Inv w -> calls w !! k = Some c -> c_status c = Sent -> c_body c = VoteCall e a ->
  servers w !! c_to c = Some s ->
  let '(rf', reply) := RequestVote now r a (s_raft s) in
  Inv (upd_call k (set_status (Executed (VoteReply reply)) c)
         (upd_server (c_to c) (set_raft rf' s) w)).
Proof.
  intros HI Hk Hst Hb Hs. destruct (inv_server _ HI _ _ Hs) as (Hok & _ & _).
  pose proof (RequestVote_ok zero_cmd now r a (s_raft s) Hok) as Hadv.
  pose proof (quiet_RequestVote now r a (s_raft s)) as Hq.
  destruct (RequestVote now r a (s_raft s)) as [rf' reply] eqn:E. cbn in Hadv, Hq.
  assert (HI' : Inv (upd_server (c_to c) (set_raft rf' s) w)) by by eapply Inv_quiet.
  destruct (inv_call _ HI _ _ Hk) as (_ & _ & _ & Hvc).
  assert (Hv : vote_call c = Some (e, a)) by (unfold vote_call; by rewrite Hb).
  destruct (Hvc _ _ Hv) as (Hne & Hcand & _).
  apply Inv_status; [done|done|unfold counted; by rewrite Hst|done|].
  intros Hg _ e0 a0 Hv0. rewrite Hv in Hv0. simplify_eq. cbn in Hg.
  destruct (RequestVote_granted _ _ _ _ _ _ E Hg) as (Ht' & Hv' & Hold).
  assert (Huse : forall x, 0 <= x -> stands w (c_to c) (rv_Term a0) x -> x = rv_CandidateId a0).
  { intros x Hx (s0 & Hs0 & Hor). rewrite Hs in Hs0. simplify_eq. lia. }
  split_and!.
  - exists (set_raft rf' s). split; [by eapply list_lookup_insert_eq, lookup_lt_Some|].
    right. by rewrite <- Ht'.
  - intros Hr. apply (ran_upd _ _ s) in Hr; [|done|].
    + apply inv_ran in Hr; [|done]. apply Huse in Hr; [|lia]. lia.
    + cbn. destruct Hq as [-> _]. eauto.
  - intros k' c' e' a' Hk' Hvc' Hg' Hto Hta.
    destruct (inv_granted _ HI _ _ _ _ Hk' Hvc' Hg') as [Hstd _]. rewrite Hto, Hta in Hstd.
    apply Huse in Hstd; [done|].
    destruct (inv_call _ HI _ _ Hk') as (_ & _ & _ & Hx). destruct (Hx _ _ Hvc') as (_ & -> & _). lia.
Qed.

Lemma Inv_reply_vote w k c e a reply s :
  Inv w -> calls w !! k = Some c -> c_status c = Executed (VoteReply reply) ->
  c_body c = VoteCall e a -> servers w !! c_from c = Some s -> c_epoch c = s_epoch s ->
  Inv (upd_call k (set_status (Finished (VoteReply reply)) c)
         (upd_server (c_from c) (set_raft (handleVoteReply e reply (s_raft s)) s) w)).
Proof.
  intros HI Hk Hst Hb Hs Hep.
  assert (Hcnt : counted c = false) by (unfold counted; by rewrite Hst).
  assert (HI' : Inv (upd_call k (set_status (Finished (VoteReply reply)) c) w)).
  { apply Inv_status; try done. unfold granted. rewrite Hst. cbn. congruence. }
  apply (Inv_count _ _ s e reply HI' Hs). intros a' v He Hg.
  destruct (inv_election _ HI _ _ _ _ _ Hs He) as [_ Hle].
  unfold zlen in *. rewrite (voters_status w k c _ _ _ _ Hk Hcnt), length_app.
  assert (Hof : of_election (c_from c) (s_epoch s) e c = true).
  { apply of_election_true. split_and!; auto. exists a. unfold vote_call. by rewrite Hb. }
  rewrite Hof. cbn. rewrite Hg. cbn. lia.
Qed.

Lemma heartbeat_ok rf :
  peer_ok zero_cmd rf ->
  let rf' := (let '(rf', again) := heartbeat rf in if again : bool then spawn GHeartbeat rf' else rf') in
  peer_ok zero_cmd rf' /\ advances rf rf'.
Proof.
  intros Hok. unfold heartbeat. case_bool; (split; [by eapply peer_ok_frame|by apply advances_frame]).
Qed.

(** Running a goroutine taken from the pool. *)
Lemma Inv_goroutine w i s k g now r :
  Inv w -> servers w !! i = Some s -> spawned (s_raft s) !! k = Some g ->
  exists w', run_goroutine i g now r
    (set_raft (set_spawned (delete k (spawned (s_raft s))) (s_raft s)) s) w = Next w' /\ Inv w'.
Proof.
  intros HI Hi Hk. pose proof (Inv_unpool w i s k HI Hi) as HI1.
  set (s1 := set_raft _ s) in *. set (w1 := upd_server i s1 w) in *.
  assert (Hs1 : servers w1 !! i = Some s1) by (by eapply list_lookup_insert_eq, lookup_lt_Some).
  assert (Hw1 : forall s2, upd_server i s2 w1 = upd_server i s2 w)
    by (intros s2; unfold upd_server, w1; cbn; by rewrite list_insert_insert_eq).
  destruct (inv_server _ HI1 _ _ Hs1) as (Hok1 & Hme1 & Hpe1).
  destruct (inv_pool _ HI i s Hi) as [Hpool _].
  pose proof (Forall_lookup_1 _ _ _ _ Hpool Hk) as Hg.
  assert (Hquiet : forall rf', peer_ok zero_cmd rf' /\ advances (s_raft s1) rf' -> quiet (s_raft s1) rf' ->
            Inv (upd_server i (set_raft rf' s1) w)).
  { intros rf' Hr Hq. rewrite <- Hw1. by eapply Inv_quiet. }
  destruct g as [| |hb|j hb|j e]; cbn [run_goroutine].
  - eexists. split; [done|]. apply Hquiet; [|by apply quiet_frame].
    split; [by eapply peer_ok_frame|by apply advances_frame].
  - pose proof (quiet_heartbeat (s_raft s1)) as Hq. pose proof (heartbeat_ok _ Hok1) as Hh.
    destruct (heartbeat (s_raft s1)) as [rf' again]. eexists. split; [done|]. by apply Hquiet.
  - eexists. split; [done|]. apply Hquiet; [|by apply quiet_replicate].
    split; [by eapply peer_ok_frame|by apply advances_frame].
  - assert (Hj : (j < peers (s_raft s1))%nat) by (rewrite Hpe1; cbn; by rewrite length_insert).
    destruct (makeAppendEntriesArgs_ok zero_cmd j hb _ Hok1 Hj) as (args & -> & Ha & _).
    eexists. split; [done|]. eapply (Inv_send_append w1); [done|exact Hs1| |done].
    by rewrite <- Hpe1.
  - destruct Hg as (_ & _ & He). destruct (lookup_lt_is_Some_2 _ _ He) as [[a cnt] Ha].
    change (elections (s_raft s1)) with (elections (s_raft s)). rewrite Ha.
    eexists. split; [done|]. exact (Inv_ask w i s k j e a cnt HI Hi Hk Ha).
Qed.

(** A server makes a quiet change that its method's lemma already covers. *)
Lemma Inv_method w i s rf' :
  Inv w -> servers w !! i = Some s ->
  (peer_ok zero_cmd (s_raft s) -> peer_ok zero_cmd rf' /\ advances (s_raft s) rf') ->
  quiet (s_raft s) rf' -> Inv (upd_server i (set_raft rf' s) w).
Proof.
  intros HI Hi Hok Hq. destruct (inv_server _ HI _ _ Hi) as (Ho & _). eapply Inv_quiet; eauto.
Qed.

Lemma Inv_tick w i s now r :
  Inv w -> servers w !! i = Some s -> Inv (upd_server i (set_raft (ticker now r (s_raft s)) s) w).
Proof.
  intros HI Hi. unfold ticker. case_bool; try by apply Inv_start.
  all: apply Inv_method; [done|done|intros; split; [done|apply advances_frame; done]|by apply quiet_frame].
Qed.

Lemma Inv_deliver w k c s now r :
  Inv w -> calls w !! k = Some c -> c_status c = Sent -> servers w !! c_to c = Some s ->
  exists rf' reply, deliver now r (c_body c) (s_raft s) = Some (rf', reply) /\
    Inv (upd_call k (set_status (Executed reply) c) (upd_server (c_to c) (set_raft rf' s) w)).
Proof.
  intros HI Hk Hst Hs. destruct (c_body c) as [e a|args] eqn:Hb; cbn [deliver].
  - pose proof (Inv_deliver_vote w k c e a s now r HI Hk Hst Hb Hs) as H'.
    destruct (RequestVote now r a (s_raft s)) as [rf' reply]. eauto.
  - destruct (inv_server _ HI _ _ Hs) as (Hok & _). destruct (inv_call _ HI _ _ Hk) as (_ & _ & Ha & _).
    destruct (Ha args Hb) as [Hargs _].
    destruct (AppendEntries_ok zero_cmd now r args (s_raft s) Hok Hargs) as (rf' & reply & E & Hok' & Hadv & Hr).
    rewrite E. cbn. eexists _, _. split; [done|].
    apply Inv_status; [eapply Inv_quiet; eauto using quiet_AppendEntries|done|
      unfold counted; by rewrite Hst|intros r' Hr'; by simplify_eq|done].
Qed.

Lemma Inv_reply w k c s reply :
  Inv w -> calls w !! k = Some c -> c_status c = Executed reply -> servers w !! c_from c = Some s ->
  c_epoch c = s_epoch s ->
  exists rf', handle (c_to c) (c_body c) reply (s_raft s) = Some rf' /\
    Inv (upd_call k (set_status (Finished reply) c) (upd_server (c_from c) (set_raft rf' s) w)).
Proof.
  intros HI Hk Hst Hs Hep. destruct (inv_server _ HI _ _ Hs) as (Hok & _ & Hpe).
  destruct (inv_call _ HI _ _ Hk) as (_ & Hto & Ha & _).
  assert (Hfin : forall w', Inv w' -> calls w' !! k = Some c ->
            Inv (upd_call k (set_status (Finished reply) c) w')).
  { intros w' HI' Hk'. apply Inv_status; try done; [unfold counted; by rewrite Hst|].
    unfold granted. rewrite Hst. cbn. destruct reply; congruence. }
  assert (Hsame : exists rf', Some (s_raft s) = Some rf' /\
    Inv (upd_call k (set_status (Finished reply) c) (upd_server (c_from c) (set_raft rf' s) w))).
  { eexists. split; [done|]. apply Hfin; [|done]. apply Inv_method; [done..| |by apply quiet_frame].
    intros _. split; [done|by apply advances_frame]. }
  destruct (c_body c) as [e a|args] eqn:Hb, reply as [rep|rep]; cbn [handle]; try done.
  - eexists. split; [done|]. by eapply Inv_reply_vote.
  - destruct (Ha args eq_refl) as [Hargs Hrep].
    destruct (handleAppendReply_ok zero_cmd (c_to c) args rep (s_raft s)) as (rf' & E & Hok' & Hadv);
      [done|lia|done|by apply Hrep|].
    rewrite E. eexists. split; [done|]. apply Hfin; [|done].
    eapply Inv_quiet; eauto using quiet_handleAppendReply.
Qed.

(** Every event keeps [Inv], and only the applier's slice expression can panic. *)
Lemma exec_Inv ev w :
  Inv w -> match exec zero_cmd ev w with
           | Next w' => Inv w'
           | Disabled => True
           | Panicked => exists i, ev = EvApplyBegin i
           end.
Proof.
  intros HI. destruct ev as [i now r|i k now r|k now r|k|k|i cmd|i|i|i|i now r]; cbn [exec].
  - destruct (servers w !! i) as [s|] eqn:Hi; [|done]. by apply Inv_tick.
  - destruct (servers w !! i) as [s|] eqn:Hi; [|done].
    destruct (spawned (s_raft s) !! k) as [g|] eqn:Hk; [|done].
    by destruct (Inv_goroutine w i s k g now r HI Hi Hk) as (w' & -> & ?).
  - destruct (calls w !! k) as [c|] eqn:Hk; [|done].
    destruct (c_status c) eqn:Hst; try done. destruct (servers w !! c_to c) as [s|] eqn:Hs; [|done].
    by destruct (Inv_deliver w k c s now r HI Hk Hst Hs) as (rf' & reply & -> & ?).
  - destruct (calls w !! k) as [c|] eqn:Hk; [|done].
    destruct (c_status c) eqn:Hst; try done; apply Inv_status; try done;
      unfold counted; by rewrite Hst.
  - destruct (calls w !! k) as [c|] eqn:Hk; [|done].
    destruct (c_status c) eqn:Hst; try done. destruct (servers w !! c_from c) as [s|] eqn:Hs; [|done].
    destruct (Nat.eqb_spec (c_epoch c) (s_epoch s)) as [Hep|]; [|done].
    by destruct (Inv_reply w k c s _ HI Hk Hst Hs Hep) as (rf' & -> & ?).
  - destruct (servers w !! i) as [s|] eqn:Hi; [|done].
    apply Inv_method; auto using Start_ok, quiet_Start.
  - destruct (servers w !! i) as [[ep rf [] msgs]|] eqn:Hi; [|done..].
    destruct (applyBegin rf) as [[[start entries]|]|]; [|by eauto|done].
    destruct (inv_server _ HI _ _ Hi) as (Hok & _).
    apply (Inv_quiet _ _ _ _ HI Hi); [done| |by apply quiet_frame].
    split; [done|by apply advances_frame].
  - destruct (servers w !! i) as [[ep rf [|start entries|] msgs]|] eqn:Hi; [done| |done..].
    destruct (inv_server _ HI _ _ Hi) as (Hok & _).
    apply (Inv_quiet _ _ _ _ HI Hi); [done|by apply applyEnd_ok|apply quiet_applyEnd].
  - destruct (servers w !! i) as [s|] eqn:Hi; [|done].
    apply Inv_method; [done|done| |by apply quiet_frame].
    intros Hok. split; [by eapply peer_ok_frame|by apply advances_frame].
  - destruct (servers w !! i) as [s|] eqn:Hi; [|done]. by apply Inv_crash.
Qed.

Lemma reachable_Inv n w : reachable zero_cmd n w -> Inv w.
Proof.
  induction 1 as [|w ev w' _ IH Hex]; [apply Inv_init|].
  pose proof (exec_Inv ev w IH) as H'. by rewrite Hex in H'.
Qed.

Lemma exec_length ev w w' : exec zero_cmd ev w = Next w' -> length (servers w') = length (servers w).
Proof.
  intros Hex. destruct ev; cbn in Hex; unfold run_goroutine in Hex;
    repeat (case_match; simplify_eq); cbn; by rewrite ?length_insert.
Qed.

Lemma reachable_length n w : reachable zero_cmd n w -> length (servers w) = n.
Proof.
  induction 1 as [|w ev w' _ IH Hex]; [cbn; by rewrite length_fmap, length_seq|].
  rewrite <- IH. by eapply exec_length.
Qed.

(** ** Election safety *)

(** Peer [i] has won an election of term [t]: a majority of itself and of peers whose grants it has counted.  This is
    recorded in the calls, and stays when [i] has stepped down or crashed. *)
Definition led w (i : nat) (t : Z) : Prop :=
  exists q, NoDup (i :: q) /\ Forall (fun v => (v < length (servers w))%nat) (i :: q) /\
    Z.of_nat (length (servers w)) / 2 < zlen (i :: q) /\
    forall v, v ∈ q -> exists k c e a, calls w !! k = Some c /\ vote_call c = Some (e, a) /\
      counted c = true /\ c_to c = v /\ rv_Term a = t /\ rv_CandidateId a = Z.of_nat i.

Lemma leader_led w i s :
  Inv w -> servers w !! i = Some s -> whoami (s_raft s) = Leader -> led w i (currentTerm (Stat (s_raft s))).
Proof.
  intros HI Hi Hl. destruct (inv_leader _ HI _ _ Hi Hl) as (e & a & cnt & He & Ht & Hc).
  destruct (inv_election _ HI _ _ _ _ _ Hi He) as [_ Hcnt].
  destruct (inv_server _ HI _ _ Hi) as (_ & _ & Hpe). rewrite Hpe in Hc.
  assert (Hv : forall v, v ∈ voters i (s_epoch s) e (calls w) -> exists k c, calls w !! k = Some c /\
    vote_call c = Some (e, a) /\ counted c = true /\ c_to c = v /\ v <> i /\
    (v < length (servers w))%nat /\ rv_CandidateId a = Z.of_nat i).
  { intros v (c & -> & [Hof [k Hk]%list_elem_of_lookup]%list_elem_of_filter)%list_elem_of_fmap.
    apply andb_true_iff in Hof as [(Hf & Hep & a' & Hvc)%of_election_true Hg].
    destruct (inv_call _ HI _ _ Hk) as (_ & Hto & _ & Hx). destruct (Hx _ _ Hvc) as (Hne & Hcand & Hs).
    rewrite Hf in Hs, Hcand, Hne. destruct (Hs _ Hi) as [_ Hs']. destruct (Hs' Hep) as [cnt' He'].
    rewrite He in He'. simplify_eq. exists k, c. auto 10. }
  exists (voters i (s_epoch s) e (calls w)). split_and!.
  - apply NoDup_cons. split; [intros Hin; destruct (Hv _ Hin) as (? & ? & ? & ? & ? & ? & ? & _); done|].
    destruct (inv_pool _ HI _ _ Hi) as [_ Hnd]. specialize (Hnd e). apply NoDup_app in Hnd as (_ & _ & Hnd).
    by eapply sublist_NoDup; [|apply voters_sublist].
  - constructor; [by eapply lookup_lt_Some|]. apply Forall_forall. intros v Hin.
    by destruct (Hv _ Hin) as (? & ? & ? & ? & ? & ? & ? & ? & _).
  - unfold zlen in *. cbn. lia.
  - intros v Hin. destruct (Hv _ Hin) as (k & c & ? & ? & ? & ? & ? & ? & ?). exists k, c, e, a. auto 10.
Qed.

(** Every event leaves the calls that were counted. *)
Lemma exec_calls ev w w' k c :
  exec zero_cmd ev w = Next w' -> calls w !! k = Some c -> counted c = true -> calls w' !! k = Some c.
Proof.
  intros Hex Hk Hc. unfold counted in Hc. destruct (c_status c) eqn:Hst; try done.
  destruct ev; cbn in Hex; unfold run_goroutine in Hex; repeat (case_match; simplify_eq); cbn; try done;
    try (by apply lookup_app_l_Some);
    (rewrite list_lookup_insert_ne; [done|intros ->; congruence]).
Qed.

Lemma led_exec ev w w' i t : exec zero_cmd ev w = Next w' -> led w i t -> led w' i t.
Proof.
  intros Hex (q & Hnd & Hb & Hm & Hg). pose proof (exec_length _ _ _ Hex) as Hlen. exists q. rewrite Hlen. split_and!; [done..|].
  intros v Hv. destruct (Hg v Hv) as (k & c & e & a & Hk & ? & ? & ?). exists k, c, e, a. split; [by eapply exec_calls|done].
Qed.

(** A voter of [i] is a peer, and [i] has run an election of its own in that term. *)
Lemma counted_vote w i t v :
  Inv w -> (exists k c e a, calls w !! k = Some c /\ vote_call c = Some (e, a) /\
    counted c = true /\ c_to c = v /\ rv_Term a = t /\ rv_CandidateId a = Z.of_nat i) ->
  ran w i t /\ ~ ran w v t.
Proof.
  intros HI (k & c & e & a & Hk & Hv & Hg%counted_granted & <- & <- & Hi).
  destruct (inv_call _ HI _ _ Hk) as (_ & _ & _ & Hx). destruct (Hx _ _ Hv) as (_ & Hc & _). assert (c_from c = i) as <- by lia.
  split; [|by eapply inv_granted]. left. eauto 10.
Qed.

(** One peer wins a term, whenever it did. *)
Lemma led_unique w i j t : Inv w -> led w i t -> led w j t -> i = j.
Proof.
  intros HI (qi & Hnd1 & Hb1 & Hm1 & Hg1) (qj & Hnd2 & Hb2 & Hm2 & Hg2).
  destruct (quorum_intersection (length (servers w)) (i :: qi) (j :: qj)) as (v & Hv1 & Hv2); auto.
  { unfold zlen in *. pose proof (Z.div_mod (Z.of_nat (length (servers w))) 2 ltac:(lia)).
    pose proof (Z.mod_pos_bound (Z.of_nat (length (servers w))) 2 ltac:(lia)). lia. }
  assert (forall x (q : list nat), NoDup (x :: q) -> Z.of_nat (length (servers w)) / 2 < zlen (x :: q) -> (2 <= length (servers w))%nat -> exists v, v ∈ q) as Hne.
  { intros x [|v' q] _ Hm Hlen; [|exists v'; by left]. exfalso. unfold zlen in Hm. cbn in Hm.
    pose proof (Z.div_le_lower_bound (Z.of_nat (length (servers w))) 2 1 ltac:(lia) ltac:(lia)). lia. }
  destruct (decide (i = j)) as [->|Hij]; [done|].
  assert (2 <= length (servers w))%nat as Hlen by (inversion Hb1; inversion Hb2; subst; lia).
  assert (ran w i t /\ ran w j t) as [Hri Hrj].
  { destruct (Hne i qi Hnd1 Hm1 Hlen) as [v1 H1], (Hne j qj Hnd2 Hm2 Hlen) as [v2 H2].
    split; [by apply (counted_vote w i t v1); [|apply Hg1]|by apply (counted_vote w j t v2); [|apply Hg2]]. }
  apply elem_of_cons in Hv1 as [->|Hv1], Hv2 as [->|Hv2]; [done|..].
  - by destruct (counted_vote w j t i HI (Hg2 _ Hv2)).
  - by destruct (counted_vote w i t j HI (Hg1 _ Hv1)).
  - destruct (Hg1 _ Hv1) as (k1 & c1 & e1 & a1 & Hk1 & Hc1 & Hgr1 & Hto1 & Ht1 & Hc1').
    destruct (Hg2 _ Hv2) as (k2 & c2 & e2 & a2 & Hk2 & Hc2 & Hgr2 & Hto2 & Ht2 & Hc2').
    pose proof (inv_unique _ HI k1 k2 c1 c2 e1 e2 a1 a2 Hk1 Hk2 Hc1 Hc2 (counted_granted _ Hgr1) (counted_granted _ Hgr2)
      (eq_trans Hto1 (eq_sym Hto2)) (eq_trans Ht1 (eq_sym Ht2))). lia.
Qed.

Lemma Inv_one_leader w i j si sj :
  Inv w -> servers w !! i = Some si -> servers w !! j = Some sj ->
  whoami (s_raft si) = Leader -> whoami (s_raft sj) = Leader ->
  currentTerm (Stat (s_raft si)) = currentTerm (Stat (s_raft sj)) -> i = j.
Proof.
  intros HI Hi Hj Hli Hlj Ht. pose proof (leader_led w i si HI Hi Hli) as H1. rewrite Ht in H1.
  eapply led_unique; [done..|]. by apply leader_led.
Qed.

(** ** What the applier sends *)

(** The messages an incarnation has sent carry the indices 1, 2, 3, ... *)
Definition applied_ok (s : Server C byte) : Prop :=
  CommandIndex <$> s_applied s = seqZ 1 (zlen (s_applied s)) /\
  match s_applying s with
  | Waiting | Stopped => lastApplied (Stat (s_raft s)) = zlen (s_applied s)
  | Sending start entries =>
      lastApplied (Stat (s_raft s)) = start - 1 /\ 1 <= start /\ entries <> [] /\
      zlen (s_applied s) = start - 1 + zlen entries
  end.

Lemma applyMsgs_index start (entries : list (LogEntries C)) :
  CommandIndex <$> applyMsgs start entries = seqZ start (zlen entries).
Proof.
  apply list_eq. intros i. unfold applyMsgs, zlen. rewrite list_lookup_fmap, list_lookup_imap.
  destruct (entries !! i) as [e|] eqn:E; cbn.
  - apply lookup_lt_Some in E. by rewrite lookup_seqZ_lt by lia.
  - apply lookup_ge_None in E. by rewrite lookup_seqZ_ge by lia.
Qed.

Lemma zlen_applyMsgs start (entries : list (LogEntries C)) : zlen (applyMsgs start entries) = zlen entries.
Proof. unfold zlen, applyMsgs. by rewrite length_imap. Qed.

Lemma applied_ok_frame s s' :
  applied_ok s -> s_applied s' = s_applied s -> s_applying s' = s_applying s ->
  lastApplied (Stat (s_raft s')) = lastApplied (Stat (s_raft s)) -> applied_ok s'.
Proof. unfold applied_ok. intros H Ha Hb Hl. by rewrite Ha, Hb, Hl. Qed.

Lemma applied_ok_begin ep rf msgs start entries :
  applied_ok (mkServer ep rf Waiting msgs) -> applyBegin rf = Some (Some (start, entries)) ->
  applied_ok (mkServer ep rf (Sending start entries) (msgs ++ applyMsgs start entries)).
Proof.
  intros [Hidx Hla] Hb. cbn in Hidx, Hla. unfold applyBegin in Hb. case_bool; [done|].
  simplify_eq. apply bind_Some in Hb as (upto & Hu & (es & He & Heq)%bind_Some). simplify_eq.
  apply go_take_Some in Hu as [Hu1 ->]. apply go_drop_Some in He as [He1 ->].
  set (st := lastApplied (Stat rf)) in *. set (es := drop _ _).
  assert (Hes : zlen es = committedIndex (Stat rf) - st).
  { subst es. unfold zlen in *. rewrite length_drop, length_take. lia. }
  split; cbn [s_applied s_applying s_raft].
  - rewrite fmap_app, zlen_app, zlen_applyMsgs, seqZ_app, Hidx, applyMsgs_index by auto with golang.
    f_equal. f_equal. lia.
  - pose proof (zlen_nonneg msgs). split_and!; try lia.
    + intros Hnil. rewrite Hnil in Hes. unfold zlen in Hes. cbn in Hes. lia.
    + rewrite zlen_app, zlen_applyMsgs. lia.
Qed.

Lemma applied_ok_end ep rf start entries msgs :
  applied_ok (mkServer ep rf (Sending start entries) msgs) ->
  applied_ok (mkServer ep (applyEnd_ start entries rf)
                (if killed (applyEnd_ start entries rf) then Stopped else Waiting) msgs).
Proof.
  intros [Hidx (Hla & Hs & Hne & Hlen)]. split; [done|]. cbn [s_applying s_raft s_applied] in *.
  assert (lastApplied (Stat (applyEnd_ start entries rf)) = zlen msgs); [|by destruct (killed _)].
  unfold applyEnd_. assert (0 < zlen entries) by (unfold zlen; destruct entries; [done|cbn; lia]).
  case_bool; cbn; lia.
Qed.

(** Only the applier moves [lastApplied]. *)
Lemma la_RequestVote now r args rf :
  lastApplied (Stat (RequestVote now r args rf).1) = lastApplied (Stat rf).
Proof. unfold RequestVote. case_bool; done. Qed.

Lemma la_AppendEntries now r args rf rf' reply :
  AppendEntries now r args rf = Some (rf', reply) -> lastApplied (Stat rf') = lastApplied (Stat rf).
Proof.
  unfold AppendEntries. destruct (ae_Term args <? _); [intros; by simplify_eq|].
  destruct (ae_Term args >? _); case_bool; intros H; simplify_eq; try done;
    apply bind_Some in H as (lg & _ & H); case_bool; by simplify_eq.
Qed.

Lemma la_commitScan rf maj fuel n rf' :
  commitScan rf maj fuel n = Some rf' -> lastApplied (Stat rf') = lastApplied (Stat rf).
Proof.
  revert n. induction fuel as [|fuel IH]; intros n; cbn; [intros; by simplify_eq|].
  case_bool_step; [intros; by simplify_eq|].
  intros (e & _ & H)%bind_Some. case_bool; eauto. by simplify_eq.
Qed.

Lemma la_handle to b reply rf rf' :
  handle to b reply rf = Some rf' -> lastApplied (Stat rf') = lastApplied (Stat rf).
Proof.
  destruct b as [e a|args], reply as [rep|rep]; cbn [handle]; try (intros; by simplify_eq).
  - intros H. simplify_eq. unfold handleVoteReply. destruct (elections rf !! e) as [[]|]; [|done].
    case_bool; done.
  - assert (Hn : forall i x rf1 rf2, set_nextIndex i x rf1 = Some rf2 ->
      lastApplied (Stat rf2) = lastApplied (Stat rf1)).
    { unfold set_nextIndex. intros i x rf1 rf2 (ni & _ & H)%bind_Some. by simplify_eq. }
    unfold handleAppendReply. case_bool; try (intros; by simplify_eq); eauto.
    destruct (ae_Entries args); [|intros; by simplify_eq].
    intros (rf1 & H1 & (m & _ & (rf2 & H2 & H3)%bind_Some)%bind_Some)%bind_Some.
    apply la_commitScan in H3. apply Hn in H2.
    unfold set_matchIndex in H1. apply bind_Some in H1 as (mi & _ & H1). simplify_eq.
    by rewrite H3, H2.
Qed.

Lemma la_deliver now r b rf rf' reply :
  deliver now r b rf = Some (rf', reply) -> lastApplied (Stat rf') = lastApplied (Stat rf).
Proof.
  destruct b as [e a|args]; cbn [deliver].
  - pose proof (la_RequestVote now r a rf). destruct (RequestVote now r a rf). intros; by simplify_eq.
  - intros ([rf1 rep] & H & Heq)%bind_Some. simplify_eq. by eapply la_AppendEntries.
Qed.

Definition all_applied_ok w : Prop := forall i s, servers w !! i = Some s -> applied_ok s.

Lemma applied_upd w i s s' :
  all_applied_ok w -> servers w !! i = Some s -> (applied_ok s -> applied_ok s') ->
  all_applied_ok (upd_server i s' w).
Proof.
  intros Hall Hi Hs j sj [(<- & <- & _)|(Hne & Hj)]%list_lookup_insert_Some; eauto.
Qed.

Lemma applied_raft w i s rf' :
  all_applied_ok w -> servers w !! i = Some s ->
  lastApplied (Stat rf') = lastApplied (Stat (s_raft s)) ->
  all_applied_ok (upd_server i (set_raft rf' s) w).
Proof. intros Hall Hi Hl. eapply applied_upd; eauto. intros. by eapply applied_ok_frame. Qed.

Lemma applied_goroutine w i s g now r w' :
  all_applied_ok w -> servers w !! i = Some s ->
  forall s1, s_applied s1 = s_applied s -> s_applying s1 = s_applying s ->
  lastApplied (Stat (s_raft s1)) = lastApplied (Stat (s_raft s)) ->
  run_goroutine i g now r s1 w = Next w' -> all_applied_ok w'.
Proof.
  intros Hall Hi s1 Ha Hb Hl Hr.
  assert (Hup : forall s2, s_applied s2 = s_applied s -> s_applying s2 = s_applying s ->
    lastApplied (Stat (s_raft s2)) = lastApplied (Stat (s_raft s)) -> all_applied_ok (upd_server i s2 w)).
  { intros s2 H1 H2 H3. eapply applied_upd; eauto. intros. by eapply applied_ok_frame. }
  destruct g as [| |hb|j hb|j e]; cbn [run_goroutine] in Hr.
  - simplify_eq. by apply Hup.
  - unfold heartbeat in Hr. case_bool; simplify_eq; by apply Hup.
  - simplify_eq. by apply Hup.
  - destruct (makeAppendEntriesArgs j hb (s_raft s1)); simplify_eq. by apply Hup.
  - destruct (elections (s_raft s1) !! e) as [[]|]; simplify_eq. by apply Hup.
Qed.

Lemma exec_applied ev w w' :
  all_applied_ok w -> exec zero_cmd ev w = Next w' -> all_applied_ok w'.
Proof.
  intros Hall Hex. destruct ev as [i now r|i k now r|k now r|k|k|i cmd|i|i|i|i now r]; cbn [exec] in Hex.
  - destruct (servers w !! i) as [s|] eqn:Hi; simplify_eq. eapply applied_raft; eauto.
    unfold ticker. case_bool; done.
  - destruct (servers w !! i) as [s|] eqn:Hi; [|done].
    destruct (spawned (s_raft s) !! k) as [g|] eqn:Hk; [|done].
    by refine (applied_goroutine w i s g now r w' Hall Hi _ _ _ _ Hex).
  - repeat (case_match; simplify_eq).
    refine (applied_raft w _ _ _ Hall _ _); [eassumption|by eapply la_deliver].
  - repeat (case_match; simplify_eq); done.
  - repeat (case_match; simplify_eq).
    refine (applied_raft w _ _ _ Hall _ _); [eassumption|by eapply la_handle].
  - destruct (servers w !! i) as [s|] eqn:Hi; simplify_eq. eapply applied_raft; eauto.
    unfold Start. case_bool; done.
  - destruct (servers w !! i) as [[ep rf [] msgs]|] eqn:Hi; simplify_eq.
    destruct (applyBegin rf) as [[[start entries]|]|] eqn:E; simplify_eq.
    eapply applied_upd; eauto. intros. by apply applied_ok_begin.
  - destruct (servers w !! i) as [[ep rf [|start entries|] msgs]|] eqn:Hi; simplify_eq.
    eapply applied_upd; eauto. apply applied_ok_end.
  - destruct (servers w !! i) as [s|] eqn:Hi; simplify_eq. by eapply applied_raft.
  - destruct (servers w !! i) as [s|] eqn:Hi; simplify_eq. eapply applied_upd; eauto. intros _.
    destruct (Make_fields zero_cmd (length (servers w)) i (Copy (persister (s_raft s))) now r)
      as (_ & _ & _ & _ & _ & _ & _ & _ & Hla & _).
    split; [done|]. cbn [s_applying boot s_raft]. by rewrite Hla.
Qed.

Lemma reachable_applied n w : reachable zero_cmd n w -> all_applied_ok w.
Proof.
  induction 1 as [|w ev w' _ IH Hex]; [|by eapply exec_applied].
  intros i s. cbn. rewrite list_lookup_fmap. intros (j & _ & ->)%fmap_Some. done.
Qed.
End Safety.
