(* ===== verification/RaftProps.v ===== *)
(** * RaftProps: the properties of the Raft component

    Safety of elections, persistence, order of application and absence of panics for
    every interleaving; the behaviour of each handler; and concrete interleavings
    that show where replication departs from the protocol. *)

From S2P Require Import Prelude Persister Raft RaftFacts RaftNet RaftSafety.
Local Open Scope Z_scope.

(** ** Concrete clusters for the witnesses: commands and bytes are integers *)

Section Concrete.
(** Three peers. *)
Definition start3 : World Z Z := init 0 3.

Definition tick i : Event Z := EvTick i 5000 0.
Definition go i k : Event Z := EvRun i k 1000 0.
Definition recv k : Event Z := EvDeliver k 1000 0.
Definition back k : Event Z := EvReply k.

(** Peer 0 wins term 1 with the vote of peer 1. *)
Definition elect0 : list (Event Z) := [tick 0; go 0 0; recv 0; back 0].

(** A heartbeat of peer [i], whose heartbeat goroutine is at place [p] of its pool:
    the two [AppendEntries] requests leave. *)
Definition beat i p : list (Event Z) := [go i p; go i p; go i (S p); go i (S p)].

Definition worldOf (o : Outcome (C:=Z) (byte:=Z)) : World Z Z :=
  match o with Next w => w | _ => mkWorld [] [] end.

Definition w_elected : World Z Z := worldOf (run 0 elect0 start3).

Lemma w_elected_reachable : reachable 0 3 w_elected.
Proof. apply (reachable_run 0 3 elect0 start3); [constructor|by vm_compute]. Defined.
End Concrete.

Section Props.
Context {C byte : Type} `{!Gob byte Z} `{!Gob byte (list (LogEntries C))}.
Context (zero_cmd : C).
Implicit Types (rf : Raft C byte) (w : World C byte).

(** C1: election safety.  In every state a cluster can reach, whatever messages were
    lost, delayed or reordered and whichever peers crashed and restarted, two peers
    that both report through [GetState] to lead the same term are the same peer. *)
Theorem election_safety n w i j si sj t :
  reachable zero_cmd n w ->
  servers w !! i = Some si -> servers w !! j = Some sj ->
  GetState (s_raft si) = (t, true) -> GetState (s_raft sj) = (t, true) -> i = j.
Proof.
  intros Hr Hi Hj Hgi Hgj. unfold GetState in *. simplify_eq. bool_to_prop.
  eapply (Inv_one_leader zero_cmd w i j); eauto using reachable_Inv.
Qed.

(** C16: the shape of the data.  In every reachable state every peer has its own number and the
    cluster's size, a log that starts with an entry of term 0 and goes on with positive
    terms, slices of the leader state with one slot per peer and no next index below 1, and
    a term that is positive as soon as it is a candidate or the leader; and every
    [AppendEntries] it has sent names a previous entry and carries entries of positive terms. *)
Theorem cluster_well_formed n w i s :
  reachable zero_cmd n w -> servers w !! i = Some s ->
  let rf := s_raft s in
  me rf = i /\ peers rf = n /\ (i < n)%nat /\ log_ok (log (Stat rf)) /\
  length (nextIndex (leaderState (Stat rf))) = n /\ length (matchIndex (leaderState (Stat rf))) = n /\
  Forall (fun x => 1 <= x) (nextIndex (leaderState (Stat rf))) /\
  0 <= currentTerm (Stat rf) /\ (whoami rf <> Follower -> 1 <= currentTerm (Stat rf)) /\ 0 <= committedIndex (Stat rf) /\
  forall k c args, calls w !! k = Some c -> c_from c = i -> c_body c = AppendCall args ->
    (c_to c < n)%nat /\ append_args_ok args.
Proof.
  intros Hr Hi rf. pose proof (reachable_Inv zero_cmd n w Hr) as HI. pose proof (reachable_length zero_cmd n w Hr) as Hlen.
  destruct (inv_server _ _ HI _ _ Hi) as ([H1 H2 H3 H4 H5 H6 H7 H8 H9] & Hme & Hpe). rewrite Hlen in Hpe. fold rf in H1, H3, H4, H5, H6, H7, H8, H9, Hme, Hpe.
  rewrite Hme, Hpe in *. split_and!; [done..|]. intros k c args Hk _ Hb.
  destruct (inv_call _ _ HI _ _ Hk) as (_ & Hto & Happ & _). destruct (Happ args Hb). split; [lia|done].
Qed.

(** C18: what the applier delivers.  The messages one incarnation of a peer has sent on
    [applyCh] carry the indices 1, 2, 3, ... without a gap or a repetition, in every
    reachable state. *)
Theorem applied_in_order n w i s :
  reachable zero_cmd n w -> servers w !! i = Some s ->
  CommandIndex <$> s_applied s = seqZ 1 (zlen (s_applied s)).
Proof. intros Hr Hi. by destruct (reachable_applied zero_cmd n w Hr i s Hi). Qed.

Lemma applyBegin_panics rf :
  peer_ok zero_cmd rf -> 0 <= lastApplied (Stat rf) -> applyBegin rf = Some None ->
  zlen (log (Stat rf)) <= committedIndex (Stat rf).
Proof.
  intros Hok Hla. unfold applyBegin. case_bool; [done|]. intros Heq.
  destruct (decide (zlen (log (Stat rf)) <= committedIndex (Stat rf))) as [|Hlt]; [done|].
  exfalso. rewrite go_take_in_range in Heq by lia. cbn in Heq.
  rewrite go_drop_in_range in Heq; [done|]. unfold zlen in *. rewrite length_take. lia.
Qed.

(** C17: panics.  In a reachable state every handler, goroutine and timer runs without
    an out-of-range access, except the applier, and the applier slices past the end of
    the log only when the log of its peer does not reach the commit index. *)
Theorem only_applier_panics n w ev :
  reachable zero_cmd n w -> exec zero_cmd ev w = Panicked ->
  exists i s, ev = EvApplyBegin i /\ servers w !! i = Some s /\
              zlen (log (Stat (s_raft s))) <= committedIndex (Stat (s_raft s)).
Proof.
  intros Hr Hex. pose proof (reachable_Inv zero_cmd n w Hr) as HI.
  pose proof (exec_Inv zero_cmd ev w HI) as H. rewrite Hex in H. destruct H as [i ->].
  cbn in Hex. destruct (servers w !! i) as [[ep rf [] msgs]|] eqn:Hi; [|done..].
  exists i, (mkServer ep rf Waiting msgs). split_and!; [done..|].
  destruct (inv_server _ _ HI _ _ Hi) as (Hok & _).
  destruct (reachable_applied zero_cmd n w Hr i _ Hi) as [_ Hla]. cbn in Hla, Hok |- *.
  destruct (applyBegin rf) as [[[]|]|] eqn:E; [done| |done].
  eapply applyBegin_panics; eauto. rewrite Hla. apply zlen_nonneg.
Qed.

(** C15: recovery.  Crashing a peer of a reachable cluster and restarting it from its
    persister gives back its term, its vote and its log, as a follower. *)
Theorem restart_recovers n w i s now r :
  reachable zero_cmd n w -> servers w !! i = Some s ->
  exists w' s', exec zero_cmd (EvCrash i now r) w = Next w' /\ servers w' !! i = Some s' /\
    currentTerm (Stat (s_raft s')) = currentTerm (Stat (s_raft s)) /\
    votedFor (Stat (s_raft s')) = votedFor (Stat (s_raft s)) /\
    log (Stat (s_raft s')) = log (Stat (s_raft s)) /\ whoami (s_raft s') = Follower.
Proof.
  intros Hr Hi. pose proof (reachable_Inv zero_cmd n w Hr) as HI.
  destruct (inv_server _ _ HI _ _ Hi) as (Hok & Hme & Hpe).
  destruct (Make_restart_ok zero_cmd now r (s_raft s) Hok) as (_ & _ & Ht & Hv & Hl).
  rewrite Hme, Hpe in Ht, Hv, Hl.
  destruct (Make_fields zero_cmd (length (servers w)) i (Copy (persister (s_raft s))) now r)
    as (_ & _ & _ & Hw & _).
  cbn [exec]. rewrite Hi. eexists _, _. split; [done|].
  split; [by eapply list_lookup_insert_eq, lookup_lt_Some|]. auto.
Qed.

(** The vote [RequestVote] decides on, for a request that is not stale. *)
Definition up_to_date (args : RequestVoteArgs) rf : Prop :=
  let lastIndex := zlen (log (Stat rf)) - 1 in
  getLogTerm rf lastIndex < rv_LastLogTerm args \/
  getLogTerm rf lastIndex = rv_LastLogTerm args /\ lastIndex <= rv_LastLogIndex args.

(** C20: [RequestVote].  A vote is granted exactly when the request's term is at least
    the peer's, the peer has not voted for somebody else in that term, and the
    candidate's last entry is at least as recent as the peer's; the reply carries the
    term the peer had before, and a higher term is adopted whether or not it votes. *)
Theorem RequestVote_spec now r args rf :
  peer_ok zero_cmd rf ->
  let '(rf', reply) := RequestVote now r args rf in
  rvr_Term reply = currentTerm (Stat rf) /\
  (rvr_VoteGranted reply = true <->
     currentTerm (Stat rf) <= rv_Term args /\ up_to_date args rf /\
     (currentTerm (Stat rf) < rv_Term args \/ votedFor (Stat rf) = -1 \/
      votedFor (Stat rf) = rv_CandidateId args)) /\
  currentTerm (Stat rf') = Z.max (currentTerm (Stat rf)) (rv_Term args) /\
  (rvr_VoteGranted reply = true -> votedFor (Stat rf') = rv_CandidateId args) /\
  log (Stat rf') = log (Stat rf).
Proof.
  intros Hok. pose proof (getLastLogIndex_ok rf (ok_log _ _ Hok)) as Hlast.
  unfold RequestVote, up_to_date. rewrite <- Hlast.
  destruct (rv_Term args <? currentTerm (Stat rf)) eqn:E1; bool_to_prop.
  { cbn. split_and!; try done; [split; [done|lia]|lia]. }
  destruct (rv_Term args >? currentTerm (Stat rf)) eqn:E2; bool_to_prop.
  - change (getLastLogIndex (convertToFollower (rv_Term args) rf)) with (getLastLogIndex rf).
    change (getLogTerm (convertToFollower (rv_Term args) rf)) with (getLogTerm rf).
    change (votedFor (Stat (convertToFollower (rv_Term args) rf))) with (-1).
    case_bool; cbn.
    + split_and!; try done; [|lia]. split; [|done]. intros _. split_and!; lia.
    + split_and!; try done; [|lia]. split; [done|]. intros (_ & Hu & _). exfalso.
      destruct_or?; bool_to_prop; destruct_or?; bool_to_prop; done || lia.
  - case_bool; cbn.
    + split_and!; try done; [|lia]. split; [|done]. intros _.
      destruct_or?; bool_to_prop; split_and!; lia.
    + split_and!; try done; [|lia]. split; [done|]. intros (_ & Hu & Hv). exfalso.
      destruct_or?; bool_to_prop; destruct_or?; bool_to_prop; lia.
Qed.

(** [firstOfTerm] walks down a run of entries of one term. *)
Lemma firstOfTerm_spec rf t (fuel : nat) c :
  c = Z.of_nat fuel ->
  let ci := firstOfTerm rf t fuel (c - 1) c in
  0 <= ci <= c /\ (forall k, ci <= k < c -> getLogTerm rf k = t) /\
  (0 < ci -> getLogTerm rf (ci - 1) <> t).
Proof.
  revert c. induction fuel as [|fuel IH]; intros c Hc; cbn [firstOfTerm].
  { split_and!; lia. }
  case_bool; [lia|split_and!; [lia|lia|intros; lia|intros _ Heq; congruence]|].
  destruct (IH (c - 1)) as (Hb & Hrun & Hstop); [lia|]. split_and!; [lia|lia| |done].
  intros k Hk. destruct (decide (k = c - 1)) as [->|]; [done|]. apply Hrun. lia.
Qed.

(** C22: the rejections of [AppendEntries].  A stale request changes nothing.  Otherwise a
    follower whose log is too short names the index after its last entry, and one whose
    entry at [PrevLogIndex] has another term names that term and the first index of the
    run of entries of that term that ends at [PrevLogIndex]; its log is left alone. *)
Theorem AppendEntries_rejects now r args rf :
  peer_ok zero_cmd rf -> append_args_ok args ->
  ae_Term args < currentTerm (Stat rf) \/ zlen (log (Stat rf)) <= ae_PrevLogIndex args \/
    getLogTerm rf (ae_PrevLogIndex args) <> ae_PrevLogTerm args ->
  exists rf' reply, AppendEntries now r args rf = Some (rf', reply) /\
    aer_Success reply = false /\ aer_Term reply = currentTerm (Stat rf) /\
    log (Stat rf') = log (Stat rf) /\ committedIndex (Stat rf') = committedIndex (Stat rf) /\
    (ae_Term args < currentTerm (Stat rf) -> rf' = rf) /\
    (currentTerm (Stat rf) <= ae_Term args -> currentTerm (Stat rf') = ae_Term args /\
      if zlen (log (Stat rf)) <=? ae_PrevLogIndex args
      then aer_ConflictTerm reply = -1 /\ aer_ConflictIndex reply = zlen (log (Stat rf))
      else aer_ConflictTerm reply = getLogTerm rf (ae_PrevLogIndex args) /\
           1 <= aer_ConflictIndex reply <= ae_PrevLogIndex args /\
           (forall k, aer_ConflictIndex reply <= k <= ae_PrevLogIndex args ->
              getLogTerm rf k = aer_ConflictTerm reply) /\
           getLogTerm rf (aer_ConflictIndex reply - 1) <> aer_ConflictTerm reply).
Proof.
  intros Hok [Hp Hp0 _ _] Hrej. pose proof (ok_log _ _ Hok) as Hl.
  pose proof (log_ok_nonempty _ Hl). unfold AppendEntries.
  destruct (ae_Term args <? currentTerm (Stat rf)) eqn:E; bool_to_prop.
  { eexists _, _. split; [done|]. cbn. split_and!; try done. lia. }
  set (rf1 := if ae_Term args >? _ then _ else _).
  assert (Hsame : log (Stat rf1) = log (Stat rf) /\ committedIndex (Stat rf1) = committedIndex (Stat rf) /\
                  currentTerm (Stat rf1) = ae_Term args).
  { subst rf1. cbn in *. case_bool; cbn; split_and!; try done. lia. }
  destruct Hsame as (Hlog & Hci & Hct).
  assert (Hterm : forall k, getLogTerm rf1 k = getLogTerm rf k) by (intros; by apply getLogTerm_ext).
  rewrite getLastLogIndex_ok, Hlog by by rewrite Hlog.
  destruct (ae_PrevLogIndex args >? zlen (log (Stat rf)) - 1) eqn:E2; bool_to_prop.
  { eexists _, _. split; [done|]. cbn. split_and!; try done; [lia|]. intros _. split; [done|].
    case_bool; [done|lia]. }
  rewrite Hterm. destruct (ae_PrevLogTerm args =? getLogTerm rf (ae_PrevLogIndex args)) eqn:E3;
    bool_to_prop; [exfalso; lia|]. cbn [negb].
  assert (Hpos : 0 < ae_PrevLogIndex args).
  { destruct (decide (ae_PrevLogIndex args = 0)) as [Hz|]; [|lia].
    exfalso. apply E3. rewrite Hz, getLogTerm_0 by done. auto. }
  pose proof (getLogTerm_pos rf (ae_PrevLogIndex args) Hl ltac:(lia)).
  destruct (firstOfTerm_spec rf1 (getLogTerm rf (ae_PrevLogIndex args))
    (Z.to_nat (ae_PrevLogIndex args)) (ae_PrevLogIndex args)) as (Hb & Hrun & Hstop); [lia|].
  set (ci := firstOfTerm _ _ _ _ _) in *.
  assert (0 < ci).
  { destruct (decide (ci = 0)) as [Hz|]; [|lia]. specialize (Hrun 0 ltac:(lia)).
    rewrite Hterm, getLogTerm_0 in Hrun by done. lia. }
  eexists _, _. split; [done|]. cbn. split_and!; try done; [lia|]. intros _. split; [done|].
  case_bool; [lia|]. split_and!; [done|lia|lia| |by rewrite <- Hterm; apply Hstop].
  intros k Hk. destruct (decide (k = ae_PrevLogIndex args)) as [->|]; [done|].
  rewrite <- Hterm. apply Hrun. lia.
Qed.

Lemma findConflict_ext rf rf1 start i (es : list (LogEntries C)) :
  log (Stat rf1) = log (Stat rf) -> findConflict rf1 start i es = findConflict rf start i es.
Proof.
  intros Hl. revert i. induction es as [|e es IH]; intros i; cbn; [done|].
  unfold getLastLogIndex. rewrite Hl. case_bool; try done;
    (destruct (go_index (log (Stat rf)) (start + i)); cbn; [|done]; case_bool; [done|apply IH]).
Qed.

(** C21: acceptance in [AppendEntries].  Where an entry of the request and the entry of the log at its index have different
    terms, below the last index of the log, the new log is the old one up to the first such index; where there is none it is
    the old one up to [PrevLogIndex]; and then come all the entries of the request.  The commit index moves to the smaller of the
    leader's and the last index, and the result is durable.  Without a conflict this is the protocol's log. *)
Theorem AppendEntries_accepts now r args rf :
  peer_ok zero_cmd rf -> append_args_ok args -> currentTerm (Stat rf) <= ae_Term args ->
  ae_PrevLogIndex args < zlen (log (Stat rf)) ->
  getLogTerm rf (ae_PrevLogIndex args) = ae_PrevLogTerm args ->
  let conflict := differs (log (Stat rf)) (ae_PrevLogIndex args + 1) (entriesOf args) in
  exists rf' reply kept, AppendEntries now r args rf = Some (rf', reply) /\ aer_Success reply = true /\
    log (Stat rf') = take (Z.to_nat (ae_PrevLogIndex args + 1) + kept) (log (Stat rf)) ++ entriesOf args /\
    (conflict kept /\ (forall j, (j < kept)%nat -> ~ conflict j) \/ (forall j, ~ conflict j) /\ kept = 0%nat) /\
    committedIndex (Stat rf') =
      (if committedIndex (Stat rf) <? ae_LeaderCommit args
       then Z.min (ae_LeaderCommit args) (zlen (log (Stat rf')) - 1) else committedIndex (Stat rf)) /\
    currentTerm (Stat rf') = ae_Term args /\ durable zero_cmd rf'.
Proof.
  intros Hok Hargs Ht Hprev Hpt conflict. pose proof (ok_log _ _ Hok) as Hl. pose proof (aok_prev _ Hargs).
  destruct (AppendEntries_ok zero_cmd now r args rf Hok Hargs) as (rf' & reply & E & Hok' & _ & _).
  exists rf', reply. apply ok_durable in Hok'.
  assert (exists x (kept : nat), findConflict rf (ae_PrevLogIndex args + 1) 0 (entriesOf args) = Some x /\ Z.max 0 x = Z.of_nat kept /\
    (x = -1 \/ 0 <= x /\ ae_PrevLogIndex args + 1 + x < zlen (log (Stat rf)) - 1) /\
    (conflict kept /\ (forall j, (j < kept)%nat -> ~ conflict j) \/ (forall j, ~ conflict j) /\ kept = 0%nat)) as (x & kept & Hfc & Hx & Hxb & Hk).
  { destruct (findConflict_spec rf (ae_PrevLogIndex args + 1) 0 (entriesOf args)) as [[-> Hno]|(k & -> & Hd & Hno)]; [done|lia|done|..]; rewrite Z.add_0_r in *.
    - exists (-1), 0%nat. split_and!; auto.
    - exists (Z.of_nat k), k. destruct (Hd) as [Hlt _]. split_and!; auto with lia. }
  exists kept. split; [done|]. revert E. unfold AppendEntries.
  destruct (ae_Term args <? currentTerm (Stat rf)) eqn:E0; bool_to_prop; [lia|].
  set (rf1 := if ae_Term args >? _ then _ else _).
  assert (Hsame : log (Stat rf1) = log (Stat rf) /\ committedIndex (Stat rf1) = committedIndex (Stat rf) /\
                  currentTerm (Stat rf1) = ae_Term args).
  { subst rf1. cbn in *. case_bool; cbn; split_and!; try done. lia. }
  destruct Hsame as (Hlog & Hci & Hct).
  rewrite getLastLogIndex_ok, Hlog by by rewrite Hlog.
  rewrite (getLogTerm_ext rf rf1) by done. rewrite Hpt, Z.eqb_refl. cbn [negb].
  destruct (ae_PrevLogIndex args >? zlen (log (Stat rf)) - 1) eqn:E2; bool_to_prop; [lia|].
  assert (Happ : appendLog args rf1 = Some (take (Z.to_nat (ae_PrevLogIndex args + 1) + kept) (log (Stat rf)) ++ entriesOf args)).
  { replace (Z.to_nat (ae_PrevLogIndex args + 1) + kept)%nat with (Z.to_nat (ae_PrevLogIndex args + 1 + Z.max 0 x)) by lia.
    unfold appendLog. rewrite (findConflict_ext rf), Hfc, Hlog by done. cbn [mbind option_bind].
    destruct (Z.eqb_spec x (-1)) as [->|Hne]; cbn [negb andb].
    - cbn [mbind option_bind]. rewrite go_take_in_range by lia. cbn. by rewrite Z.add_0_r.
    - rewrite go_take_in_range by lia. cbn [mbind option_bind]. rewrite Z.max_r by lia.
      case_bool; [done|]. exfalso. unfold zlen in *. rewrite length_take in *. lia. }
  rewrite Happ. cbn [mbind option_bind]. intros E. simplify_eq.
  rewrite Z.gtb_ltb. cbn [committedIndex Stat set_Stat persist set_persister set_log]. rewrite Hci.
  case_bool; cbn; split_and!; done.
Qed.


(** ** Terms and votes over time *)

Lemma advances_upd w i s s' j sj :
  servers w !! i = Some s -> advances (s_raft s) (s_raft s') -> servers w !! j = Some sj ->
  exists sj', servers (upd_server i s' w) !! j = Some sj' /\ advances (s_raft sj) (s_raft sj').
Proof.
  intros Hi Hadv Hj. cbn. destruct (decide (j = i)) as [->|Hne].
  - simplify_eq. exists s'. split; [|done]. by eapply list_lookup_insert_eq, lookup_lt_Some.
  - exists sj. rewrite list_lookup_insert_ne by done. split; [done|by apply advances_frame].
Qed.

Lemma run_goroutine_advances w i s s1 g now r w' j sj :
  servers w !! i = Some s -> advances (s_raft s) (s_raft s1) ->
  (forall rf', Stat rf' = Stat (s_raft s1) -> me rf' = me (s_raft s1) -> peers rf' = peers (s_raft s1) ->
     advances (s_raft s) rf') ->
  run_goroutine i g now r s1 w = Next w' -> servers w !! j = Some sj ->
  exists sj', servers w' !! j = Some sj' /\ advances (s_raft sj) (s_raft sj').
Proof.
  intros Hi Hadv Hsame Hr Hj.
  destruct g as [| |hb|k hb|k e]; cbn [run_goroutine] in Hr.
  - simplify_eq. eapply advances_upd; eauto; by apply Hsame.
  - unfold heartbeat in Hr. case_bool; simplify_eq; eapply advances_upd; eauto; by apply Hsame.
  - simplify_eq. eapply advances_upd; eauto; by apply Hsame.
  - destruct (makeAppendEntriesArgs k hb (s_raft s1)); simplify_eq.
    exact (advances_upd w i s s1 j sj Hi Hadv Hj).
  - destruct (elections (s_raft s1) !! e) as [[]|]; simplify_eq.
    exact (advances_upd w i s s1 j sj Hi Hadv Hj).
Qed.

(** A peer advances when it serves a request, and when it hears the reply to one of its own. *)
Lemma deliver_advances now r b rf rf' rep :
  peer_ok zero_cmd rf -> (forall args, b = AppendCall args -> append_args_ok args) ->
  deliver now r b rf = Some (rf', rep) -> advances rf rf'.
Proof.
  intros Hok Ha. destruct b as [e a|args]; cbn [deliver].
  - pose proof (RequestVote_ok zero_cmd now r a _ Hok) as [_ Hv].
    destruct (RequestVote now r a rf). intros. by simplify_eq.
  - destruct (AppendEntries_ok zero_cmd now r args _ Hok (Ha args eq_refl)) as (rf1 & rep1 & -> & _ & Hv & _).
    cbn. intros. by simplify_eq.
Qed.

Lemma handle_advances to b rep rf rf' :
  peer_ok zero_cmd rf -> (to < peers rf)%nat ->
  (forall args, b = AppendCall args -> append_args_ok args /\ forall r, rep = AppendReply r -> append_reply_ok r) ->
  handle to b rep rf = Some rf' -> advances rf rf'.
Proof.
  intros Hok Hto Ha E. destruct b as [e a|args], rep as [rep|rep]; cbn [handle] in E; simplify_eq;
    try by apply advances_frame.
  - by apply (handleVoteReply_ok zero_cmd).
  - destruct (Ha args eq_refl) as [Hargs Hrep].
    destruct (handleAppendReply_ok zero_cmd to args rep rf) as (rf2 & E2 & _ & Hv); [done..|by apply Hrep|].
    by simplify_eq.
Qed.

(** C19: terms and votes.  No event of a reachable cluster, a crash and restart included,
    lowers a peer's term, and within one term a vote once given is never changed. *)
Theorem terms_grow_votes_stay n w ev w' j s :
  reachable zero_cmd n w -> exec zero_cmd ev w = Next w' -> servers w !! j = Some s ->
  exists s', servers w' !! j = Some s' /\
    currentTerm (Stat (s_raft s)) <= currentTerm (Stat (s_raft s')) /\
    (currentTerm (Stat (s_raft s)) = currentTerm (Stat (s_raft s')) ->
     votedFor (Stat (s_raft s)) <> -1 -> votedFor (Stat (s_raft s')) = votedFor (Stat (s_raft s))).
Proof.
  intros Hr Hex Hj. pose proof (reachable_Inv zero_cmd n w Hr) as HI.
  enough (exists s', servers w' !! j = Some s' /\ advances (s_raft s) (s_raft s')) as
    (s' & Hs' & _ & _ & Hadv).
  { exists s'. split; [done|]. split; [|intros]; intuition (lia || congruence). }
  destruct ev as [i now r|i k now r|k now r|k|k|i cmd|i|i|i|i now r]; cbn [exec] in Hex;
    try (destruct (servers w !! i) as [si|] eqn:Hi; [|done];
         destruct (inv_server _ _ HI _ _ Hi) as (Hok & Hme & Hpe)).
  - simplify_eq. eapply advances_upd; eauto; by apply (ticker_ok zero_cmd).
  - destruct (spawned (s_raft si) !! k) as [g|]; [|done].
    eapply (run_goroutine_advances w i si); eauto; [by apply advances_frame|].
    intros rf' H1 H2 H3. apply advances_frame; by rewrite ?H1, ?H2, ?H3.
  - destruct (calls w !! k) as [c|] eqn:Hk; [|done].
    destruct (c_status c) eqn:Hst; try done. destruct (servers w !! c_to c) as [sc|] eqn:Hc; [|done].
    destruct (inv_server _ _ HI _ _ Hc) as (Hok & _). destruct (inv_call _ _ HI _ _ Hk) as (_ & _ & Ha & _).
    destruct (deliver now r (c_body c) (s_raft sc)) as [[rf' rep]|] eqn:E; simplify_eq.
    refine (advances_upd w _ sc (set_raft rf' sc) j s Hc _ Hj).
    eapply deliver_advances; [done| |done]. intros args Hb. by apply Ha.
  - destruct (calls w !! k) as [c|]; [|done].
    destruct (c_status c); simplify_eq; exists s; (split; [done|by apply advances_frame]).
  - destruct (calls w !! k) as [c|] eqn:Hk; [|done].
    destruct (c_status c) as [|rep| |] eqn:Hst; try done. destruct (servers w !! c_from c) as [sc|] eqn:Hc; [|done].
    destruct (Nat.eqb_spec (c_epoch c) (s_epoch sc)) as [Hep|]; [|done].
    destruct (inv_server _ _ HI _ _ Hc) as (Hok & _ & Hpe).
    destruct (inv_call _ _ HI _ _ Hk) as (_ & Hto & Ha & _).
    destruct (handle (c_to c) (c_body c) rep (s_raft sc)) as [rf'|] eqn:E; simplify_eq.
    refine (advances_upd w _ sc (set_raft rf' sc) j s Hc _ Hj).
    apply (handle_advances (c_to c) (c_body c) rep); [done|lia| |done]. intros args Hb. destruct (Ha args Hb) as [? Hrep].
    split; [done|]. intros rp ->. by apply Hrep.
  - simplify_eq. eapply advances_upd; eauto; by apply (Start_ok zero_cmd).
  - destruct si as [ep rf [] msgs]; [|done..]. destruct (applyBegin rf) as [[[]|]|]; simplify_eq.
    eapply advances_upd; eauto; by apply advances_frame.
  - destruct si as [ep rf [] msgs]; simplify_eq. eapply advances_upd; eauto.
    by apply (applyEnd_ok zero_cmd).
  - simplify_eq. eapply advances_upd; eauto; by apply advances_frame.
  - simplify_eq. eapply advances_upd; eauto.
    destruct (Make_restart_ok zero_cmd now r _ Hok) as (_ & Hv & _). by rewrite Hpe in Hv.
Qed.

(** A stale leader.  When a leader's request is answered with a higher term, which
    by the protocol deposes it, [processAppendEntriesReply] tests the reply's term only
    where the leader has already left the request's term; the leader keeps its role and
    its term and takes index 1 as the next to send. *)
Theorem stale_leader_not_deposed (server : nat) args reply rf :
  peer_ok zero_cmd rf -> (server < peers rf)%nat -> whoami rf = Leader ->
  ae_Term args = currentTerm (Stat rf) ->
  reply = mkAppendEntriesReply (currentTerm (Stat rf) + 1) false 0 0 ->
  exists rf', handleAppendReply server args reply rf = Some rf' /\ whoami rf' = Leader /\
    currentTerm (Stat rf') = currentTerm (Stat rf) /\ currentTerm (Stat rf) < aer_Term reply /\
    go_index (nextIndex (leaderState (Stat rf'))) (Z.of_nat server) = Some 1.
Proof.
  intros Hok Hs Hw Ht ->. destruct Hok as [Hlog _ _ Hn _ _ _ _ _].
  unfold handleAppendReply. rewrite Ht, Z.eqb_refl, bool_decide_eq_false_2 by tauto.
  cbn [negb orb aer_Success aer_ConflictTerm Z.eqb].
  assert (Hz : lastOfTerm (log (Stat rf)) 0 0 = 0).
  { destruct Hlog as (e0 & rest & -> & He & Hr). cbn [lastOfTerm].
    assert (Hm : forall i, lastOfTerm rest 0 i = -1).
    { induction Hr as [|e1 rest He1 _ IH]; intros i; cbn [lastOfTerm]; [done|].
      rewrite IH. change (negb (-1 =? -1)) with false. cbv iota. case_bool; [lia|done]. }
    rewrite Hm, He. done. }
  rewrite Hz. cbn. unfold set_nextIndex. rewrite go_store_in_range by (unfold zlen; lia). cbn.
  eexists. split; [done|]. cbn. split_and!; [done|done|lia|].
  apply go_index_Some. rewrite Nat2Z.id, zlen_insert. unfold zlen.
  split; [lia|]. apply list_lookup_insert_eq. lia.
Qed.
End Props.

(** ** The properties at concrete inputs *)

Section Witnesses.
(** Peer 0 of the elected cluster. *)
Definition server0 (w : World Z Z) : Server Z Z :=
  match servers w with s :: _ => s | [] => boot 0 3 0 MakePersister 0 0 0 end.

Definition leader0 : Raft Z Z := s_raft (server0 w_elected).

Lemma lookup_server0 : servers w_elected !! 0%nat = Some (server0 w_elected).
Proof. by vm_compute. Qed.

Lemma leader0_ok : peer_ok 0 leader0.
Proof.
  destruct (inv_server _ _ (reachable_Inv 0 3 w_elected w_elected_reachable) _ _ lookup_server0).
  done.
Qed.

Definition fresh : Raft Z Z := Make 0 3 1 MakePersister 0 0.

Lemma fresh_ok : peer_ok 0 fresh.
Proof. apply Make_fresh_ok. lia. Qed.

(** A request that carries one entry of term 1. *)
Definition one_entry : AppendEntriesArgs Z :=
  mkAppendEntriesArgs 1 0 0 0 (Some [mkEntry 1 10]) 1.

Lemma one_entry_ok : append_args_ok one_entry.
Proof. constructor; cbn; try lia. by repeat constructor. Qed.

(** A request for an entry the follower does not have. *)
Definition too_far : AppendEntriesArgs Z := mkAppendEntriesArgs 1 0 5 1 None 0.

Lemma too_far_ok : append_args_ok too_far.
Proof. constructor; cbn; try lia. by repeat constructor. Qed.

Lemma election_safety_witness :
  GetState leader0 = (1, true) /\ 0%nat = 0%nat.
Proof.
  split; [by vm_compute|].
  exact (election_safety 0 3 w_elected 0 0 (server0 w_elected) (server0 w_elected) 1
    w_elected_reachable lookup_server0 lookup_server0
    ltac:(by vm_compute) ltac:(by vm_compute)).
Defined.

Lemma RequestVote_spec_witness :
  let '(rf', reply) := RequestVote 0 0 (mkRequestVoteArgs 1 0 0 0) fresh in
  rvr_Term reply = currentTerm (Stat fresh) /\
  (rvr_VoteGranted reply = true <->
     currentTerm (Stat fresh) <= 1 /\ up_to_date (mkRequestVoteArgs 1 0 0 0) fresh /\
     (currentTerm (Stat fresh) < 1 \/ votedFor (Stat fresh) = -1 \/ votedFor (Stat fresh) = 0)) /\
  currentTerm (Stat rf') = Z.max (currentTerm (Stat fresh)) 1 /\
  (rvr_VoteGranted reply = true -> votedFor (Stat rf') = 0) /\ log (Stat rf') = log (Stat fresh).
Proof. exact (RequestVote_spec 0 0 0 (mkRequestVoteArgs 1 0 0 0) fresh fresh_ok). Defined.

Lemma AppendEntries_rejects_witness :
  exists rf' reply, AppendEntries 0 0 too_far fresh = Some (rf', reply) /\
    aer_Success reply = false /\ aer_ConflictTerm reply = -1 /\ aer_ConflictIndex reply = 1.
Proof.
  destruct (AppendEntries_rejects 0 0 0 too_far fresh fresh_ok too_far_ok
    ltac:(right; left; by vm_compute)) as (rf' & reply & E & Hs & _ & _ & _ & _ & Hc).
  exists rf', reply. split; [done|]. split; [done|].
  destruct (Hc ltac:(by vm_compute)) as [_ Hi]. exact Hi.
Defined.

(** A follower of term 2, and a request of term 3 that agrees with its log at index 1 and not at index 2: entry 1 stays and comes
    again. *)
Definition follower2 : Raft Z Z :=
  let args := mkAppendEntriesArgs 2 1 0 0 (Some [mkEntry 1 10; mkEntry 2 20; mkEntry 2 21; mkEntry 2 22]) 0 in
  match AppendEntries 0 0 args fresh with Some (rf, _) => rf | None => fresh end.
Definition overwrite : AppendEntriesArgs Z := mkAppendEntriesArgs 3 1 0 0 (Some [mkEntry 1 10; mkEntry 3 30]) 0.

Lemma follower2_ok : peer_ok 0 follower2.
Proof.
  unfold follower2. set (args := mkAppendEntriesArgs _ _ _ _ _ _).
  destruct (AppendEntries_ok 0 0 0 args fresh fresh_ok) as (rf & reply & -> & Hok & _); [|done].
  constructor; cbn; try lia. by repeat constructor.
Qed.

Lemma overwrite_ok : append_args_ok overwrite.
Proof. constructor; cbn; try lia. by repeat constructor. Qed.

Lemma AppendEntries_accepts_witness :
  exists rf' reply, AppendEntries 0 0 overwrite follower2 = Some (rf', reply) /\
    log (Stat rf') = [mkEntry 0 0; mkEntry 1 10; mkEntry 1 10; mkEntry 3 30] /\ committedIndex (Stat rf') = 0.
Proof.
  destruct (AppendEntries_accepts 0 0 0 overwrite follower2 follower2_ok overwrite_ok
    ltac:(by vm_compute) ltac:(by vm_compute) ltac:(by vm_compute))
    as (rf' & reply & kept & E & _ & Hl & Hk & Hc & _).
  exists rf', reply. split; [done|].
  assert (differs (log (Stat follower2)) 1 (entriesOf overwrite) 1) as Hd
    by (split; [done|]; exists (mkEntry 2 20), (mkEntry 3 30); done).
  assert (kept = 1%nat) as ->.
  { destruct Hk as [[Hat Hno]|[Hno _]]; [|by destruct (Hno 1%nat)].
    destruct kept as [|[|k]]; [|done|by destruct (Hno 1%nat ltac:(lia))].
    destruct Hat as (_ & old & new & Ho & Hn & Hne). vm_compute in Ho. cbn in Hn. by simplify_eq/=. }
  split; [exact Hl|]. rewrite Hc. by vm_compute.
Defined.


Lemma restart_recovers_witness :
  exists w' s', exec 0 (EvCrash 0 0 0) w_elected = Next w' /\ servers w' !! 0%nat = Some s' /\
    currentTerm (Stat (s_raft s')) = 1 /\ votedFor (Stat (s_raft s')) = 0 /\
    whoami (s_raft s') = Follower.
Proof.
  destruct (restart_recovers 0 3 w_elected 0 (server0 w_elected) 0 0 w_elected_reachable lookup_server0)
    as (w' & s' & E & Hs & Ht & Hv & _ & Hw).
  exists w', s'. rewrite Ht, Hv. split_and!; [done|done|by vm_compute|by vm_compute|done].
Defined.

Lemma terms_grow_votes_stay_witness :
  exists s', servers (worldOf (exec 0 (EvCrash 0 0 0) w_elected)) !! 0%nat = Some s' /\
    1 <= currentTerm (Stat (s_raft s')) /\
    (1 = currentTerm (Stat (s_raft s')) -> votedFor (Stat leader0) <> -1 ->
     votedFor (Stat (s_raft s')) = votedFor (Stat leader0)).
Proof.
  exact (terms_grow_votes_stay 0 3 w_elected (EvCrash 0 0 0)
    (worldOf (exec 0 (EvCrash 0 0 0) w_elected)) 0 (server0 w_elected)
    w_elected_reachable ltac:(by vm_compute) lookup_server0).
Defined.

Lemma stale_leader_not_deposed_witness :
  exists rf', handleAppendReply 1 (mkAppendEntriesArgs 1 0 0 0 None 0)
                (mkAppendEntriesReply 2 false 0 0) leader0 = Some rf' /\ whoami rf' = Leader /\
    currentTerm (Stat rf') = 1.
Proof.
  destruct (stale_leader_not_deposed 0 1 (mkAppendEntriesArgs 1 0 0 0 None 0)
    (mkAppendEntriesReply 2 false 0 0) leader0 leader0_ok
    ltac:(vm_compute; lia) ltac:(by vm_compute) ltac:(by vm_compute) ltac:(by vm_compute))
    as (rf' & E & Hw & Ht & _).
  exists rf'. split_and!; [done|done|]. rewrite Ht. by vm_compute.
Defined.

(** *** Interleavings that break the protocol *)

(** Peer 0 leads term 1 and appends 10 and 20.  The request that carries [10] alone is
    delayed; the one that carries both is answered and peer 0 commits index 2 and
    applies it. *)
Definition commit2 : list (Event Z) :=
  elect0 ++ [EvStart 0 10] ++ beat 0 1 ++ [recv 1; back 1] ++ beat 0 1 ++ [EvStart 0 20]
  ++ beat 0 1 ++ [recv 5; back 5; EvApplyBegin 0; EvApplyEnd 0].

(** The delayed request arrives and cuts 20 off peer 1's log; peer 1 wins term 2 with
    peer 2's vote, appends 40 at index 2, replicates, commits and applies it. *)
Definition overwrite2 : list (Event Z) :=
  [recv 3; tick 1; go 1 2; recv 7; back 7; EvStart 1 40] ++ beat 1 2 ++ [recv 9; back 9]
  ++ beat 1 2 ++ [recv 11; back 11; EvApplyBegin 1; EvApplyEnd 1].

Definition applied (w : World Z Z) (i : nat) : list (Z * Z) :=
  match servers w !! i with
  | Some s => (fun m => (CommandIndex m, Command m)) <$> s_applied s
  | None => []
  end.

Definition w_diverged : World Z Z := worldOf (run 0 (commit2 ++ overwrite2) start3).

(** C24: state machine safety fails.  A cluster of three peers reaches a state in which
    peer 0 has applied 20 at index 2 and peer 1 has applied 40 there.  No peer crashed;
    one request was delayed.  [AppendEntries] truncates the log after [PrevLogIndex]
    even when the entries of the request are already in it. *)
Theorem delayed_request_loses_committed_entry :
  reachable 0 3 w_diverged /\
  applied w_diverged 0 = [(1, 10); (2, 20)] /\ applied w_diverged 1 = [(1, 10); (2, 40)].
Proof.
  split; [|by vm_compute].
  apply (reachable_run 0 3 (commit2 ++ overwrite2) start3); [constructor|by vm_compute].
Qed.

(** Peer 0 leads term 1 and its heartbeat has started the goroutines that will send;
    before they run, peer 2 starts an election in term 1 and then in term 2, and its
    request turns peer 0 into a follower of term 2. *)
Definition depose_then_send : list (Event Z) :=
  elect0 ++ [go 0 1; go 0 1; tick 2; EvTick 2 9000 0; go 2 2; recv 1; go 0 2].

Definition w_impostor : World Z Z := worldOf (run 0 depose_then_send start3).

(** A follower speaks as leader.  [processAppendEntriesReply] does not test that the
    peer still leads when it builds the request, and reads the term at that time.  A
    reachable cluster has a request for term 2 in flight from peer 0, which is a
    follower in term 2 and has never led it. *)
Theorem follower_sends_as_leader :
  reachable 0 3 w_impostor /\
  (exists c args, calls w_impostor !! 2%nat = Some c /\ c_from c = 0%nat /\ c_status c = Sent /\
     c_body c = AppendCall args /\ ae_Term args = 2 /\ ae_LeaderId args = 0) /\
  GetState (s_raft (server0 w_impostor)) = (2, false).
Proof.
  split; [|split; [|by vm_compute]].
  - apply (reachable_run 0 3 depose_then_send start3); [constructor|by vm_compute].
  - eexists _, _. split; [by vm_compute|]. by vm_compute.
Qed.

(** Peer 1's log is cut below its commit index before its applier has run. *)
Definition commit_then_cut : list (Event Z) :=
  commit2 ++ beat 0 1 ++ [recv 7; recv 3].

Definition w_cut : World Z Z := worldOf (run 0 commit_then_cut start3).

Lemma w_cut_reachable : reachable 0 3 w_cut.
Proof. apply (reachable_run 0 3 commit_then_cut start3); [constructor|by vm_compute]. Qed.

Lemma only_applier_panics_witness :
  exists i s, EvApplyBegin (C:=Z) 1 = EvApplyBegin i /\ servers w_cut !! i = Some s /\
              zlen (log (Stat (s_raft s))) <= committedIndex (Stat (s_raft s)).
Proof.
  exact (only_applier_panics 0 3 w_cut (EvApplyBegin 1) w_cut_reachable ltac:(by vm_compute)).
Defined.

Lemma cluster_well_formed_witness :
  log_ok (log (Stat (s_raft (server0 w_cut)))) /\ length (nextIndex (leaderState (Stat (s_raft (server0 w_cut))))) = 3%nat.
Proof.
  destruct (cluster_well_formed 0 3 w_cut 0 (server0 w_cut) w_cut_reachable ltac:(by vm_compute)) as (_ & _ & _ & Hl & Hn & _).
  exact (conj Hl Hn).
Defined.

Lemma applied_in_order_witness :
  CommandIndex <$> s_applied (server0 w_cut) = seqZ 1 2.
Proof.
  exact (applied_in_order 0 3 w_cut 0 (server0 w_cut) w_cut_reachable ltac:(by vm_compute)).
Defined.

(** A follower whose entries 1, 2 and 3 are of term 1, and a request that carries
    entries of terms 1, 2 and 2 for indices 1, 2 and 3. *)
Definition behind : Raft Z Z :=
  set_Stat (set_log [mkEntry 0 0; mkEntry 1 11; mkEntry 1 12; mkEntry 1 13]) fresh.
Definition ahead : AppendEntriesArgs Z :=
  mkAppendEntriesArgs 2 0 0 0 (Some [mkEntry 1 11; mkEntry 2 22; mkEntry 2 23]) 0.

(** The conflict branch of [AppendEntries] appends every entry of the request, also
    those that precede the conflict.  A follower that should end with the leader's log
    of four entries ends with five, the first of the request twice. *)
Theorem conflict_branch_duplicates :
  exists rf' reply, AppendEntries 0 0 ahead behind = Some (rf', reply) /\ aer_Success reply = true /\
    log (Stat rf') = [mkEntry 0 0; mkEntry 1 11; mkEntry 1 11; mkEntry 2 22; mkEntry 2 23].
Proof. eexists _, _. split; [by vm_compute|]. by vm_compute. Qed.
End Witnesses.
