(* ===== verification/Bitset.v ===== *)
(** * Bitset: sets of small integers packed in words
      (src/6.5840-golabs-2024/src/porcupine/bitset.go)

    A bitset is a slice of 64-bit words; bit [pos] is bit [pos mod 64] of word
    [pos / 64].  Words are integers in [0, 2^64).  An access past the last word is a
    panic, the value [None].  [set] and [clear] return the updated slice, which the
    callers of the package either own or have cloned. *)

From S2P Require Import Prelude.
Local Open Scope Z_scope.

Definition bitset := list Z.

Definition newBitset (bits : Z) : bitset :=
  let extra := if negb (bits mod 64 =? 0) then 1 else 0 in
  let chunks := bits / 64 + extra in
  replicate (Z.to_nat chunks) 0.

(** [make] a slice of zeros, then [copy] over it. *)
Definition clone (b : bitset) : bitset :=
  take (length b) b ++ drop (length b) (replicate (length b) 0).

Definition bitsetIndex (pos : Z) : Z * Z := (pos / 64, pos mod 64).

Definition set (b : bitset) (pos : Z) : option bitset :=
  let '(major, minor) := bitsetIndex pos in
  v ← go_index b major;
  go_store b major (Z.lor v (Z.shiftl 1 minor)).

Definition clear (b : bitset) (pos : Z) : option bitset :=
  let '(major, minor) := bitsetIndex pos in
  v ← go_index b major;
  go_store b major (Z.ldiff v (Z.shiftl 1 minor)).

Definition get (b : bitset) (pos : Z) : option bool :=
  let '(major, minor) := bitsetIndex pos in
  v ← go_index b major;
  Some (negb (Z.land v (Z.shiftl 1 minor) =? 0)).

(** [bits.OnesCount64]: the number of ones among the bits below [n]. *)
Fixpoint onesCount (n : nat) (v : Z) : Z :=
  match n with
  | O => 0
  | S n => onesCount n v + (if Z.testbit v (Z.of_nat n) then 1 else 0)
  end.

Definition popcnt (b : bitset) : Z := foldl (fun total v => total + onesCount 64 v) 0 b.

Definition hash (b : bitset) : Z := foldl Z.lxor (popcnt b) b.

(** The loop of [equals] over the indices of two slices of one length. *)
Fixpoint equal_words (b b2 : bitset) : bool :=
  match b, b2 with
  | v :: b, v2 :: b2 => if negb (v =? v2) then false else equal_words b b2
  | _, _ => true
  end.

Definition equals (b b2 : bitset) : bool :=
  if negb (zlen b =? zlen b2) then false else equal_words b b2.

(** ** Well-formed bitsets and the set they stand for *)

Definition word (v : Z) : Prop := 0 <= v < 2 ^ 64.
Definition wf (b : bitset) : Prop := Forall word b.

(** [member b pos]: bit [pos] of [b]; false past the end. *)
Definition member (b : bitset) (pos : Z) : bool :=
  Z.testbit (default 0 (go_index b (pos / 64))) (pos mod 64).

Definition capacity (b : bitset) : Z := 64 * zlen b.

Lemma word_testbit_high v i : word v -> 64 <= i -> Z.testbit v i = false.
Proof.
  intros [H0 H1] Hi. destruct (decide (v = 0)) as [->|]; [apply Z.bits_0|].
  apply Z.bits_above_log2; [done|]. apply Z.log2_lt_pow2; [lia|].
  eapply Z.lt_le_trans; [done|]. by apply Z.pow_le_mono_r.
Qed.

Lemma word_of_bits v : 0 <= v -> (forall i, 64 <= i -> Z.testbit v i = false) -> word v.
Proof.
  intros H0 H. split; [done|]. destruct (decide (v = 0)) as [->|]; [done|].
  apply Z.log2_lt_pow2; [lia|]. destruct (decide (Z.log2 v < 64)) as [|Hge]; [done|].
  exfalso. assert (Z.testbit v (Z.log2 v) = true) by (apply Z.bit_log2; lia).
  rewrite H in *; [done|lia].
Qed.

Lemma minor_range pos : 0 <= pos mod 64 < 64.
Proof. apply Z.mod_pos_bound. lia. Qed.

Lemma testbit_one i j : 0 <= i -> Z.testbit (Z.shiftl 1 i) j = bool_decide (j = i).
Proof.
  intros Hi. rewrite Z.shiftl_1_l. case_bool_decide as E.
  - subst. by apply Z.pow2_bits_true.
  - by apply Z.pow2_bits_false.
Qed.

Lemma word_lor v i : word v -> 0 <= i < 64 -> word (Z.lor v (Z.shiftl 1 i)).
Proof.
  intros Hv Hi. apply word_of_bits.
  - apply Z.lor_nonneg. split; [apply Hv|]. rewrite Z.shiftl_1_l. apply Z.pow_nonneg. lia.
  - intros j Hj. rewrite Z.lor_spec, testbit_one, word_testbit_high by (done || lia).
    rewrite bool_decide_eq_false_2; [done|lia].
Qed.

Lemma word_ldiff v i : word v -> 0 <= i < 64 -> word (Z.ldiff v (Z.shiftl 1 i)).
Proof.
  intros Hv Hi. apply word_of_bits.
  - apply Z.ldiff_nonneg. left. apply Hv.
  - intros j Hj. by rewrite Z.ldiff_spec, word_testbit_high.
Qed.

Lemma go_index_word b i v : wf b -> go_index b i = Some v -> word v.
Proof. intros Hb [_ Hi]%go_index_Some. exact (Forall_lookup_1 _ _ _ _ Hb Hi). Qed.

Lemma major_range b pos : 0 <= pos < capacity b <-> 0 <= pos / 64 < zlen b.
Proof.
  unfold capacity. pose proof (Z.div_mod pos 64 ltac:(lia)). pose proof (minor_range pos). lia.
Qed.

Lemma get_member b pos : 0 <= pos < capacity b -> get b pos = Some (member b pos).
Proof.
  intros Hp. apply major_range in Hp as Hm. unfold get, member, bitsetIndex.
  destruct (go_index_in_range b (pos / 64) Hm) as (v & Hv). rewrite Hv. cbn.
  f_equal. pose proof (minor_range pos) as Hr.
  destruct (Z.testbit v (pos mod 64)) eqn:E.
  - apply negb_true_iff, Z.eqb_neq. intros Hz. apply (f_equal (fun z => Z.testbit z (pos mod 64))) in Hz.
    rewrite Z.land_spec, testbit_one, E, Z.bits_0, bool_decide_eq_true_2 in Hz by (done || lia). done.
  - apply negb_false_iff, Z.eqb_eq. apply Z.bits_inj_0. intros j. rewrite Z.land_spec, testbit_one by lia.
    case_bool_decide; [subst; by rewrite E|by rewrite andb_false_r].
Qed.

(** [b] with word [m] replaced by [v']: what [member] sees. *)
Lemma member_insert b m v' p :
  0 <= p -> 0 <= m < zlen b ->
  member (<[Z.to_nat m := v']> b) p =
    if decide (p / 64 = m) then Z.testbit v' (p mod 64) else member b p.
Proof.
  intros Hp Hm. pose proof (Z.div_pos p 64 Hp ltac:(lia)) as Hd. unfold member, go_index, zlen in *.
  destruct (Z.ltb_spec (p / 64) 0); [lia|]. case_decide as E.
  - subst. rewrite list_lookup_insert_eq; [done|]. lia.
  - rewrite list_lookup_insert_ne; [done|]. lia.
Qed.

Lemma split_pos p q : 0 <= p -> 0 <= q -> p / 64 = q / 64 -> p mod 64 = q mod 64 -> p = q.
Proof. intros. rewrite (Z.div_mod p 64), (Z.div_mod q 64) by lia. congruence. Qed.

Lemma set_spec b pos :
  wf b -> 0 <= pos < capacity b ->
  exists b', set b pos = Some b' /\ wf b' /\ length b' = length b /\
    forall p, 0 <= p -> member b' p = if decide (p = pos) then true else member b p.
Proof.
  intros Hb Hp. apply major_range in Hp as Hm. unfold set, bitsetIndex.
  destruct (go_index_in_range b _ Hm) as (v & Hv). rewrite Hv. cbn [mbind option_bind].
  rewrite go_store_in_range by done. pose proof (minor_range pos) as Hr.
  eexists. split; [done|]. split_and!.
  - apply Forall_insert; [done|]. apply word_lor; [by eapply go_index_word|done].
  - apply length_insert.
  - intros p Hp0. rewrite member_insert by done. case_decide as E1; case_decide as E2; subst; try done.
    + by rewrite Z.lor_spec, testbit_one, bool_decide_eq_true_2, orb_true_r by lia.
    + rewrite Z.lor_spec, testbit_one, bool_decide_eq_false_2, orb_false_r; [|auto using split_pos with lia|lia].
      unfold member. by rewrite E1, Hv.
Qed.

Lemma clear_spec b pos :
  wf b -> 0 <= pos < capacity b ->
  exists b', clear b pos = Some b' /\ wf b' /\ length b' = length b /\
    forall p, 0 <= p -> member b' p = if decide (p = pos) then false else member b p.
Proof.
  intros Hb Hp. apply major_range in Hp as Hm. unfold clear, bitsetIndex.
  destruct (go_index_in_range b _ Hm) as (v & Hv). rewrite Hv. cbn [mbind option_bind].
  rewrite go_store_in_range by done. pose proof (minor_range pos) as Hr.
  eexists. split; [done|]. split_and!.
  - apply Forall_insert; [done|]. apply word_ldiff; [by eapply go_index_word|done].
  - apply length_insert.
  - intros p Hp0. rewrite member_insert by done. case_decide as E1; case_decide as E2; subst; try done.
    + by rewrite Z.ldiff_spec, testbit_one, bool_decide_eq_true_2, andb_false_r by lia.
    + rewrite Z.ldiff_spec, testbit_one, bool_decide_eq_false_2, andb_true_r; [|auto using split_pos with lia|lia].
      unfold member. by rewrite E1, Hv.
Qed.

Lemma set_out_of_range b pos : capacity b <= pos -> set b pos = None /\ clear b pos = None /\ get b pos = None.
Proof.
  intros Hp. assert (go_index b (pos / 64) = None) as Hn.
  { destruct (go_index b (pos / 64)) as [v|] eqn:E; [|done].
    apply go_index_Some in E as [E _]. apply major_range in E. lia. }
  unfold set, clear, get, bitsetIndex. by rewrite Hn.
Qed.

(** ** Construction, copying and comparison *)

Lemma clone_same b : clone b = b.
Proof.
  unfold clone. rewrite take_ge by lia. rewrite drop_ge by (rewrite length_replicate; lia).
  apply app_nil_r.
Qed.

Lemma newBitset_spec bits :
  0 <= bits -> wf (newBitset bits) /\ bits <= capacity (newBitset bits) < bits + 64 /\
  forall p, member (newBitset bits) p = false.
Proof.
  intros Hb. unfold newBitset. set (c := Z.to_nat _). split_and!.
  - apply Forall_replicate. by unfold word.
  - unfold capacity, zlen. rewrite length_replicate. subst c.
    pose proof (Z.div_mod bits 64 ltac:(lia)). pose proof (minor_range bits).
    pose proof (Z.div_pos bits 64 Hb ltac:(lia)). case_bool; lia.
  - unfold capacity, zlen. rewrite length_replicate. subst c.
    pose proof (Z.div_mod bits 64 ltac:(lia)). pose proof (minor_range bits).
    pose proof (Z.div_pos bits 64 Hb ltac:(lia)). case_bool; lia.
  - intros p. unfold member. destruct (go_index _ _) as [v|] eqn:E; cbn; [|apply Z.bits_0].
    apply go_index_Some in E as [_ E]. apply lookup_replicate in E as [-> _]. apply Z.bits_0.
Qed.

Lemma equals_iff b b2 : equals b b2 = true <-> b = b2.
Proof.
  unfold equals, zlen. split.
  - destruct (Z.eqb_spec (Z.of_nat (length b)) (Z.of_nat (length b2))) as [E|]; [|done]. cbn [negb].
    apply Nat2Z.inj in E. revert b2 E. induction b as [|v b IH]; intros [|v2 b2] E; try done.
    cbn. destruct (Z.eqb_spec v v2); [|done]. cbn. intros. f_equal; [done|]. apply IH; [|done]. by injection E.
  - intros <-. rewrite Z.eqb_refl. cbn [negb]. induction b as [|v b IH]; [done|]. cbn. by rewrite Z.eqb_refl.
Qed.

(** Two bitsets of one length with the same members are the same slice. *)
Lemma bitset_ext b b2 :
  wf b -> wf b2 -> length b = length b2 ->
  (forall p, 0 <= p < capacity b -> member b p = member b2 p) -> b = b2.
Proof.
  intros Hb Hb2 Hlen Hm. apply list_eq_same_length with (length b); [done..|].
  intros i x y Hi Hx Hy. apply Z.bits_inj'. intros j Hj.
  destruct (decide (64 <= j)).
  { by rewrite (word_testbit_high x j (Forall_lookup_1 _ _ _ _ Hb Hx)),
      (word_testbit_high y j (Forall_lookup_1 _ _ _ _ Hb2 Hy)). }
  specialize (Hm (64 * Z.of_nat i + j)). unfold member, capacity, zlen in Hm.
  assert ((64 * Z.of_nat i + j) / 64 = Z.of_nat i) as Hd
    by (rewrite Z.mul_comm, Z.div_add_l, Z.div_small; lia).
  assert ((64 * Z.of_nat i + j) mod 64 = j) as Hmod
    by (rewrite Z.mul_comm, Z.add_comm, Z.mod_add, Z.mod_small; lia).
  rewrite Hd, Hmod in Hm. unfold go_index in Hm.
  destruct (Z.ltb_spec (Z.of_nat i) 0); [lia|]. rewrite !Nat2Z.id, Hx, Hy in Hm. apply Hm. lia.
Qed.

(** ** The population count *)

(** The number of positions [p] with [f p] among [lo, lo+1, ..., lo+n-1]. *)
Fixpoint count (f : Z -> bool) (lo : Z) (n : nat) : Z :=
  match n with
  | O => 0
  | S n => (if f lo then 1 else 0) + count f (lo + 1) n
  end.

Lemma count_app f lo n m : count f lo (n + m) = count f lo n + count f (lo + Z.of_nat n) m.
Proof.
  revert lo. induction n as [|n IH]; intros lo; cbn [count Nat.add]; [by rewrite Z.add_0_r|].
  rewrite IH. replace (lo + 1 + Z.of_nat n) with (lo + Z.of_nat (S n)) by lia. lia.
Qed.

Lemma count_shift f g k lo n :
  (forall p, lo <= p < lo + Z.of_nat n -> f (k + p) = g p) -> count f (k + lo) n = count g lo n.
Proof.
  revert lo. induction n as [|n IH]; intros lo H; cbn [count]; [done|].
  rewrite H by lia. rewrite <- Z.add_assoc, (IH (lo + 1)); [done|]. intros p Hp. apply H. lia.
Qed.

Lemma onesCount_count n v : onesCount n v = count (Z.testbit v) 0 n.
Proof.
  induction n as [|n IH]; [done|]. replace (S n) with (n + 1)%nat by lia.
  rewrite count_app, <- IH, Nat.add_1_r. cbn [onesCount count]. rewrite Z.add_0_l. lia.
Qed.

Lemma popcnt_foldl acc b :
  foldl (fun total v => total + onesCount 64 v) acc b = acc + popcnt b.
Proof.
  unfold popcnt. revert acc. induction b as [|v b IH]; intros acc; cbn [foldl]; [lia|].
  rewrite IH, (IH (0 + onesCount 64 v)). lia.
Qed.

Lemma member_cons v b p : 0 <= p -> member (v :: b) (64 + p) = member b p.
Proof.
  intros Hp. unfold member, go_index. pose proof (Z.div_pos p 64 Hp ltac:(lia)).
  replace ((64 + p) / 64) with (1 + p / 64) by (rewrite <- (Z.div_add_l 1 64 p) by lia; f_equal; lia).
  replace ((64 + p) mod 64) with (p mod 64) by (rewrite <- (Z.mod_add p 1 64) by lia; f_equal; lia).
  destruct (Z.ltb_spec (1 + p / 64) 0); [lia|]. destruct (Z.ltb_spec (p / 64) 0); [lia|].
  by replace (Z.to_nat (1 + p / 64)) with (S (Z.to_nat (p / 64))) by lia.
Qed.

Lemma popcnt_count b : popcnt b = count (member b) 0 (64 * length b).
Proof.
  induction b as [|v b IH]; [done|]. change (popcnt (v :: b)) with (foldl (fun t v => t + onesCount 64 v) (0 + onesCount 64 v) b).
  rewrite popcnt_foldl, IH. replace (64 * length (v :: b))%nat with (64 + 64 * length b)%nat by (cbn [length]; lia).
  rewrite count_app, onesCount_count, !Z.add_0_l.
  assert (count (Z.testbit v) 0 64 = count (member (v :: b)) 0 64) as ->.
  { symmetry. apply (count_shift _ _ 0). intros p Hp. unfold member.
    rewrite Z.div_small, Z.mod_small by lia. done. }
  apply Z.add_cancel_l. change (Z.of_nat 64) with (64 + 0). symmetry. apply count_shift.
  intros p Hp. apply member_cons. lia.
Qed.

(** One position changed from false to true adds one to the count. *)
Lemma count_set f g lo n pos :
  (forall p, lo <= p < lo + Z.of_nat n -> g p = if decide (p = pos) then true else f p) ->
  lo <= pos < lo + Z.of_nat n -> count g lo n = count f lo n + (if f pos then 0 else 1).
Proof.
  revert lo. induction n as [|n IH]; intros lo Hg Hpos; [lia|]. cbn [count]. rewrite (Hg lo) by lia.
  destruct (decide (lo = pos)) as [->|Hne].
  - assert (count g (pos + 1) n = count f (pos + 1) n) as ->; [|destruct (f pos); lia].
    apply (count_shift g f 0). intros p Hp. rewrite Z.add_0_l, Hg by lia. rewrite decide_False; [done|lia].
  - rewrite IH; [lia|intros; apply Hg; lia|lia].
Qed.

(** ** Claims *)

(** A bitset is a set.  For a position inside its words, [set] and [clear] succeed, keep the
    words well formed, and change what [get] answers at that position only; [popcnt] grows
    by one exactly when [set] adds a new element. *)
Theorem bitset_is_a_set b pos :
  wf b -> 0 <= pos < capacity b ->
  exists bs bc, set b pos = Some bs /\ clear b pos = Some bc /\ wf bs /\ wf bc /\
    (forall p, 0 <= p < capacity b ->
       get bs p = (if decide (p = pos) then Some true else get b p) /\
       get bc p = (if decide (p = pos) then Some false else get b p)) /\
    popcnt bs = popcnt b + (if member b pos then 0 else 1).
Proof.
  intros Hb Hp. destruct (set_spec b pos Hb Hp) as (bs & Hs & Hws & Hls & Hms).
  destruct (clear_spec b pos Hb Hp) as (bc & Hc & Hwc & Hlc & Hmc). exists bs, bc.
  assert (capacity bs = capacity b /\ capacity bc = capacity b) as [Hcs Hcc]
    by (unfold capacity, zlen; by rewrite Hls, Hlc).
  split_and!; [done..| |].
  - intros p Hpr. rewrite !get_member, Hms, Hmc by lia. by case_decide.
  - rewrite !popcnt_count, Hls. apply count_set.
    + intros p Hpr. apply Hms. lia.
    + unfold capacity, zlen in Hp. lia.
Qed.

(** Comparison of bitsets.  Two well-formed bitsets of the same number of words are [equals]
    exactly when they have the same members, so the cache of the checker, which compares
    bitsets of one hash bucket, identifies sets. *)
Theorem equals_same_set b b2 :
  wf b -> wf b2 -> length b = length b2 ->
  equals b b2 = true <-> forall p, 0 <= p < capacity b -> get b p = get b2 p.
Proof.
  intros Hb Hb2 Hlen. rewrite equals_iff. split; [by intros ->|]. intros Hget.
  apply bitset_ext; [done..|]. intros p Hp. specialize (Hget p Hp).
  rewrite !get_member in Hget; [by injection Hget| |done].
  unfold capacity, zlen in *. by rewrite <- Hlen.
Qed.

Definition three_words : bitset := newBitset 130.

Lemma bitset_is_a_set_witness :
  exists bs, set three_words 129 = Some bs /\ get bs 129 = Some true /\ get bs 128 = Some false.
Proof.
  destruct (bitset_is_a_set three_words 129) as (bs & bc & Hs & _ & _ & _ & Hget & _);
    [by apply newBitset_spec|by vm_compute|].
  exists bs. split; [done|]. split.
  - by destruct (Hget 129) as [-> _].
  - by destruct (Hget 128) as [-> _].
Defined.

Lemma equals_same_set_witness : equals three_words (clone three_words) = true.
Proof.
  apply equals_same_set; [by apply newBitset_spec|rewrite clone_same; by apply newBitset_spec|done|done].
Defined.
