(* ===== verification/LinkedList.v ===== *)
(** * LinkedList: the doubly linked list of the linearizability checker
      (src/6.5840-golabs-2024/src/porcupine/checker.go: [node], [insertBefore],
      [length], [lift], [unlift])

    The nodes live in a heap, a list indexed by address; a [*node] is [option nat],
    [None] being nil.  Every access through a pointer fails on nil.  [dll] says that a
    heap links a given list of addresses; [undoable] says that the nodes taken out of the
    list can be put back in the reverse order by their own pointers, the technique
    [lift] and [unlift] rely on. *)

From S2P Require Import Prelude.
Local Open Scope Z_scope.

(** ** Nodes and the heap *)

Record node {V : Type} := mkNode {
  value : option V;
  match_ : option nat;
  id : Z;
  next : option nat;
  prev : option nat
}.
Arguments node : clear implicits.
Arguments mkNode {V}.

Section Heap.
Context {V : Type}.
Abbreviation heap := (list (node V)).
Implicit Types (h : heap) (a b x : nat) (p q : option nat) (l : list nat).

Definition set_next q (n : node V) : node V := mkNode (value n) (match_ n) (id n) q (prev n).
Definition set_prev p (n : node V) : node V := mkNode (value n) (match_ n) (id n) (next n) p.

(** [*p] *)
Definition deref h p : option (node V) := a ← p; h !! a.

(** [p.next = q] and [p.prev = q] *)
Definition store_next h p q : option heap := a ← p; n ← h !! a; Some (<[a := set_next q n]> h).
Definition store_prev h p q : option heap := a ← p; n ← h !! a; Some (<[a := set_prev q n]> h).

(** [&node{...}] *)
Definition alloc h (n : node V) : heap * nat := (h ++ [n], length h).

Definition insertBefore h (n : nat) (mark : option nat) : option heap :=
  match mark with
  | None => Some h
  | Some m =>
      beforeMark ← prev <$> deref h mark;
      h ← store_prev h mark (Some n);
      h ← store_next h (Some n) mark;
      match beforeMark with
      | None => Some h
      | Some _ =>
          h ← store_prev h (Some n) beforeMark;
          store_next h beforeMark (Some n)
      end
  end.

(** The number of nodes from [p] on.  A list that does not end runs out of [fuel]. *)
Fixpoint count_nodes (fuel : nat) h p (acc : Z) : option Z :=
  match p with
  | None => Some acc
  | Some a =>
      match fuel with
      | O => None
      | S fuel => n ← h !! a; count_nodes fuel h (next n) (acc + 1)
      end
  end.

Definition length_ h p : option Z := count_nodes (length h) h p 0.

Definition lift h (entry : option nat) : option heap :=
  e ← deref h entry;
  h ← store_next h (prev e) (next e);
  e ← deref h entry;
  h ← store_prev h (next e) (prev e);
  m ← deref h (match_ e);
  h ← store_next h (prev m) (next m);
  m ← deref h (match_ e);
  match next m with
  | None => Some h
  | Some _ => store_prev h (next m) (prev m)
  end.

Definition unlift h (entry : option nat) : option heap :=
  e ← deref h entry;
  m ← deref h (match_ e);
  h ← store_next h (prev m) (match_ e);
  m ← deref h (match_ e);
  h ← (match next m with
       | None => Some h
       | Some _ => store_prev h (next m) (match_ e)
       end);
  e ← deref h entry;
  h ← store_next h (prev e) entry;
  e ← deref h entry;
  store_prev h (next e) entry.

(** ** Linked lists of addresses *)

(** The segment [l] is linked in [h]: the first node has [p] as its predecessor, the last
    one [q] as its successor. *)
Fixpoint dseg h p l q : Prop :=
  match l with
  | [] => True
  | x :: l' =>
      (exists n, h !! x = Some n /\ prev n = p /\ next n = from_option Some q (head l')) /\
      dseg h (Some x) l' q
  end.

(** A whole list. *)
Definition dll h l : Prop := dseg h None l None.

(** The fields that no operation on the list changes. *)
Definition fixed h h' : Prop :=
  length h' = length h /\
  forall x n, h !! x = Some n -> exists n', h' !! x = Some n' /\
    value n' = value n /\ match_ n' = match_ n /\ id n' = id n.

(** What [history] of removals, the latest first, allows to be undone: [(A, x, B)] is the
    removal of [x] from between [A] and [B], and [x] still points to its neighbours. *)
Fixpoint undoable h (cur : list nat) (history : list (list nat * nat * list nat)) : Prop :=
  match history with
  | [] => True
  | (A, x, B) :: history =>
      cur = A ++ B /\ A <> [] /\
      (exists n, h !! x = Some n /\ prev n = last A /\ next n = head B) /\
      undoable h (A ++ x :: B) history
  end.

Definition removed (history : list (list nat * nat * list nat)) : list nat :=
  (fun '(_, x, _) => x) <$> history.

(** *** Segments *)

Lemma from_head p : from_option Some None p = p.
Proof. by destruct p. Qed.

Lemma dseg_app h p A B q :
  dseg h p (A ++ B) q <->
  dseg h p A (from_option Some q (head B)) /\ dseg h (from_option Some p (last A)) B q.
Proof.
  revert p. induction A as [|x A IH]; intros p; cbn [dseg app]; [tauto|].
  rewrite IH. assert (from_option Some q (head (A ++ B)) =
    from_option Some (from_option Some q (head B)) (head A)) as -> by by destruct A.
  assert (from_option Some (Some x) (last A) = from_option Some p (last (x :: A))) as ->.
  { rewrite last_cons. by destruct (last A). }
  tauto.
Qed.

Lemma dseg_frame h h' p l q :
  (forall x, x ∈ l -> h' !! x = h !! x) -> dseg h p l q -> dseg h' p l q.
Proof.
  revert p. induction l as [|x l IH]; intros p Hs; [done|]. cbn. intros [(n & Hn & Hp) Hl]. split.
  - exists n. split; [|done]. rewrite Hs; [done|by left].
  - apply IH; [|done]. intros y Hy. apply Hs. by right.
Qed.

Lemma dseg_insert h p l q a n : a ∉ l -> dseg h p l q -> dseg (<[a := n]> h) p l q.
Proof. intros Ha. apply dseg_frame. intros x Hx. apply list_lookup_insert_ne. set_solver. Qed.

(** Storing in the last node's [next], or the first node's [prev], relinks a segment. *)
Lemma dseg_store_next h p l z n q q' :
  z ∉ l -> h !! z = Some n -> dseg h p (l ++ [z]) q -> dseg (<[z := set_next q' n]> h) p (l ++ [z]) q'.
Proof.
  intros Hz Hn. rewrite !dseg_app. intros [Hl [(n' & Hn' & Hp & _) _]]. simplify_eq.
  split; [by apply dseg_insert|]. split; [|done].
  eexists. split; [by eapply list_lookup_insert_eq, lookup_lt_Some|done].
Qed.

Lemma dseg_store_prev h p l z n q p' :
  z ∉ l -> h !! z = Some n -> dseg h p (z :: l) q -> dseg (<[z := set_prev p' n]> h) p' (z :: l) q.
Proof.
  intros Hz Hn [(n' & Hn' & _ & Hx) Hl]. simplify_eq. split; [|by apply dseg_insert].
  eexists. split; [by eapply list_lookup_insert_eq, lookup_lt_Some|done].
Qed.

Lemma dseg_lookup h p A x B q :
  dseg h p (A ++ x :: B) q ->
  exists n, h !! x = Some n /\ prev n = from_option Some p (last A) /\ next n = from_option Some q (head B).
Proof. rewrite dseg_app. by intros [_ [? _]]. Qed.

Lemma dseg_prefix_last h p A B q :
  dseg h p (A ++ B) q -> forall z, last A = Some z -> exists n, h !! z = Some n.
Proof.
  intros H z (A' & ->)%last_Some. rewrite <- app_assoc in H.
  by destruct (dseg_lookup h p A' z B q H) as (n & ? & _); exists n.
Qed.

(** *** Taking one node out and putting it back *)

(** [x.prev.next = x.next; if x.next != nil { x.next.prev = x.prev }] *)
Definition unlink h x : option heap :=
  n ← h !! x;
  h ← store_next h (prev n) (next n);
  n ← h !! x;
  match next n with None => Some h | Some _ => store_prev h (next n) (prev n) end.

(** [x.prev.next = x; if x.next != nil { x.next.prev = x }] *)
Definition relink h x : option heap :=
  n ← h !! x;
  h ← store_next h (prev n) (Some x);
  n ← h !! x;
  match next n with None => Some h | Some _ => store_prev h (next n) (Some x) end.

Lemma fixed_refl h : fixed h h.
Proof. split; [done|]. intros x n Hn. by exists n. Qed.

Lemma fixed_trans h h1 h2 : fixed h h1 -> fixed h1 h2 -> fixed h h2.
Proof.
  intros [L1 H1] [L2 H2]. split; [congruence|]. intros x n Hn.
  destruct (H1 x n Hn) as (n1 & Hn1 & ? & ? & ?). destruct (H2 x n1 Hn1) as (n2 & Hn2 & ? & ? & ?).
  exists n2. split_and!; congruence.
Qed.

Lemma fixed_insert h a n n' :
  h !! a = Some n -> value n' = value n -> match_ n' = match_ n -> id n' = id n -> fixed h (<[a := n']> h).
Proof.
  intros Ha Hv Hm Hi. split; [apply length_insert|]. intros x m Hx. destruct (decide (x = a)) as [->|].
  - exists n'. rewrite list_lookup_insert_eq by (by eapply lookup_lt_Some). by simplify_eq.
  - exists m. by rewrite list_lookup_insert_ne.
Qed.

(** Writes to the links of live nodes leave everything else alone. *)
Definition touches h h' (l : list nat) : Prop :=
  fixed h h' /\ forall x, x ∉ l -> h' !! x = h !! x.

Lemma touches_trans h h1 h2 l : touches h h1 l -> touches h1 h2 l -> touches h h2 l.
Proof.
  intros [F1 H1] [F2 H2]. split; [by eapply fixed_trans|]. intros x Hx. by rewrite H2, H1.
Qed.

Lemma touches_next h z n q l : h !! z = Some n -> z ∈ l -> touches h (<[z := set_next q n]> h) l.
Proof.
  intros Hz Hl. split; [by eapply fixed_insert|]. intros x Hx. apply list_lookup_insert_ne. set_solver.
Qed.

Lemma touches_prev h z n q l : h !! z = Some n -> z ∈ l -> touches h (<[z := set_prev q n]> h) l.
Proof.
  intros Hz Hl. split; [by eapply fixed_insert|]. intros x Hx. apply list_lookup_insert_ne. set_solver.
Qed.

(** The node after a gap gets [p'] as its predecessor; nothing happens at the end of the list. *)
Lemma store_prev_head h p B p' :
  NoDup B -> dseg h p B None ->
  exists h', match head B with None => Some h | Some _ => store_prev h (head B) p' end = Some h' /\
    dseg h' p' B None /\ touches h h' B.
Proof.
  intros Hnd HB. destruct B as [|y B]; cbn [head].
  { exists h. split_and!; [done..|]. split; [apply fixed_refl|done]. }
  apply NoDup_cons in Hnd as [Hy _]. pose proof HB as [(n & Hn & _) _]. exists (<[y := set_prev p' n]> h).
  split_and!; [unfold store_prev; cbn; by rewrite Hn|by eapply dseg_store_prev|].
  apply touches_prev; [done|set_solver].
Qed.

(** The node before a gap gets [q'] as its successor. *)
Lemma store_next_last h p A z q q' :
  NoDup (A ++ [z]) -> dseg h p (A ++ [z]) q ->
  exists h', store_next h (Some z) q' = Some h' /\
    dseg h' p (A ++ [z]) q' /\ touches h h' (A ++ [z]).
Proof.
  intros Hnd HA. apply NoDup_app in Hnd as (_ & Hz & _).
  destruct (dseg_lookup h p A z [] q HA) as (n & Hn & _). exists (<[z := set_next q' n]> h).
  split_and!; [unfold store_next; cbn; by rewrite Hn| |apply touches_next; [done|set_solver]].
  apply (dseg_store_next h p A z n q); [set_solver|done|done].
Qed.

Lemma touches_mono h h' l l' : touches h h' l -> l ⊆ l' -> touches h h' l'.
Proof. intros [F H] Hl. split; [done|]. intros x Hx. apply H. set_solver. Qed.

Lemma dseg_touches h h' p l q k : touches h h' k -> (forall x, x ∈ l -> x ∉ k) -> dseg h p l q -> dseg h' p l q.
Proof. intros [_ H] Hl. apply dseg_frame. intros x Hx. apply H. auto. Qed.

Lemma unlink_spec h A z x B :
  NoDup ((A ++ [z]) ++ x :: B) -> dll h ((A ++ [z]) ++ x :: B) ->
  exists h', unlink h x = Some h' /\ dll h' ((A ++ [z]) ++ B) /\ touches h h' ((A ++ [z]) ++ B) /\
    exists n, h' !! x = Some n /\ prev n = Some z /\ next n = head B.
Proof.
  intros Hnd Hdll. pose proof Hdll as Hx. apply dseg_lookup in Hx as (n & Hn & Hp & Hq).
  rewrite last_snoc in Hp. cbn [from_option] in Hp. rewrite from_head in Hq.
  unfold dll in *. apply dseg_app in Hdll as [HA [_ HB]].
  apply NoDup_app in Hnd as (HndA & Hdisj & [Hxb HndB]%NoDup_cons).
  assert (x ∉ A ++ [z]) as Hxa by (intros Hin; apply (Hdisj x Hin); by left).
  assert (forall y, y ∈ B -> y ∉ A ++ [z]) as Hba by (intros y HyB HyA; apply (Hdisj y HyA); by right).
  unfold unlink. rewrite Hn. cbn [mbind option_bind]. rewrite Hp.
  destruct (store_next_last h None A z (Some x) (next n) HndA HA) as (h1 & -> & HA1 & T1).
  cbn [mbind option_bind]. rewrite (proj2 T1 x Hxa), Hn. cbn [mbind option_bind]. rewrite Hp, Hq in *.
  destruct (store_prev_head h1 (Some x) B (Some z) HndB) as (h2 & -> & HB2 & T2).
  { by eapply dseg_touches. }
  exists h2. split; [done|]. split_and!.
  - rewrite dseg_app, last_snoc, from_head. split; [|done]. eapply dseg_touches; [done| |done]. set_solver.
  - eapply touches_trans; eapply touches_mono; try done; set_solver.
  - exists n. rewrite (proj2 T2 x Hxb), (proj2 T1 x Hxa). done.
Qed.

Lemma relink_spec h A z x B n :
  NoDup ((A ++ [z]) ++ x :: B) -> dll h ((A ++ [z]) ++ B) ->
  h !! x = Some n -> prev n = Some z -> next n = head B ->
  exists h', relink h x = Some h' /\ dll h' ((A ++ [z]) ++ x :: B) /\ touches h h' ((A ++ [z]) ++ B).
Proof.
  intros Hnd Hdll Hn Hp Hq. unfold dll in *. apply dseg_app in Hdll as [HA HB].
  apply NoDup_app in Hnd as (HndA & Hdisj & [Hxb HndB]%NoDup_cons).
  assert (x ∉ A ++ [z]) as Hxa by (intros Hin; apply (Hdisj x Hin); by left).
  assert (forall y, y ∈ B -> y ∉ A ++ [z]) as Hba by (intros y HyB HyA; apply (Hdisj y HyA); by right).
  unfold relink. rewrite Hn. cbn [mbind option_bind]. rewrite Hp.
  destruct (store_next_last h None A z _ (Some x) HndA HA) as (h1 & -> & HA1 & T1).
  cbn [mbind option_bind]. rewrite (proj2 T1 x Hxa), Hn. cbn [mbind option_bind]. rewrite Hq in *.
  destruct (store_prev_head h1 (from_option Some None (last (A ++ [z]))) B (Some x) HndB) as (h2 & -> & HB2 & T2).
  { by eapply dseg_touches. }
  exists h2. split; [done|]. split.
  - rewrite dseg_app, last_snoc. split; [eapply dseg_touches; [done| |done]; set_solver|].
    split; [|done]. exists n. rewrite (proj2 T2 x Hxb), (proj2 T1 x Hxa), !from_head. done.
  - eapply touches_trans; eapply touches_mono; try done; set_solver.
Qed.

(** *** The list with its removals *)

(** [h] links [cur], and the removals of [history] can be undone. *)
Definition linked h cur history : Prop :=
  dll h cur /\ undoable h cur history /\ NoDup (cur ++ removed history).

Lemma undoable_frame h h' cur history :
  (forall x, x ∈ removed history -> h' !! x = h !! x) -> undoable h cur history -> undoable h' cur history.
Proof.
  revert cur. induction history as [|[[A x] B] history IH]; intros cur Hs; [done|].
  cbn. intros (-> & HA & (n & Hn & Hpq) & Hu). split_and!; [done..| |].
  - exists n. split; [|done]. rewrite Hs; [done|]. by left.
  - apply IH; [|done]. intros y Hy. apply Hs. by right.
Qed.

Lemma unlink_linked h A x B history :
  linked h (A ++ x :: B) history -> A <> [] ->
  exists h', unlink h x = Some h' /\ linked h' (A ++ B) ((A, x, B) :: history) /\ touches h h' (A ++ B).
Proof.
  intros (Hd & Hu & Hnd) HA. pose proof Hnd as (Hnd1 & Hdisj & _)%NoDup_app.
  destruct (exists_last HA) as (A' & z & EA). rewrite EA in Hd, Hnd1.
  destruct (unlink_spec h A' z x B Hnd1 Hd) as (h' & Hun & Hd' & T & (n & Hn & Hp & Hq)).
  rewrite <- EA in Hd', T. exists h'. split; [done|]. split; [|done]. split_and!; [done| |].
  - cbn. split_and!; [done..| |].
    + exists n. rewrite EA, last_snoc. done.
    + apply (undoable_frame h); [|done]. intros y Hy. apply T. intros Hin.
      apply (Hdisj y); [set_solver|done].
  - cbn [removed fmap list_fmap]. rewrite <- Permutation_middle. revert Hnd. rewrite <- !app_assoc. cbn.
    by rewrite <- Permutation_middle.
Qed.

Lemma relink_linked h A x B history :
  linked h (A ++ B) ((A, x, B) :: history) ->
  exists h', relink h x = Some h' /\ linked h' (A ++ x :: B) history /\ touches h h' (A ++ B).
Proof.
  intros (Hd & Hu & Hnd). cbn in Hu. destruct Hu as (_ & HA & (n & Hn & Hp & Hq) & Hu).
  assert (NoDup ((A ++ x :: B) ++ removed history)) as Hnd'.
  { revert Hnd. cbn [removed fmap list_fmap]. rewrite <- Permutation_middle, <- !app_assoc. cbn.
    by rewrite <- Permutation_middle. }
  pose proof Hnd' as (Hnd1 & Hdisj & _)%NoDup_app.
  destruct (exists_last HA) as (A' & z & EA). rewrite EA in Hd, Hnd1, Hp. rewrite last_snoc in Hp.
  destruct (relink_spec h A' z x B n Hnd1 Hd Hn Hp Hq) as (h' & Hre & Hd' & T).
  rewrite <- EA in Hd', T. exists h'. split; [done|]. split; [|done]. split_and!; [done| |done].
  apply (undoable_frame h); [|done]. intros y Hy. apply T. intros Hin.
  apply (Hdisj y); [set_solver|done].
Qed.

Lemma store_next_ne h p q h' x : store_next h p q = Some h' -> p <> Some x -> h' !! x = h !! x.
Proof.
  destruct p as [a|]; [|done]. unfold store_next. cbn [mbind option_bind].
  destruct (h !! a) as [n|]; cbn; [|done]. intros [= <-] Hne. apply list_lookup_insert_ne. congruence.
Qed.

(** [lift] is two removals and [unlift] two insertions in the reverse order. *)
Lemma lift_unlink h c n m :
  h !! c = Some n -> match_ n = Some m -> next n <> None -> prev n <> Some c ->
  lift h (Some c) = (h1 ← unlink h c; unlink h1 m).
Proof.
  intros Hn Hm Hq Hp. unfold lift, unlink, deref. cbn [mbind option_bind]. rewrite Hn. cbn [mbind option_bind].
  destruct (store_next h (prev n) (next n)) as [h1|] eqn:E; cbn [mbind option_bind]; [|done].
  rewrite (store_next_ne _ _ _ _ c E Hp), Hn. cbn [mbind option_bind].
  destruct (next n) as [y|] eqn:Ey; [|done]. rewrite Hm.
  by destruct (store_prev h1 (Some y) (prev n)) as [h2|]; cbn [mbind option_bind].
Qed.

Lemma unlift_relink h c n m n' :
  h !! c = Some n -> match_ n = Some m -> h !! m = Some n' ->
  (forall h1, relink h m = Some h1 -> exists n1, h1 !! c = Some n1 /\ next n1 <> None /\ prev n1 <> Some c) ->
  prev n' <> Some m ->
  unlift h (Some c) = (h1 ← relink h m; relink h1 c).
Proof.
  intros Hn Hm Hn' Hc Hp. unfold unlift, relink, deref in *. cbn [mbind option_bind] in *.
  rewrite Hn. cbn [mbind option_bind]. rewrite Hm. cbn [mbind option_bind]. rewrite Hn' in *. cbn [mbind option_bind] in *.
  destruct (store_next h (prev n') (Some m)) as [h1|] eqn:E; cbn [mbind option_bind] in *; [|done].
  rewrite (store_next_ne _ _ _ _ m E Hp), Hn' in *. cbn [mbind option_bind] in *.
  destruct (match next n' with None => Some h1 | Some _ => store_prev h1 (next n') (Some m) end) as [h2|];
    cbn [mbind option_bind] in *; [|done].
  destruct (Hc h2 eq_refl) as (n1 & Hn1 & Hq1 & Hp1). rewrite Hn1. cbn [mbind option_bind].
  destruct (store_next h2 (prev n1) (Some c)) as [h3|] eqn:E3; cbn [mbind option_bind]; [|done].
  rewrite (store_next_ne _ _ _ _ c E3 Hp1), Hn1. cbn [mbind option_bind].
  by destruct (next n1).
Qed.

Lemma lift_linked h A c R1 m R2 history n :
  linked h (A ++ c :: R1 ++ m :: R2) history -> A <> [] -> h !! c = Some n -> match_ n = Some m ->
  exists h', lift h (Some c) = Some h' /\ touches h h' (A ++ c :: R1 ++ m :: R2) /\
    linked h' (A ++ R1 ++ R2) ((A ++ R1, m, R2) :: (A, c, R1 ++ m :: R2) :: history).
Proof.
  intros Hl HA Hn Hm.
  destruct (unlink_linked h A c (R1 ++ m :: R2) history Hl HA) as (h1 & Hu1 & Hl1 & F1).
  rewrite app_assoc in Hl1.
  destruct (unlink_linked h1 (A ++ R1) m R2 _ Hl1) as (h2 & Hu2 & Hl2 & F2); [by destruct A|].
  exists h2. rewrite app_assoc.
  split_and!; [|eapply touches_trans; eapply touches_mono; try done; set_solver|done].
  destruct Hl as (Hd & _ & (Hnd & _)%NoDup_app). apply dseg_lookup in Hd as (n' & Hn' & Hp & Hq).
  rewrite Hn in Hn'. injection Hn' as <-. rewrite (lift_unlink h c n m), Hu1; [done..| |].
  - rewrite Hq. by destruct R1.
  - rewrite Hp, from_head. intros Hlast. apply last_Some_elem_of in Hlast.
    apply NoDup_app in Hnd as (_ & Hdisj & _). apply (Hdisj c Hlast). by left.
Qed.

Lemma unlift_linked h A c R1 m R2 history n :
  linked h (A ++ R1 ++ R2) ((A ++ R1, m, R2) :: (A, c, R1 ++ m :: R2) :: history) ->
  h !! c = Some n -> match_ n = Some m ->
  exists h', unlift h (Some c) = Some h' /\ touches h h' (A ++ c :: R1 ++ m :: R2) /\ linked h' (A ++ c :: R1 ++ m :: R2) history.
Proof.
  rewrite app_assoc. intros Hl Hn Hm.
  destruct (relink_linked h (A ++ R1) m R2 _ Hl) as (h1 & Hr1 & Hl1 & F1).
  rewrite <- app_assoc in Hl1.
  destruct (relink_linked h1 A c (R1 ++ m :: R2) history Hl1) as (h2 & Hr2 & Hl2 & F2).
  exists h2. split_and!; [|eapply touches_trans; eapply touches_mono; try done; set_solver|done].
  destruct Hl as (_ & (_ & _ & (n' & Hn' & Hp' & _) & _) & Hnd).
  destruct Hl1 as (_ & (_ & HA & (n1 & Hn1 & Hp1 & Hq1) & _) & Hnd1).
  rewrite (unlift_relink h c n m n'), Hr1; [done..| |].
  - intros h1' Heq. simplify_eq. exists n1. rewrite Hq1. split_and!; [done|by destruct R1|].
    rewrite Hp1. intros Hlast. apply last_Some_elem_of in Hlast.
    apply NoDup_app in Hnd1 as (_ & Hdisj & _). apply (Hdisj c); [set_solver|by left].
  - rewrite Hp'. intros Hlast. apply last_Some_elem_of in Hlast.
    apply NoDup_app in Hnd as (_ & Hdisj & _). apply (Hdisj m); [set_solver|by left].
Qed.

(** Two heaps with the same fixed fields that link the same list agree on its nodes. *)
Lemma dll_same h h' l x : dll h l -> dll h' l -> fixed h h' -> x ∈ l -> h' !! x = h !! x.
Proof.
  intros Hd Hd' [_ HF] (l1 & l2 & ->)%list_elem_of_split.
  apply dseg_lookup in Hd as (n & Hn & Hp & Hq). apply dseg_lookup in Hd' as (n' & Hn' & Hp' & Hq').
  destruct (HF x n Hn) as (n2 & Hn2 & Hv & Hm & Hi). rewrite Hn' in Hn2. injection Hn2 as <-.
  rewrite Hn, Hn'. f_equal. destruct n, n'. cbn in *. congruence.
Qed.

(** *** Building and measuring the list *)

Lemma fresh_touches h n l : dseg h None l None -> (forall x, x ∈ l -> (x < length h)%nat) ->
  dseg (h ++ [n]) None l None.
Proof. intros Hd Hl. eapply dseg_frame; [|done]. intros x Hx. by apply lookup_app_l, Hl. Qed.

(** A fresh node put before the head of a list is the head of the longer list. *)
Lemma insertBefore_dll h v m i l :
  dll h l -> NoDup l -> (forall x, x ∈ l -> (x < length h)%nat) ->
  exists h', insertBefore (h ++ [mkNode v m i None None]) (length h) (head l) = Some h' /\
    dll h' (length h :: l) /\ fixed (h ++ [mkNode v m i None None]) h'.
Proof.
  intros Hd Hnd Hl. set (h0 := h ++ [mkNode v m i None None]).
  assert (h0 !! length h = Some (mkNode v m i None None)) as Hnew.
  { unfold h0. rewrite lookup_app_r by lia. by rewrite Nat.sub_diag. }
  pose proof (fresh_touches h (mkNode v m i None None) l Hd Hl) as Hd0. fold h0 in Hd0.
  destruct l as [|x l]; cbn [head insertBefore].
  { exists h0. split_and!; [done| |apply fixed_refl]. split; [|done]. by eexists. }
  assert (x <> length h) as Hne by (specialize (Hl x ltac:(left)); lia).
  pose proof Hd0 as [(n & Hn & Hp & Hq) Htl]. apply NoDup_cons in Hnd as [Hx Hnd].
  unfold deref, store_prev, store_next. cbn [mbind option_bind]. rewrite Hn. cbn [fmap option_fmap option_map mbind option_bind].
  rewrite Hp. cbn [mbind option_bind]. rewrite list_lookup_insert_ne, Hnew by done. cbn [mbind option_bind].
  eexists. split; [done|]. split.
  - split.
    + eexists. split; [eapply list_lookup_insert_eq|done]. rewrite length_insert. by eapply lookup_lt_Some.
    + apply dseg_insert.
      { intros Hin. specialize (Hl _ Hin). lia. }
      eapply dseg_store_prev; [done|done|by split; [exists n|]].
  - eapply fixed_trans; [by apply (fixed_insert h0 x n (set_prev (Some (length h)) n))|].
    apply (fixed_insert _ _ (mkNode v m i None None)); [|done..]. by rewrite list_lookup_insert_ne.
Qed.

Lemma count_nodes_dll fuel h l p acc :
  dseg h p l None -> (length l <= fuel)%nat -> count_nodes fuel h (head l) acc = Some (acc + zlen l).
Proof.
  revert p fuel acc. induction l as [|x l IH]; intros p fuel acc Hd Hf; cbn [head].
  { destruct fuel; cbn; by rewrite Z.add_0_r. }
  destruct fuel as [|fuel]; cbn in Hf; [lia|]. destruct Hd as [(n & Hn & _ & Hq) Hd]. cbn [count_nodes].
  rewrite Hn. cbn [mbind option_bind]. rewrite Hq, from_head, (IH (Some x)) by (done || lia).
  f_equal. unfold zlen. cbn [length]. lia.
Qed.

(** ** Claim *)

(** [unlift] undoes [lift].  A call and its return taken out of a well-linked list are put
    back in exactly the heap there was before, whatever removals came earlier. *)
Theorem unlift_undoes_lift h A c R1 m R2 history n :
  linked h (A ++ c :: R1 ++ m :: R2) history -> A <> [] -> h !! c = Some n -> match_ n = Some m ->
  exists h', lift h (Some c) = Some h' /\ unlift h' (Some c) = Some h.
Proof.
  intros Hl HA Hn Hm. destruct (lift_linked h A c R1 m R2 history n Hl HA Hn Hm) as (h' & Hlift & T & Hl').
  destruct (proj2 (proj1 T) c n Hn) as (n' & Hn' & _ & Hm' & _).
  destruct (unlift_linked h' A c R1 m R2 history n' Hl' Hn' ltac:(congruence)) as (h2 & Hun & T2 & Hl2).
  exists h'. split; [done|]. rewrite Hun. f_equal. pose proof (touches_trans _ _ _ _ T T2) as T3.
  apply list_eq. intros x. destruct (decide (x ∈ A ++ c :: R1 ++ m :: R2)) as [Hin|Hout].
  - eapply dll_same; [apply Hl|apply Hl2|apply T3|done].
  - by apply T3.
Qed.
End Heap.

(** A head, a call and its return. *)
Definition small_heap : list (node bool) :=
  [mkNode (Some true) None 0 None (Some 1%nat);
   mkNode (Some false) (Some 0%nat) 0 (Some 0%nat) (Some 2%nat);
   mkNode None None (-1) (Some 1%nat) None].

Lemma unlift_undoes_lift_witness :
  exists h', lift small_heap (Some 1%nat) = Some h' /\ unlift h' (Some 1%nat) = Some small_heap.
Proof.
  apply (unlift_undoes_lift small_heap [2%nat] 1%nat [] 0%nat [] []
           (mkNode (Some false) (Some 0%nat) 0 (Some 0%nat) (Some 2%nat))); [|done..].
  split; [|split; [done|]].
  - repeat (split; [by eexists|]). done.
  - apply (bool_decide_unpack _). by vm_compute.
Defined.
