(* ===== verification/Porcupine.v ===== *)
(** * Porcupine: the linearizability checker
      (src/6.5840-golabs-2024/src/porcupine: model.go, checker.go, porcupine.go)

    The inputs, outputs and states of a specification, [interface{}] in Go, are the types
    [In], [Out] and [T]; a value of an entry is an input or an output, and the type
    assertion a [Step] function makes on it fails where Go panics.  [checkSingle] runs
    on the heap of LinkedList and the words of Bitset.  The flag [kill], which another
    goroutine may set at any time, is a function from the number of the iteration to the
    value loaded in it.  Goroutines and channels of [checkParallel] are an explicit
    order of arrival. *)

From S2P Require Import Prelude Bitset LinkedList.
Local Open Scope Z_scope.

(** ** model.go *)

Record Operation {In Out : Type} := mkOperation {
  op_ClientId : Z;
  op_Input : In;
  op_Call : Z;
  op_Output : Out;
  op_Return : Z
}.
Arguments Operation : clear implicits.
Arguments mkOperation {In Out}.

Inductive EventKind := CallEvent | ReturnEvent.

Record Event {V : Type} := mkEvent {
  ev_ClientId : Z;
  ev_Kind : EventKind;
  ev_Value : V;
  ev_Id : Z
}.
Arguments Event : clear implicits.
Arguments mkEvent {V}.

(** The fields that a user may leave nil are options. *)
Record Model {In Out T : Type} := mkModel {
  Partition : option (list (Operation In Out) -> list (list (Operation In Out)));
  PartitionEvent : option (list (Event (In + Out)) -> list (list (Event (In + Out))));
  Init : T;
  Step : T -> In -> Out -> bool * T;
  Equal : option (T -> T -> bool);
  DescribeOperation : option (In -> Out -> string);
  DescribeState : option (T -> string)
}.
Arguments Model : clear implicits.
Arguments mkModel {In Out T}.

Inductive CheckResult := Unknown | Ok | Illegal.

(** ** checker.go: entries *)

Inductive entryKind := callEntry | returnEntry.
#[export] Instance entryKind_eq_dec : EqDecision entryKind.
Proof. solve_decision. Defined.

Record entry {V : Type} := mkEntry {
  e_kind : entryKind;
  e_value : V;
  e_id : Z;
  e_time : Z;
  e_clientId : Z
}.
Arguments entry : clear implicits.
Arguments mkEntry {V}.

(** [byTime.Less] on two elements. *)
Definition Less {V} (a b : entry V) : bool :=
  if negb (e_time a =? e_time b) then e_time a <? e_time b
  else bool_decide (e_kind a = callEntry) && bool_decide (e_kind b = returnEntry).

(** What the package relies on of [sort.Sort]: the result is a rearrangement in which no
    element is less than an earlier one.  The order of equivalent elements is free. *)
Class Sorter {A : Type} (less : A -> A -> bool) := {
  sort_Sort : list A -> list A;
  sort_perm : forall l, sort_Sort l ≡ₚ l;
  sort_sorted : forall l, StronglySorted (fun x y => less y x = false) (sort_Sort l)
}.

Record cacheEntry {T : Type} := mkCacheEntry { linearized : bitset; ce_state : T }.
Arguments cacheEntry : clear implicits.
Arguments mkCacheEntry {T}.

(** [callsEntry]: a call on the stack, by address, and the state before it. *)
Record callsEntry {T : Type} := mkCallsEntry { ca_entry : nat; ca_state : T }.
Arguments callsEntry : clear implicits.
Arguments mkCallsEntry {T}.

Record linearizationInfo {V : Type} := mkInfo {
  li_history : list (list (entry V));
  partialLinearizations : list (list (list Z))
}.
Arguments linearizationInfo : clear implicits.
Arguments mkInfo {V}.

Section Checker.
Context {In Out T : Type} `{!EqDecision T} `{!Sorter (A:=entry (In + Out)) Less}.
(** The [%v] verb of package fmt on inputs, outputs and states. *)
Context (fmt_input : In -> string) (fmt_output : Out -> string) (fmt_state : T -> string).
Implicit Types (model : Model In Out T).

Definition NoPartition (history : list (Operation In Out)) : list (list (Operation In Out)) := [history].
Definition NoPartitionEvent (history : list (Event (In + Out))) : list (list (Event (In + Out))) := [history].
Definition ShallowEqual (state1 state2 : T) : bool := bool_decide (state1 = state2).
Definition DefaultDescribeOperation (input : In) (output : Out) : string :=
  (fmt_input input +:+ " -> " +:+ fmt_output output)%string.
Definition DefaultDescribeState (state : T) : string := fmt_state state.

(** The loop of [makeEntries]; [id] is its counter. *)
Fixpoint entriesFrom (id : Z) (history : list (Operation In Out)) : list (entry (In + Out)) :=
  match history with
  | [] => []
  | elem :: history =>
      mkEntry callEntry (inl (op_Input elem)) id (op_Call elem) (op_ClientId elem)
      :: mkEntry returnEntry (inr (op_Output elem)) id (op_Return elem) (op_ClientId elem)
      :: entriesFrom (id + 1) history
  end.

Definition makeEntries (history : list (Operation In Out)) : list (entry (In + Out)) :=
  sort_Sort (entriesFrom 0 history).

(** The loop of [renumber] with its map [m] and its counter [id]. *)
Fixpoint renumberFrom (m : gmap Z Z) (id : Z) (events : list (Event (In + Out))) : list (Event (In + Out)) :=
  match events with
  | [] => []
  | v :: events =>
      match m !! ev_Id v with
      | Some r => mkEvent (ev_ClientId v) (ev_Kind v) (ev_Value v) r :: renumberFrom m id events
      | None =>
          mkEvent (ev_ClientId v) (ev_Kind v) (ev_Value v) id
          :: renumberFrom (<[ev_Id v := id]> m) (id + 1) events
      end
  end.

Definition renumber (events : list (Event (In + Out))) : list (Event (In + Out)) := renumberFrom ∅ 0 events.

Definition convertEntries (events : list (Event (In + Out))) : list (entry (In + Out)) :=
  imap (fun i elem =>
    let kind := match ev_Kind elem with ReturnEvent => returnEntry | CallEvent => callEntry end in
    mkEntry kind (ev_Value elem) (ev_Id elem) (Z.of_nat i) (ev_ClientId elem)) events.

(** ** checker.go: the search *)

(** The loop of [makeLinkedEntries] runs over the entries from the last to the first; the
    state is the heap, [root] and the map [match]. *)
Definition linkEntry (elem : entry (In + Out)) (st : option (list (node (In + Out)) * option nat * gmap Z nat))
    : option (list (node (In + Out)) * option nat * gmap Z nat) :=
  '(h, root, m) ← st;
  match e_kind elem with
  | returnEntry =>
      let '(h, n) := alloc h (mkNode (Some (e_value elem)) None (e_id elem) None None) in
      let m := <[e_id elem := n]> m in
      h ← insertBefore h n root; Some (h, Some n, m)
  | callEntry =>
      let '(h, n) := alloc h (mkNode (Some (e_value elem)) (m !! e_id elem) (e_id elem) None None) in
      h ← insertBefore h n root; Some (h, Some n, m)
  end.

Definition makeLinkedEntries (entries : list (entry (In + Out)))
    : option (list (node (In + Out)) * option nat) :=
  '(h, root, _) ← foldr linkEntry (Some ([], None, ∅)) entries; Some (h, root).

Definition cacheContains (eq : T -> T -> bool) (cache : gmap Z (list (cacheEntry T)))
    (entry : cacheEntry T) : bool :=
  existsb (fun elem => equals (linearized entry) (linearized elem) && eq (ce_state entry) (ce_state elem))
    (default [] (cache !! hash (linearized entry))).

(** The type assertions of a [Step] function: an input for the call, an output for the
    return. *)
Definition callStep model (state : T) (v1 v2 : option (In + Out)) : option (bool * T) :=
  match v1, v2 with
  | Some (inl i), Some (inr o) => Some (Step model state i o)
  | _, _ => None
  end.

(** The local variables of [checkSingle].  [longest] holds pointers to variables of type
    [[]int]; these variables are [seqs]. *)
Record search := mkSearch {
  s_heap : list (node (In + Out));
  s_entry : option nat;
  s_linearized : bitset;
  s_cache : gmap Z (list (cacheEntry T));
  s_calls : list (callsEntry T);
  s_longest : list (option nat);
  s_seqs : list (list Z);
  s_state : T
}.

(** The ids of the calls on the stack. *)
Definition callIds (h : list (node (In + Out))) (calls : list (callsEntry T)) : option (list Z) :=
  mapM (fun v => id <$> h !! ca_entry v) calls.

(** The loop over [calls] that updates [longest]; [var] is the address of [seq], once it
    is not nil. *)
Fixpoint updateLongest (ids : list Z) (todo : list Z) (var : option nat) (longest : list (option nat))
    (seqs : list (list Z)) : option (list (option nat) * list (list Z)) :=
  match todo with
  | [] => Some (longest, seqs)
  | v :: todo =>
      old ← go_index longest v;
      better ← (match old with
                | None => Some true
                | Some q => l ← seqs !! q; Some (zlen ids >? zlen l)
                end);
      if better : bool then
        let '(a, seqs) := match var with
                          | Some a => (a, seqs)
                          | None => (length seqs, seqs ++ [ids])
                          end in
        longest ← go_store longest v (Some a);
        updateLongest ids todo (Some a) longest seqs
      else updateLongest ids todo var longest seqs
  end.

Inductive Outcome :=
| Return (ok : bool) (longest : list (option nat)) (seqs : list (list Z))
| Panic
| OutOfFuel.

(** One iteration of the loop: [inl] goes on, [inr] leaves the function. *)
Definition iterate model (eq : T -> T -> bool) (computePartial : bool) (headEntry : nat) (killed : Z)
    (st : search)
    : option (search + bool) :=
  let '(mkSearch h entry lin cache calls longest seqs state) := st in
  if negb (killed =? 0) then Some (inr false)
  else
    e ← deref h entry;
    match match_ e with
    | Some _ =>
        matching ← deref h (match_ e);
        '(ok, newState) ← callStep model state (value e) (value matching);
        if ok : bool then
          newLinearized ← set (clone lin) (id e);
          let newCacheEntry := mkCacheEntry newLinearized newState in
          if negb (cacheContains eq cache newCacheEntry) then
            let hs := hash newLinearized in
            let cache := <[hs := default [] (cache !! hs) ++ [newCacheEntry]]> cache in
            a ← entry;
            let calls := calls ++ [mkCallsEntry a state] in
            lin ← set lin (id e);
            h ← lift h entry;
            first ← next <$> h !! headEntry;
            Some (inl (mkSearch h first lin cache calls longest seqs newState))
          else Some (inl (mkSearch h (next e) lin cache calls longest seqs state))
        else Some (inl (mkSearch h (next e) lin cache calls longest seqs state))
    | None =>
        match last calls with
        | None => Some (inr false)
        | Some callsTop =>
            '(longest, seqs) ← (if computePartial
                                then ids ← callIds h calls; updateLongest ids ids None longest seqs
                                else Some (longest, seqs));
            e ← h !! ca_entry callsTop;
            lin ← clear lin (id e);
            let calls := take (length calls - 1) calls in
            h ← unlift h (Some (ca_entry callsTop));
            e ← h !! ca_entry callsTop;
            Some (inl (mkSearch h (next e) lin cache calls longest seqs (ca_state callsTop)))
        end
    end.

(** [for headEntry.next != nil]; [i] numbers the iterations. *)
Fixpoint searchLoop model (eq : T -> T -> bool) (computePartial : bool) (headEntry : nat)
    (kill : nat -> Z) (fuel i : nat) (st : search) : Outcome :=
  match s_heap st !! headEntry with
  | None => Panic
  | Some hd =>
      match next hd with
      | None =>
          match callIds (s_heap st) (s_calls st) with
          | None => Panic
          | Some seq =>
              Return true (replicate (length (s_longest st)) (Some (length (s_seqs st))))
                     (s_seqs st ++ [seq])
          end
      | Some _ =>
          match fuel with
          | O => OutOfFuel
          | S fuel =>
              match iterate model eq computePartial headEntry (kill i) st with
              | None => Panic
              | Some (inr ok) => Return ok (s_longest st) (s_seqs st)
              | Some (inl st') => searchLoop model eq computePartial headEntry kill fuel (S i) st'
              end
          end
      end
  end.

(** The variables of [checkSingle] before its loop, with [headEntry]. *)
Definition initSearch model (history : list (entry (In + Out))) : option (nat * search) :=
  '(h, entry) ← makeLinkedEntries history;
  len ← length_ h entry;
  let n := len / 2 in
  let '(h, headEntry) := alloc h (mkNode None None (-1) None None) in
  h ← insertBefore h headEntry entry;
  Some (headEntry, mkSearch h entry (newBitset n) ∅ [] (replicate (Z.to_nat n) None) [] (Init model)).

(** [Equal] after [fillDefault]. *)
Definition equalOf model : T -> T -> bool := default ShallowEqual (Equal model).

Definition checkSingle (fuel : nat) model (history : list (entry (In + Out))) (computePartial : bool)
    (kill : nat -> Z) : Outcome :=
  match initSearch model history with
  | None => Panic
  | Some (headEntry, st) => searchLoop model (equalOf model) computePartial headEntry kill fuel 0 st
  end.

(** ** checker.go: partitions *)

Definition fillDefault model : Model In Out T :=
  mkModel (Some (default NoPartition (Partition model)))
          (Some (default NoPartitionEvent (PartitionEvent model)))
          (Init model) (Step model)
          (Some (default ShallowEqual (Equal model)))
          (Some (default DefaultDescribeOperation (DescribeOperation model)))
          (Some (default DefaultDescribeState (DescribeState model))).

(** What one [select] of [checkParallel] receives: the result of the goroutine of one
    partition, or the timeout. *)
Inductive select := Recv (i : nat) | TimeoutFires.

(** The loop over [select].  [results] gives the result each goroutine sends; the value is
    [ok], [timedOut], [count] and the rest of the schedule; [None] waits for ever. *)
Fixpoint collect (results : nat -> option bool) (n : Z) (computeInfo : bool) (sched : list select)
    (ok : bool) (count : Z) : option (bool * bool * Z * list select) :=
  match sched with
  | [] => None
  | Recv i :: sched =>
      result ← results i;
      let count := count + 1 in
      let ok := ok && result in
      if negb ok && negb computeInfo then Some (ok, false, count, sched)
      else if count >=? n then Some (ok, false, count, sched)
      else collect results n computeInfo sched ok count
  | TimeoutFires :: sched => Some (ok, true, count, sched)
  end.

(** The order in which [range] visits the keys of a map. *)
Context (range_order : list nat -> list nat).

(** The unique sequences [longest] points to. *)
Definition partialsOf (longest : list (option nat)) (seqs : list (list Z)) : option (list (list Z)) :=
  mapM (fun a => seqs !! a) (range_order (remove_dups (omap (fun v => v) longest))).

(** What the goroutine of partition [i] computes, and what it sends on [results]. *)
Definition goroutine (fuel : nat) model (history : list (list (entry (In + Out)))) (computeInfo : bool)
    (kills : nat -> nat -> Z) (i : nat) : option Outcome :=
  subhistory ← history !! i;
  Some (checkSingle fuel model subhistory computeInfo (kills i)).

Definition goroutineResult (fuel : nat) model (history : list (list (entry (In + Out))))
    (computeInfo : bool) (kills : nat -> nat -> Z) (i : nat) : option bool :=
  match goroutine fuel model history computeInfo kills i with
  | Some (Return ok _ _) => Some ok
  | _ => None
  end.

(** The sequences the goroutine of partition [i] leaves in [longest[i]]. *)
Definition goroutinePartials (fuel : nat) model (history : list (list (entry (In + Out))))
    (kills : nat -> nat -> Z) (i : nat) : option (list (list Z)) :=
  match goroutine fuel model history true kills i with
  | Some (Return _ longest seqs) => partialsOf longest seqs
  | _ => None
  end.

Definition checkParallel (fuel : nat) model (history : list (list (entry (In + Out)))) (computeInfo : bool)
    (kills : nat -> nat -> Z) (sched : list select)
    : option (CheckResult * option (linearizationInfo (In + Out))) :=
  '(ok, timedOut, count, _) ← collect (goroutineResult fuel model history computeInfo kills)
                                      (zlen history) computeInfo sched true 0;
  info ← (if computeInfo then
            partials ← mapM (goroutinePartials fuel model history kills) (seq 0 (length history));
            Some (Some (mkInfo history partials))
          else Some None);
  let result := if negb ok then Illegal else if timedOut : bool then Unknown else Ok in
  Some (result, info).

(** [fillDefault] has made [Partition] and [PartitionEvent] non-nil. *)
Definition checkOperations (fuel : nat) model (history : list (Operation In Out)) (verbose : bool)
    (kills : nat -> nat -> Z) (sched : list select)
    : option (CheckResult * option (linearizationInfo (In + Out))) :=
  let model := fillDefault model in
  partition ← Partition model;
  checkParallel fuel model (makeEntries <$> partition history) verbose kills sched.

Definition checkEvents (fuel : nat) model (history : list (Event (In + Out))) (verbose : bool)
    (kills : nat -> nat -> Z) (sched : list select)
    : option (CheckResult * option (linearizationInfo (In + Out))) :=
  let model := fillDefault model in
  partition ← PartitionEvent model;
  checkParallel fuel model ((fun sub => convertEntries (renumber sub)) <$> partition history)
    verbose kills sched.

(** ** porcupine.go *)

Definition isOk (r : CheckResult) : bool := match r with Ok => true | _ => false end.

Definition CheckOperations (fuel : nat) (model : Model In Out T) (history : list (Operation In Out))
    (kills : nat -> nat -> Z) (sched : list select) : option bool :=
  p ← checkOperations fuel model history false kills sched; Some (isOk p.1).

Definition CheckOperationsTimeout (fuel : nat) (model : Model In Out T) (history : list (Operation In Out))
    (kills : nat -> nat -> Z) (sched : list select) : option CheckResult :=
  p ← checkOperations fuel model history false kills sched; Some p.1.

Definition CheckOperationsVerbose (fuel : nat) (model : Model In Out T) (history : list (Operation In Out))
    (kills : nat -> nat -> Z) (sched : list select) :=
  checkOperations fuel model history true kills sched.

Definition CheckEvents (fuel : nat) (model : Model In Out T) (history : list (Event (In + Out)))
    (kills : nat -> nat -> Z) (sched : list select) : option bool :=
  p ← checkEvents fuel model history false kills sched; Some (isOk p.1).

Definition CheckEventsTimeout (fuel : nat) (model : Model In Out T) (history : list (Event (In + Out)))
    (kills : nat -> nat -> Z) (sched : list select) : option CheckResult :=
  p ← checkEvents fuel model history false kills sched; Some p.1.

Definition CheckEventsVerbose (fuel : nat) (model : Model In Out T) (history : list (Event (In + Out)))
    (kills : nat -> nat -> Z) (sched : list select) :=
  checkEvents fuel model history true kills sched.
End Checker.

(** ** A sorter *)

Section MergeSort.
Context {V : Type}.

Definition not_later (x y : entry V) : Prop := Less y x = false.

#[export] Instance not_later_dec x y : Decision (not_later x y).
Proof. unfold not_later. apply _. Defined.

(** [Less] orders by time, then calls before returns. *)
Definition rank (k : entryKind) : Z := match k with callEntry => 0 | returnEntry => 1 end.

Lemma not_later_iff x y :
  not_later x y <-> e_time x < e_time y \/ e_time x = e_time y /\ rank (e_kind x) <= rank (e_kind y).
Proof.
  unfold not_later, Less.
  destruct (Z.eqb_spec (e_time y) (e_time x)) as [E|E]; cbn [negb].
  - destruct (e_kind x), (e_kind y); cbn; repeat case_bool_decide; cbn; intuition (try done; try lia).
  - rewrite Z.ltb_ge. lia.
Qed.

#[export] Instance not_later_total : Total not_later.
Proof. intros x y. rewrite !not_later_iff. destruct (e_kind x), (e_kind y); cbn; lia. Qed.

#[export] Instance not_later_trans : Transitive not_later.
Proof. intros x y z. rewrite !not_later_iff. lia. Qed.

#[export] Program Instance merge_sorter : Sorter (A:=entry V) Less := {|
  sort_Sort := merge_sort not_later
|}.
Next Obligation. apply merge_sort_Permutation. Qed.
Next Obligation. intros l. apply (StronglySorted_merge_sort not_later). Qed.
End MergeSort.
