(* ===== verification/CheckerFacts.v ===== *)
(** * CheckerFacts: the invariant of the linearizability search

    [arena] describes the linked entries [checkSingle] starts from.  [live X] is the list
    that remains when the operations of [X] are linearized.  [frame] is what one level of
    the depth-first search remembers.  [Sim] relates the variables of [checkSingle] to a
    stack of frames and a position in the live list; every iteration preserves it. *)

From S2P Require Import Prelude Bitset LinkedList Porcupine.
Local Open Scope Z_scope.

(** ** The entries the search works on *)

Section Arena.
Context {In Out T : Type} (model : Model In Out T).
Context (h0 : list (node (In + Out))) (L : list nat) (n : Z).

Definition cid (a : nat) : Z := default (-1) (id <$> h0 !! a).
Definition partner (a : nat) : option nat := nd ← h0 !! a; match_ nd.
Definition val (a : nat) : option (In + Out) := nd ← h0 !! a; value nd.
Definition isCall (a : nat) : Prop := is_Some (partner a).

(** [model.Step] on the call [a] and its return. *)
Definition stepOf (s : T) (a : nat) : option (bool * T) :=
  callStep model s (val a) (b ← partner a; val b).

(** [L] lists the calls and returns of [n] operations with ids 0..n-1 in the order of the
    history, every call linked to its return, which comes later. *)
Record arena : Prop := {
  ar_nodup : NoDup L;
  ar_len : zlen L = 2 * n;
  ar_node a : a ∈ L -> is_Some (h0 !! a) /\ 0 <= cid a < n;
  ar_call a b : a ∈ L -> partner a = Some b ->
    exists i o L1 L2 L3, val a = Some (inl i) /\ val b = Some (inr o) /\ cid b = cid a /\
      partner b = None /\ L = L1 ++ a :: L2 ++ b :: L3;
  ar_ret b : b ∈ L -> partner b = None -> exists a, a ∈ L /\ partner a = Some b /\ cid a = cid b;
  ar_inj a b : a ∈ L -> b ∈ L -> isCall a -> isCall b -> cid a = cid b -> a = b;
  ar_all k : 0 <= k < n -> exists a, a ∈ L /\ isCall a /\ cid a = k
}.

(** The entries of the operations that are not in [X]. *)
Definition live (X : gset Z) : list nat := filter (fun a => cid a ∉ X) L.

(** No operation outside [X] returned before the call [a]: everything before [a] in the
    live list is a call. *)
Definition minimal (X : gset Z) (a : nat) : Prop :=
  exists bef rest, live X = bef ++ a :: rest /\ Forall isCall bef /\ isCall a.

Context (A : arena).

Lemma live_NoDup X : NoDup (live X).
Proof. apply NoDup_filter, A. Qed.

Lemma live_in X a : (a ∈ live X) <-> (cid a ∉ X) /\ a ∈ L.
Proof. unfold live. by rewrite list_elem_of_filter. Qed.

(** The only entries with the id of a call are the call and its return. *)
Lemma same_id a b x : a ∈ L -> partner a = Some b -> x ∈ L -> cid x = cid a -> x = a \/ x = b.
Proof.
  intros Ha Hb Hx Hid. destruct (partner x) as [y|] eqn:E.
  - left. apply (ar_inj A); [done|done|by exists y|by exists b|done].
  - right. destruct (ar_ret A x Hx E) as (c & Hc & Hp & Hcid).
    assert (c = a) as -> by (apply (ar_inj A); [done..|by exists x|by exists b|congruence]). congruence.
Qed.

(** A live call has its return further down the live list. *)
Lemma live_split X bef a rest b :
  live X = bef ++ a :: rest -> partner a = Some b ->
  exists r1 r2, rest = r1 ++ b :: r2 /\ live (X ∪ {[cid a]}) = bef ++ r1 ++ r2.
Proof.
  intros HX Hb. assert (a ∈ live X) as Hin by (rewrite HX; set_solver).
  apply live_in in Hin as [HaX HaL].
  destruct (ar_call A a b HaL Hb) as (i & o & L1 & L2 & L3 & _ & _ & Hcb & _ & HL).
  pose proof (live_NoDup X) as Hnd.
  assert (live X = filter (fun a => cid a ∉ X) L1 ++ a ::
            filter (fun a => cid a ∉ X) L2 ++ b :: filter (fun a => cid a ∉ X) L3) as HX2.
  { unfold live. rewrite HL, filter_app, filter_cons_True, filter_app, filter_cons_True; [done| |done].
    by rewrite Hcb. }
  rewrite HX in HX2, Hnd. apply split_unique in HX2 as [-> ->]; [|done].
  set (r1 := filter _ L2) in *. set (r2 := filter _ L3) in *. set (bef := filter _ L1) in *.
  exists r1, r2. split; [done|].
  assert (live (X ∪ {[cid a]}) = filter (fun x => cid x <> cid a) (live X)) as ->.
  { unfold live. rewrite list_filter_filter. apply list_filter_iff. intros x. set_solver. }
  rewrite HX.
  assert (Hother : forall x, x ∈ live X -> x <> a -> x <> b -> cid x <> cid a).
  { intros x [_ HxL]%live_in Hxa Hxb Hid. destruct (same_id a b x HaL Hb HxL Hid); done. }
  rewrite HX in Hother. clear HX HL.
  rewrite filter_app, filter_cons_False, filter_app, filter_cons_False by (rewrite ?Hcb; tauto).
  apply NoDup_app in Hnd as (_ & Hd1 & [Ha1 (_ & Hd2 & [Hb2 _]%NoDup_cons)%NoDup_app]%NoDup_cons).
  f_equal; [|f_equal]; apply filter_all; intros x Hx; apply Hother; try set_solver;
    intros ->; set_solver.
Qed.

Lemma live_empty X : live X = [] -> forall k, 0 <= k < n -> k ∈ X.
Proof.
  intros HX k Hk. destruct (ar_all A k Hk) as (a & Ha & _ & <-).
  destruct (decide (cid a ∈ X)); [done|]. exfalso.
  assert (a ∈ live X) as Hin by by apply live_in. rewrite HX in Hin. set_solver.
Qed.

Lemma stepOf_total s a : a ∈ L -> isCall a -> exists ok s', stepOf s a = Some (ok, s').
Proof.
  intros Ha [b Hb]. destruct (ar_call A a b Ha Hb) as (i & o & _ & _ & _ & Hi & Ho & _).
  unfold stepOf. rewrite Hi, Hb. cbn [mbind option_bind]. rewrite Ho. cbn.
  destruct (Step model s i o) as [ok s']. eauto.
Qed.
End Arena.

(** ** The search as a transition system *)

(** One level of the search: the call that was linearized, the entries before it, between
    it and its return, and after its return, and the state before it. *)
Record frame {T : Type} := mkFrame {
  f_bef : list nat;
  f_call : nat;
  f_r1 : list nat;
  f_ret : nat;
  f_r2 : list nat;
  f_state : T
}.
Arguments frame : clear implicits.
Arguments mkFrame {T}.

(** A configuration: the frames (the latest first), the current state, the entries the
    search has passed and those ahead of it, and the cache. *)
Record config {T : Type} := mkConfig {
  c_frames : list (frame T);
  c_state : T;
  c_bef : list nat;
  c_rest : list nat;
  c_cache : gmap Z (list (cacheEntry T))
}.
Arguments config : clear implicits.
Arguments mkConfig {T}.

Section Transitions.
Context {In Out T : Type} (model : Model In Out T) (eq : T -> T -> bool).
Context (h0 : list (node (In + Out))) (L : list nat) (n : Z) (words : nat).
Context (A : arena h0 L n).
Implicit Types (fs : list (frame T)) (c : config T) (X : gset Z) (s : T)
  (cache : gmap Z (list (cacheEntry T))) (b : bitset).

Definition ids fs : gset Z := list_to_set ((fun f => cid h0 (f_call f)) <$> fs).

#[local] Arguments ids : simpl never.

(** [b] is the bitset of the set [X]. *)
Definition denotes b X : Prop :=
  wf b /\ length b = words /\ (forall k, k ∈ X -> 0 <= k) /\
  forall k, 0 <= k -> member b k = bool_decide (k ∈ X).

Definition cacheAdd cache (ce : cacheEntry T) : gmap Z (list (cacheEntry T)) :=
  let hs := hash (linearized ce) in <[hs := default [] (cache !! hs) ++ [ce]]> cache.

Inductive trans : config T -> config T -> Prop :=
| t_push fs s bef a r1 m r2 cache s' b :
    partner h0 a = Some m -> stepOf model h0 s a = Some (true, s') ->
    denotes b (ids fs ∪ {[cid h0 a]}) -> cacheContains eq cache (mkCacheEntry b s') = false ->
    trans (mkConfig fs s bef (a :: r1 ++ m :: r2) cache)
          (mkConfig (mkFrame bef a r1 m r2 s :: fs) s' [] (bef ++ r1 ++ r2)
                    (cacheAdd cache (mkCacheEntry b s')))
| t_known fs s bef a rest cache s' b :
    isCall h0 a -> stepOf model h0 s a = Some (true, s') ->
    denotes b (ids fs ∪ {[cid h0 a]}) -> cacheContains eq cache (mkCacheEntry b s') = true ->
    trans (mkConfig fs s bef (a :: rest) cache) (mkConfig fs s (bef ++ [a]) rest cache)
| t_illegal fs s bef a rest cache s' :
    isCall h0 a -> stepOf model h0 s a = Some (false, s') ->
    trans (mkConfig fs s bef (a :: rest) cache) (mkConfig fs s (bef ++ [a]) rest cache)
| t_pop f fs s bef a rest cache :
    partner h0 a = None ->
    trans (mkConfig (f :: fs) s bef (a :: rest) cache)
          (mkConfig fs (f_state f) (f_bef f ++ [f_call f]) (f_r1 f ++ f_ret f :: f_r2 f) cache).

(** *** The abstract invariant *)

(** The frames form a legal sequential run from the initial state to [s] in which every
    call was the first of the live list apart from other calls. *)
Fixpoint frames_ok fs s : Prop :=
  match fs with
  | [] => s = Init model
  | f :: fs =>
      live h0 L (ids fs) = f_bef f ++ f_call f :: f_r1 f ++ f_ret f :: f_r2 f /\
      Forall (isCall h0) (f_bef f) /\ partner h0 (f_call f) = Some (f_ret f) /\
      stepOf model h0 (f_state f) (f_call f) = Some (true, s) /\ frames_ok fs (f_state f)
  end.

Record AInv c : Prop := {
  ai_live : live h0 L (ids (c_frames c)) = c_bef c ++ c_rest c;
  ai_bef : Forall (isCall h0) (c_bef c);
  ai_frames : frames_ok (c_frames c) (c_state c)
}.

Lemma ids_cons f fs : ids (f :: fs) = ids fs ∪ {[cid h0 (f_call f)]}.
Proof. unfold ids. cbn. set_solver. Qed.

Lemma AInv_live_in c a : AInv c -> a ∈ c_bef c ++ c_rest c -> a ∈ L /\ cid h0 a ∉ ids (c_frames c).
Proof. intros HI. rewrite <- (ai_live _ HI), live_in. tauto. Qed.

Lemma trans_AInv c c' : AInv c -> trans c c' -> AInv c'.
Proof.
  intros [Hlive Hbef Hfr] Ht. destruct Ht as
    [fs s bef a r1 m r2 cache s' b Hp Hs Hb Hc|fs s bef a rest cache s' b Hcall Hs Hb Hc
    |fs s bef a rest cache s' Hcall Hs|f fs s bef a rest cache Hp]; cbn in *.
  - destruct (live_split h0 L n A _ _ _ _ _ Hlive Hp) as (r1' & r2' & Heq & Hlive').
    assert (r1' = r1 /\ r2' = r2) as [-> ->].
    { pose proof (live_NoDup h0 L n A (ids fs)) as Hnd. rewrite Hlive in Hnd.
      apply NoDup_app in Hnd as (_ & _ & [_ Hnd]%NoDup_cons). rewrite Heq in Hnd.
      by eapply split_unique. }
    split; cbn; [by rewrite ids_cons|constructor|]. done.
  - split; cbn; [by rewrite <- app_assoc|apply Forall_app; by split; [|apply Forall_singleton]|done].
  - split; cbn; [by rewrite <- app_assoc|apply Forall_app; by split; [|apply Forall_singleton]|done].
  - destruct Hfr as (Hl & Hb & Hpf & Hstep & Hfr). split; cbn; [by rewrite <- app_assoc| |done].
    apply Forall_app. split; [done|]. apply Forall_singleton. by exists (f_ret f).
Qed.

(** *** Termination: the work that is left *)

(** The work of a level with [k] operations left: two entries per operation, each of them
    tried and followed by a level with one operation less, and the return of the level. *)
Fixpoint work (k : nat) : nat :=
  match k with
  | O => 1
  | S k' => 1 + 2 * k * (1 + work k')
  end.

Definition level (k : nat) (rest : list nat) : nat := 1 + length rest * (1 + work (pred k)).

Fixpoint pending fs : nat :=
  match fs with
  | [] => O
  | f :: fs => level (Z.to_nat n - length fs) (f_r1 f ++ f_ret f :: f_r2 f) + pending fs
  end.

Definition measure c : nat :=
  level (Z.to_nat n - length (c_frames c)) (c_rest c) + pending (c_frames c).

Lemma live_length fs s : frames_ok fs s -> zlen (live h0 L (ids fs)) + 2 * zlen fs = 2 * n.
Proof.
  revert s. induction fs as [|f fs IH]; intros s Hfr.
  - rewrite <- (ar_len _ _ _ A). unfold live. rewrite filter_all; [unfold zlen; cbn [length]; lia|]. set_solver.
  - destruct Hfr as (Hl & _ & Hp & _ & Hfr). specialize (IH _ Hfr).
    destruct (live_split h0 L n A _ _ _ _ _ Hl Hp) as (r1 & r2 & Heq & Hl').
    rewrite ids_cons, Hl'. rewrite Hl in IH. revert IH. rewrite Heq.
    unfold zlen. cbn [length]. rewrite !length_app. cbn [length]. rewrite !length_app. cbn [length]. lia.
Qed.

Lemma level_full k rest : length rest = (2 * k)%nat -> level k rest = work k.
Proof. intros H. unfold level. rewrite H. destruct k; cbn [work pred]; lia. Qed.

Lemma trans_measure c c' : AInv c -> trans c c' -> (measure c' < measure c)%nat.
Proof.
  intros HI Ht. pose proof (trans_AInv _ _ HI Ht) as HI'.
  pose proof (live_length _ _ (ai_frames _ HI)) as Hlen. rewrite (ai_live _ HI) in Hlen.
  pose proof (live_length _ _ (ai_frames _ HI')) as Hlen'. rewrite (ai_live _ HI') in Hlen'.
  unfold zlen in *. rewrite length_app in Hlen, Hlen'. unfold measure.
  destruct Ht; cbn [c_frames c_bef c_rest pending length] in *.
  - rewrite (level_full (Z.to_nat n - S (length fs)) (bef ++ r1 ++ r2)) by lia.
    unfold level. cbn [length f_r1 f_ret f_r2]. replace (pred (Z.to_nat n - length fs)) with (Z.to_nat n - S (length fs))%nat by lia. lia.
  - unfold level. cbn [length]. lia.
  - unfold level. cbn [length]. lia.
  - unfold level. lia.
Qed.

(** *** What the cache records *)

(** Membership in the cache, and what [cacheContains] tests. *)
Definition in_cache cache (ce : cacheEntry T) : Prop := ce ∈ default [] (cache !! hash (linearized ce)).

Lemma cacheContains_true cache b s :
  cacheContains eq cache (mkCacheEntry b s) = true <->
  exists s', in_cache cache (mkCacheEntry b s') /\ eq s s' = true.
Proof.
  unfold cacheContains, in_cache. cbn. rewrite existsb_exists. split.
  - intros ([b' s'] & Hin & [Hb Hs]%andb_true_iff). cbn in *. apply equals_iff in Hb as <-.
    exists s'. split; [by apply list_elem_of_In|done].
  - intros (s' & Hin & Hs). exists (mkCacheEntry b s'). split; [by apply list_elem_of_In|]. cbn.
    apply andb_true_iff. split; [by apply equals_iff|done].
Qed.

Lemma in_cacheAdd cache ce ce' : in_cache (cacheAdd cache ce) ce' <-> in_cache cache ce' \/ ce' = ce.
Proof.
  unfold in_cache, cacheAdd. destruct (decide (hash (linearized ce') = hash (linearized ce))) as [E|E].
  - rewrite E, lookup_insert_eq. cbn. rewrite elem_of_app, list_elem_of_singleton. done.
  - rewrite lookup_insert_ne by done. split; [by left|]. intros [? | ->]; done.
Qed.

Definition covered cache X s : Prop :=
  exists b s', denotes b X /\ in_cache cache (mkCacheEntry b s') /\ eq s s' = true.

(** The call [a] needs no more work in the configuration ([X], [s]). *)
Definition tried cache X s (a : nat) : Prop :=
  forall s', stepOf model h0 s a = Some (true, s') -> covered cache (X ∪ {[cid h0 a]}) s'.

Definition closed cache X s : Prop :=
  (exists k, 0 <= k < n /\ k ∉ X) /\ forall a, minimal h0 L X a -> tried cache X s a.

Fixpoint path fs s : list (gset Z * T) :=
  (ids fs, s) :: match fs with [] => [] | f :: fs => path fs (f_state f) end.

Fixpoint path_tried cache fs : Prop :=
  match fs with
  | [] => True
  | f :: fs =>
      (forall a, a ∈ f_bef f ++ [f_call f] -> tried cache (ids fs) (f_state f) a) /\ path_tried cache fs
  end.

(** Every cached configuration is on the path of the search or fully explored, and every
    call the search has passed on its path leads to a cached configuration. *)
Record CInv c : Prop := {
  ci_cache ce : in_cache (c_cache c) ce ->
    exists X, denotes (linearized ce) X /\
      ((X, ce_state ce) ∈ path (c_frames c) (c_state c) \/ closed (c_cache c) X (ce_state ce));
  ci_bef a : a ∈ c_bef c -> tried (c_cache c) (ids (c_frames c)) (c_state c) a;
  ci_path : path_tried (c_cache c) (c_frames c)
}.

Lemma tried_mono cache ce X s a : tried cache X s a -> tried (cacheAdd cache ce) X s a.
Proof.
  intros H s' Hs. destruct (H s' Hs) as (b & s1 & Hb & Hin & He). exists b, s1. split_and!; [done| |done].
  apply in_cacheAdd. by left.
Qed.

Lemma path_tried_mono cache ce fs : path_tried cache fs -> path_tried (cacheAdd cache ce) fs.
Proof.
  induction fs as [|f fs IH]; [done|]. cbn. intros [Hf Hfs]. split; [|by apply IH].
  intros a Ha. by apply tried_mono, Hf.
Qed.

Lemma closed_mono cache ce X s : closed cache X s -> closed (cacheAdd cache ce) X s.
Proof. intros [Hk H]. split; [done|]. intros a Ha. by apply tried_mono, H. Qed.

(** The calls before the first return of the live list are the minimal ones. *)
Lemma minimal_passed X bef r rest a :
  live h0 L X = bef ++ r :: rest -> partner h0 r = None -> minimal h0 L X a -> a ∈ bef.
Proof.
  intros Hl Hr (bef' & rest' & Hl' & Hcalls & Ha). rewrite Hl in Hl'.
  destruct (decide (a ∈ bef)) as [|Hnin]; [done|]. exfalso.
  assert (r ∈ bef' ++ [a]) as Hin.
  { clear Hl Hcalls. revert bef' Hl'. induction bef as [|x bef IH]; intros [|y bef'] Hl'; simplify_eq/=.
    - destruct Ha. congruence.
    - by left.
    - set_solver.
    - right. apply IH; [set_solver|done]. }
  apply elem_of_app in Hin as [Hin|Hin].
  - rewrite Forall_forall in Hcalls. destruct (Hcalls r Hin). congruence.
  - apply list_elem_of_singleton in Hin as ->. destruct Ha. congruence.
Qed.

Lemma denotes_fun b X X' : denotes b X -> denotes b X' -> X = X'.
Proof.
  intros (_ & _ & Hp & Hm) (_ & _ & Hp' & Hm'). apply set_eq. intros k. split; intros Hk.
  - specialize (Hm' k (Hp k Hk)). rewrite Hm, bool_decide_eq_true_2 in Hm' by auto.
    symmetry in Hm'. by apply bool_decide_eq_true in Hm'.
  - specialize (Hm k (Hp' k Hk)). rewrite Hm', bool_decide_eq_true_2 in Hm by auto.
    symmetry in Hm. by apply bool_decide_eq_true in Hm.
Qed.

Lemma trans_CInv c c' :
  (forall s, eq s s = true) -> AInv c -> CInv c -> trans c c' -> CInv c'.
Proof.
  intros Hrefl HA [Hc Hb Hp] Ht. destruct Ht as
    [fs s bef a r1 m r2 cache s' b Hpa Hs Hbs Hcc|fs s bef a rest cache s' b Hcall Hs Hbs Hcc
    |fs s bef a rest cache s' Hcall Hs|f fs s bef a rest cache Hpa];
    cbn [c_frames c_state c_bef c_rest c_cache] in *.
  - split; cbn [c_frames c_state c_bef c_rest c_cache].
    + intros ce [Hin| ->]%in_cacheAdd.
      * destruct (Hc ce Hin) as (X & HX & [Hpath|Hcl]); exists X; (split; [done|]).
        -- left. by right.
        -- right. by apply closed_mono.
      * exists (ids fs ∪ {[cid h0 a]}). split; [done|]. left. cbn [path ce_state]. rewrite ids_cons. by left.
    + intros x Hx. set_solver.
    + cbn [path_tried f_bef f_call f_state]. split; [|by apply path_tried_mono].
      intros x [Hx|Hx%list_elem_of_singleton]%elem_of_app; [by apply tried_mono, Hb|]. subst x.
      intros s1 Hs1. rewrite Hs in Hs1. injection Hs1 as <-. exists b, s'. split_and!; [done| |done].
      apply in_cacheAdd. by right.
  - split; cbn; [done| |done]. intros x [Hx|Hx%list_elem_of_singleton]%elem_of_app; [by apply Hb|]. subst x.
    intros s1 Hs1. rewrite Hs in Hs1. injection Hs1 as <-.
    apply cacheContains_true in Hcc as (s2 & Hin & He). by exists b, s2.
  - split; cbn; [done| |done]. intros x [Hx|Hx%list_elem_of_singleton]%elem_of_app; [by apply Hb|]. subst x.
    intros s1 Hs1. congruence.
  - destruct Hp as [Hf Hp]. split; cbn; [|done|done]. intros ce Hin.
    destruct (Hc ce Hin) as (X & HX & [Hpath|Hcl]); exists X; (split; [done|]); [|by right].
    cbn [path] in Hpath. apply elem_of_cons in Hpath as [Heq|Hpath]; [|by left]. right.
    injection Heq as -> ->. split.
    + destruct (AInv_live_in _ a HA) as [HaL Hn]; [cbn; set_solver|]. cbn in Hn.
      exists (cid h0 a). split; [by apply (ar_node _ _ _ A)|done].
    + intros x Hx. apply Hb. eapply minimal_passed; [apply (ai_live _ HA)|done|done].
Qed.

(** *** Linearizations *)

(** [l] linearizes the operations outside [X] from state [s]: each call in turn is minimal
    and legal, and at the end nothing is left. *)
Fixpoint run_from X s (l : list nat) : Prop :=
  match l with
  | [] => live h0 L X = []
  | a :: l => minimal h0 L X a /\ exists s', stepOf model h0 s a = Some (true, s') /\ run_from (X ∪ {[cid h0 a]}) s' l
  end.

Lemma frames_run fs s l :
  frames_ok fs s -> run_from (ids fs) s l -> run_from ∅ (Init model) (reverse (f_call <$> fs) ++ l).
Proof.
  revert s l. induction fs as [|f fs IH]; intros s l; cbn [frames_ok].
  - by intros ->.
  - intros (Hl & Hb & Hp & Hs & Hfr) Hrun. cbn [fmap list_fmap]. rewrite reverse_cons, <- app_assoc.
    apply (IH (f_state f)); [done|]. cbn [run_from app]. split.
    + eexists _, _. split; [done|]. split; [done|by exists (f_ret f)].
    + exists s. split; [done|]. by rewrite <- ids_cons.
Qed.

(** What the search needs of [Equal]: an equivalence that the specification respects. *)
Record equality : Prop := {
  eq_refl' s : eq s s = true;
  eq_sym' s1 s2 : eq s1 s2 = true -> eq s2 s1 = true;
  eq_trans' s1 s2 s3 : eq s1 s2 = true -> eq s2 s3 = true -> eq s1 s3 = true;
  eq_step s1 s2 i o : eq s1 s2 = true ->
    (Step model s1 i o).1 = (Step model s2 i o).1 /\
    eq (Step model s1 i o).2 (Step model s2 i o).2 = true
}.

Lemma stepOf_equal (E : equality) s1 s2 a s1' :
  eq s1 s2 = true -> stepOf model h0 s1 a = Some (true, s1') ->
  exists s2', stepOf model h0 s2 a = Some (true, s2') /\ eq s1' s2' = true.
Proof.
  intros He. unfold stepOf, callStep. destruct (val h0 a) as [[i|]|]; try done.
  destruct (partner h0 a ≫= val h0) as [[|o]|]; try done. intros [= Hs].
  destruct (eq_step E s1 s2 i o He) as [Hok Hst]. rewrite Hs in Hok, Hst. cbn in *.
  exists (Step model s2 i o).2. split; [|done]. f_equal. rewrite Hok. by destruct (Step model s2 i o).
Qed.

(** When every cached configuration is closed, no closed configuration can be completed. *)
Lemma closed_stuck (E : equality) cache X s s2 l :
  (forall ce, in_cache cache ce -> exists X, denotes (linearized ce) X /\ closed cache X (ce_state ce)) ->
  eq s s2 = true -> closed cache X s2 -> ~ run_from X s l.
Proof.
  intros Hall. revert X s s2. induction l as [|a l IH]; intros X s s2 He [(k & Hk & HkX) Hcl] Hrun.
  - by apply HkX, (live_empty h0 L n A X Hrun).
  - destruct Hrun as (Hmin & s' & Hs & Hrun).
    destruct (stepOf_equal E _ _ _ _ He Hs) as (s2' & Hs2 & He').
    destruct (Hcl a Hmin s2' Hs2) as (b & s3 & Hb & Hin & He3).
    destruct (Hall _ Hin) as (X' & HX' & Hcl'). cbn in HX', Hcl'.
    rewrite (denotes_fun _ _ _ HX' Hb) in Hcl'.
    refine (IH _ s' s3 _ Hcl' Hrun). by eapply eq_trans'.
Qed.

(** A failed search: the first entry of the root's live list that is not a call has been
    reached with nothing on the stack. *)
Lemma failed_no_run (E : equality) s bef r rest cache l :
  let c := mkConfig [] s bef (r :: rest) cache in
  AInv c -> CInv c -> partner h0 r = None -> ~ run_from ∅ (Init model) l.
Proof.
  intros c HA HC Hr. pose proof (ai_frames _ HA) as Hs. cbn in Hs. subst s.
  assert (Hroot : closed cache ∅ (Init model)).
  { split.
    - destruct (AInv_live_in _ r HA) as [HrL _]; [cbn; set_solver|].
      exists (cid h0 r). split; [by apply (ar_node _ _ _ A)|set_solver].
    - intros a Ha. apply (ci_bef _ HC). eapply minimal_passed; [apply (ai_live _ HA)|done|done]. }
  apply (closed_stuck E cache ∅ (Init model) (Init model)); [|apply E|done].
  intros ce Hin. destruct (ci_cache _ HC ce Hin) as (X & HX & [Hpath|Hcl]); exists X; (split; [done|]); [|done].
  cbn in Hpath. apply list_elem_of_singleton in Hpath. injection Hpath as -> ->. done.
Qed.
End Transitions.
#[global] Arguments ids : simpl never.
