(* ===== verification/CheckerSim.v ===== *)
(** * CheckerSim: checkSingle implements the transition system

    [Sim] relates the variables of [checkSingle] to a configuration of CheckerFacts;
    [iterate_sim] is the simulation of one iteration of the loop, [searchLoop_spec] that of
    the whole loop, and [initSearch_spec] establishes the relation for the linked list
    [makeLinkedEntries] builds. *)

From S2P Require Import Prelude Bitset LinkedList Porcupine CheckerFacts.
Local Open Scope Z_scope.

Section Sim.
Context {In Out T : Type} (model : Model In Out T) (eq : T -> T -> bool) (computePartial : bool).
Context (h0 : list (node (In + Out))) (hd : nat) (L : list nat) (n : Z) (words : nat).
Context (A : arena h0 L n) (Hwords : n <= 64 * Z.of_nat words).
Implicit Types (fs : list (frame T)) (c : config T) (X : gset Z) (b : bitset).

Local Abbreviation ids := (ids h0).
Local Abbreviation denotes := (denotes words).
Local Abbreviation trans := (trans model eq h0 words).
Local Abbreviation AInv := (AInv model h0 L).
Local Abbreviation frames_ok := (frames_ok model h0 L).

(** The removals from the linked list that the frames stand for. *)
Fixpoint hist fs : list (list nat * nat * list nat) :=
  match fs with
  | [] => []
  | f :: fs =>
      ((hd :: f_bef f) ++ f_r1 f, f_ret f, f_r2 f)
      :: (hd :: f_bef f, f_call f, f_r1 f ++ f_ret f :: f_r2 f) :: hist fs
  end.

Definition frameIds fs : list Z := reverse ((fun f => cid h0 (f_call f)) <$> fs).

(** A sequence of ids that [longest] may hold: a legal prefix of a linearization. *)
Definition partial_ok (seq : list Z) : Prop := exists fs s, frames_ok fs s /\ seq = frameIds fs /\ (0 < n -> fs <> []).

Definition longest_ok (longest : list (option nat)) (seqs : list (list Z)) : Prop :=
  length longest = Z.to_nat n /\ (forall q, Some q ∈ longest -> (q < length seqs)%nat) /\ Forall partial_ok seqs.

Record Sim (st : search) c : Prop := {
  sim_fixed : fixed h0 (s_heap st);
  sim_linked : linked (s_heap st) ((hd :: c_bef c) ++ c_rest c) (hist (c_frames c));
  sim_entry : s_entry st = head (c_rest c);
  sim_bits : denotes (s_linearized st) (ids (c_frames c));
  sim_calls : s_calls st = reverse ((fun f => mkCallsEntry (f_call f) (f_state f)) <$> c_frames c);
  sim_state : s_state st = c_state c;
  sim_cache : s_cache st = c_cache c;
  sim_longest : longest_ok (s_longest st) (s_seqs st)
}.

(** *** Reading the heap and the bitset *)

Lemma fixed_node h a :
  fixed h0 h -> a ∈ L ->
  exists nd, h !! a = Some nd /\ value nd = val h0 a /\ match_ nd = partner h0 a /\ id nd = cid h0 a.
Proof.
  intros [_ HF] Ha. destruct (ar_node _ _ _ A a Ha) as [[nd0 Hnd0] _].
  destruct (HF a nd0 Hnd0) as (nd & Hnd & Hv & Hm & Hi). exists nd.
  unfold val, partner, cid. rewrite Hnd0. cbn. by rewrite Hv, Hm, Hi.
Qed.

Lemma denotes_capacity b X k : denotes b X -> 0 <= k < n -> 0 <= k < capacity b.
Proof. intros (_ & Hl & _) Hk. unfold capacity, zlen. rewrite Hl. lia. Qed.

Lemma denotes_set b X k :
  denotes b X -> 0 <= k < n -> exists b', set b k = Some b' /\ denotes b' (X ∪ {[k]}).
Proof.
  intros Hd Hk. pose proof (denotes_capacity _ _ _ Hd Hk) as Hc. destruct Hd as (Hwf & Hl & Hp & Hm).
  destruct (set_spec b k Hwf Hc) as (b' & Hb' & Hwf' & Hl' & Hm'). exists b'. split; [done|].
  split_and!; [done|congruence|set_solver by lia|]. intros p Hp0. rewrite Hm' by done.
  case_decide as E; [subst; rewrite bool_decide_eq_true_2; [done|set_solver]|].
  rewrite Hm by done. apply bool_decide_ext. set_solver.
Qed.

Lemma denotes_clear b X k :
  denotes b (X ∪ {[k]}) -> k ∉ X -> 0 <= k < n -> exists b', clear b k = Some b' /\ denotes b' X.
Proof.
  intros Hd HkX Hk. pose proof (denotes_capacity _ _ _ Hd Hk) as Hc. destruct Hd as (Hwf & Hl & Hp & Hm).
  destruct (clear_spec b k Hwf Hc) as (b' & Hb' & Hwf' & Hl' & Hm'). exists b'. split; [done|].
  split_and!; [done|congruence|set_solver|]. intros p Hp0. rewrite Hm' by done.
  case_decide as E; [subst; by rewrite bool_decide_eq_false_2|].
  rewrite Hm by done. apply bool_decide_ext. set_solver.
Qed.

(** *** The stack of calls *)

Lemma frames_calls fs s f : frames_ok fs s -> f ∈ fs -> f_call f ∈ L.
Proof.
  revert s. induction fs as [|g fs IH]; intros s Hfr Hf; [set_solver|].
  destruct Hfr as (Hl & _ & _ & _ & Hfr). apply elem_of_cons in Hf as [->|Hf]; [|by eapply IH].
  assert (f_call g ∈ live h0 L (ids fs)) as Hin by (rewrite Hl; set_solver).
  by apply live_in in Hin as [_ ?].
Qed.

Lemma callIds_frames h fs s :
  fixed h0 h -> frames_ok fs s ->
  callIds h (reverse ((fun f => mkCallsEntry (f_call f) (f_state f)) <$> fs)) = Some (frameIds fs).
Proof.
  intros HF Hfr. unfold callIds, frameIds. apply mapM_Some. rewrite <- !fmap_reverse.
  apply Forall2_fmap_l. rewrite Forall2_fmap_r. apply Forall_Forall2_diag, Forall_reverse, Forall_forall.
  intros f Hf. destruct (fixed_node h (f_call f) HF) as (nd & Hnd & _ & _ & Hid).
  { by eapply frames_calls. }
  cbn. by rewrite Hnd, <- Hid.
Qed.

Lemma frameIds_range fs s k : frames_ok fs s -> k ∈ frameIds fs -> 0 <= k < n.
Proof.
  intros Hfr Hk. unfold frameIds in Hk. apply elem_of_reverse, list_elem_of_fmap in Hk as (f & -> & Hf).
  apply (ar_node _ _ _ A). by eapply frames_calls.
Qed.

Lemma updateLongest_ok seq todo var longest seqs :
  partial_ok seq -> (forall k, k ∈ todo -> 0 <= k < n) -> longest_ok longest seqs ->
  (forall a, var = Some a -> (a < length seqs)%nat) ->
  exists longest' seqs', updateLongest seq todo var longest seqs = Some (longest', seqs') /\
    longest_ok longest' seqs'.
Proof.
  intros Hseq. revert var longest seqs. induction todo as [|v todo IH]; intros var longest seqs Htodo Hok Hvar.
  { by exists longest, seqs. }
  pose proof Hok as (Hlen & Hptr & Hseqs). cbn [updateLongest].
  assert (0 <= v < zlen longest) as Hv by (unfold zlen; specialize (Htodo v ltac:(left)); lia).
  destruct (go_index_in_range longest v Hv) as (old & Hold). rewrite Hold. cbn [mbind option_bind].
  apply go_index_Some in Hold as [_ Hold].
  assert (exists better, match old with
            | None => Some true
            | Some q => l ← seqs !! q; Some (zlen seq >? zlen l)
            end = Some better) as (better & ->).
  { destruct old as [q|]; [|by eexists]. destruct (seqs !! q) as [l|] eqn:E; [by eexists|].
    apply lookup_ge_None in E. specialize (Hptr q ltac:(by eapply list_elem_of_lookup_2)). lia. }
  cbn [mbind option_bind].
  assert (forall k, k ∈ todo -> 0 <= k < n) as Htodo' by (intros k Hk; apply Htodo; by right).
  destruct better; [|by apply IH].
  rewrite (surjective_pairing (match var with Some _ => _ | None => _ end)).
  set (p := match var with Some _ => _ | None => _ end).
  assert ((p.1 < length p.2)%nat /\ (length seqs <= length p.2)%nat /\ Forall partial_ok p.2) as (Hp1 & Hp2 & Hp3).
  { subst p. destruct var as [a|]; cbn [fst snd]; [auto|]. rewrite length_app. cbn [length].
    split_and!; [lia|lia|]. by apply Forall_app_2; [|apply Forall_singleton]. }
  rewrite go_store_in_range by done. cbn [mbind option_bind].
  apply IH; [done| |intros a [= <-]; done]. split_and!; [by rewrite length_insert| |done].
  intros q Hq. apply list_elem_of_lookup_1 in Hq as (j & Hj).
  apply list_lookup_insert_Some in Hj as [(_ & [= <-] & _)|[_ Hj]]; [done|].
  specialize (Hptr q ltac:(by eapply list_elem_of_lookup_2)). lia.
Qed.

(** *** One iteration *)

(** Reduce the projections of the two state records. *)
Ltac projs :=
  cbn [s_heap s_entry s_linearized s_cache s_calls s_longest s_seqs s_state
       c_frames c_state c_bef c_rest c_cache head hd_error] in *.

Lemma linked_head_next (h : list (node (In + Out))) l history :
  linked h (hd :: l) history -> exists nd, h !! hd = Some nd /\ next nd = head l.
Proof.
  intros ([(nd & Hnd & _ & Hq) _] & _). exists nd. split; [done|]. by rewrite Hq, from_head.
Qed.

Lemma linked_next (h : list (node (In + Out))) bef a rest history :
  linked h ((hd :: bef) ++ a :: rest) history -> exists nd, h !! a = Some nd /\ next nd = head rest.
Proof.
  intros (Hd & _). apply dseg_lookup in Hd as (nd & Hnd & _ & Hq). exists nd.
  split; [done|]. by rewrite Hq, from_head.
Qed.

(** Moving past an entry. *)
Lemma Sim_skip st fs s bef a rest cache nd :
  Sim st (mkConfig fs s bef (a :: rest) cache) -> s_heap st !! a = Some nd ->
  Sim (mkSearch (s_heap st) (next nd) (s_linearized st) (s_cache st) (s_calls st) (s_longest st)
         (s_seqs st) (s_state st)) (mkConfig fs s (bef ++ [a]) rest cache).
Proof.
  intros [HF Hl He Hb Hc Hs Hca Hlo] Hnd. cbn in *. split; try done; cbn.
  - by rewrite <- app_assoc.
  - destruct (linked_next _ _ _ _ _ Hl) as (nd' & Hnd' & Hq). congruence.
Qed.

Lemma iterate_call st fs s bef a rest cache :
  let c := mkConfig fs s bef (a :: rest) cache in
  Sim st c -> AInv c -> isCall h0 a ->
  exists st' c', iterate model eq computePartial hd 0 st = Some (inl st') /\ trans c c' /\ Sim st' c'.
Proof.
  intros c HS HA [m Hm]. subst c. destruct (AInv_live_in model h0 L _ a HA) as [HaL HaX]; [cbn; set_solver|].
  pose proof (ai_live _ _ _ _ HA) as Hlive. cbn in Hlive, HaX.
  destruct (live_split h0 L n A _ _ _ _ _ Hlive Hm) as (r1 & r2 & -> & Hlive').
  destruct (stepOf_total model h0 L n A s a HaL (ex_intro _ m Hm)) as (ok & s' & Hstep).
  pose proof HS as [HF Hl He Hb Hc Hs Hca Hlo]. destruct st as [h entry lin cch calls longest seqs state].
  projs. subst entry calls state cch.
  destruct (fixed_node h a HF HaL) as (nd & Hnd & Hv & Hma & Hid).
  destruct (ar_call _ _ _ A a m HaL Hm) as (i & o & L1 & L2 & L3 & Hi & Ho & _ & _ & HL).
  assert (m ∈ L) as HmL by (rewrite HL; set_solver).
  destruct (fixed_node h m HF HmL) as (nm & Hnm & Hvm & _ & _).
  cbn [iterate negb Z.eqb deref mbind option_bind head]. rewrite Hnd. cbn [mbind option_bind].
  rewrite Hma, Hm. cbn [mbind option_bind deref]. rewrite Hnm. cbn [mbind option_bind].
  assert (callStep model s (value nd) (value nm) = Some (ok, s')) as ->.
  { unfold stepOf in Hstep. by rewrite Hm in Hstep; cbn in Hstep; rewrite Hv, Hvm. }
  cbn [mbind option_bind]. destruct ok.
  2: { eexists _, _. split; [done|]. split; [by eapply t_illegal; [exists m|]|].
       exact (Sim_skip _ _ _ _ _ _ _ _ HS Hnd). }
  rewrite clone_same, Hid.
  destruct (denotes_set lin _ (cid h0 a) Hb) as (b & Hbset & Hbd); [by apply (ar_node _ _ _ A)|].
  rewrite Hbset. cbn [mbind option_bind].
  destruct (cacheContains eq cache (mkCacheEntry b s')) eqn:Ecc; cbn [negb].
  { eexists _, _. split; [done|]. split; [by eapply t_known; [exists m|..]|].
    exact (Sim_skip _ _ _ _ _ _ _ _ HS Hnd). }
  destruct (lift_linked h (hd :: bef) a r1 m r2 (hist fs) nd) as (h' & Hlift & HF' & Hl'); [done..|congruence|].
  rewrite Hlift. cbn [mbind option_bind].
  destruct (linked_head_next h' (bef ++ r1 ++ r2) _ Hl') as (nh & Hnh & Hnext). rewrite Hnh.
  cbn [fmap option_fmap option_map mbind option_bind]. rewrite Hnext.
  eexists _, _. split; [done|]. split; [by eapply t_push|].
  split; projs; try done.
  - eapply fixed_trans; [done|apply HF'].
  - rewrite (ids_cons h0 L n A). done.
  - by rewrite fmap_cons, reverse_cons.
Qed.

(** Below the top frame the list holds what was live before its call, without the call and its return. *)
Lemma top_frame_live f fs s bef rest cache :
  AInv (mkConfig (f :: fs) s bef rest cache) -> bef ++ rest = f_bef f ++ f_r1 f ++ f_r2 f.
Proof.
  intros HA. pose proof (ai_frames _ _ _ _ HA) as Hfr. cbn in Hfr. destruct Hfr as (Hlive & _ & Hp & _).
  pose proof (ai_live _ _ _ _ HA) as Hlv. cbn in Hlv. rewrite <- Hlv, (ids_cons h0 L n A).
  destruct (live_split h0 L n A _ _ _ _ _ Hlive Hp) as (r1 & r2 & Hsp & ->).
  pose proof (live_NoDup h0 L n A (ids fs)) as Hnd'. rewrite Hlive in Hnd'.
  apply NoDup_app in Hnd' as (_ & _ & [_ Hnd']%NoDup_cons).
  by destruct (split_unique _ _ _ _ _ Hnd' Hsp) as [-> ->].
Qed.

Lemma iterate_return st fs s bef r rest cache :
  let c := mkConfig fs s bef (r :: rest) cache in
  Sim st c -> AInv c -> partner h0 r = None ->
  match fs with
  | [] => iterate model eq computePartial hd 0 st = Some (inr false)
  | _ => exists st' c', iterate model eq computePartial hd 0 st = Some (inl st') /\ trans c c' /\ Sim st' c'
  end.
Proof.
  intros c HS HA Hr. subst c. destruct (AInv_live_in model h0 L _ r HA) as [HrL _]; [cbn; set_solver|].
  pose proof HS as [HF Hl He Hb Hc Hs Hca Hlo]. destruct st as [h entry lin cch calls longest seqs state].
  projs. subst entry calls state cch.
  destruct (fixed_node h r HF HrL) as (nd & Hnd & _ & Hma & _).
  cbn [iterate negb Z.eqb deref mbind option_bind head]. rewrite Hnd. cbn [mbind option_bind].
  rewrite Hma, Hr. destruct fs as [|f fs]; [done|].
  pose proof (ai_frames _ _ _ _ HA) as Hfr. cbn in Hfr.
  assert (exists longest' seqs',
    (if computePartial then ids ← callIds h (reverse ((fun f => mkCallsEntry (f_call f) (f_state f)) <$> (f :: fs)));
                            updateLongest ids ids None longest seqs
     else Some (longest, seqs)) = Some (longest', seqs') /\ longest_ok longest' seqs')
    as (longest' & seqs' & Hlong & Hlo').
  { destruct computePartial; [|by exists longest, seqs].
    rewrite (callIds_frames h (f :: fs) s) by done. cbn [mbind option_bind].
    apply updateLongest_ok; [by exists (f :: fs), s; split_and!| |done|done].
    intros k Hk. by eapply (frameIds_range (f :: fs) s). }
  rewrite Hlong. clear Hlong. cbn [fmap list_fmap]. rewrite reverse_cons, last_snoc. cbn [mbind option_bind ca_entry ca_state].
  destruct Hfr as (Hlive & Hbef & Hp & Hstep & Hfr).
  assert (f_call f ∈ live h0 L (ids fs)) as Hin by (rewrite Hlive; set_solver).
  apply live_in in Hin as [HfX HfL].
  destruct (fixed_node h (f_call f) HF HfL) as (nf & Hnf & _ & Hmf & Hidf). rewrite Hnf. cbn [mbind option_bind].
  rewrite Hidf. rewrite (ids_cons h0 L n A) in Hb.
  destruct (denotes_clear lin _ (cid h0 (f_call f)) Hb HfX) as (b & Hbc & Hbd); [by apply (ar_node _ _ _ A)|].
  rewrite Hbc. cbn [mbind option_bind].
  pose proof (top_frame_live f fs s bef (r :: rest) _ HA) as Heq.
  cbn [app] in Hl. rewrite Heq in Hl.
  destruct (unlift_linked h (hd :: f_bef f) (f_call f) (f_r1 f) (f_ret f) (f_r2 f) (hist fs) nf)
    as (h' & Hun & HF' & Hl'); [done..|congruence|].
  rewrite Hun. cbn [mbind option_bind].
  destruct (linked_next h' (f_bef f) (f_call f) _ _ Hl') as (nf' & Hnf' & Hnext).
  rewrite Hnf'. cbn [mbind option_bind]. rewrite Hnext.
  eexists _, _. split; [done|]. split; [by eapply t_pop|].
  split; projs; try done.
  - eapply fixed_trans; [done|apply HF'].
  - cbn [app]. by rewrite <- app_assoc.
  - rewrite length_app. cbn [length]. rewrite Nat.add_sub. by rewrite take_app_length.
Qed.

(** *** The loop *)

(** The search has passed all live entries only when there are none. *)
Lemma passed_all c : AInv c -> c_rest c = [] -> c_bef c = [].
Proof.
  intros HA Hr. pose proof (ai_live _ _ _ _ HA) as Hl. pose proof (ai_bef _ _ _ _ HA) as Hb.
  rewrite Hr, app_nil_r in Hl. destruct (c_bef c) as [|x bef _] using rev_ind; [done|].
  apply Forall_app in Hb as [_ [m Hm]%Forall_singleton].
  destruct (live_split h0 L n A _ _ _ _ _ Hl Hm) as (r1 & r2 & Hsp & _). by destruct r1.
Qed.

(** The two ways the loop ends by itself. *)
Definition succeeds c : Prop :=
  exists fs s cache, rtc trans c (mkConfig fs s [] [] cache) /\ AInv (mkConfig fs s [] [] cache).

Definition fails c : Prop :=
  exists s bef r rest cache,
    rtc trans c (mkConfig [] s bef (r :: rest) cache) /\ AInv (mkConfig [] s bef (r :: rest) cache) /\
    partner h0 r = None.

Lemma succeeds_step c c' : trans c c' -> succeeds c' -> succeeds c.
Proof. intros Ht (fs & s & cache & Hr & HA). exists fs, s, cache. split; [by eapply rtc_l|done]. Qed.

Lemma fails_step c c' : trans c c' -> fails c' -> fails c.
Proof.
  intros Ht (s & bef & r & rest & cache & Hr & H). exists s, bef, r, rest, cache.
  split; [by eapply rtc_l|done].
Qed.

Lemma iterate_sim st c a rest :
  Sim st c -> AInv c -> c_rest c = a :: rest ->
  (exists st' c', iterate model eq computePartial hd 0 st = Some (inl st') /\ trans c c' /\ Sim st' c') \/
  (iterate model eq computePartial hd 0 st = Some (inr false) /\ fails c).
Proof.
  intros HS HA Hr. destruct c as [fs s bef rest' cache]. cbn in Hr. subst rest'.
  destruct (partner h0 a) as [m|] eqn:Em.
  - left. eapply iterate_call; [done|done|by exists m].
  - pose proof (iterate_return st fs s bef a rest cache HS HA Em) as H. destruct fs as [|f fs]; [right|by left].
    split; [done|]. by exists s, bef, a, rest, cache.
Qed.

(** With as much fuel as the measure the loop returns; what it returns says how the search
    ended. *)
Lemma searchLoop_spec kill fuel i st c :
  Sim st c -> AInv c -> (measure n c <= fuel)%nat ->
  exists ok longest seqs,
    searchLoop model eq computePartial hd kill fuel i st = Return ok longest seqs /\
    longest_ok longest seqs /\
    (ok = true -> succeeds c) /\
    (ok = false -> (exists j, kill j <> 0) \/ fails c).
Proof.
  revert i st c. induction fuel as [|fuel IH]; intros i st c HS HA Hm; cbn [searchLoop];
    destruct (linked_head_next (s_heap st) (c_bef c ++ c_rest c) _ (sim_linked _ _ HS)) as (nh & -> & ->).
  { unfold measure, level in Hm. lia. }
  destruct (c_rest c) as [|a rest] eqn:Er.
  - rewrite (passed_all c HA Er). cbn [app head hd_error].
    rewrite (sim_calls _ _ HS), (callIds_frames _ _ (c_state c) (sim_fixed _ _ HS)) by apply HA.
    eexists _, _, _. split; [done|]. split_and!; [| |done].
    + pose proof (sim_longest _ _ HS) as (Hlen & Hptr & Hseqs). split_and!.
      * by rewrite length_replicate.
      * intros q Hq. apply elem_of_replicate in Hq as [[= ->] _]. rewrite length_app. cbn. lia.
      * apply Forall_app_2; [done|]. apply Forall_singleton. exists (c_frames c), (c_state c).
        split_and!; [apply HA|done|]. intros Hpos E. pose proof (ai_live _ _ _ _ HA) as Hlive. rewrite (passed_all c HA Er), Er, E in Hlive.
        pose proof (live_empty h0 L n A _ Hlive 0 ltac:(lia)) as H0. by apply not_elem_of_empty in H0.
    + intros _. pose proof (passed_all c HA Er) as Eb. destruct c as [fs s bef rest cache]. cbn in Er, Eb. subst.
      exists fs, s, cache. by split.
  - assert (exists x, head (c_bef c ++ a :: rest) = Some x) as [x ->] by (destruct (c_bef c); by eexists).
    destruct (Z.eq_dec (kill i) 0) as [Hk|Hk].
    + rewrite Hk. destruct (iterate_sim st c a rest HS HA Er) as [(st' & c' & -> & Ht & HS')|[-> Hf]].
      * pose proof (trans_AInv model eq h0 L n words A c c' HA Ht) as HA'.
        pose proof (trans_measure model eq h0 L n words A c c' HA Ht) as Hlt.
        destruct (IH (S i) st' c' HS' HA') as (ok & longest & seqs & Heq & Hlo & Ht' & Hf'); [lia|].
        exists ok, longest, seqs. split_and!; [done|done| |].
        -- intros Hok. by eapply succeeds_step, Ht'.
        -- intros Hok. destruct (Hf' Hok) as [?|?]; [by left|right]. by eapply fails_step.
      * eexists _, _, _. split; [done|]. split_and!; [apply HS|done|by right].
    + assert (iterate model eq computePartial hd (kill i) st = Some (inr false)) as ->.
      { destruct st. cbn. by destruct (Z.eqb_spec (kill i) 0). }
      eexists _, _, _. split; [done|]. split_and!; [apply HS|done|]. intros _. left. by exists i.
Qed.
End Sim.
