(* ===== verification/CheckerInit.v ===== *)
(** * CheckerInit: the linked list that checkSingle starts from

    [history_ok] is what [makeEntries] and well-formed event histories provide: every
    operation has one call entry and one later return entry.  For such a history
    [makeLinkedEntries] builds an [arena], and [initSearch] establishes [Sim]. *)

From S2P Require Import Prelude Bitset LinkedList Porcupine CheckerFacts CheckerSim.
Local Open Scope Z_scope.

(** Two elements of a list in order. *)
Lemma split_two {A} (l : list A) p q x y :
  l !! p = Some x -> l !! q = Some y -> (p < q)%nat -> exists l1 l2 l3, l = l1 ++ x :: l2 ++ y :: l3.
Proof.
  intros Hp Hq Hlt. apply list_elem_of_split_length in Hp as (l1 & l2 & -> & Hlen).
  rewrite lookup_app_r in Hq by lia. replace (q - length l1)%nat with (S (q - p - 1)) in Hq by lia.
  cbn in Hq. apply list_elem_of_split_length in Hq as (l3 & l4 & -> & _). eauto.
Qed.

Section Init.
Context {In Out T : Type} (model : Model In Out T).
Implicit Types (hs : list (entry (In + Out))) (h : list (node (In + Out))).

(** Entry [e] is the return of operation [k]. *)
Definition isReturn (k : Z) (e : entry (In + Out)) : Prop := e_kind e = returnEntry /\ e_id e = k.

Record history_ok hs (n : Z) : Prop := {
  ho_len : zlen hs = 2 * n;
  ho_call p e : hs !! p = Some e -> e_kind e = callEntry ->
    0 <= e_id e < n /\ (exists i, e_value e = inl i) /\
    exists q e', (p < q)%nat /\ hs !! q = Some e' /\ isReturn (e_id e) e';
  ho_ret q e : hs !! q = Some e -> e_kind e = returnEntry ->
    (exists o, e_value e = inr o) /\
    exists p e', (p < q)%nat /\ hs !! p = Some e' /\ e_kind e' = callEntry /\ e_id e' = e_id e;
  ho_inj p q e e' : hs !! p = Some e -> hs !! q = Some e' -> e_kind e = e_kind e' -> e_id e = e_id e' -> p = q;
  ho_all k : 0 <= k < n -> exists p e, hs !! p = Some e /\ e_kind e = callEntry /\ e_id e = k
}.

(** The address of entry [p] of a history of [len] entries, and all of them in order. *)
Definition adr (len p : nat) : nat := (len - 1 - p)%nat.
Definition addrs (len : nat) : list nat := reverse (seq 0 len).

Lemma addrs_S len : addrs (S len) = len :: addrs len.
Proof. unfold addrs. by rewrite seq_S, reverse_app. Qed.

Lemma addrs_lookup len p : (p < len)%nat -> addrs len !! p = Some (adr len p).
Proof.
  intros Hp. unfold addrs, adr. rewrite reverse_lookup by (rewrite length_seq; lia).
  rewrite length_seq. apply lookup_seq. lia.
Qed.

Lemma addrs_in len a : a ∈ addrs len <-> (a < len)%nat.
Proof. unfold addrs. rewrite elem_of_reverse, elem_of_seq. lia. Qed.

Lemma addrs_NoDup len : NoDup (addrs len).
Proof. unfold addrs. rewrite reverse_Permutation. apply NoDup_seq. Qed.

(** The first return of operation [k] in a history, by address. *)
Definition returnAddr (k : Z) hs : option nat :=
  (fun '(q, _) => adr (length hs) q) <$> list_find (isReturn k) hs.

Definition matchOf hs p (e : entry (In + Out)) : option nat :=
  match e_kind e with
  | returnEntry => None
  | callEntry => returnAddr (e_id e) (drop (S p) hs)
  end.

(** The fixed fields of the nodes of a history. *)
Definition nodes_of h hs : Prop :=
  forall p e, hs !! p = Some e -> exists nd, h !! adr (length hs) p = Some nd /\
    value nd = Some (e_value e) /\ id nd = e_id e /\ match_ nd = matchOf hs p e.

Lemma fixed_nodes_of h h' hs : fixed h h' -> nodes_of h hs -> nodes_of h' hs.
Proof.
  intros [_ HF] Hn p e He. destruct (Hn p e He) as (nd & Hnd & Hv & Hi & Hm).
  destruct (HF _ _ Hnd) as (nd' & Hnd' & Hv' & Hm' & Hi'). exists nd'. by rewrite Hv', Hm', Hi'.
Qed.

(** Adding an entry in front. *)
Lemma nodes_of_cons h hs e nd :
  length h = length hs -> nodes_of h hs -> value nd = Some (e_value e) -> id nd = e_id e ->
  match_ nd = matchOf (e :: hs) 0 e -> nodes_of (h ++ [nd]) (e :: hs).
Proof.
  intros Hlen Hn Hv Hi Hm [|p] x Hx; cbn in Hx.
  - simplify_eq. exists nd. split; [|done]. unfold adr. cbn [length]. rewrite lookup_app_r by lia.
    by replace (S (length hs) - 1 - 0 - length h)%nat with 0%nat by lia.
  - destruct (Hn p x Hx) as (nd' & Hnd' & H). apply lookup_lt_Some in Hx as Hp.
    exists nd'. split; [|done]. unfold adr in *. cbn [length]. rewrite lookup_app_l by lia.
    by replace (S (length hs) - 1 - S p)%nat with (length hs - 1 - p)%nat by lia.
Qed.

Lemma returnAddr_cons_other k e hs :
  ~ isReturn k e -> returnAddr k (e :: hs) = returnAddr k hs.
Proof.
  intros Hne. unfold returnAddr. cbn [list_find]. case_decide; [done|].
  destruct (list_find (isReturn k) hs) as [[q x]|]; [|done]. cbn. f_equal. unfold adr. cbn. lia.
Qed.

Lemma returnAddr_cons_same k e hs : isReturn k e -> returnAddr k (e :: hs) = Some (length hs).
Proof.
  intros Heq. unfold returnAddr. cbn [list_find]. case_decide; [|done]. cbn. f_equal. unfold adr. cbn. lia.
Qed.

Lemma link_spec hs :
  exists h m, foldr linkEntry (Some ([], None, ∅)) hs = Some (h, head (addrs (length hs)), m) /\
    length h = length hs /\ dll h (addrs (length hs)) /\ nodes_of h hs /\
    forall k, m !! k = returnAddr k hs.
Proof.
  induction hs as [|e hs (h & m & Hf & Hlen & Hd & Hn & Hm)].
  { exists [], ∅. split_and!; [done..|by intros ? ? ?|]. intros k. by rewrite lookup_empty. }
  cbn [foldr]. rewrite Hf. cbn [linkEntry mbind option_bind].
  assert (forall x, x ∈ addrs (length hs) -> (x < length h)%nat) as Hlt by (intros x; rewrite addrs_in; lia).
  set (mt := match e_kind e with returnEntry => None | callEntry => m !! e_id e end).
  destruct (insertBefore_dll h (Some (e_value e)) mt (e_id e) (addrs (length hs)) Hd
              (addrs_NoDup _) Hlt) as (h' & Hins & Hd' & HF).
  assert (nodes_of h' (e :: hs)) as Hn'.
  { eapply fixed_nodes_of; [done|]. apply nodes_of_cons; [done..|]. cbn [match_]. unfold mt, matchOf.
    destruct (e_kind e); [|done]. apply Hm. }
  assert (length h' = length (e :: hs)) as Hlen' by (destruct HF as [-> _]; rewrite length_app; cbn; lia).
  assert (dll h' (addrs (length (e :: hs)))) as Hd2 by (cbn [length]; by rewrite addrs_S, <- Hlen at 1).
  exists h'. subst mt. unfold alloc. destruct (e_kind e) eqn:Ek; rewrite Hins; cbn [mbind option_bind].
  - exists m. split_and!; [|done..|].
    + cbn [length]. by rewrite addrs_S, Hlen.
    + intros k. rewrite Hm. symmetry. apply returnAddr_cons_other. unfold isReturn. rewrite Ek. naive_solver.
  - exists (<[e_id e := length h]> m). split_and!; [|done..|].
    + cbn [length]. by rewrite addrs_S, Hlen.
    + intros k. destruct (decide (k = e_id e)) as [->|Hne].
      * rewrite lookup_insert_eq, returnAddr_cons_same by done. by rewrite Hlen.
      * rewrite lookup_insert_ne, Hm by done. symmetry. apply returnAddr_cons_other.
        intros [_ Heq]. by symmetry in Heq.
Qed.

(** *** The arena of a history *)

Section Build.
Context (hs : list (entry (In + Out))) (n : Z) (h : list (node (In + Out))).
Context (Hok : history_ok hs n) (Hn : nodes_of h hs).

Local Abbreviation A p := (adr (length hs) p).

Lemma adr_inj p q : (p < length hs)%nat -> (q < length hs)%nat -> A p = A q -> p = q.
Proof. unfold adr. lia. Qed.

(** Every address belongs to one entry. *)
Lemma addr_entry a : a ∈ addrs (length hs) -> exists p e, hs !! p = Some e /\ a = A p.
Proof.
  rewrite addrs_in. intros Ha. destruct (lookup_lt_is_Some_2 hs (length hs - 1 - a)) as [e He]; [lia|].
  exists (length hs - 1 - a)%nat, e. split; [done|]. unfold adr. lia.
Qed.

Lemma entry_addr p e : hs !! p = Some e -> A p ∈ addrs (length hs).
Proof. intros Hp%lookup_lt_Some. apply addrs_in. unfold adr. lia. Qed.

Lemma entry_fields p e :
  hs !! p = Some e ->
  cid h (A p) = e_id e /\ val h (A p) = Some (e_value e) /\ partner h (A p) = matchOf hs p e.
Proof.
  intros Hp. destruct (Hn p e Hp) as (nd & Hnd & Hv & Hi & Hm). unfold cid, val, partner. rewrite Hnd. cbn.
  by rewrite Hv, Hi, Hm.
Qed.

(** A call points to its return. *)
Lemma call_match p e :
  hs !! p = Some e -> e_kind e = callEntry ->
  exists q e', (p < q)%nat /\ hs !! q = Some e' /\ isReturn (e_id e) e' /\ matchOf hs p e = Some (A q).
Proof.
  intros Hp Hk. destruct (ho_call _ _ Hok p e Hp Hk) as (_ & _ & q & e' & Hlt & Hq & Hr).
  unfold matchOf, returnAddr. rewrite Hk.
  destruct (list_find (isReturn (e_id e)) (drop (S p) hs)) as [[q' e2]|] eqn:E.
  - apply list_find_Some in E as (Hq' & Hr' & _). rewrite lookup_drop in Hq'.
    exists (S p + q')%nat, e2. split_and!; [lia|done|done|]. cbn. f_equal. unfold adr.
    rewrite length_drop. apply lookup_lt_Some in Hq'. lia.
  - exfalso. apply list_find_None in E. rewrite Forall_forall in E. apply (E e'); [|done].
    apply list_elem_of_lookup. exists (q - S p)%nat. rewrite lookup_drop.
    by replace (S p + (q - S p))%nat with q by lia.
Qed.

Lemma isCall_iff p e : hs !! p = Some e -> isCall h (A p) <-> e_kind e = callEntry.
Proof.
  intros Hp. unfold isCall. destruct (entry_fields p e Hp) as (_ & _ & ->). unfold matchOf.
  destruct (e_kind e) eqn:Ek; [|split; [by intros [? ?]|done]]. split; [done|]. intros _.
  destruct (call_match p e Hp Ek) as (q & e' & _ & _ & _ & Hm). unfold matchOf in Hm. rewrite Ek in Hm.
  by rewrite Hm.
Qed.

(** The partner of a call is the address of its return. *)
Lemma partner_iff p e q e' :
  hs !! p = Some e -> e_kind e = callEntry -> hs !! q = Some e' -> isReturn (e_id e) e' ->
  partner h (A p) = Some (A q).
Proof.
  intros Hp Hk Hq [Hk' Hid']. destruct (entry_fields p e Hp) as (_ & _ & ->).
  destruct (call_match p e Hp Hk) as (q2 & e2 & _ & Hq2 & [Hk2 Hid2] & ->). f_equal. f_equal.
  eapply (ho_inj _ _ Hok); [done|done|congruence..].
Qed.

Lemma history_arena : arena h (addrs (length hs)) n.
Proof.
  split.
  - apply addrs_NoDup.
  - rewrite <- (ho_len _ _ Hok). unfold zlen, addrs. by rewrite length_reverse, length_seq.
  - intros a (p & e & Hp & ->)%addr_entry. destruct (entry_fields p e Hp) as (-> & _).
    split; [destruct (Hn p e Hp) as (nd & -> & _); by eexists|]. destruct (e_kind e) eqn:Ek.
    + by apply (ho_call _ _ Hok p e).
    + destruct (ho_ret _ _ Hok p e Hp Ek) as (_ & p' & e' & _ & Hp' & Hk' & <-).
      by apply (ho_call _ _ Hok p' e').
  - intros a b (p & e & Hp & ->)%addr_entry Hb. destruct (entry_fields p e Hp) as (Hcid & Hval & Hm).
    assert (e_kind e = callEntry) as Hk by (apply (isCall_iff p e Hp); by exists b).
    destruct (ho_call _ _ Hok p e Hp Hk) as (_ & [i Hi] & _).
    destruct (call_match p e Hp Hk) as (q & e' & Hlt & Hq & [Hk' Hid'] & Hm').
    assert (b = A q) as -> by congruence.
    destruct (ho_ret _ _ Hok q e' Hq Hk') as ([o Ho] & _).
    destruct (entry_fields q e' Hq) as (Hcid' & Hval' & Hmq).
    destruct (split_two (addrs (length hs)) p q (A p) (A q)) as (L1 & L2 & L3 & HL);
      [by apply addrs_lookup, (lookup_lt_Some hs _ e)|by apply addrs_lookup, (lookup_lt_Some hs _ e')|done|].
    exists i, o, L1, L2, L3. split_and!; [congruence..| |done]. rewrite Hmq. unfold matchOf. by rewrite Hk'.
  - intros b (q & e & Hq & ->)%addr_entry Hb.
    assert (e_kind e = returnEntry) as Hk.
    { destruct (e_kind e) eqn:Ek; [|done]. exfalso. apply (isCall_iff q e Hq) in Ek as [? ?]. congruence. }
    destruct (ho_ret _ _ Hok q e Hq Hk) as (_ & p & e' & Hlt & Hp & Hk' & Hid).
    exists (A p). split_and!; [by eapply entry_addr|by eapply partner_iff|].
    destruct (entry_fields q e Hq) as (-> & _). by destruct (entry_fields p e' Hp) as (-> & _).
  - intros a b (p & e & Hp & ->)%addr_entry (q & e' & Hq & ->)%addr_entry Ha Hb Hid. f_equal.
    apply (isCall_iff p e Hp) in Ha. apply (isCall_iff q e' Hq) in Hb.
    destruct (entry_fields p e Hp) as (Hc & _). destruct (entry_fields q e' Hq) as (Hc' & _).
    eapply (ho_inj _ _ Hok); [done|done|congruence..].
  - intros k Hk. destruct (ho_all _ _ Hok k Hk) as (p & e & Hp & Hkd & Hid). exists (A p).
    split_and!; [by eapply entry_addr|by apply (isCall_iff p e)|].
    by destruct (entry_fields p e Hp) as (-> & _).
Qed.
End Build.

(** [checkSingle] before its loop. *)
Lemma initSearch_spec hs n :
  history_ok hs n ->
  exists h st, initSearch model hs = Some (length hs, st) /\
    nodes_of h hs /\ arena h (addrs (length hs)) n /\
    let c := mkConfig [] (Init model) [] (addrs (length hs)) ∅ in
    let words := length (newBitset n) in
    n <= 64 * Z.of_nat words /\ Sim model h (length hs) (addrs (length hs)) n words st c /\
    AInv model h (addrs (length hs)) c.
Proof.
  intros Hok. destruct (link_spec hs) as (h & m & Hf & Hlen & Hd & Hn & _).
  assert (0 <= n) as Hn0 by (pose proof (ho_len _ _ Hok); pose proof (zlen_nonneg hs); lia).
  assert (Hlt : forall x, x ∈ addrs (length hs) -> (x < length h)%nat) by (intros x; rewrite addrs_in; lia).
  destruct (insertBefore_dll h None None (-1) (addrs (length hs)) Hd (addrs_NoDup _) Hlt)
    as (h' & Hins & Hd' & HF). rewrite Hlen in Hins, Hd'.
  assert (nodes_of h' hs) as Hn'.
  { eapply fixed_nodes_of; [done|]. intros p e Hp. destruct (Hn p e Hp) as (nd & Hnd & H).
    exists nd. split; [|done]. by apply lookup_app_l_Some. }
  exists h', (mkSearch h' (head (addrs (length hs))) (newBitset n) ∅ [] (replicate (Z.to_nat n) None) [] (Init model)).
  pose proof (history_arena hs n h' Hok Hn') as HA.
  destruct (newBitset_spec n Hn0) as (Hwf & [Hcap _] & Hmem).
  cbv zeta. unfold capacity, zlen in Hcap. split_and!; [|done|done|lia| |].
  - unfold initSearch, makeLinkedEntries. rewrite Hf. cbn [mbind option_bind]. unfold length_.
    rewrite (count_nodes_dll _ h (addrs (length hs)) None) by
      (done || (unfold addrs; rewrite length_reverse, length_seq; lia)). cbn [mbind option_bind].
    assert ((0 + zlen (addrs (length hs))) / 2 = n) as ->.
    { unfold zlen, addrs. rewrite length_reverse, length_seq. pose proof (ho_len _ _ Hok) as Hl. unfold zlen in Hl.
      rewrite Hl, Z.add_0_l, Z.mul_comm. by apply Z.div_mul. }
    unfold alloc. rewrite Hlen, Hins. done.
  - split; cbn; try done.
    + apply fixed_refl.
    + split; [done|]. split; [done|]. cbn. rewrite app_nil_r. apply NoDup_cons.
      split; [rewrite addrs_in; lia|apply addrs_NoDup].
    + split_and!; [by rewrite length_replicate| |constructor].
      intros q Hq. by apply elem_of_replicate in Hq as [? _].
  - split; cbn; [|constructor|done]. unfold live. apply filter_all. set_solver.
Qed.
End Init.
