(* ===== verification/CheckerSpec.v ===== *)
(** * CheckerSpec: linearizability, and what the search decides

    [linearizable] is the abstract specification of a history of operations: some order
    of all operations is a legal sequential run of the model and does not reverse two
    operations of which one returned before the other was called.  [run_linearizable]
    shows that the sequences the search looks for are exactly these orders. *)

From S2P Require Import Prelude Bitset LinkedList Porcupine CheckerFacts CheckerSim CheckerInit.
Local Open Scope Z_scope.

(** ** The specification *)

Section Spec.
Context {In Out T : Type} (model : Model In Out T).
Implicit Types (ops : list (Operation In Out)).

(** The operations [order], by index, are a legal sequential run from state [s]. *)
Fixpoint legal ops (s : T) (order : list nat) : Prop :=
  match order with
  | [] => True
  | k :: order =>
      exists op, ops !! k = Some op /\ (Step model s (op_Input op) (op_Output op)).1 = true /\
        legal ops (Step model s (op_Input op) (op_Output op)).2 order
  end.

(** Operation [i] returned before operation [j] was called. *)
Definition precedes ops (i j : nat) : Prop :=
  exists a b, ops !! i = Some a /\ ops !! j = Some b /\ op_Return a < op_Call b.

Definition linearizable ops : Prop :=
  exists order, order ≡ₚ seq 0 (length ops) /\ legal ops (Init model) order /\
    StronglySorted (fun i j => ~ precedes ops j i) order.

(** A partial linearization, as the ids of its operations: a legal run of some of the operations
    that does not reverse two of them and leaves out none that precedes one of its own.  It is
    empty only when there are no operations. *)
Definition legal_partial ops (seq : list Z) : Prop :=
  exists order, seq = Z.of_nat <$> order /\ NoDup order /\ legal ops (Init model) order /\
    StronglySorted (fun i j => ~ precedes ops j i) order /\
    (forall i j, i ∈ order -> j ∉ order -> ~ precedes ops j i) /\ (ops <> [] -> order <> []).

(** An operation returns no earlier than it is called. *)
Definition timely ops : Prop := Forall (fun op => op_Call op <= op_Return op) ops.
End Spec.

(** ** Orders of the calls of an arena *)

Section Orders.
Context {In Out T : Type} (model : Model In Out T).
Context (h0 : list (node (In + Out))) (L : list nat) (n : Z) (A : arena h0 L n).

Definition before (x y : nat) : Prop := exists l1 l2 l3, L = l1 ++ x :: l2 ++ y :: l3.

(** Calls [a] and [b] may come in this order: [b] did not return before [a] was called. *)
Definition may_precede (a b : nat) : Prop := forall m, partner h0 b = Some m -> ~ before m a.

Fixpoint legal_calls (s : T) (l : list nat) : Prop :=
  match l with
  | [] => True
  | a :: l => exists s', stepOf model h0 s a = Some (true, s') /\ legal_calls s' l
  end.

Lemma before_live X x y :
  before x y -> cid h0 x ∉ X -> cid h0 y ∉ X ->
  exists l1 l2 l3, live h0 L X = l1 ++ x :: l2 ++ y :: l3.
Proof.
  intros (l1 & l2 & l3 & HL) Hx Hy. unfold live. rewrite HL.
  rewrite filter_app, filter_cons_True, filter_app, filter_cons_True by done. eauto.
Qed.

Lemma live_before X l1 x l2 y l3 : live h0 L X = l1 ++ x :: l2 ++ y :: l3 -> before x y.
Proof.
  unfold live, before. clear A. revert l1. induction L as [|z k IH]; intros l1 Heq; [by destruct l1|].
  rewrite filter_cons in Heq. case_decide as Hz.
  - destruct l1 as [|w l1]; injection Heq as -> Heq.
    + assert (y ∈ filter (fun a => cid h0 a ∉ X) k) as [_ Hin]%list_elem_of_filter by (rewrite Heq; set_solver).
      apply list_elem_of_split in Hin as (k1 & k2 & ->). by exists [], k1, k2.
    + destruct (IH l1 Heq) as (k1 & k2 & k3 & ->). by exists (w :: k1), k2, k3.
  - destruct (IH l1 Heq) as (k1 & k2 & k3 & ->). by exists (z :: k1), k2, k3.
Qed.

Lemma before_asym x y : before x y -> ~ before y x.
Proof.
  intros (l1 & l2 & l3 & HL) (k1 & k2 & k3 & HL'). pose proof (ar_nodup _ _ _ A) as Hnd.
  assert (l1 ++ x :: l2 ++ y :: l3 = (l1 ++ x :: l2) ++ y :: l3) as E by by rewrite <- app_assoc.
  rewrite HL, E in HL'. rewrite HL, E in Hnd. apply split_unique in HL' as [_ ->]; [|done].
  apply NoDup_app in Hnd as (_ & Hdisj & _). apply (Hdisj x); set_solver.
Qed.

(** A call is minimal when no other live operation returned before it. *)
Lemma minimal_iff X a :
  minimal h0 L X a <->
  a ∈ L /\ (cid h0 a ∉ X) /\ isCall h0 a /\
  forall b m, b ∈ L -> partner h0 b = Some m -> cid h0 b ∉ X -> ~ before m a.
Proof.
  split.
  - intros (bef & rest & Hl & Hb & Ha).
    assert (a ∈ live h0 L X) as [HaX HaL]%live_in by (rewrite Hl; set_solver). split_and!; [done..|].
    intros b m HbL Hm HbX Hbef.
    destruct (ar_call _ _ _ A b m HbL Hm) as (_ & _ & _ & _ & _ & _ & _ & Hcid & Hret & _).
    destruct (before_live X m a Hbef) as (l1 & l2 & l3 & Hl'); [by rewrite Hcid|done|].
    pose proof (live_NoDup h0 L n A X) as Hnd. rewrite Hl in Hl', Hnd.
    assert (l1 ++ m :: l2 ++ a :: l3 = (l1 ++ m :: l2) ++ a :: l3) as E by by rewrite <- app_assoc.
    rewrite E in Hl'. apply split_unique in Hl' as [-> _]; [|done].
    rewrite Forall_forall in Hb. destruct (Hb m) as [? ?]; [set_solver|congruence].
  - intros (HaL & HaX & Ha & Hno). assert (a ∈ live h0 L X) as Hin by by apply live_in.
    apply list_elem_of_split in Hin as (bef & rest & Hl). exists bef, rest. split_and!; [done| |done].
    apply Forall_forall. intros x Hx. unfold isCall. destruct (partner h0 x) as [m|] eqn:E; [by eexists|]. exfalso.
    apply list_elem_of_split in Hx as (b1 & b2 & ->). rewrite <- app_assoc in Hl. cbn in Hl.
    assert (x ∈ live h0 L X) as [HxX HxL]%live_in by (rewrite Hl; set_solver).
    destruct (ar_ret _ _ _ A x HxL E) as (b & HbL & Hb & Hcid).
    apply (Hno b x HbL Hb); [by rewrite Hcid|]. by eapply live_before.
Qed.

(** A completed run is an order of all remaining calls, legal and faithful to real time. *)
Lemma run_from_iff X s l :
  run_from model h0 L X s l <->
  legal_calls s l /\ NoDup (cid h0 <$> l) /\
  (forall a, a ∈ l -> a ∈ L /\ isCall h0 a /\ cid h0 a ∉ X) /\
  (forall k, 0 <= k < n -> k ∈ X \/ k ∈ cid h0 <$> l) /\
  StronglySorted may_precede l.
Proof.
  revert X s. induction l as [|a l IH]; intros X s; cbn [run_from legal_calls].
  - split.
    + intros Hl. split_and!; [done|constructor|set_solver| |constructor].
      intros k Hk. left. by eapply live_empty.
    + intros (_ & _ & _ & Hall & _). unfold live. destruct (filter _ L) as [|x k] eqn:E; [done|]. exfalso.
      assert (x ∈ filter (fun a => cid h0 a ∉ X) L) as [HxX HxL]%list_elem_of_filter by (rewrite E; set_solver).
      destruct (Hall (cid h0 x)) as [?|?]; [by apply (ar_node _ _ _ A)|done|set_solver].
  - rewrite fmap_cons, NoDup_cons. split.
    + intros (Hmin & s' & Hs & Hrun). apply IH in Hrun as (Hleg & Hnd & Hin & Hall & Hsort).
      apply minimal_iff in Hmin as (HaL & HaX & Ha & Hno). split_and!.
      * eauto.
      * intros (b & Hid & Hb)%list_elem_of_fmap. destruct (Hin b Hb) as (_ & _ & Hn). set_solver.
      * done.
      * intros b [->|Hb]%elem_of_cons; [done|]. destruct (Hin b Hb) as (? & ? & ?). split_and!; [done..|set_solver].
      * intros k Hk. destruct (Hall k Hk) as [HX|Hl]; [|set_solver]. set_solver.
      * constructor; [done|]. apply Forall_forall. intros b Hb m Hm. destruct (Hin b Hb) as (HbL & _ & HbX).
        apply (Hno b m HbL Hm). set_solver.
    + intros ((s' & Hs & Hleg) & [Hfresh Hnd] & Hin & Hall & Hsort).
      apply StronglySorted_inv in Hsort as [Hsort Hfirst]. destruct (Hin a) as (HaL & Ha & HaX); [by left|].
      split.
      * apply minimal_iff. split_and!; [done..|]. intros b m HbL Hm HbX.
        destruct (Hall (cid h0 b)) as [?|Hb]; [by apply (ar_node _ _ _ A)|done|].
        apply elem_of_cons in Hb as [Heq|(b' & Heq & Hb')%list_elem_of_fmap].
        -- assert (b = a) as -> by (apply (ar_inj _ _ _ A); [done..|by exists m|done|done]).
           destruct (ar_call _ _ _ A a m HaL Hm) as (_ & _ & l1 & l2 & l3 & _ & _ & _ & _ & HL).
           apply before_asym. by exists l1, l2, l3.
        -- destruct (Hin b') as (Hb'L & Hb'c & _); [by right|].
           assert (b = b') as -> by (apply (ar_inj _ _ _ A); [done..|by exists m|done|done]).
           rewrite Forall_forall in Hfirst. by apply (Hfirst b' Hb').
      * exists s'. split; [done|]. apply IH. split_and!; [done..| | |done].
        -- intros b Hb. destruct (Hin b) as (? & ? & ?); [by right|]. split_and!; [done..|].
           intros [?|Heq%elem_of_singleton]%elem_of_union; [done|]. apply Hfresh. rewrite <- Heq.
           by apply list_elem_of_fmap_2.
        -- intros k Hk. destruct (Hall k Hk) as [?|[->|?]%elem_of_cons]; set_solver.
Qed.

(** The calls on the stack of the search are a legal run that is faithful to real time. *)
Fixpoint reaches (s : T) (l : list nat) (s' : T) : Prop :=
  match l with
  | [] => s' = s
  | a :: l => exists s1, stepOf model h0 s a = Some (true, s1) /\ reaches s1 l s'
  end.

Lemma reaches_snoc s l s1 a s' : reaches s l s1 -> stepOf model h0 s1 a = Some (true, s') -> reaches s (l ++ [a]) s'.
Proof.
  revert s. induction l as [|b l IH]; intros s; cbn; [intros -> ?; eauto|]. intros (s2 & H1 & H2) H3. exists s2. eauto.
Qed.

Lemma reaches_legal s l s' : reaches s l s' -> legal_calls s l.
Proof. revert s. induction l as [|a l IH]; intros s; cbn; [done|]. intros (s1 & H1 & H2). eauto. Qed.

Lemma frames_minimal f fs s : frames_ok model h0 L (f :: fs) s -> minimal h0 L (ids h0 fs) (f_call f).
Proof. intros (Hl & Hb & Hp & _). eexists _, _. split_and!; [exact Hl|done|by exists (f_ret f)]. Qed.

(** A call that is not on the stack did not return before those that are. *)
Lemma frames_may_precede fs s b g :
  frames_ok model h0 L fs s -> b ∈ L -> cid h0 b ∉ ids h0 fs -> g ∈ fs -> may_precede (f_call g) b.
Proof.
  revert s. induction fs as [|f fs IH]; intros s Hfr HbL HbX Hg; [set_solver|].
  rewrite (ids_cons h0 L n A) in HbX. apply elem_of_cons in Hg as [->|Hg].
  - apply frames_minimal, minimal_iff in Hfr as (_ & _ & _ & Hno). intros m Hm. apply (Hno b m HbL Hm). set_solver.
  - destruct Hfr as (_ & _ & _ & _ & Hfr). apply (IH (f_state f)); [done|done|set_solver|done].
Qed.

Lemma frames_partial fs s :
  frames_ok model h0 L fs s ->
  let l := reverse (f_call <$> fs) in
  reaches (Init model) l s /\ NoDup (cid h0 <$> l) /\ (forall a, a ∈ l -> a ∈ L /\ isCall h0 a) /\ StronglySorted may_precede l.
Proof.
  revert s. induction fs as [|f fs IH]; intros s Hfr l.
  { split_and!; [done|constructor|set_solver|constructor]. }
  pose proof (frames_minimal _ _ _ Hfr) as (HL & HX & Hc & _)%minimal_iff.
  pose proof Hfr as (_ & _ & _ & Hs & Hfr'). destruct (IH (f_state f) Hfr') as (H1 & H2 & H3 & H4).
  subst l. rewrite fmap_cons, reverse_cons. split_and!.
  - by eapply reaches_snoc.
  - rewrite fmap_app. apply NoDup_app. split_and!; [done| |apply NoDup_singleton]. intros k Hk Hk'. cbn in Hk'.
    apply list_elem_of_singleton in Hk'. subst k. apply HX. unfold ids. apply elem_of_list_to_set.
    rewrite list_elem_of_fmap in Hk. destruct Hk as (a & Ea & Ha). rewrite elem_of_reverse, list_elem_of_fmap in Ha.
    destruct Ha as (g & -> & Hg). rewrite Ea. by apply (list_elem_of_fmap_2 (fun f => cid h0 (f_call f))).
  - intros a [Ha|Ha%list_elem_of_singleton]%elem_of_app; [by apply H3|]. by subst.
  - apply StronglySorted_app. split_and!; [|done|repeat constructor]. intros x y Hx Hy%list_elem_of_singleton. subst y.
    apply elem_of_reverse, list_elem_of_fmap in Hx as (g & -> & Hg). by eapply frames_may_precede.
Qed.
End Orders.

(** ** The entries of a list of operations *)

Section Entries.
Context {In Out T : Type} (model : Model In Out T).
Context (ops : list (Operation In Out)) (hs : list (entry (In + Out))).
Context (Hperm : hs ≡ₚ entriesFrom 0 ops) (Hsort : StronglySorted not_later hs) (Htimely : timely ops).

Definition callOf (k : Z) (op : Operation In Out) : entry (In + Out) :=
  mkEntry callEntry (inl (op_Input op)) k (op_Call op) (op_ClientId op).
Definition retOf (k : Z) (op : Operation In Out) : entry (In + Out) :=
  mkEntry returnEntry (inr (op_Output op)) k (op_Return op) (op_ClientId op).

Lemma entriesFrom_elem z (l : list (Operation In Out)) e :
  e ∈ entriesFrom z l <->
  exists k op, l !! k = Some op /\ (e = callOf (z + Z.of_nat k) op \/ e = retOf (z + Z.of_nat k) op).
Proof.
  revert z. induction l as [|op l IH]; intros z; cbn [entriesFrom].
  { split; [set_solver|]. by intros (k & op & Hk & _). }
  rewrite !elem_of_cons, IH. split.
  - intros [-> | [-> | (k & op' & Hk & He)]].
    + exists 0%nat, op. rewrite Z.add_0_r. auto.
    + exists 0%nat, op. rewrite Z.add_0_r. auto.
    + exists (S k), op'. replace (z + Z.of_nat (S k)) with (z + 1 + Z.of_nat k) by lia. auto.
  - intros ([|k] & op' & Hk & He).
    + cbn in Hk. simplify_eq. rewrite Z.add_0_r in He. unfold callOf, retOf in He. tauto.
    + right; right. exists k, op'. replace (z + 1 + Z.of_nat k) with (z + Z.of_nat (S k)) by lia. auto.
Qed.

Lemma entriesFrom_length z (l : list (Operation In Out)) : zlen (entriesFrom z l) = 2 * zlen l.
Proof.
  revert z. induction l as [|op l IH]; intros z; [done|]. specialize (IH (z + 1)). unfold zlen in *. cbn. lia.
Qed.

Lemma entriesFrom_NoDup z (l : list (Operation In Out)) :
  NoDup ((fun e => (e_kind e, e_id e)) <$> entriesFrom z l).
Proof.
  revert z. induction l as [|op l IH]; intros z; [constructor|]. cbn.
  assert (Hlt : forall kd, (kd, z) ∉ (fun e => (e_kind e, e_id e)) <$> entriesFrom (z + 1) l).
  { intros kd (e & [= _ Hid] & (k & op' & _ & [-> | ->])%entriesFrom_elem)%list_elem_of_fmap; cbn in Hid; lia. }
  constructor; [|constructor; [apply Hlt|apply IH]].
  intros [Heq|Hin]%elem_of_cons; [done|]. by apply (Hlt callEntry).
Qed.

(** Every entry of the history belongs to an operation. *)
Lemma hs_elem p e :
  hs !! p = Some e -> exists k op, ops !! k = Some op /\ (e = callOf (Z.of_nat k) op \/ e = retOf (Z.of_nat k) op).
Proof. intros Hp%list_elem_of_lookup_2. rewrite Hperm in Hp. by apply entriesFrom_elem in Hp. Qed.

Lemma hs_call k op : ops !! k = Some op -> exists p, hs !! p = Some (callOf (Z.of_nat k) op).
Proof.
  intros Hk. apply list_elem_of_lookup_1. rewrite Hperm. apply entriesFrom_elem. exists k, op. auto.
Qed.

Lemma hs_ret k op : ops !! k = Some op -> exists p, hs !! p = Some (retOf (Z.of_nat k) op).
Proof.
  intros Hk. apply list_elem_of_lookup_1. rewrite Hperm. apply entriesFrom_elem. exists k, op. auto.
Qed.

Lemma hs_inj p q e e' :
  hs !! p = Some e -> hs !! q = Some e' -> e_kind e = e_kind e' -> e_id e = e_id e' -> p = q.
Proof.
  intros Hp Hq Hk Hid. assert (NoDup ((fun e => (e_kind e, e_id e)) <$> hs)) as Hnd.
  { rewrite Hperm. apply entriesFrom_NoDup. }
  eapply NoDup_lookup; [done|rewrite list_lookup_fmap, Hp; done|]. rewrite list_lookup_fmap, Hq. cbn. congruence.
Qed.

(** A return lies before a call in the history exactly when its time is smaller. *)
Lemma ret_before_call p q k k' a b :
  hs !! q = Some (retOf k b) -> hs !! p = Some (callOf k' a) ->
  (q < p)%nat <-> op_Return b < op_Call a.
Proof.
  intros Hq Hp. split.
  - intros Hlt. pose proof (StronglySorted_lookup _ _ _ _ _ _ Hsort Hq Hp Hlt) as H.
    apply not_later_iff in H. cbn in H. lia.
  - intros Hlt. destruct (decide (q < p)%nat) as [|Hge]; [done|]. exfalso.
    assert (p <> q) by (intros ->; rewrite Hp in Hq; done).
    pose proof (StronglySorted_lookup _ _ _ _ _ _ Hsort Hp Hq ltac:(lia)) as H'.
    apply not_later_iff in H'. cbn in H'. lia.
Qed.

Lemma timely_lookup k op : ops !! k = Some op -> op_Call op <= op_Return op.
Proof. intros Hk. exact (Forall_lookup_1 _ _ _ _ Htimely Hk). Qed.

Lemma call_before_ret p q k op :
  ops !! k = Some op -> hs !! p = Some (callOf (Z.of_nat k) op) -> hs !! q = Some (retOf (Z.of_nat k) op) -> (p < q)%nat.
Proof.
  intros Hk Hp Hq. pose proof (timely_lookup k op Hk) as Ht.
  pose proof (ret_before_call p q _ _ _ _ Hq Hp) as Hiff. assert (p <> q) by (intros ->; rewrite Hp in Hq; done).
  destruct (decide (q < p)%nat) as [Hlt|]; [|lia]. apply Hiff in Hlt. lia.
Qed.

Lemma entries_history_ok : history_ok hs (zlen ops).
Proof.
  split.
  - transitivity (zlen (entriesFrom 0 ops)); [unfold zlen; by rewrite Hperm|apply entriesFrom_length].
  - intros p e Hp Hk. destruct (hs_elem p e Hp) as (k & op & Hop & [-> | ->]); [|done]. cbn [e_id callOf].
    destruct (hs_ret k op Hop) as (q & Hq). apply lookup_lt_Some in Hop as Hlt. unfold zlen. split_and!; [lia|lia|by eexists|].
    exists q, (retOf (Z.of_nat k) op). split_and!; [by eapply call_before_ret|done|done..].
  - intros q e Hq Hk. destruct (hs_elem q e Hq) as (k & op & Hop & [-> | ->]); [done|].
    destruct (hs_call k op Hop) as (p & Hp). split; [by eexists|].
    exists p, (callOf (Z.of_nat k) op). split_and!; [by eapply call_before_ret|done..].
  - apply hs_inj.
  - intros k Hk. destruct (lookup_lt_is_Some_2 ops (Z.to_nat k)) as [op Hop]; [unfold zlen in Hk; lia|].
    destruct (hs_call _ op Hop) as (p & Hp). exists p, (callOf (Z.of_nat (Z.to_nat k)) op). split_and!; [done..|cbn; lia].
Qed.

(** *** The orders the search finds are the linearizations *)

Section Bridge.
Context (h : list (node (In + Out))) (Hn : nodes_of h hs).

Local Abbreviation L := (addrs (length hs)).
Local Abbreviation Ad p := (adr (length hs) p).

(** Address [a] is the call of operation [k]. *)
Definition calls_op (k : nat) (a : nat) : Prop :=
  exists p op, ops !! k = Some op /\ hs !! p = Some (callOf (Z.of_nat k) op) /\ a = Ad p.

Lemma calls_op_spec k a :
  calls_op k a -> a ∈ L /\ isCall h a /\ cid h a = Z.of_nat k /\
  exists op, ops !! k = Some op /\ forall s, stepOf model h s a = Some (Step model s (op_Input op) (op_Output op)).
Proof.
  intros (p & op & Hk & Hp & ->). pose proof entries_history_ok as Hok.
  destruct (hs_ret k op Hk) as (q & Hq). split; [by eapply entry_addr|].
  split; [by apply (isCall_iff hs _ h Hok Hn p _ Hp)|].
  destruct (entry_fields hs h Hn p _ Hp) as (Hcid & Hval & _).
  destruct (entry_fields hs h Hn q _ Hq) as (_ & Hvalq & _). split; [done|]. exists op. split; [done|].
  intros s. unfold stepOf.
  rewrite Hval, (partner_iff hs _ h Hok Hn p _ q _ Hp eq_refl Hq) by done. cbn [mbind option_bind]. by rewrite Hvalq.
Qed.

Lemma call_op a : a ∈ L -> isCall h a -> exists k, calls_op k a.
Proof.
  intros (p & e & Hp & ->)%addr_entry Ha. pose proof entries_history_ok as Hok.
  apply (isCall_iff hs _ h Hok Hn p e Hp) in Ha. destruct (hs_elem p e Hp) as (k & op & Hk & [-> | ->]); [|done].
  by exists k, p, op.
Qed.

Lemma before_adr p q : (p < length hs)%nat -> (q < length hs)%nat -> before L (Ad p) (Ad q) <-> (p < q)%nat.
Proof.
  intros Hp Hq. split.
  - intros (l1 & l2 & l3 & HL).
    assert (L !! length l1 = Some (Ad p)) as H1 by (rewrite HL; by apply list_lookup_middle).
    assert (L !! (length l1 + S (length l2))%nat = Some (Ad q)) as H2.
    { rewrite HL, lookup_app_r by lia. replace (length l1 + S (length l2) - length l1)%nat with (S (length l2)) by lia.
      cbn. by apply list_lookup_middle. }
    pose proof (NoDup_lookup _ _ _ _ (addrs_NoDup _) H1 (addrs_lookup _ _ Hp)).
    pose proof (NoDup_lookup _ _ _ _ (addrs_NoDup _) H2 (addrs_lookup _ _ Hq)). lia.
  - intros Hlt. eapply split_two; [by apply addrs_lookup|by apply addrs_lookup|done].
Qed.

Lemma may_precede_iff k a k' b :
  calls_op k a -> calls_op k' b -> may_precede h L a b <-> ~ precedes ops k' k.
Proof.
  intros (p & op & Hk & Hp & ->) (p' & op' & Hk' & Hp' & ->). pose proof entries_history_ok as Hok.
  destruct (hs_ret k' op' Hk') as (q & Hq). unfold may_precede.
  rewrite (partner_iff hs _ h Hok Hn p' _ q _ Hp' eq_refl Hq) by done.
  pose proof (before_adr q p (lookup_lt_Some _ _ _ Hq) (lookup_lt_Some _ _ _ Hp)) as Hbef.
  rewrite (ret_before_call p q _ _ _ _ Hq Hp) in Hbef. split.
  - intros H (x & y & Hx & Hy & Hlt). simplify_eq. by apply (H _ eq_refl), Hbef.
  - intros H m [= <-] Hb. apply H. exists op', op. split_and!; [done..|]. by apply Hbef.
Qed.

Lemma legal_calls_iff order l s : Forall2 calls_op order l -> legal_calls model h s l <-> legal model ops s order.
Proof.
  intros HF. revert s. induction HF as [|k a order l Hka HF IH]; intros s; cbn [legal legal_calls]; [done|].
  destruct (calls_op_spec k a Hka) as (_ & _ & _ & op & Hop & Hstep). split.
  - intros (s' & Hs & Hl). rewrite Hstep in Hs. injection Hs as Hs. exists op. rewrite Hs. cbn. split_and!; [done..|by apply IH].
  - intros (op' & Hop' & Hok & Hl). simplify_eq. exists (Step model s (op_Input op) (op_Output op)).2.
    split; [|by apply IH]. rewrite Hstep, <- Hok. by rewrite <- surjective_pairing.
Qed.

Lemma sorted_iff order l :
  Forall2 calls_op order l ->
  StronglySorted (may_precede h L) l <-> StronglySorted (fun i j => ~ precedes ops j i) order.
Proof.
  intros HF. induction HF as [|k a order l Hka HF IH]; [split; constructor|].
  rewrite !StronglySorted_cons, IH. apply and_iff_compat_r. clear IH.
  induction HF as [|k' b order l Hkb HF IH]; [done|]. rewrite !Forall_cons, IH.
  by rewrite (may_precede_iff k a k' b).
Qed.

Lemma cids_order order l : Forall2 calls_op order l -> cid h <$> l = Z.of_nat <$> order.
Proof.
  induction 1 as [|k a order l Hka HF IH]; [done|]. rewrite !fmap_cons, IH. f_equal.
  by destruct (calls_op_spec k a Hka) as (_ & _ & -> & _).
Qed.

Lemma calls_order l : (forall a, a ∈ l -> a ∈ L /\ isCall h a) -> exists order, Forall2 calls_op order l.
Proof.
  induction l as [|a l IH]; intros Hin; [by exists []|]. destruct IH as [order HF]; [intros; apply Hin; by right|].
  destruct (Hin a ltac:(left)) as (HaL & Ha). destruct (call_op a HaL Ha) as [k Hk]. exists (k :: order). by constructor.
Qed.

Lemma partial_legal seq : partial_ok model h L (zlen ops) seq -> legal_partial model ops seq.
Proof.
  pose proof entries_history_ok as Hok. pose proof (history_arena hs _ h Hok Hn) as HA.
  intros (fs & s & Hfr & -> & Hne). destruct (frames_partial model h L _ HA fs s Hfr) as (H1 & H2 & H3 & H4).
  destruct (calls_order _ H3) as [order HF]. unfold frameIds.
  assert (reverse ((fun f => cid h (f_call f)) <$> fs) = cid h <$> reverse (f_call <$> fs)) as ->.
  { by rewrite fmap_reverse, <- list_fmap_compose. }
  exists order. rewrite (cids_order _ _ HF) in H2 |- *. split_and!; [done|by eapply NoDup_fmap_1| |by eapply sorted_iff| |].
  - eapply legal_calls_iff; [done|]. by eapply reaches_legal.
  - intros i j Hi Hj Hpre. pose proof Hpre as (op & _ & Hop & _). destruct (hs_call j op Hop) as (p & Hp).
    assert (calls_op j (Ad p)) as Hcj by (by exists p, op). destruct (calls_op_spec j (Ad p) Hcj) as (HL & _ & Hcid & _).
    apply list_elem_of_lookup in Hi as (x & Hx). destruct (Forall2_lookup_l _ _ _ _ _ HF Hx) as (a & Ha & Hca).
    apply list_elem_of_lookup_2, elem_of_reverse, list_elem_of_fmap in Ha as (f & -> & Hf).
    apply (may_precede_iff i (f_call f) j (Ad p) Hca Hcj); [|done]. eapply frames_may_precede; [exact HA|exact Hfr|done| |done].
    intros Hin. apply Hj. unfold ids in Hin. rewrite elem_of_list_to_set, Hcid in Hin.
    assert (Z.of_nat j ∈ cid h <$> reverse (f_call <$> fs)) as Hin'.
    { apply list_elem_of_fmap in Hin as (g & E & Hg). apply list_elem_of_fmap. exists (f_call g). split; [done|]. by apply elem_of_reverse, list_elem_of_fmap_2. }
    rewrite (cids_order _ _ HF) in Hin'. by apply list_elem_of_fmap in Hin' as (j' & ->%Nat2Z.inj & ?).
  - intros Hops ->. apply Forall2_nil_inv_l in HF. apply Hne; [destruct ops; [done|unfold zlen; cbn; lia]|].
    apply (f_equal length) in HF. rewrite length_reverse, length_fmap in HF. by destruct fs.
Qed.

Lemma run_linearizable :
  (exists l, run_from model h L ∅ (Init model) l) <-> linearizable model ops.
Proof.
  pose proof entries_history_ok as Hok. pose proof (history_arena hs _ h Hok Hn) as HA. split.
  - intros (l & (Hleg & Hnd & Hin & Hall & Hs)%(run_from_iff _ _ _ _ HA)).
    destruct (calls_order l) as [order HF]; [intros a Ha; by destruct (Hin a Ha) as (? & ? & _)|].
    exists order. rewrite (cids_order _ _ HF) in Hnd, Hall. split_and!.
    + apply NoDup_Permutation; [by eapply NoDup_fmap_1|apply NoDup_seq|]. intros k. rewrite elem_of_seq. split.
      * intros Hk. apply list_elem_of_lookup in Hk as (j & Hj).
        destruct (Forall2_lookup_l _ _ _ _ _ HF Hj) as (a & _ & (p & op & Hop & _)). apply lookup_lt_Some in Hop. lia.
      * intros Hk. destruct (Hall (Z.of_nat k)) as [?|(k' & Heq & Hk')%list_elem_of_fmap]; [unfold zlen; lia|set_solver|].
        by apply Nat2Z.inj in Heq as ->.
    + by eapply legal_calls_iff.
    + by eapply sorted_iff.
  - intros (order & Hp & Hleg & Hs).
    assert (exists l, Forall2 calls_op order l) as [l HF].
    { assert (forall k, k ∈ order -> exists a, calls_op k a) as Hex.
      { intros k Hk. rewrite Hp, elem_of_seq in Hk. destruct (lookup_lt_is_Some_2 ops k) as [op Hop]; [lia|].
        destruct (hs_call k op Hop) as (p & Hpos). by exists (Ad p), p, op. }
      clear Hp Hleg Hs. induction order as [|k order IH]; [by exists []|].
      destruct IH as [l HF]; [intros; apply Hex; by right|]. destruct (Hex k ltac:(left)) as [a Ha].
      exists (a :: l). by constructor. }
    exists l. apply (run_from_iff _ _ _ _ HA). split_and!.
    + by eapply legal_calls_iff.
    + rewrite (cids_order _ _ HF). apply NoDup_fmap_2; [apply _|]. rewrite Hp. apply NoDup_seq.
    + intros a (j & Ha)%list_elem_of_lookup. destruct (Forall2_lookup_r _ _ _ _ _ HF Ha) as (k & _ & Hka).
      destruct (calls_op_spec k a Hka) as (? & ? & _). split_and!; [done..|set_solver].
    + intros k Hk. right. rewrite (cids_order _ _ HF). apply list_elem_of_fmap. exists (Z.to_nat k).
      split; [lia|]. rewrite Hp, elem_of_seq. unfold zlen in Hk. lia.
    + by eapply sorted_iff.
Qed.
End Bridge.
End Entries.
