(* ===== verification/CheckerProps.v ===== *)
(** * CheckerProps: the checker decides linearizability

    [checkSingle_spec] puts the parts together: on the entries of a list of operations the
    search returns, and its answer is right.  The claims about [checkSingle], [checkParallel]
    and the exported functions follow. *)

From S2P Require Import Prelude Bitset LinkedList Porcupine CheckerFacts CheckerSim CheckerInit CheckerSpec.
Local Open Scope Z_scope.

Section Props.
Context {In Out T : Type} `{!EqDecision T} `{!Sorter (A:=entry (In + Out)) Less}.
Context (fmt_input : In -> string) (fmt_output : Out -> string) (fmt_state : T -> string).
Context (range_order : list nat -> list nat).
Implicit Types (model : Model In Out T) (ops : list (Operation In Out)).

(** The fuel that is enough for a list of operations. *)
Definition searchFuel ops : nat := work (length ops).

(** What [checkSingle] needs of the model's [Equal] for a negative answer. *)
Definition good_equality model : Prop := equality model (equalOf model).

Lemma CInv_init model eq h L n words s :
  CInv model eq h L n words (mkConfig [] s [] L ∅).
Proof.
  split; cbn; [|set_solver|done]. intros ce Hin. unfold in_cache in Hin. rewrite lookup_empty in Hin.
  cbn in Hin. set_solver.
Qed.

Lemma rtc_invariants model eq h L n words (A : arena h L n) c c' :
  (forall s, eq s s = true) -> AInv model h L c -> CInv model eq h L n words c ->
  rtc (trans model eq h words) c c' -> CInv model eq h L n words c'.
Proof.
  intros Hrefl HA HC Hr. induction Hr as [|c c1 c' Ht Hr IH]; [done|]. apply IH.
  - by eapply trans_AInv.
  - by eapply trans_CInv.
Qed.

Lemma checkSingle_spec fuel model ops computePartial kill :
  timely ops -> (searchFuel ops <= fuel)%nat ->
  exists ok longest seqs,
    checkSingle fuel model (makeEntries ops) computePartial kill = Return ok longest seqs /\
    (ok = true -> linearizable model ops) /\
    (good_equality model -> ok = false -> (exists j, kill j <> 0) \/ ~ linearizable model ops) /\
    (forall q, Some q ∈ longest -> (q < length seqs)%nat) /\ Forall (legal_partial model ops) seqs.
Proof.
  intros Ht Hfuel. pose proof (sort_perm (entriesFrom 0 ops)) as Hperm.
  pose proof (sort_sorted (entriesFrom 0 ops)) as Hsort. fold (makeEntries ops) in Hperm, Hsort.
  pose proof (entries_history_ok ops _ Hperm Hsort Ht) as Hok.
  destruct (initSearch_spec model _ _ Hok) as (h & st & Hinit & Hn & HA & Hw & HS & HI).
  set (hs := makeEntries ops) in *. set (L := addrs (length hs)) in *. set (words := length (newBitset (zlen ops))) in *.
  unfold checkSingle. rewrite Hinit.
  destruct (searchLoop_spec model (equalOf model) computePartial h (length hs) L (zlen ops) words HA Hw kill fuel 0 st _ HS HI)
    as (ok & longest & seqs & Hrun & (_ & Hptr & Hpartial) & Htrue & Hfalse).
  { unfold measure. cbn [c_frames c_rest pending length]. rewrite Nat.sub_0_r.
    rewrite level_full; [unfold zlen; rewrite Nat2Z.id; unfold searchFuel in Hfuel; lia|].
    pose proof (ar_len _ _ _ HA) as Hl. unfold zlen in *. lia. }
  exists ok, longest, seqs. split; [done|]. split_and!; [| |done|].
  - intros Hok'. destruct (Htrue Hok') as (fs & s & cache & _ & HA').
    apply (run_linearizable model ops hs Hperm Hsort Ht h Hn).
    pose proof (ai_live _ _ _ _ HA') as Hlive. cbn in Hlive.
    exists (reverse (f_call <$> fs) ++ []).
    apply (frames_run model h L (zlen ops) HA fs s []); [apply HA'|done].
  - intros HE Hok'. destruct (Hfalse Hok') as [?|(s & bef & r & rest & cache & Hr & HA' & Hp)]; [by left|right].
    intros (l & Hl)%(run_linearizable model ops hs Hperm Hsort Ht h Hn).
    refine (failed_no_run model (equalOf model) h L (zlen ops) words HA HE s bef r rest cache l HA' _ Hp Hl).
    eapply rtc_invariants; [done|apply HE|apply HI|apply CInv_init|done].
  - eapply Forall_impl; [exact Hpartial|]. intros seq Hs. by eapply (partial_legal model ops hs Hperm Hsort Ht h Hn).
Qed.

(** The answer of a search that is not killed. *)
Lemma checkSingle_answer fuel model ops computePartial kill :
  timely ops -> good_equality model -> (searchFuel ops <= fuel)%nat -> (forall j, kill j = 0) ->
  exists ok longest seqs,
    checkSingle fuel model (makeEntries ops) computePartial kill = Return ok longest seqs /\
    (ok = true <-> linearizable model ops).
Proof.
  intros Ht HE Hf Hk. destruct (checkSingle_spec fuel model ops computePartial kill Ht Hf)
    as (ok & longest & seqs & Hrun & Htrue & Hfalse & _).
  exists ok, longest, seqs. split; [done|]. split; [done|]. intros Hlin. destruct ok; [done|].
  destruct (Hfalse HE eq_refl) as [[j Hj]|Hn]; [by rewrite Hk in Hj|done].
Qed.

(** C8: [checkSingle] decides linearizability.  For operations that return no earlier than
    they are called, a model whose [Equal] is an equivalence its steps respect, and a search
    that is not killed, the loop ends (within the stated number of iterations) without a
    nil dereference or an index out of range, and the answer is true exactly when the
    operations are linearizable. *)
Theorem checkSingle_decides fuel model ops computePartial kill :
  timely ops -> good_equality model -> (searchFuel ops <= fuel)%nat -> (forall j, kill j = 0) ->
  exists ok longest seqs,
    checkSingle fuel model (makeEntries ops) computePartial kill = Return ok longest seqs /\
    (ok = true <-> linearizable model ops).
Proof. apply checkSingle_answer. Qed.

(** *** The collector of checkParallel *)

(** The goroutines whose results are received, in order. *)
Definition received (sched : list select) : list nat :=
  omap (fun ev => match ev with Recv i => Some i | TimeoutFires => None end) sched.

Lemma collect_all (results : nat -> option bool) (r : nat -> bool) n order ok count :
  (forall i, i ∈ order -> results i = Some (r i)) -> order <> [] -> count + zlen order = n ->
  exists b count' rest, collect results n false (Recv <$> order) ok count = Some (b, false, count', rest) /\
    (b = true <-> ok = true /\ forall i, i ∈ order -> r i = true).
Proof.
  revert ok count. induction order as [|i order IH]; intros ok count Hres Hne Hn; [done|].
  cbn [fmap list_fmap collect]. rewrite (Hres i) by (by left). cbn [mbind option_bind].
  unfold zlen in Hn. cbn [length] in Hn. destruct (ok && r i) eqn:E; cbn [negb andb].
  - apply andb_true_iff in E as [-> Hi]. destruct (Z.geb_spec (count + 1) n).
    + assert (order = []) as -> by (destruct order; [done|cbn in Hn; lia]).
      eexists _, _, _. split; [done|]. split; [|done]. intros _. split; [done|]. set_solver.
    + destruct (IH true (count + 1)) as (b & c' & rest & -> & Hb); [intros; apply Hres; by right| |unfold zlen; lia|].
      { intros ->. cbn in Hn. lia. }
      eexists _, _, _. split; [done|]. rewrite Hb. set_solver.
  - eexists _, _, _. split; [done|]. split; [done|]. intros [-> Hall].
    rewrite Hall in E by (by left). done.
Qed.

(** A positive answer means that the loop has received a positive result of every partition. *)
Lemma collect_sound results n computeInfo sched ok count b count' rest :
  collect results n computeInfo sched ok count = Some (b, false, count', rest) -> b = true ->
  ok = true /\ exists got, got `prefix_of` received sched /\ n <= count + zlen got /\
    forall i, i ∈ got -> results i = Some true.
Proof.
  revert ok count. induction sched as [|[i|] sched IH]; intros ok count Hc Hb; cbn [collect] in Hc; [done| |done].
  destruct (results i) as [r|] eqn:Er; cbn [mbind option_bind] in Hc; [|done].
  assert (Hone : forall l, received (Recv i :: l) = i :: received l) by done.
  destruct (negb (ok && r) && negb computeInfo) eqn:E1.
  { injection Hc as <- _ _. rewrite Hb in E1. done. }
  destruct (Z.geb_spec (count + 1) n).
  - injection Hc as <- _ _. apply andb_true_iff in Hb as [-> ->]. split; [done|]. exists [i].
    rewrite Hone. split_and!; [by exists (received sched)|unfold zlen; cbn; lia|]. intros j ->%list_elem_of_singleton. done.
  - destruct (IH _ _ Hc Hb) as [[-> ->]%andb_true_iff (got & [k Hk] & Hn & Hall)]. split; [done|]. exists (i :: got).
    rewrite Hone. split_and!; [exists k; cbn; by rewrite Hk|unfold zlen in *; cbn [length]; lia|].
    intros j [-> | Hj]%elem_of_cons; [done|by apply Hall].
Qed.

(** The goroutines whose results are received before the timeout; [kill] is set only then. *)
Fixpoint untilTimeout (sched : list select) : list nat :=
  match sched with
  | Recv i :: sched => i :: untilTimeout sched
  | _ => []
  end.

(** A negative answer comes from a negative result. *)
Lemma collect_negative results n computeInfo sched ok count timedOut count' rest :
  collect results n computeInfo sched ok count = Some (false, timedOut, count', rest) ->
  ok = false \/ exists i, i ∈ untilTimeout sched /\ results i = Some false.
Proof.
  revert ok count. induction sched as [|[i|] sched IH]; intros ok count Hc; cbn [collect] in Hc; [done| |left; by simplify_eq].
  destruct (results i) as [r|] eqn:Er; cbn [mbind option_bind] in Hc; [|done].
  assert (ok && r = false -> ok = false \/ exists i', i' ∈ untilTimeout (Recv i :: sched) /\ results i' = Some false) as Hor.
  { destruct ok; [|auto]. cbn. intros ->. right. exists i. split; [by left|done]. }
  destruct (negb (ok && r) && negb computeInfo); [injection Hc as E _ _; auto|].
  destruct (count + 1 >=? n); [injection Hc as E _ _; auto|].
  destruct (IH _ _ Hc) as [E|(i' & Hi' & Hr)]; [auto|]. right. exists i'. split; [by right|done].
Qed.

Local Abbreviation checkOps := (CheckOperations fmt_input fmt_output fmt_state range_order).
Local Abbreviation checkOpsTimeout := (CheckOperationsTimeout fmt_input fmt_output fmt_state range_order).

(** The partitions of a history under a model, nil meaning one partition. *)
Definition partitions model ops : list (list (Operation In Out)) := default NoPartition (Partition model) ops.

Lemma good_equality_fill model :
  good_equality model -> good_equality (fillDefault fmt_input fmt_output fmt_state model).
Proof. intros [H1 H2 H3 H4]. by split. Qed.

(** The answer of the exported function, for any order of arrival. *)
Lemma CheckOperations_answer fuel model ops order :
  (forall sub, sub ∈ partitions model ops -> timely sub /\ (searchFuel sub <= fuel)%nat) ->
  good_equality model -> partitions model ops <> [] -> order ≡ₚ seq 0 (length (partitions model ops)) ->
  exists b, checkOps fuel model ops (fun _ _ => 0) (Recv <$> order) = Some b /\
    (b = true <-> forall sub, sub ∈ partitions model ops -> linearizable model sub).
Proof.
  intros Hsub HE Hne Hord. unfold CheckOperations, checkOperations. cbn [Partition fillDefault mbind option_bind].
  fold (partitions model ops). set (parts := partitions model ops) in *. unfold checkParallel.
  set (results := goroutineResult _ _ _ _ _).
  assert (Hres : forall i, i ∈ order -> exists b, results i = Some b /\
            (b = true <-> exists sub, parts !! i = Some sub /\ linearizable model sub)).
  { intros i Hi. rewrite Hord, elem_of_seq in Hi. destruct (lookup_lt_is_Some_2 parts i) as [sub Hs]; [lia|].
    destruct (Hsub sub) as [Ht Hf]; [by eapply list_elem_of_lookup_2|].
    destruct (checkSingle_answer fuel (fillDefault fmt_input fmt_output fmt_state model) sub false (fun _ => 0) Ht (good_equality_fill _ HE) Hf)
      as (b & lg & sq & Hrun & Hb); [done|].
    exists b. unfold results, goroutineResult, goroutine. rewrite list_lookup_fmap, Hs. cbn [fmap option_fmap option_map mbind option_bind].
    rewrite Hrun. split; [done|]. rewrite Hb. split; [intros; by exists sub|]. intros (sub' & Hs' & ?). by simplify_eq. }
  set (r := fun i => match results i with Some b => b | None => false end).
  destruct (collect_all results r (zlen (makeEntries <$> parts)) order true 0) as (b & c & rest & Hc & Hb).
  - intros i Hi. destruct (Hres i Hi) as (b & Hb & _). unfold r. by rewrite Hb.
  - intros ->. apply Permutation_nil in Hord. by destruct parts.
  - unfold zlen. rewrite length_fmap, Hord, length_seq. lia.
  - rewrite Hc. cbn [mbind option_bind fst]. exists b. split; [by destruct b|]. rewrite Hb. split.
    + intros [_ Hall] sub (i & Hi)%list_elem_of_lookup. assert (i ∈ order) as Hio.
      { rewrite Hord, elem_of_seq. apply lookup_lt_Some in Hi. lia. }
      destruct (Hres i Hio) as (b' & Hb' & Hiff). specialize (Hall i Hio). unfold r in Hall. rewrite Hb' in Hall.
      apply Hiff in Hall as (sub' & ? & ?). by simplify_eq.
    + intros Hall. split; [done|]. intros i Hi. destruct (Hres i Hi) as (b' & Hb' & Hiff). unfold r. rewrite Hb'.
      apply Hiff. rewrite Hord, elem_of_seq in Hi. destruct (lookup_lt_is_Some_2 parts i) as [sub Hs]; [lia|].
      exists sub. split; [done|]. apply Hall. by eapply list_elem_of_lookup_2.
Qed.

(** A history whose partitions are linearizable is never answered Illegal. *)
Lemma never_illegal fuel model ops verbose kills sched r info :
  (forall sub, sub ∈ partitions model ops -> timely sub /\ (searchFuel sub <= fuel)%nat) -> good_equality model ->
  (forall i, i ∈ untilTimeout sched -> forall j, kills i j = 0) ->
  (forall sub, sub ∈ partitions model ops -> linearizable model sub) ->
  checkOperations fmt_input fmt_output fmt_state range_order fuel model ops verbose kills sched = Some (r, info) -> r <> Illegal.
Proof.
  intros Hsub HE Hk Hlin. unfold checkOperations. cbn [Partition fillDefault mbind option_bind].
  fold (partitions model ops). set (parts := partitions model ops) in *. unfold checkParallel.
  set (results := goroutineResult _ _ _ _ _). intros ([[[ok timedOut] count] rest] & Hc & H)%bind_Some.
  apply bind_Some in H as (info' & _ & [= <- _]). destruct ok; [by destruct timedOut|].
  apply collect_negative in Hc as [?|(i & Hi & Hr)]; [done|]. exfalso.
  unfold results, goroutineResult, goroutine in Hr. rewrite list_lookup_fmap in Hr. destruct (parts !! i) as [sub|] eqn:Hs; [|done].
  cbn [fmap option_fmap option_map mbind option_bind] in Hr. apply list_elem_of_lookup_2 in Hs. destruct (Hsub sub Hs) as [Ht Hf].
  destruct (checkSingle_answer fuel (fillDefault fmt_input fmt_output fmt_state model) sub verbose (kills i) Ht (good_equality_fill _ HE) Hf)
    as (b & lg & sq & Hrun & Hb); [by apply Hk|]. rewrite Hrun in Hr. injection Hr as ->.
  assert (false = true); [|done]. apply Hb. by apply Hlin.
Qed.

(** C14: [CheckOperations] decides linearizability, partition by partition, when there is at least one.  Whatever the order
    in which the goroutines of the partitions finish, it answers, and the answer is true
    exactly when every partition is linearizable. *)
Theorem CheckOperations_decides fuel model ops order :
  (forall sub, sub ∈ partitions model ops -> timely sub /\ (searchFuel sub <= fuel)%nat) ->
  good_equality model -> partitions model ops <> [] -> order ≡ₚ seq 0 (length (partitions model ops)) ->
  exists b, checkOps fuel model ops (fun _ _ => 0) (Recv <$> order) = Some b /\
    (b = true <-> forall sub, sub ∈ partitions model ops -> linearizable model sub).
Proof. apply CheckOperations_answer. Qed.

(** C29: the answer Ok is never a false positive.  Whatever the timeout, the arrival order and the
    moments at which the searches are killed, and whatever the model's [Equal] is, a history
    for which [CheckOperationsTimeout] answers Ok has only linearizable partitions. *)
Theorem CheckOperationsTimeout_sound fuel model ops kills sched :
  (forall sub, sub ∈ partitions model ops -> timely sub /\ (searchFuel sub <= fuel)%nat) ->
  NoDup (received sched) ->
  checkOpsTimeout fuel model ops kills sched = Some Ok ->
  forall sub, sub ∈ partitions model ops -> linearizable model sub.
Proof.
  intros Hsub Hnd. unfold CheckOperationsTimeout, checkOperations. cbn [Partition fillDefault mbind option_bind].
  fold (partitions model ops). set (parts := partitions model ops) in *. unfold checkParallel.
  set (results := goroutineResult _ _ _ _ _). intros H.
  apply bind_Some in H as ([res info] & H & Hres). cbn in Hres.
  apply bind_Some in H as ([[[ok timedOut] count] rest] & Hc & H). cbn [mbind option_bind] in H.
  injection H as Hr _. destruct ok; [|by cbn in Hr; simplify_eq]. destruct timedOut; [by cbn in Hr; simplify_eq|].
  destruct (collect_sound _ _ _ _ _ _ _ _ _ Hc eq_refl) as (_ & got & Hpre & Hn & Hall).
  assert (Hsnd : forall i, i ∈ got -> exists sub, parts !! i = Some sub /\ linearizable model sub).
  { intros i Hi. specialize (Hall i Hi). unfold results, goroutineResult, goroutine in Hall.
    rewrite list_lookup_fmap in Hall. destruct (parts !! i) as [sub|] eqn:Hs; [|done].
    cbn [fmap option_fmap option_map mbind option_bind] in Hall.
    destruct (Hsub sub) as [Ht Hf]; [by eapply list_elem_of_lookup_2|].
    destruct (checkSingle_spec fuel (fillDefault fmt_input fmt_output fmt_state model) sub false (kills i) Ht Hf)
      as (b & lg & sq & Hrun & Hb & _). rewrite Hrun in Hall. injection Hall as ->.
    exists sub. split; [done|by apply Hb]. }
  assert (NoDup got) as Hgot by (destruct Hpre as [k Hk]; rewrite Hk in Hnd; by apply NoDup_app in Hnd as [? _]).
  assert (seq 0 (length parts) ⊆ got) as Hcover.
  { assert (got ⊆+ seq 0 (length parts)) as Hsubm.
    { apply NoDup_submseteq; [done|]. intros i Hi. destruct (Hsnd i Hi) as (sub & Hs & _).
      apply lookup_lt_Some in Hs. apply elem_of_seq. lia. }
    apply submseteq_length_Permutation in Hsubm; [by rewrite Hsubm|].
    rewrite length_seq. unfold zlen in Hn. rewrite length_fmap in Hn. lia. }
  intros sub (i & Hi)%list_elem_of_lookup. destruct (Hsnd i) as (sub' & Hs' & ?); [|by simplify_eq].
  apply Hcover, elem_of_seq. apply lookup_lt_Some in Hi. lia.
Qed.

(** A history without partitions is never answered.  When the partition function returns no
    partition, [checkParallel] waits for a result that no goroutine sends: without a
    timeout [CheckOperations] does not return. *)
Theorem no_partition_blocks fuel model ops kills sched :
  partitions model ops = [] -> (forall ev, ev ∈ sched -> ev <> TimeoutFires) ->
  checkOps fuel model ops kills sched = None.
Proof.
  intros Hp Hs. unfold CheckOperations, checkOperations. cbn [Partition fillDefault mbind option_bind].
  fold (partitions model ops). rewrite Hp. unfold checkParallel. destruct sched as [|[i|] sched]; [done|done|].
  exfalso. by apply (Hs TimeoutFires); [left|].
Qed.
End Props.
