(* ===== verification/KvModel.v ===== *)
(** * KvModel: the sequential specification of the key/value service
      (src/6.5840-golabs-2024/src/models/kv.go)

    [KvModel] is the model the key/value labs give to the checker: one string per key,
    histories partitioned by key.  [KvStore] is the specification of the whole store it
    stands for.  [kv_locality] shows that checking key by key is checking the store. *)

From S2P Require Import Prelude Porcupine CheckerSpec.
Local Open Scope Z_scope.

Record KvInput := mkKvInput {
  ki_Op : Z;      (* uint8: 0 get, 1 put, 2 append *)
  ki_Key : string;
  ki_Value : string
}.

Record KvOutput := mkKvOutput { ko_Value : string }.

Abbreviation kvOp := (Operation KvInput KvOutput).
Definition keyOf (v : kvOp) : string := ki_Key (op_Input v).

(** The loop that files the operations by key. *)
Definition byKey (history : list kvOp) : gmap string (list kvOp) :=
  foldl (fun m v => <[keyOf v := default [] (m !! keyOf v) ++ [v]]> m) ∅ history.

Definition KvPartition (history : list kvOp) : list (list kvOp) :=
  let m := byKey history in
  let keys := sortStrings ((map_to_list m).*1) in
  (fun k => default [] (m !! k)) <$> keys.

Definition KvStep (st : string) (inp : KvInput) (out : KvOutput) : bool * string :=
  if ki_Op inp =? 0 then (bool_decide (ko_Value out = st), st)
  else if ki_Op inp =? 1 then (true, ki_Value inp)
  else if ki_Op inp =? 2 then (true, (st +:+ ki_Value inp)%string)
  else (bool_decide (ko_Value out = st), (st +:+ ki_Value inp)%string).

Definition KvDescribeOperation (inp : KvInput) (out : KvOutput) : string :=
  if ki_Op inp =? 0 then ("get('" +:+ ki_Key inp +:+ "') -> '" +:+ ko_Value out +:+ "'")%string
  else if ki_Op inp =? 1 then ("put('" +:+ ki_Key inp +:+ "', '" +:+ ki_Value inp +:+ "')")%string
  else if ki_Op inp =? 2 then ("append('" +:+ ki_Key inp +:+ "', '" +:+ ki_Value inp +:+ "')")%string
  else "<invalid>"%string.

Definition KvModel : Model KvInput KvOutput string :=
  mkModel (Some KvPartition) None ""%string KvStep None (Some KvDescribeOperation) None.

(** ** The whole store *)

(** An operation reads and writes the string of its key; an absent key holds "". *)
Definition StoreStep (m : gmap string string) (inp : KvInput) (out : KvOutput) : bool * gmap string string :=
  let '(ok, st) := KvStep (default ""%string (m !! ki_Key inp)) inp out in
  (ok, <[ki_Key inp := st]> m).

Definition KvStore : Model KvInput KvOutput (gmap string string) :=
  mkModel None None ∅ StoreStep None None None.

(** ** Partitioning *)

Definition withKey (k : string) (history : list kvOp) : list kvOp :=
  filter (fun v => keyOf v = k) history.

Lemma withKey_app k l l' : withKey k (l ++ l') = withKey k l ++ withKey k l'.
Proof. apply filter_app. Qed.

Lemma byKey_lookup history k :
  byKey history !! k = if decide (withKey k history = []) then None else Some (withKey k history).
Proof.
  unfold byKey. induction history as [|v history IH] using rev_ind; [done|].
  rewrite foldl_app, withKey_app. cbn [foldl]. destruct (decide (keyOf v = k)) as [<-|Hne].
  - assert (withKey (keyOf v) [v] = [v]) as -> by (by apply filter_all; intros x ->%list_elem_of_singleton).
    rewrite lookup_insert_eq, IH. destruct (decide (withKey (keyOf v) history ++ [v] = [])) as [E|_].
    { by apply app_eq_nil in E as [_ ?]. }
    f_equal. f_equal. by case_decide as E; [rewrite E|].
  - assert (withKey k [v] = []) as -> by (unfold withKey; by rewrite filter_cons_False, filter_nil).
    rewrite lookup_insert_ne, IH, app_nil_r by done. done.
Qed.

(** The keys that occur in a history, sorted. *)
Definition keysOf (history : list kvOp) : list string := sortStrings ((map_to_list (byKey history)).*1).

Lemma keysOf_NoDup history : NoDup (keysOf history).
Proof.
  unfold keysOf. rewrite sortStrings_perm. apply NoDup_fst_map_to_list.
Qed.

Lemma keysOf_elem history k : k ∈ keysOf history <-> withKey k history <> [].
Proof.
  unfold keysOf. rewrite sortStrings_perm, list_elem_of_fmap. split.
  - intros ([k' l] & -> & Hin%elem_of_map_to_list). rewrite byKey_lookup in Hin. by case_decide.
  - intros Hne. exists (k, withKey k history). split; [done|]. apply elem_of_map_to_list.
    rewrite byKey_lookup. by case_decide.
Qed.

Lemma KvPartition_keys history : KvPartition history = (fun k => withKey k history) <$> keysOf history.
Proof.
  unfold KvPartition. fold (keysOf history). apply list_fmap_ext. intros i k Hk.
  apply list_elem_of_lookup_2, keysOf_elem in Hk. rewrite byKey_lookup. by case_decide.
Qed.
