(* ===== verification/KvModelProps.v ===== *)
(** * KvModelProps: checking a key/value history key by key

    Linearizability of the whole store is equivalent to linearizability of the operations
    on each key ([kv_locality]), so the partition function of [KvModel] is right, and the
    checker's answer on [KvModel] is an answer about the store ([kv_checker_correct]). *)

From S2P Require Import Prelude Porcupine CheckerFacts CheckerSpec CheckerProps KvModel.
Local Open Scope Z_scope.

(** ** Linearizations as lists of operations *)

Section Lists.
Context {In Out T : Type} (model : Model In Out T).
Implicit Types (ops l : list (Operation In Out)).

Fixpoint legal_ops (s : T) l : Prop :=
  match l with
  | [] => True
  | op :: l =>
      (Step model s (op_Input op) (op_Output op)).1 = true /\
      legal_ops (Step model s (op_Input op) (op_Output op)).2 l
  end.

(** [a] may come before [b]. *)
Definition in_time (a b : Operation In Out) : Prop := ~ (op_Return b < op_Call a).

Lemma legal_ops_iff ops order l s :
  Forall2 (fun k op => ops !! k = Some op) order l -> legal model ops s order <-> legal_ops s l.
Proof.
  intros HF. revert s. induction HF as [|k op order l Hk HF IH]; intros s; cbn [legal legal_ops]; [done|]. split.
  - intros (op' & Hk' & Hok & Hl). simplify_eq. split; [done|by apply IH].
  - intros [Hok Hl]. exists op. split_and!; [done..|by apply IH].
Qed.

Lemma in_time_iff ops order l :
  Forall2 (fun k op => ops !! k = Some op) order l ->
  StronglySorted (fun i j => ~ precedes ops j i) order <-> StronglySorted in_time l.
Proof.
  intros HF. induction HF as [|k a order l Ha HF IH]; [split; constructor|].
  rewrite !StronglySorted_cons, IH. apply and_iff_compat_r. clear IH.
  induction HF as [|k' b order l Hb HF IH]; [done|]. rewrite !Forall_cons, IH. apply and_iff_compat_r.
  unfold in_time, precedes. split; [|intros H (x & y & ? & ? & ?); simplify_eq; by apply H].
  intros H Hlt. apply H. eauto.
Qed.

Lemma omap_agree {A B} (f g : A -> option B) (k : list A) :
  (forall x, x ∈ k -> f x = g x) -> omap f k = omap g k.
Proof.
  induction k as [|x k IH]; intros H; [done|]. cbn. rewrite H by (by left).
  rewrite IH by (intros y Hy; apply H; by right). done.
Qed.

Lemma omap_lookup_seq {A} (k : list A) : omap (fun i => k !! i) (seq 0 (length k)) = k.
Proof.
  induction k as [|x k IH] using rev_ind; [done|].
  rewrite length_app, seq_app, omap_app. cbn [length seq omap list_omap Nat.add].
  rewrite list_lookup_middle by done. f_equal. transitivity (omap (fun i => k !! i) (seq 0 (length k))); [apply omap_agree|exact IH].
  intros i Hi%elem_of_seq. apply lookup_app_l. lia.
Qed.

Lemma order_list ops order : order ≡ₚ seq 0 (length ops) ->
  exists l, Forall2 (fun k op => ops !! k = Some op) order l /\ l ≡ₚ ops.
Proof.
  intros Hp. exists (omap (fun k => ops !! k) order). split.
  - assert (forall k, k ∈ order -> (k < length ops)%nat) as Hlt by (intros k; rewrite Hp, elem_of_seq; lia).
    clear Hp. induction order as [|k order IH]; [constructor|]. cbn.
    destruct (lookup_lt_is_Some_2 ops k) as [op Hop]; [apply Hlt; by left|]. rewrite Hop.
    constructor; [done|]. apply IH. intros j Hj. apply Hlt. by right.
  - rewrite Hp. by rewrite omap_lookup_seq.
Qed.

Lemma linearizable_ops ops :
  linearizable model ops <-> exists l, l ≡ₚ ops /\ legal_ops (Init model) l /\ StronglySorted in_time l.
Proof.
  split.
  - intros (order & Hp & Hleg & Hs). destruct (order_list ops order Hp) as (l & HF & Hl). exists l.
    split_and!; [done|by eapply legal_ops_iff|by eapply in_time_iff].
  - intros (l & Hp & Hleg & Hs). apply Permutation_inj in Hp as (Hlen & f & Hinj & Hf).
    assert (Forall2 (fun k op => ops !! k = Some op) (f <$> seq 0 (length ops)) l) as HF.
    { apply Forall2_same_length_lookup_2; [by rewrite length_fmap, length_seq|].
      intros i k op Hk Hop. apply list_lookup_fmap_Some in Hk as (j & -> & Hj).
      apply lookup_seq in Hj as [-> Hj]. cbn. by rewrite <- Hf. }
    exists (f <$> seq 0 (length ops)). split_and!; [|by eapply legal_ops_iff|by eapply in_time_iff].
    apply submseteq_length_Permutation; [|by rewrite length_fmap].
    apply NoDup_submseteq; [apply NoDup_fmap_2; [done|apply NoDup_seq]|].
    intros k (j & Hj)%list_elem_of_lookup. destruct (Forall2_lookup_l _ _ _ _ _ HF Hj) as (op & _ & Hop).
    apply lookup_lt_Some in Hop. apply elem_of_seq. lia.
Qed.
End Lists.

(** ** The store is the product of its keys *)

Lemma withKey_cons k op l : withKey k (op :: l) = (if decide (keyOf op = k) then [op] else []) ++ withKey k l.
Proof. unfold withKey. rewrite filter_cons. by case_decide. Qed.

(** A run of the store is legal when the run of every key is. *)
Lemma legal_store m l :
  legal_ops KvStore m l <-> forall k, legal_ops KvModel (default ""%string (m !! k)) (withKey k l).
Proof.
  revert m. induction l as [|op l IH]; intros m; [split; done|].
  cbn [legal_ops Step KvStore]. unfold StoreStep. fold (keyOf op).
  destruct (KvStep (default ""%string (m !! keyOf op)) (op_Input op) (op_Output op)) as [ok st] eqn:E.
  cbn [fst snd]. rewrite IH. split.
  - intros [-> Hall] k. rewrite withKey_cons. specialize (Hall k). destruct (decide (keyOf op = k)) as [<-|Hne].
    + cbn [app legal_ops Step KvModel]. rewrite E. rewrite lookup_insert_eq in Hall. done.
    + by rewrite lookup_insert_ne in Hall.
  - intros Hall. pose proof (Hall (keyOf op)) as Hk. rewrite withKey_cons, decide_True in Hk by done.
    cbn [app legal_ops Step KvModel] in Hk. rewrite E in Hk. destruct Hk as [Hok Hk]. split; [done|]. intros k.
    destruct (decide (keyOf op = k)) as [<-|Hne]; [by rewrite lookup_insert_eq|].
    specialize (Hall k). rewrite withKey_cons, decide_False in Hall by done. by rewrite lookup_insert_ne.
Qed.

(** A list is the concatenation of its operations by key. *)
Lemma concat_withKey keys l :
  NoDup keys -> (forall op, op ∈ l -> keyOf op ∈ keys) -> concat ((fun k => withKey k l) <$> keys) ≡ₚ l.
Proof.
  intros Hnd. induction l as [|op l IH]; intros Hin.
  - clear Hnd Hin. induction keys as [|k keys IH]; [done|]. exact IH.
  - assert (keyOf op ∈ keys) as (k1 & k2 & ->)%list_elem_of_split by (apply Hin; by left).
    transitivity (op :: concat ((fun k => withKey k l) <$> k1 ++ keyOf op :: k2));
      [|rewrite IH; [done|intros x Hx; apply Hin; by right]].
    apply NoDup_app in Hnd as (_ & Hd & [Hk2 _]%NoDup_cons).
    assert (Hother : forall ks : list string, (forall k, k ∈ ks -> keyOf op <> k) ->
      (fun k => withKey k (op :: l)) <$> ks = (fun k => withKey k l) <$> ks).
    { intros ks Hks. apply list_fmap_ext. intros i k Hk%list_elem_of_lookup_2. rewrite withKey_cons.
      by rewrite decide_False by auto. }
    rewrite !fmap_app, !fmap_cons, !concat_app. cbn [concat].
    rewrite (Hother k1), (Hother k2), withKey_cons, decide_True by (done || (intros k Hk <-; set_solver)).
    cbn [app]. symmetry. apply Permutation_middle.
Qed.

Lemma elem_of_concat {A} (x : A) (ls : list (list A)) : x ∈ concat ls <-> exists l, x ∈ l /\ l ∈ ls.
Proof.
  rewrite list_elem_of_In, in_concat. split; intros (l & H1 & H2); exists l; by rewrite ?list_elem_of_In in *.
Qed.

Lemma concat_perm {A B} (ks : list A) (F G : A -> list B) :
  (forall k, k ∈ ks -> F k ≡ₚ G k) -> concat (F <$> ks) ≡ₚ concat (G <$> ks).
Proof.
  induction ks as [|k ks IH]; intros H; [done|]. cbn. apply Permutation_app; [apply H; by left|].
  apply IH. intros x Hx. apply H. by right.
Qed.

(** The operation with the earliest return. *)
Lemma earliest_return (l : list kvOp) :
  l <> [] -> exists x, x ∈ l /\ forall y, y ∈ l -> op_Return x <= op_Return y.
Proof.
  induction l as [|a l IH]; [done|]. intros _. destruct (decide (l = [])) as [->|Hne].
  - exists a. split; [by left|]. intros y ->%list_elem_of_singleton. lia.
  - destruct (IH Hne) as (x & Hx & Hmin). destruct (decide (op_Return a <= op_Return x)).
    + exists a. split; [by left|]. intros y [-> | Hy]%elem_of_cons; [lia|]. specialize (Hmin y Hy). lia.
    + exists x. split; [by right|]. intros y [-> | Hy]%elem_of_cons; [lia|]. by apply Hmin.
Qed.

(** Linearizations of the keys can be merged: the head of the list that holds the operation
    with the earliest return precedes nothing that must come before it. *)
Lemma merge_orders keys (F : string -> list kvOp) n :
  NoDup keys -> length (concat (F <$> keys)) = n ->
  (forall k op, op ∈ F k -> keyOf op = k /\ op_Call op <= op_Return op) ->
  (forall k, StronglySorted in_time (F k)) ->
  exists l, l ≡ₚ concat (F <$> keys) /\ StronglySorted in_time l /\ forall k, k ∈ keys -> withKey k l = F k.
Proof.
  intros Hnd. revert F. induction n as [|n IH]; intros F Hlen Hkey Hsort.
  { apply length_zero_iff_nil in Hlen as Hnil. exists []. split_and!; [by rewrite Hnil|constructor|].
    intros k (k1 & k2 & ->)%list_elem_of_split. rewrite fmap_app, concat_app, fmap_cons in Hnil. cbn in Hnil.
    apply app_eq_nil in Hnil as [_ Hnil]. by apply app_eq_nil in Hnil as [-> _]. }
  destruct (earliest_return (concat (F <$> keys))) as (x & Hx & Hmin); [intros E; rewrite E in Hlen; done|].
  assert (exists k, k ∈ keys /\ x ∈ F k) as (k & Hk & Hxk).
  { apply elem_of_concat in Hx as (l & Hxl & (k & -> & Hk)%list_elem_of_fmap). eauto. }
  destruct (F k) as [|h t] eqn:EF; [set_solver|].
  set (F' := fun k' => if decide (k' = k) then t else F k').
  apply list_elem_of_split in Hk as (k1 & k2 & ->). pose proof Hnd as (_ & Hd & [Hk2 _]%NoDup_cons)%NoDup_app.
  assert (Hsame : forall ks : list string, k ∉ ks -> F' <$> ks = F <$> ks).
  { intros ks Hks. apply list_fmap_ext. intros i k' Hk'%list_elem_of_lookup_2. unfold F'. case_decide; [by subst|done]. }
  assert (Hcons : concat (F <$> k1 ++ k :: k2) ≡ₚ h :: concat (F' <$> k1 ++ k :: k2)).
  { rewrite !fmap_app, !fmap_cons, !concat_app. cbn [concat].
    rewrite (Hsame k1), (Hsame k2), EF by (done || (intros Hin; apply (Hd k Hin); by left)).
    replace (F' k) with t by (unfold F'; by rewrite decide_True). cbn [app]. symmetry. apply Permutation_middle. }
  destruct (IH F') as (l & Hl & Hs & Hw).
  - rewrite Hcons in Hlen. cbn in Hlen. lia.
  - intros k' op. unfold F'. case_decide as E; [subst|apply Hkey]. intros Hop. apply Hkey. rewrite EF. by right.
  - intros k'. unfold F'. case_decide as E; [|apply Hsort]. specialize (Hsort k). rewrite EF in Hsort.
    by apply StronglySorted_inv in Hsort as [? _].
  - assert (keyOf h = k /\ op_Call h <= op_Return h) as [Hhk Hht] by (apply Hkey; rewrite EF; by left).
    exists (h :: l). split_and!; [by rewrite Hl, Hcons| |].
    + constructor; [done|]. apply Forall_forall. intros y Hy Hlt.
      assert (op_Return x <= op_Return y) as Hxy by (apply Hmin; rewrite Hcons, <- Hl; by right).
      apply elem_of_cons in Hxk as [->|Hxt]; [lia|].
      specialize (Hsort k). rewrite EF in Hsort. apply StronglySorted_inv in Hsort as [_ Hh].
      rewrite Forall_forall in Hh. specialize (Hh x Hxt). unfold in_time in Hh. lia.
    + intros k' Hk'. rewrite withKey_cons, (Hw k' Hk'). unfold F'. destruct (decide (keyOf h = k')) as [E|E].
      * rewrite decide_True by congruence. cbn. by rewrite <- E, Hhk, EF.
      * by rewrite decide_False by congruence.
Qed.

(** A choice for each of finitely many keys. *)
Lemma finite_choice {A} (keys : list string) (d : A) (P : string -> A -> Prop) :
  (forall k, k ∈ keys -> exists x, P k x) ->
  exists F, (forall k, k ∈ keys -> P k (F k)) /\ forall k, k ∉ keys -> F k = d.
Proof.
  induction keys as [|k keys IH]; intros H; [by exists (fun _ => d); split; [set_solver|]|].
  destruct IH as (F & HF & Hd); [intros; apply H; by right|]. destruct (H k ltac:(left)) as [x Hx].
  exists (fun k' => if decide (k' = k) then x else F k'). split; intros k' Hk'; case_decide as E; subst; try done.
  - apply HF. set_solver.
  - set_solver.
  - apply Hd. set_solver.
Qed.

(** Checking key by key is checking the store. *)
Lemma kv_local (history : list kvOp) :
  timely history ->
  linearizable KvStore history <->
  forall sub, sub ∈ KvPartition history -> linearizable KvModel sub.
Proof.
  intros Ht. rewrite linearizable_ops. rewrite KvPartition_keys. split.
  - intros (l & Hp & Hleg & Hs) sub (k & -> & Hk)%list_elem_of_fmap. apply linearizable_ops.
    exists (withKey k l). split_and!.
    + unfold withKey. by rewrite Hp.
    + cbn [Init KvStore] in Hleg. rewrite legal_store in Hleg. specialize (Hleg k). by rewrite lookup_empty in Hleg.
    + clear Hp Hleg. induction Hs as [|a l Hs IH Ha]; [constructor|]. rewrite withKey_cons.
      case_decide; [|done]. cbn. constructor; [done|]. apply Forall_forall. intros y [_ Hy]%list_elem_of_filter. rewrite Forall_forall in Ha. by apply Ha.
  - intros Hsub.
    destruct (finite_choice (keysOf history) [] (fun k lk => lk ≡ₚ withKey k history /\
      legal_ops KvModel (Init KvModel) lk /\ StronglySorted in_time lk)) as (F & HF & Hnil).
    { intros k Hk. apply linearizable_ops, Hsub. apply list_elem_of_fmap. by exists k. }
    assert (Hkeys : forall op, op ∈ history -> keyOf op ∈ keysOf history).
    { intros op Hop. apply keysOf_elem. intros E. apply (filter_nil_not_elem_of _ _ op) in E; done. }
    destruct (merge_orders (keysOf history) F (length (concat (F <$> keysOf history))))
      as (l & Hl & Hs & Hw); [apply keysOf_NoDup|done| | |].
    + intros k op Hop. destruct (decide (k ∈ keysOf history)) as [Hk|Hk]; [|rewrite Hnil in Hop; [set_solver|done]].
      destruct (HF k Hk) as (Hp & _). rewrite Hp in Hop. apply list_elem_of_filter in Hop as [Hop Hin].
      split; [done|]. unfold timely in Ht. rewrite Forall_forall in Ht. by apply Ht.
    + intros k. destruct (decide (k ∈ keysOf history)) as [Hk|Hk]; [apply HF, Hk|]. rewrite Hnil by done. constructor.
    + exists l. split_and!; [|apply legal_store|done].
      * etrans; [exact Hl|]. etrans; [|exact (concat_withKey (keysOf history) history (keysOf_NoDup _) Hkeys)].
        apply concat_perm. intros k Hk. by apply HF.
      * intros k. cbn [Init KvStore]. rewrite lookup_empty. cbn [default].
        destruct (decide (k ∈ keysOf history)) as [Hk|Hk]; [rewrite (Hw k Hk); by apply HF|].
        assert (withKey k l = []) as ->; [|done].
        destruct (withKey k l) as [|op t] eqn:E; [done|]. exfalso. apply Hk.
        assert (op ∈ withKey k l) as [<- Hop]%list_elem_of_filter by (rewrite E; by left).
        rewrite Hl in Hop. apply elem_of_concat in Hop as (lk & Hop & (k' & -> & Hk')%list_elem_of_fmap).
        destruct (HF k' Hk') as (Hp & _). rewrite Hp in Hop. by apply list_elem_of_filter in Hop as [-> _].
Qed.

(** Locality of the key/value store.  A history of operations that return no earlier than
    they are called is linearizable for the whole store exactly when, for every part that
    [KvModel.Partition] makes of it, the part is linearizable for one string. *)
Theorem kv_locality (history : list kvOp) :
  timely history ->
  linearizable KvStore history <->
  forall sub, sub ∈ KvPartition history -> linearizable KvModel sub.
Proof. apply kv_local. Qed.

(** ** The checker on key/value histories *)

(** A model without its own [Equal] compares states with [==]. *)
Lemma good_equality_shallow {In Out T} `{!EqDecision T} (model : Model In Out T) :
  Equal model = None -> good_equality model.
Proof.
  intros Heq. unfold good_equality, equalOf. rewrite Heq. change (equality model ShallowEqual).
  split; unfold ShallowEqual.
  - intros s. by apply bool_decide_eq_true.
  - intros s1 s2. rewrite !bool_decide_eq_true. done.
  - intros s1 s2 s3. rewrite !bool_decide_eq_true. congruence.
  - intros s1 s2 i o ->%bool_decide_eq_true. split; [done|by apply bool_decide_eq_true].
Qed.

Section Checked.
Context `{!Sorter (A:=entry (KvInput + KvOutput)) Less}.
Context (fmt_input : KvInput -> string) (fmt_output : KvOutput -> string) (fmt_state : string -> string).
Context (range_order : list nat -> list nat).

Lemma withKey_timely k history : timely history -> timely (withKey k history).
Proof.
  unfold timely. rewrite !Forall_forall. intros Ht op [_ Hop]%list_elem_of_filter. by apply Ht.
Qed.

Lemma work_mono k k' : (k <= k')%nat -> (work k <= work k')%nat.
Proof. induction 1 as [|k' _ IH]; [done|]. cbn [work]. lia. Qed.

Lemma kv_parts fuel (history : list kvOp) sub :
  timely history -> (searchFuel history <= fuel)%nat -> sub ∈ KvPartition history -> timely sub /\ (searchFuel sub <= fuel)%nat.
Proof.
  intros Ht Hf. rewrite KvPartition_keys. intros (k & -> & _)%list_elem_of_fmap. split; [by apply withKey_timely|].
  etrans; [|done]. apply work_mono, length_filter.
Qed.

Lemma kv_checker_answer fuel (history : list kvOp) order :
  timely history -> history <> [] -> (searchFuel history <= fuel)%nat ->
  order ≡ₚ seq 0 (length (KvPartition history)) ->
  exists b,
    CheckOperations fmt_input fmt_output fmt_state range_order fuel KvModel history (fun _ _ => 0) (Recv <$> order)
      = Some b /\
    (b = true <-> linearizable KvStore history).
Proof.
  intros Ht Hne Hf Hord. destruct (CheckOperations_answer fmt_input fmt_output fmt_state range_order
    fuel KvModel history order) as (b & Hb & Hiff).
  - intros sub. by apply kv_parts.
  - by apply good_equality_shallow.
  - change (KvPartition history <> []). rewrite KvPartition_keys. destruct history as [|op history]; [done|].
    intros E%fmap_nil_inv. assert (keyOf op ∈ keysOf (op :: history)) as Hin.
    { apply keysOf_elem. rewrite withKey_cons, decide_True by done. done. }
    rewrite E in Hin. set_solver.
  - done.
  - exists b. split; [done|]. by rewrite Hiff, kv_local.
Qed.

(** A linearizable history is never answered Illegal: with [CheckOperationsVerbose] and a timeout the test goes on. *)
Lemma kv_never_illegal fuel (history : list kvOp) kills sched r info :
  timely history -> (searchFuel history <= fuel)%nat -> linearizable KvStore history ->
  (forall i, i ∈ untilTimeout sched -> forall j, kills i j = 0) ->
  CheckOperationsVerbose fmt_input fmt_output fmt_state range_order fuel KvModel history kills sched = Some (r, info) -> r <> Illegal.
Proof.
  intros Ht Hf Hlin Hk. apply (never_illegal fmt_input fmt_output fmt_state range_order).
  - intros sub. by apply kv_parts.
  - by apply good_equality_shallow.
  - done.
  - by apply kv_local.
Qed.

(** C9: the checker is right about the store.  On a non-empty key/value history,
    [CheckOperations] with [KvModel] answers, whatever the order in which the searches of the
    keys finish, and the answer is true exactly when the history is linearizable for the
    whole store. *)
Theorem kv_checker_correct fuel (history : list kvOp) order :
  timely history -> history <> [] -> (searchFuel history <= fuel)%nat ->
  order ≡ₚ seq 0 (length (KvPartition history)) ->
  exists b,
    CheckOperations fmt_input fmt_output fmt_state range_order fuel KvModel history (fun _ _ => 0) (Recv <$> order)
      = Some b /\
    (b = true <-> linearizable KvStore history).
Proof. apply kv_checker_answer. Qed.
End Checked.

(** ** Concrete histories *)

Section Examples.
Local Open Scope string_scope.

(** A put and two gets of other clients: the first overlaps the put and still reads "",
    the second runs later and reads the value. *)
Definition put1 : kvOp := mkOperation 0 (mkKvInput 1 "x" "1") 0 (mkKvOutput "") 30.
Definition get0 : kvOp := mkOperation 1 (mkKvInput 0 "x" "") 10 (mkKvOutput "") 20.
Definition get1 : kvOp := mkOperation 2 (mkKvInput 0 "x" "") 40 (mkKvOutput "1") 50.
Definition gety : kvOp := mkOperation 2 (mkKvInput 0 "y" "") 60 (mkKvOutput "") 70.
(** A read of the old value after the put has returned. *)
Definition stale : kvOp := mkOperation 1 (mkKvInput 0 "x" "") 31 (mkKvOutput "") 35.

Definition good_history : list kvOp := [put1; get0; get1; gety].
Definition stale_history : list kvOp := [put1; stale].

Definition fmt_in (_ : KvInput) : string := "".
Definition fmt_out (_ : KvOutput) : string := "".
Definition fmt_st (s : string) : string := s.

Lemma good_timely : timely good_history.
Proof. repeat constructor; cbn; lia. Qed.

Lemma stale_timely : timely stale_history.
Proof. repeat constructor; cbn; lia. Qed.

(** The search for an order of [stale_history] fails. *)
Lemma stale_not_linearizable : ~ linearizable KvModel stale_history.
Proof.
  destruct (checkSingle_answer (searchFuel stale_history) KvModel stale_history false (fun _ => 0)%Z)
    as (ok & lg & sq & Hrun & Hiff); [apply stale_timely|by apply good_equality_shallow|done|done|].
  intros Hlin. apply Hiff in Hlin. vm_compute in Hrun. injection Hrun as <- _ _. done.
Qed.

Lemma checkSingle_decides_witness : linearizable KvModel [put1; get0; get1] /\ ~ linearizable KvModel stale_history.
Proof.
  split.
  - destruct (checkSingle_decides (searchFuel [put1; get0; get1]) KvModel [put1; get0; get1] false (fun _ => 0)%Z)
      as (ok & lg & sq & Hrun & Hiff); [repeat constructor; cbn; lia|by apply good_equality_shallow|done|done|].
    apply Hiff. vm_compute in Hrun. by injection Hrun.
  - destruct (checkSingle_decides (searchFuel stale_history) KvModel stale_history false (fun _ => 0)%Z)
      as (ok & lg & sq & Hrun & Hiff); [apply stale_timely|by apply good_equality_shallow|done|done|].
    intros Hlin. apply Hiff in Hlin. vm_compute in Hrun. injection Hrun as <- _ _. done.
Defined.

Lemma CheckOperations_decides_witness :
  Forall (linearizable KvModel) (KvPartition good_history).
Proof.
  apply Forall_forall. destruct (CheckOperations_decides fmt_in fmt_out fmt_st (fun l => l) (searchFuel good_history) KvModel good_history [1; 0]%nat)
    as (b & Hb & Hiff).
  - intros sub Hsub. vm_compute in Hsub.
    repeat (apply elem_of_cons in Hsub as [-> | Hsub]); [..|by apply not_elem_of_nil in Hsub];
      (split; [repeat constructor; cbn; lia|vm_compute; lia]).
  - by apply good_equality_shallow.
  - by vm_compute.
  - vm_compute. apply perm_swap.
  - apply Hiff. vm_compute in Hb. by injection Hb.
Defined.

Lemma CheckOperationsTimeout_sound_witness :
  Forall (linearizable KvModel) (KvPartition good_history).
Proof.
  apply Forall_forall. apply (CheckOperationsTimeout_sound fmt_in fmt_out fmt_st (fun l => l) (searchFuel good_history) KvModel good_history
    (fun _ _ => 0)%Z [Recv 1; Recv 0; TimeoutFires]).
  - intros sub Hsub. vm_compute in Hsub.
    repeat (apply elem_of_cons in Hsub as [-> | Hsub]); [..|by apply not_elem_of_nil in Hsub];
      (split; [repeat constructor; cbn; lia|vm_compute; lia]).
  - apply (bool_decide_unpack _). by vm_compute.
  - by vm_compute.
Defined.

Lemma no_partition_blocks_witness :
  CheckOperations fmt_in fmt_out fmt_st (fun l => l) 100 KvModel [] (fun _ _ => 0)%Z [Recv 0; Recv 0] = None.
Proof.
  apply (no_partition_blocks fmt_in fmt_out fmt_st (fun l => l) 100 KvModel []); [by vm_compute|].
  intros ev Hev. repeat (apply elem_of_cons in Hev as [-> | Hev]; [done|]). by apply not_elem_of_nil in Hev.
Defined.

Lemma kv_locality_witness : ~ linearizable KvStore stale_history.
Proof.
  intros H. apply (proj1 (kv_locality stale_history stale_timely)) with (sub := stale_history) in H.
  - by apply stale_not_linearizable.
  - vm_compute. by left.
Defined.

Lemma kv_checker_correct_witness : linearizable KvStore good_history.
Proof.
  destruct (kv_checker_correct fmt_in fmt_out fmt_st (fun l => l) (searchFuel good_history) good_history [0; 1]%nat)
    as (b & Hb & Hiff); [apply good_timely|done|done|by vm_compute|].
  apply Hiff. vm_compute in Hb. by injection Hb.
Defined.
End Examples.
