(* ===== verification/Visualization.v ===== *)
(** * Visualization: the data of the checker's picture
      (src/6.5840-golabs-2024/src/porcupine/visualization.go, without the page template)

    [computeVisualizationData] replays the partial linearizations that a verbose check
    collected, to describe the states they pass through, and finds for every operation the
    largest one it is in.  [None] is a panic: the explicit one for a step that the model
    rejects, an index out of range, or a description of a value that is not there. *)

From S2P Require Import Prelude Bitset LinkedList Porcupine.
Local Open Scope Z_scope.

Record historyElement := mkHistoryElement { ClientId : Z; Start : Z; End_ : Z; Description : string }.
Record linearizationStep := mkStep { Index : Z; StateDescription : string }.
Record partitionVisualizationData := mkData {
  History : list historyElement;
  PartialLinearizations : list (list linearizationStep);
  Largest : gmap Z Z
}.

(** The comparison given to [sort.Slice]. *)
Definition longer (a b : list Z) : bool := zlen a >? zlen b.

Section Visualization.
Context {In Out T : Type} `{!EqDecision T} `{!Sorter (A := list Z) longer}.
Context (fmt_input : In -> string) (fmt_output : Out -> string) (fmt_state : T -> string).
Implicit Types (model : Model In Out T).

(** [DescribeOperation] and [DescribeState] after [fillDefault]. *)
Definition describeOperation model : In -> Out -> string :=
  default (DefaultDescribeOperation fmt_input fmt_output) (DescribeOperation model).
Definition describeState model : T -> string := default (DefaultDescribeState fmt_state) (DescribeState model).

(** The type assertions of a description. *)
Definition describe model (v1 : option (In + Out)) (v2 : In + Out) : option string :=
  match v1, v2 with
  | Some (inl i), inr o => Some (describeOperation model i o)
  | _, _ => None
  end.

(** The loop over the entries: [history], [callValue] and [returnValue]. *)
Fixpoint fillHistory model (entries : list (entry (In + Out))) (history : list historyElement)
    (callValue returnValue : gmap Z (In + Out))
    : option (list historyElement * gmap Z (In + Out) * gmap Z (In + Out)) :=
  match entries with
  | [] => Some (history, callValue, returnValue)
  | elem :: entries =>
      old ← go_index history (e_id elem);
      match e_kind elem with
      | callEntry =>
          history ← go_store history (e_id elem) (mkHistoryElement (e_clientId elem) (e_time elem) (End_ old) (Description old));
          fillHistory model entries history (<[e_id elem := e_value elem]> callValue) returnValue
      | returnEntry =>
          descr ← describe model (callValue !! e_id elem) (e_value elem);
          history ← go_store history (e_id elem) (mkHistoryElement (ClientId old) (Start old) (e_time elem) descr);
          fillHistory model entries history callValue (<[e_id elem := e_value elem]> returnValue)
      end
  end.

(** The loop over one partial linearization, number [i], of length [len]: its steps, and the
    maps [largestSize] and [largestIndex]. *)
Fixpoint replay model (callValue returnValue : gmap Z (In + Out)) (i len : Z) (partial : list Z) (state : T)
    (largestSize largestIndex : gmap Z Z) : option (list linearizationStep * gmap Z Z * gmap Z Z) :=
  match partial with
  | [] => Some ([], largestSize, largestIndex)
  | histId :: partial =>
      '(ok, state) ← callStep model state (callValue !! histId) (returnValue !! histId);
      if negb ok then None
      else
        let step := mkStep histId (describeState model state) in
        let '(largestSize, largestIndex) :=
          if default 0 (largestSize !! histId) <? len
          then (<[histId := len]> largestSize, <[histId := i]> largestIndex)
          else (largestSize, largestIndex) in
        '(steps, largestSize, largestIndex) ← replay model callValue returnValue i len partial state largestSize largestIndex;
        Some (step :: steps, largestSize, largestIndex)
  end.

Fixpoint replayAll model (callValue returnValue : gmap Z (In + Out)) (i : Z) (partials : list (list Z))
    (largestSize largestIndex : gmap Z Z) : option (list (list linearizationStep) * gmap Z Z) :=
  match partials with
  | [] => Some ([], largestIndex)
  | partial :: partials =>
      '(lin, largestSize, largestIndex) ←
        replay model callValue returnValue i (zlen partial) partial (Init model) largestSize largestIndex;
      '(lins, largestIndex) ← replayAll model callValue returnValue (i + 1) partials largestSize largestIndex;
      Some (lin :: lins, largestIndex)
  end.

(** One round of the loop over the partitions. *)
Definition visualizePartition model (entries : list (entry (In + Out))) (partials : list (list Z)) : option partitionVisualizationData :=
  let n := zlen entries / 2 in
  '(history, callValue, returnValue) ← fillHistory model entries (replicate (Z.to_nat n) (mkHistoryElement 0 0 0 "")) ∅ ∅;
  '(lins, largest) ← replayAll model callValue returnValue 0 (sort_Sort partials) ∅ ∅;
  Some (mkData history lins largest).

Definition computeVisualizationData model (info : linearizationInfo (In + Out)) : option (list partitionVisualizationData) :=
  mapM (fun p => partials ← partialLinearizations info !! p.1; visualizePartition model p.2 partials)
    (imap pair (li_history info)).

(** [Visualize]: [marshal] is [json.Marshal] and [html] the template with the data put in;
    [write] is the writer.  The inner option is the error it returns, [None] when it is nil. *)
Definition Visualize {E : Type} (marshal : list partitionVisualizationData -> string + E) (html : string -> string) (write : string -> option E)
    model (info : linearizationInfo (In + Out)) : option (option E) :=
  data ← computeVisualizationData model info;
  match marshal data with
  | inr err => Some (Some err)
  | inl jsonData => Some (write (html jsonData))
  end.

(** [VisualizePath]: [create] is [os.Create], which gives the writer of the new file. *)
Definition VisualizePath {E : Type} (marshal : list partitionVisualizationData -> string + E) (html : string -> string)
    (create : string -> (string -> option E) + E) model (info : linearizationInfo (In + Out)) (path : string) : option (option E) :=
  match create path with
  | inr err => Some (Some err)
  | inl write => Visualize marshal html write model info
  end.
End Visualization.
