(* ===== verification/VisualizationProps.v ===== *)
(** * VisualizationProps: what the checker shows is true

    A verbose check collects only partial linearizations that the model accepts, so that
    computing the picture never panics; the picture shows the operations as they were, and
    every operation with a longest partial linearization it is in. *)

From S2P Require Import Prelude Bitset LinkedList Porcupine CheckerFacts CheckerSim CheckerInit CheckerSpec CheckerProps KvModel KvModelProps Visualization.
Local Open Scope Z_scope.

Section Props.
Context {In Out T : Type} `{!EqDecision T} `{!Sorter (A:=entry (In + Out)) Less} `{!Sorter (A := list Z) longer}.
Context (fmt_input : In -> string) (fmt_output : Out -> string) (fmt_state : T -> string).
Implicit Types (model : Model In Out T) (ops : list (Operation In Out)).

Local Abbreviation describeOp := (describeOperation fmt_input fmt_output).
Local Abbreviation describeSt := (describeState fmt_state).

(** ** The history *)

(** What the tables hold after the entries [pre]. *)
Definition filled model ops (pre : list (entry (In + Out))) (history : list historyElement) (cv rv : gmap Z (In + Out)) : Prop :=
  length history = length ops /\
  forall k op, ops !! k = Some op -> exists he, history !! k = Some he /\
    (callOf (Z.of_nat k) op ∈ pre -> ClientId he = op_ClientId op /\ Start he = op_Call op /\ cv !! Z.of_nat k = Some (inl (op_Input op))) /\
    (retOf (Z.of_nat k) op ∈ pre -> End_ he = op_Return op /\ Description he = describeOp model (op_Input op) (op_Output op) /\
       rv !! Z.of_nat k = Some (inr (op_Output op))).

Section Fill.
Context (model : Model In Out T) (ops : list (Operation In Out)) (hs : list (entry (In + Out))).
Context (Hperm : hs ≡ₚ entriesFrom 0 ops) (Hsort : StronglySorted not_later hs) (Htimely : timely ops).

Lemma fill_call pre k op history cv rv :
  filled model ops pre history cv rv -> ops !! k = Some op ->
  exists old history', go_index history (Z.of_nat k) = Some old /\
    go_store history (Z.of_nat k) (mkHistoryElement (op_ClientId op) (op_Call op) (End_ old) (Description old)) = Some history' /\
    filled model ops (pre ++ [callOf (Z.of_nat k) op]) history' (<[Z.of_nat k := inl (op_Input op)]> cv) rv.
Proof using Type.
  intros [Hlen Hf] Hk. destruct (Hf k op Hk) as (old & Hold & Hc & Hr). pose proof (lookup_lt_Some _ _ _ Hold) as Hlt.
  exists old. rewrite go_store_in_range by (unfold zlen; lia). rewrite Nat2Z.id. eexists. split; [|split; [done|]].
  { apply go_index_Some. rewrite Nat2Z.id. unfold zlen. split; [lia|done]. }
  split; [by rewrite length_insert|]. intros k' op' Hk'. destruct (decide (k' = k)) as [->|Hne].
  - assert (op' = op) as -> by congruence. rewrite list_lookup_insert_eq by done. eexists. split; [done|]. cbn. split.
    + intros _. by rewrite lookup_insert_eq.
    + intros [Hin|Hin%list_elem_of_singleton]%elem_of_app; [by apply Hr|done].
  - rewrite list_lookup_insert_ne by done. destruct (Hf k' op' Hk') as (he & Hhe & Hc' & Hr'). exists he. split; [done|].
    rewrite lookup_insert_ne by lia. split.
    + intros [Hin|Hin%list_elem_of_singleton]%elem_of_app; [by apply Hc'|]. unfold callOf in Hin. simplify_eq.
    + intros [Hin|Hin%list_elem_of_singleton]%elem_of_app; [by apply Hr'|done].
Qed.

Lemma fill_return pre k op history cv rv :
  filled model ops pre history cv rv -> ops !! k = Some op -> callOf (Z.of_nat k) op ∈ pre ->
  exists old history', go_index history (Z.of_nat k) = Some old /\ cv !! Z.of_nat k = Some (inl (op_Input op)) /\
    go_store history (Z.of_nat k)
      (mkHistoryElement (ClientId old) (Start old) (op_Return op) (describeOp model (op_Input op) (op_Output op))) = Some history' /\
    filled model ops (pre ++ [retOf (Z.of_nat k) op]) history' cv (<[Z.of_nat k := inr (op_Output op)]> rv).
Proof using Type.
  intros [Hlen Hf] Hk Hcall. destruct (Hf k op Hk) as (old & Hold & Hc & Hr). pose proof (lookup_lt_Some _ _ _ Hold) as Hlt.
  destruct (Hc Hcall) as (E1 & E2 & Ecv).
  exists old. rewrite go_store_in_range by (unfold zlen; lia). rewrite Nat2Z.id. eexists. split; [|split; [done|split; [done|]]].
  { apply go_index_Some. rewrite Nat2Z.id. unfold zlen. split; [lia|done]. }
  split; [by rewrite length_insert|]. intros k' op' Hk'. destruct (decide (k' = k)) as [->|Hne].
  - assert (op' = op) as -> by congruence. rewrite list_lookup_insert_eq by done. eexists. split; [done|]. cbn. split.
    + intros _. done.
    + intros _. by rewrite lookup_insert_eq.
  - rewrite list_lookup_insert_ne by done. destruct (Hf k' op' Hk') as (he & Hhe & Hc' & Hr'). exists he. split; [done|].
    rewrite lookup_insert_ne by lia. split.
    + intros [Hin|Hin%list_elem_of_singleton]%elem_of_app; [by apply Hc'|done].
    + intros [Hin|Hin%list_elem_of_singleton]%elem_of_app; [by apply Hr'|]. unfold retOf in Hin. simplify_eq.
Qed.

Lemma fillHistory_from post : forall pre history cv rv,
  hs = pre ++ post -> filled model ops pre history cv rv ->
  exists history' cv' rv', fillHistory fmt_input fmt_output model post history cv rv = Some (history', cv', rv') /\
    filled model ops hs history' cv' rv'.
Proof using Hperm Hsort Htimely.
  induction post as [|e post IH]; intros pre history cv rv E Hf.
  { exists history, cv, rv. rewrite app_nil_r in E. by subst. }
  assert (hs !! length pre = Some e) as Hp by (rewrite E; by apply list_lookup_middle).
  assert (hs = (pre ++ [e]) ++ post) as E' by (by rewrite <- app_assoc).
  destruct (hs_elem ops hs Hperm Hsort Htimely _ _ Hp) as (k & op & Hk & [-> | ->]); cbn [fillHistory].
  - destruct (fill_call pre k op history cv rv Hf Hk) as (old & history' & Hi & Hs & Hf').
    cbn [callOf e_id e_kind e_clientId e_time e_value]. rewrite Hi. cbn [mbind option_bind]. rewrite Hs. cbn [mbind option_bind].
    by apply (IH (pre ++ [callOf (Z.of_nat k) op])).
  - assert (callOf (Z.of_nat k) op ∈ pre) as Hin.
    { destruct (hs_call ops hs Hperm Hsort Htimely k op Hk) as (q & Hq).
      pose proof (call_before_ret ops hs Hsort Htimely q (length pre) k op Hk Hq Hp) as Hlt.
      rewrite E, lookup_app_l in Hq by done. by eapply list_elem_of_lookup_2. }
    destruct (fill_return pre k op history cv rv Hf Hk Hin) as (old & history' & Hi & Hcv & Hs & Hf').
    cbn [retOf e_id e_kind e_clientId e_time e_value]. rewrite Hi. cbn [mbind option_bind]. rewrite Hcv. cbn [describe mbind option_bind].
    rewrite Hs. cbn [mbind option_bind]. by apply (IH (pre ++ [retOf (Z.of_nat k) op])).
Qed.
End Fill.

(** ** Replaying *)

(** The states after each operation of [order]. *)
Fixpoint statesFrom model ops (s : T) (order : list nat) : list T :=
  match order with
  | [] => []
  | k :: order =>
      match ops !! k with
      | Some op => let s' := (Step model s (op_Input op) (op_Output op)).2 in s' :: statesFrom model ops s' order
      | None => []
      end
  end.
(** The steps the picture should show for the run [order]. *)
Definition stepsOf model ops (order : list nat) : list linearizationStep :=
  zip_with (fun k s => mkStep (Z.of_nat k) (describeSt model s)) order (statesFrom model ops (Init model) order).

Lemma stepsOf_ids model ops order : legal model ops (Init model) order -> Index <$> stepsOf model ops order = Z.of_nat <$> order.
Proof using Type.
  unfold stepsOf. generalize (Init model) as s. induction order as [|k order IH]; intros s Hl; [done|]. destruct Hl as (op & Hop & _ & Hl). cbn [statesFrom].
  rewrite Hop. cbn. by rewrite <- (IH _ Hl).
Qed.

(** The maps after a partial linearization: its operations point to it if it is larger than what
    they pointed to. *)
Definition larger (i len : Z) (partial : list Z) (ls li ls' li' : gmap Z Z) : Prop :=
  forall k, (k ∈ partial /\ default 0 (ls !! k) < len /\ ls' !! k = Some len /\ li' !! k = Some i) \/
            ((k ∉ partial \/ len <= default 0 (ls !! k)) /\ ls' !! k = ls !! k /\ li' !! k = li !! k).

(** [li] points to the first longest of the partial linearizations [ps] so far. *)
Definition points (ps : list (list Z)) (ls li : gmap Z Z) : Prop :=
  forall k, (ls !! k = None /\ li !! k = None /\ forall p, p ∈ ps -> k ∉ p) \/
    (exists q p, ps !! q = Some p /\ k ∈ p /\ li !! k = Some (Z.of_nat q) /\ ls !! k = Some (zlen p) /\
       (forall p', p' ∈ ps -> k ∈ p' -> zlen p' <= zlen p) /\
       forall q' p', (q' < q)%nat -> ps !! q' = Some p' -> k ∈ p' -> zlen p' < zlen p).

Lemma points_snoc ps p ls li ls' li' :
  points ps ls li -> larger (zlen ps) (zlen p) p ls li ls' li' -> points (ps ++ [p]) ls' li'.
Proof.
  intros Hp Hl k. destruct (Hl k) as [(Hin & Hd & B1 & B2)|[Hc (B1 & B2)]].
  - assert (forall p', p' ∈ ps -> k ∈ p' -> zlen p' < zlen p) as Hless.
    { intros p' Hp' Hk. destruct (Hp k) as [(_ & _ & Hno)|(q & p0 & _ & _ & _ & E & Hmax & _)]; [by destruct (Hno p' Hp')|].
      rewrite E in Hd. cbn in Hd. specialize (Hmax p' Hp' Hk). lia. }
    right. exists (length ps), p. split_and!; [by rewrite list_lookup_middle|done|done|done| |].
    + intros p' [Hp'|Hp'%list_elem_of_singleton]%elem_of_app Hk; [specialize (Hless p' Hp' Hk); lia|by subst].
    + intros q' p' Hlt Hq'. rewrite lookup_app_l in Hq' by done. apply Hless. by eapply list_elem_of_lookup_2.
  - rewrite B1, B2. destruct (Hp k) as [(E1 & E2 & Hno)|(q & p0 & Hq & Hk0 & E1 & E2 & Hmax & Hfst)].
    + assert (k ∉ p) as Hk.
      { destruct Hc as [Hc|Hc]; [done|]. rewrite E1 in Hc. cbn in Hc. unfold zlen in Hc. destruct p; [set_solver|cbn in Hc; lia]. }
      left. split_and!; [done..|]. intros p' [Hp'|Hp'%list_elem_of_singleton]%elem_of_app; [by apply Hno|by subst].
    + right. exists q, p0. split_and!; [by apply lookup_app_l_Some|done..| |].
      * intros p' [Hp'|Hp'%list_elem_of_singleton]%elem_of_app Hk; [by apply Hmax|]. subst p'. destruct Hc as [Hc|Hc]; [done|]. rewrite E2 in Hc. done.
      * intros q' p' Hlt Hq'. apply lookup_lt_Some in Hq as Hlq. rewrite lookup_app_l in Hq' by lia. by eapply Hfst.
Qed.

Section Replay.
Context (model : Model In Out T) (ops : list (Operation In Out)) (cv rv : gmap Z (In + Out)).
Context (Hcv : forall k op, ops !! k = Some op -> cv !! Z.of_nat k = Some (inl (op_Input op)) /\ rv !! Z.of_nat k = Some (inr (op_Output op))).

Lemma replay_spec i len order s ls li :
  legal model ops s order ->
  exists ls' li', replay fmt_state model cv rv i len (Z.of_nat <$> order) s ls li =
      Some (zip_with (fun k s => mkStep (Z.of_nat k) (describeSt model s)) order (statesFrom model ops s order), ls', li') /\
    larger i len (Z.of_nat <$> order) ls li ls' li'.
Proof using Hcv.
  revert s ls li. induction order as [|k order IH]; intros s ls li Hleg; cbn [legal] in Hleg.
  { exists ls, li. split; [done|]. intros k. right. split; [left; set_solver|done]. }
  destruct Hleg as (op & Hop & Hok & Hleg). destruct (Hcv k op Hop) as [E1 E2]. cbn [fmap list_fmap replay].
  rewrite E1, E2. cbn [callStep mbind option_bind]. destruct (Step model s (op_Input op) (op_Output op)) as [ok s'] eqn:Es.
  cbn in Hok, Hleg. subst ok. cbn [negb].
  set (upd := if _ <? len then _ else _). assert (exists ls1 li1, upd = (ls1, li1) /\ larger i len [Z.of_nat k] ls li ls1 li1) as (ls1 & li1 & -> & Hl1).
  { unfold upd. destruct (Z.ltb_spec (default 0 (ls !! Z.of_nat k)) len) as [Hlt|Hge]; eexists _, _; (split; [done|]); intros k'.
    - destruct (decide (k' = Z.of_nat k)) as [->|Hne]; [left|right].
      + rewrite !lookup_insert_eq. split_and!; [set_solver|done..].
      + rewrite !lookup_insert_ne by done. split; [left; set_solver|done].
    - right. split; [|done]. destruct (decide (k' = Z.of_nat k)) as [->|]; [by right|left; set_solver]. }
  destruct (IH s' ls1 li1 Hleg) as (ls' & li' & -> & Hl2). cbn [mbind option_bind]. exists ls', li'. cbn [statesFrom]. rewrite Hop, Es. cbn [zip_with snd].
  split; [done|]. intros k'. rewrite elem_of_cons. destruct (Hl1 k') as [(Hin & Hd & B1 & B2)|[Hc (B1 & B2)]].
  - apply list_elem_of_singleton in Hin. left. destruct (Hl2 k') as [(_ & _ & C1 & C2)|[_ (C1 & C2)]].
    + split_and!; [by left|done..].
    + split_and!; [by left|done|congruence..].
  - destruct (Hl2 k') as [(Hin2 & Hd2 & C1 & C2)|[Hc2 (C1 & C2)]]; rewrite B1 in *.
    + left. split_and!; [by right|done..].
    + right. split_and!; [|congruence..]. rewrite list_elem_of_singleton in Hc. destruct Hc as [Hc|Hc], Hc2 as [Hc2|Hc2]; [left|right..]; tauto.
Qed.

Lemma replayAll_spec todo : forall done_ ls li,
  (forall p, p ∈ todo -> legal_partial model ops p) -> points done_ ls li ->
  exists orders li', replayAll fmt_state model cv rv (zlen done_) todo ls li = Some (stepsOf model ops <$> orders, li') /\
    todo = (fun o => Z.of_nat <$> o) <$> orders /\ Forall (fun o => legal_partial model ops (Z.of_nat <$> o)) orders /\
    exists ls', points (done_ ++ todo) ls' li'.
Proof using Hcv.
  induction todo as [|p todo IH]; intros done_ ls li Hleg Hp.
  { exists [], li. rewrite app_nil_r. split_and!; [done..|by exists ls]. }
  destruct (Hleg p ltac:(left)) as (order & Ep & Hnd & Hl & Hss & Hcl).
  destruct (replay_spec (zlen done_) (zlen p) order (Init model) ls li Hl) as (ls1 & li1 & Hr & Hlg). cbn [replayAll]. rewrite <- Ep in Hr, Hlg. rewrite Hr.
  cbn [mbind option_bind]. destruct (IH (done_ ++ [p]) ls1 li1) as (orders & li' & Hall & Et & Hf & ls' & Hpts);
    [intros q Hq; apply Hleg; by right|by eapply points_snoc|].
  replace (zlen (done_ ++ [p])) with (zlen done_ + 1) in Hall by (unfold zlen; rewrite length_app; cbn; lia).
  rewrite Hall. cbn [mbind option_bind]. exists (order :: orders), li'. rewrite Ep, Et. split_and!; [done|done|constructor; [by exists order|done]|].
  exists ls'. by rewrite <- Ep, <- Et, cons_middle, app_assoc.
Qed.
End Replay.

Lemma sorted_lookup {A} (R : A -> A -> Prop) l i j x y : StronglySorted R l -> (i < j)%nat -> l !! i = Some x -> l !! j = Some y -> R x y.
Proof using Type.
  intros Hs Hij Hi Hj. rewrite <- (take_drop (S i) l) in Hs. apply StronglySorted_app in Hs as (Hc & _). apply Hc.
  - eapply list_elem_of_lookup_2, (lookup_take_Some _ _ i). split; [done|lia].
  - apply (list_elem_of_lookup_2 _ (j - S i)). rewrite lookup_drop. by replace (S i + (j - S i))%nat with j by lia.
Qed.

(** ** The picture of a partition *)

(** Operation numbers as the code has them. *)
Definition ids (order : list nat) : list Z := Z.of_nat <$> order.

Definition no_longer (o o' : list nat) : Prop := (length o' <= length o)%nat.

(** The picture [d] is true of the operations [ops]: it has every operation with its client, its
    times and its description; its sequences are runs that the model accepts, in an order that
    real time allows, each operation with the state after it; and the sequence it gives for an
    operation is a longest of those with the operation in them.  Longer sequences come first, and
    the one given is the first that has the operation. *)
Definition shows model ops (d : partitionVisualizationData) : Prop :=
  History d = (fun op => mkHistoryElement (op_ClientId op) (op_Call op) (op_Return op) (describeOp model (op_Input op) (op_Output op))) <$> ops /\
  exists orders, PartialLinearizations d = stepsOf model ops <$> orders /\
    Forall (fun o => legal_partial model ops (Z.of_nat <$> o)) orders /\ StronglySorted no_longer orders /\
    forall k : Z, match Largest d !! k with
      | None => forall o, o ∈ orders -> k ∉ ids o
      | Some q => 0 <= q /\ exists o, orders !! Z.to_nat q = Some o /\ k ∈ ids o /\ (forall o', o' ∈ orders -> k ∈ ids o' -> (length o' <= length o)%nat) /\
          forall q' o', (q' < Z.to_nat q)%nat -> orders !! q' = Some o' -> k ∉ ids o'
      end.

Lemma points_orders (orders : list (list nat)) (ls li : gmap Z Z) (k : Z) :
  points (ids <$> orders) ls li -> StronglySorted no_longer orders ->
  match li !! k with
  | None => forall o, o ∈ orders -> k ∉ ids o
  | Some q => 0 <= q /\ exists o, orders !! Z.to_nat q = Some o /\ k ∈ ids o /\ (forall o', o' ∈ orders -> k ∈ ids o' -> (length o' <= length o)%nat) /\
      forall q' o', (q' < Z.to_nat q)%nat -> orders !! q' = Some o' -> k ∉ ids o'
  end.
Proof using Type.
  intros Hp Hs. assert (forall o, zlen (ids o) = zlen o) as Hz by (intros o; unfold zlen, ids; by rewrite length_fmap).
  destruct (Hp k) as [(_ & -> & Hno)|(q & p & Hq & Hk & -> & _ & Hmax & Hfst)].
  - intros o Ho Hk. apply (Hno (ids o)); [by apply list_elem_of_fmap_2|done].
  - rewrite Nat2Z.id. split; [lia|]. apply list_lookup_fmap_Some in Hq as (o & -> & Ho). exists o. split_and!; [done..| |].
    + intros o' Ho' Hk'. specialize (Hmax (ids o')). rewrite !Hz in Hmax. unfold zlen in Hmax.
      assert (Z.of_nat (length o') <= Z.of_nat (length o)); [|lia]. apply Hmax; [by apply list_elem_of_fmap_2|done].
    + intros q' o' Hlt Ho' Hk'. specialize (Hfst q' (ids o') Hlt). rewrite list_lookup_fmap, Ho', !Hz in Hfst. specialize (Hfst eq_refl Hk'). unfold zlen in Hfst.
      pose proof (sorted_lookup no_longer orders q' q o' o Hs Hlt Ho' Ho) as Hle. unfold no_longer in Hle. lia.
Qed.

Lemma visualizePartition_shows model ops partials :
  timely ops -> Forall (legal_partial model ops) partials ->
  exists d, visualizePartition fmt_input fmt_output fmt_state model (makeEntries ops) partials = Some d /\ shows model ops d.
Proof using Type.
  intros Ht Hleg. pose proof (sort_perm (entriesFrom 0 ops)) as Hperm. pose proof (sort_sorted (entriesFrom 0 ops)) as Hsort.
  fold (makeEntries ops) in Hperm, Hsort. unfold visualizePartition.
  replace (zlen (makeEntries ops) / 2) with (zlen ops).
  2: { unfold zlen at 2. rewrite Hperm. fold (zlen (entriesFrom 0 ops)). rewrite entriesFrom_length, Z.mul_comm, Z.div_mul by lia. done. }
  destruct (fillHistory_from model ops (makeEntries ops) Hperm Hsort Ht (makeEntries ops) []
    (replicate (Z.to_nat (zlen ops)) (mkHistoryElement 0 0 0 "")) ∅ ∅) as (history & cv & rv & -> & Hlen & Hf); [done| |].
  { split; [rewrite length_replicate; unfold zlen; lia|]. intros k op Hk. eexists. split; [|split; by intros ?%not_elem_of_nil].
    apply lookup_replicate. split; [done|]. apply lookup_lt_Some in Hk. unfold zlen. lia. }
  assert (Hall : forall k op, ops !! k = Some op -> history !! k =
      Some (mkHistoryElement (op_ClientId op) (op_Call op) (op_Return op) (describeOp model (op_Input op) (op_Output op))) /\
      cv !! Z.of_nat k = Some (inl (op_Input op)) /\ rv !! Z.of_nat k = Some (inr (op_Output op))).
  { intros k op Hk. destruct (Hf k op Hk) as ([c s e d] & Hhe & Hc & Hr).
    destruct (hs_call ops _ Hperm Hsort Ht k op Hk) as (p & Hp%list_elem_of_lookup_2).
    destruct (hs_ret ops _ Hperm Hsort Ht k op Hk) as (q & Hq%list_elem_of_lookup_2).
    destruct (Hc Hp) as (E1 & E2 & ->), (Hr Hq) as (E3 & E4 & ->). cbn in *. by subst. }
  destruct (replayAll_spec model ops cv rv ltac:(intros; by apply Hall) (sort_Sort partials) [] ∅ ∅) as (orders & li & Hrun & Eo & Hlo & ls & Hp).
  - intros p Hp. rewrite sort_perm in Hp. by eapply Forall_forall in Hleg.
  - intros k. left. split_and!; [done..|]. intros p Hp%not_elem_of_nil. done.
  - cbn [mbind option_bind]. change (zlen []) with 0 in Hrun. rewrite Hrun. cbn [mbind option_bind]. eexists. split; [done|]. split.
    + cbn [History]. apply list_eq. intros k. rewrite list_lookup_fmap. destruct (ops !! k) as [op|] eqn:Hk; cbn [fmap option_fmap option_map].
      * by apply Hall.
      * apply lookup_ge_None. rewrite Hlen. by apply lookup_ge_None.
    + exists orders. cbn [PartialLinearizations Largest]. rewrite app_nil_l in Hp. pose proof (sort_sorted partials) as Hs. rewrite Eo in Hp, Hs.
      assert (StronglySorted no_longer orders) as Hs'.
      { clear - Hs. induction orders as [|o orders IH]; [constructor|]. apply StronglySorted_cons in Hs as [Hall Hs]. constructor; [by apply IH|].
        apply Forall_fmap in Hall. eapply Forall_impl; [exact Hall|]. intros o' Ho'. unfold compose, longer, zlen in Ho'. rewrite !length_fmap in Ho'. unfold no_longer. lia. }
      split_and!; [done..|]. intros k. by apply (points_orders orders ls).
Qed.

Context (range_order : list nat -> list nat).

Lemma goroutinePartials_legal fuel model parts kills i sub partials :
  parts !! i = Some sub -> timely sub -> (searchFuel sub <= fuel)%nat ->
  goroutinePartials range_order fuel (fillDefault fmt_input fmt_output fmt_state model) (makeEntries <$> parts) kills i = Some partials ->
  Forall (legal_partial model sub) partials.
Proof using Type.
  intros Hi Ht Hf. unfold goroutinePartials, goroutine. rewrite list_lookup_fmap, Hi. cbn [fmap option_fmap option_map mbind option_bind].
  destruct (checkSingle_spec fuel (fillDefault fmt_input fmt_output fmt_state model) sub true (kills i) Ht Hf)
    as (ok & longest & seqs & -> & _ & _ & _ & Hleg).
  unfold partialsOf. intros Hm%mapM_Some. apply Forall_forall. intros p (j & Hj)%list_elem_of_lookup.
  destruct (Forall2_lookup_r _ _ _ _ _ Hm Hj) as (a & _ & Hp). eapply Forall_lookup_1 in Hleg; [|exact Hp]. exact Hleg.
Qed.

Lemma checkOperations_info fuel model ops kills sched res info :
  checkOperations fmt_input fmt_output fmt_state range_order fuel model ops true kills sched = Some (res, Some info) ->
  exists partials, info = mkInfo (makeEntries <$> partitions model ops) partials /\
    Forall2 (fun i p => goroutinePartials range_order fuel (fillDefault fmt_input fmt_output fmt_state model) (makeEntries <$> partitions model ops) kills i = Some p)
      (seq 0 (length (partitions model ops))) partials.
Proof using Type.
  unfold checkOperations. cbn [Partition fillDefault mbind option_bind]. fold (partitions model ops). unfold checkParallel. intros H.
  apply bind_Some in H as ([[[ok timedOut] count] rest] & _ & H). cbn [mbind option_bind] in H.
  apply bind_Some in H as (i & Hi & H). injection H as _ ->. apply bind_Some in Hi as (partials & Hm & [= <-]).
  exists partials. split; [done|]. rewrite length_fmap in Hm. by apply mapM_Some.
Qed.

Lemma visualization_shows fuel model ops kills sched res info :
  (forall sub, sub ∈ partitions model ops -> timely sub /\ (searchFuel sub <= fuel)%nat) ->
  CheckOperationsVerbose fmt_input fmt_output fmt_state range_order fuel model ops kills sched = Some (res, Some info) ->
  exists data, computeVisualizationData fmt_input fmt_output fmt_state model info = Some data /\
    Forall2 (shows model) (partitions model ops) data.
Proof using Type.
  intros Hsub (partials & -> & HF)%checkOperations_info. unfold computeVisualizationData. cbn [li_history partialLinearizations].
  set (parts := partitions model ops) in *. set (f := fun p : nat * list (entry (In + Out)) => partials !! p.1 ≫= _).
  assert (forall i sub, parts !! i = Some sub -> exists d, f (i, makeEntries sub) = Some d /\ shows model sub d) as Hone.
  { intros i sub Hi. destruct (Hsub sub) as [Ht Hf]; [by eapply list_elem_of_lookup_2|].
    destruct (Forall2_lookup_l _ _ _ i i HF) as (p & Hp & Hg); [apply lookup_seq; split; [done|by eapply lookup_lt_Some]|].
    unfold f. cbn [fst snd]. rewrite Hp. cbn [mbind option_bind]. apply visualizePartition_shows; [done|].
    by eapply goroutinePartials_legal. }
  destruct (mapM_is_Some_2 f (imap pair (makeEntries <$> parts))) as [data Hdata].
  { apply Forall_forall. intros x (i & Hi)%list_elem_of_lookup. rewrite list_lookup_imap, list_lookup_fmap in Hi.
    destruct (parts !! i) as [sub|] eqn:Es; cbn in Hi; [|done]. injection Hi as <-. destruct (Hone i sub Es) as (d & Hd & _). exists d. exact Hd. }
  exists data. split; [done|]. apply mapM_Some in Hdata. apply Forall2_same_length_lookup. split.
  - apply Forall2_length in Hdata. by rewrite length_imap, length_fmap in Hdata.
  - intros i sub d Hi Hd. destruct (Forall2_lookup_r _ _ _ _ _ Hdata Hd) as (x & Hx & Hfd).
    rewrite list_lookup_imap, list_lookup_fmap, Hi in Hx. injection Hx as <-. destruct (Hone i sub Hi) as (d' & Hd' & ?). by simplify_eq.
Qed.

(** C25: the picture of a verbose check is true.  Whatever the answer and whenever the searches
    were killed, computing the picture of the information that [CheckOperationsVerbose] returns does
    not panic, and gives one picture for each partition which shows its operations as they
    were, sequences of them that the model accepts and real time allows with the states
    they pass through, and for each operation a longest sequence it is in. *)
Theorem visualization_correct fuel model ops kills sched res info :
  (forall sub, sub ∈ partitions model ops -> timely sub /\ (searchFuel sub <= fuel)%nat) ->
  CheckOperationsVerbose fmt_input fmt_output fmt_state range_order fuel model ops kills sched = Some (res, Some info) ->
  exists data, computeVisualizationData fmt_input fmt_output fmt_state model info = Some data /\
    Forall2 (shows model) (partitions model ops) data.
Proof using Type. apply visualization_shows. Qed.
End Props.

(** ** A picture *)

Definition no_shorter (a b : list Z) : Prop := longer b a = false.

#[export] Instance no_shorter_dec a b : Decision (no_shorter a b).
Proof. unfold no_shorter. apply _. Defined.

#[export] Instance no_shorter_total : Total no_shorter.
Proof. intros a b. unfold no_shorter, longer. lia. Qed.

#[export] Instance no_shorter_trans : Transitive no_shorter.
Proof. intros a b c. unfold no_shorter, longer. lia. Qed.

#[export] Program Instance length_sorter : Sorter (A := list Z) longer := {|
  sort_Sort := merge_sort no_shorter
|}.
Next Obligation. apply merge_sort_Permutation. Qed.
Next Obligation. intros l. apply (StronglySorted_merge_sort no_shorter). Qed.

(** The read of an old value: the search gets past the put only, and the picture shows the
    read in no sequence. *)
Definition stale_info : linearizationInfo (KvInput + KvOutput) :=
  mkInfo [makeEntries stale_history] [[[0]]].

Lemma visualization_correct_witness :
  CheckOperationsVerbose fmt_in fmt_out fmt_st (fun l => l) (searchFuel stale_history) KvModel stale_history (fun _ _ => 0) [Recv 0]
    = Some (Illegal, Some stale_info) /\
  exists data, computeVisualizationData fmt_in fmt_out fmt_st KvModel stale_info = Some data /\
    Forall2 (shows fmt_in fmt_out fmt_st KvModel) (KvPartition stale_history) data.
Proof.
  split; [by vm_compute|].
  apply (visualization_correct fmt_in fmt_out fmt_st (fun l => l) (searchFuel stale_history) KvModel stale_history (fun _ _ => 0) [Recv 0] Illegal).
  - intros sub Hsub. vm_compute in Hsub. apply elem_of_cons in Hsub as [-> | Hsub]; [|by apply not_elem_of_nil in Hsub].
    split; [repeat constructor; cbn; lia|vm_compute; lia].
  - by vm_compute.
Defined.
