(* ===== verification/Render.v ===== *)
(** * Render: how the page of the checker lays out a history
      (src/6.5840-golabs-2024/src/porcupine/visualization.go, the function [render] of the script in the template)

    The script places the timestamps of a history on a line, so that the boxes of the operations
    are wide enough for their text and for the linearization points that go through them.  Then
    it draws boxes, points and lines, as lists of shapes here.

    A time is kept in halves, because the script averages two times; a length is in units of
    which a pixel has [px], so that fractions of a pixel are exact.  A number that is not
    there makes the computation NaN or throws: [None]. *)

From S2P Require Import Prelude Bitset LinkedList Porcupine Visualization.
Local Open Scope Z_scope.

(** ** Sorting: [Array.sort] with a difference of numbers is stable *)

Section SortBy.
Context {A : Type} (key : A -> Z).
Fixpoint insertBy (x : A) (l : list A) : list A :=
  match l with
  | [] => [x]
  | y :: l => if key x <? key y then x :: y :: l else y :: insertBy x l
  end.
Definition sortBy (l : list A) : list A := foldl (fun acc x => insertBy x acc) [] l.
End SortBy.

(** ** The elements of the history *)

(** An element with what the script adds to it. *)
Record El := mkEl { el_ClientId : Z; el_Start : Z; el_End : Z; el_Description : string; el_Gid : nat; el_OriginalEnd : Z }.

Fixpoint giveGids (gid : nat) (h : list historyElement) : list El :=
  match h with
  | [] => []
  | e :: h => mkEl (ClientId e) (2 * Start e) (2 * End_ e) (Description e) gid (2 * End_ e) :: giveGids (S gid) h
  end.

(** The partitions with their elements. *)
Fixpoint partitionsFrom (gid : nat) (data : list partitionVisualizationData) : list (list El) :=
  match data with
  | [] => []
  | p :: data => giveGids gid (History p) :: partitionsFrom (gid + length (History p)) data
  end.

Definition startTimestamps (parts : list (list El)) : gset Z := list_to_set (el_Start <$> concat parts).
Definition allTimestamps (parts : list (list El)) : gset Z := startTimestamps parts ∪ list_to_set (el_End <$> concat parts).
Definition sortedTimestamps (ts : gset Z) : list Z := sortBy (fun t => t) (elements ts).

(** The next larger timestamp. *)
Fixpoint nextTs (sorted : list Z) : gmap Z Z :=
  match sorted with
  | t :: ((t' :: _) as sorted) => <[t := t']> (nextTs sorted)
  | _ => ∅
  end.

(** An end that is also a start moves half way to the next timestamp. *)
Definition tweakEnd (starts : gset Z) (next : gmap Z Z) (e : El) : El :=
  if bool_decide (el_End e ∈ starts)
  then match next !! el_End e with
       | Some t => mkEl (el_ClientId e) (el_Start e) ((el_End e + t) / 2) (el_Description e) (el_Gid e) (el_OriginalEnd e)
       | None => e
       end
  else e.

(** The partitions after the tweaks, and all timestamps, sorted. *)
Definition tweaked (parts : list (list El)) : list (list El) :=
  let next := nextTs (sortedTimestamps (allTimestamps parts)) in
  (fun p : list El => tweakEnd (startTimestamps parts) next <$> p) <$> parts.
Definition timestamps (parts : list (list El)) : list Z :=
  sortedTimestamps (allTimestamps parts ∪ list_to_set (el_End <$> concat (tweaked parts))).

Definition maxClient (parts : list (list El)) : Z := foldl Z.max (-1) (el_ClientId <$> concat parts).
Definition nClient (parts : list (list El)) : Z := maxClient parts + 1.

(** ** Points of the linearizations *)

(** What the script prepares: for each element the points in it (linearization, position), for each
    element the linearizations that it could follow, and the linearizations by global number. *)
Record Points := mkPoints {
  eventToLinearizations : list (list (nat * nat));
  eventIllegalLast : list (list nat);
  allLinearizations : list (list nat)
}.

(** The smallest end of the elements that are not included; [None] is infinity. *)
Definition minEnd (p : list El) (included : list Z) : option Z :=
  foldl (fun m (ie : nat * El) =>
    if bool_decide (Z.of_nat ie.1 ∈ included) then m
    else Some (match m with Some x => Z.min x (el_End ie.2) | None => el_End ie.2 end)) None (imap pair p).
Definition beforeEnd (t : Z) (m : option Z) : bool := match m with Some e => t <? e | None => true end.
(** The elements that may come next. *)
Definition nextElements (p : list El) (included : list Z) : list (nat * El) :=
  filter (fun ie => (Z.of_nat ie.1 ∉ included) /\ beforeEnd (el_Start ie.2) (minEnd p included) = true) (imap pair p).

Definition push {A : Type} (g : nat) (x : A) (l : list (list A)) : list (list A) := alter (fun k => k ++ [x]) g l.

Definition addLinearization (p : list El) (lin : list linearizationStep) (st : Points) : option Points :=
  let lgid := length (allLinearizations st) in
  globalized ← mapM (fun id => el_Gid <$> go_index p (Index id)) lin;
  let e2l := foldl (fun l (ig : nat * nat) => push ig.2 (lgid, ig.1) l) (eventToLinearizations st) (imap pair globalized) in
  let ill := foldl (fun l (ie : nat * El) => push (el_Gid ie.2) lgid l) (eventIllegalLast st) (nextElements p (Index <$> lin)) in
  Some (mkPoints e2l ill (allLinearizations st ++ [globalized])).
Definition addPartition (st : option Points) (pd : list El * partitionVisualizationData) : option Points :=
  foldl (fun st lin => s ← st; addLinearization pd.1 lin s) st (PartialLinearizations pd.2).
(** [n] is the number of elements. *)
Definition preparePoints (n : nat) (parts : list (list El)) (data : list partitionVisualizationData) : option Points :=
  foldl addPartition (Some (mkPoints (replicate n []) (replicate n []) [])) (zip parts data).

(** ** The scan *)

Section Layout.
Context (px : Z) (bbox : string -> Z).

Definition PADDING : Z := 10 * px.
Definition BOX_HEIGHT : Z := 30 * px.
Definition BOX_SPACE : Z := 15 * px.
Definition XOFF : Z := 20 * px.
Definition EPSILON : Z := 20 * px.
Definition LINE_BLEED : Z := 5 * px.
Definition BOX_GAP : Z := 20 * px.
Definition BOX_TEXT_PADDING : Z := 10 * px.

Record Ev := mkEv { ev_start : Z; ev_end : Z; ev_width : Z; ev_gid : nat }.
Definition evOf (e : El) : Ev := mkEv (el_Start e) (el_End e) (bbox (el_Description e) + 2 * BOX_TEXT_PADDING) (el_Gid e).
Definition byEnd (parts : list (list El)) : list Ev := sortBy ev_end (evOf <$> concat parts).

Section Scan.
(** [byGid], the linearizations and the points in the elements. *)
Context (byGid : list El) (pts : Points).

(** The loop that determines past points: [count] more points of the linearization [lin]. *)
Fixpoint extendPoints (count : nat) (xPos : gmap Z Z) (lin : list nat) (lp : list Z) : option (list Z) :=
  match count with
  | O => Some lp
  | S count =>
      nextGid ← lin !! length lp;
      e ← byGid !! nextGid;
      here ← xPos !! el_Start e;
      let nextPos := match last lp with None => here | Some prev => Z.max here (prev + EPSILON) end in
      extendPoints count xPos lin (lp ++ [nextPos])
  end.

(** One linearization point of an event: all points up to [position] are there, and the end is behind
    the last. *)
Definition fitPoint (xPos : gmap Z Z) (st : option (Z * list (list Z))) (li : nat * Z) : option (Z * list (list Z)) :=
  '(pos, lps) ← st;
  lin ← allLinearizations pts !! li.1;
  lp ← lps !! li.1;
  lp ← extendPoints (Z.to_nat (li.2 + 1 - zlen lp)) xPos lin lp;
  p ← go_index lp li.2;
  Some (Z.max pos p, <[li.1 := lp]> lps).

(** One illegal next point of an event. *)
Definition fitIllegal (lps : list (list Z)) (pos : option Z) (index : nat) : option Z :=
  pos ← pos; lin ← lps !! index; prev ← last lin; Some (Z.max pos (prev + EPSILON)).

(** The points to fit: those in the event, and the ends of the linearizations it could follow. *)
Definition pointsAt (gid : nat) : option (list (nat * Z)) :=
  own ← eventToLinearizations pts !! gid;
  ill ← eventIllegalLast pts !! gid;
  ends ← mapM (fun index => lin ← allLinearizations pts !! index; Some (index, zlen lin - 1)) ill;
  Some (((fun ip : nat * nat => (ip.1, Z.of_nat ip.2)) <$> own) ++ ends).

Definition placeEvent (xPos : gmap Z Z) (event : Ev) (pos : Z) (lps : list (list Z)) : option (Z * list (list Z)) :=
  start ← xPos !! ev_start event;
  let pos := Z.max pos (start + ev_width event) in
  lis ← pointsAt (ev_gid event);
  '(pos, lps) ← foldl (fitPoint xPos) (Some (pos, lps)) lis;
  ill ← eventIllegalLast pts !! ev_gid event;
  pos ← foldl (fitIllegal lps) (Some pos) ill;
  Some (pos, lps).

(** The while loop: the events that have ended by [ts]. *)
Fixpoint placeEvents (xPos : gmap Z Z) (ts : Z) (events : list Ev) (pos : Z) (lps : list (list Z)) : option (list Ev * Z * list (list Z)) :=
  match events with
  | [] => Some ([], pos, lps)
  | event :: rest =>
      if ev_end event <=? ts
      then '(pos, lps) ← placeEvent xPos event pos lps; placeEvents xPos ts rest pos lps
      else Some (events, pos, lps)
  end.

(** The left-to-right scan, after the timestamp [prev]. *)
Fixpoint scan (prev : Z) (ts : list Z) (xPos : gmap Z Z) (events : list Ev) (lps : list (list Z)) : option (gmap Z Z * list (list Z)) :=
  match ts with
  | [] => Some (xPos, lps)
  | t :: ts =>
      prevPos ← xPos !! prev;
      '(events, pos, lps) ← placeEvents xPos t events (prevPos + BOX_GAP) lps;
      scan t ts (<[t := pos]> xPos) events lps
  end.
End Scan.

(** The positions of the timestamps, and the points of the linearizations. *)
Definition layout (parts : list (list El)) (data : list partitionVisualizationData) : option (gmap Z Z * list (list Z)) :=
  let parts' := tweaked parts in
  pts ← preparePoints (length (concat parts)) parts' data;
  let lps := replicate (length (allLinearizations pts)) [] in
  match timestamps parts with
  | [] => Some (∅, lps)
  | t :: ts => scan (concat parts') pts t ts {[t := 0]} (byEnd parts') lps
  end.
End Layout.
