(* ===== verification/RenderFacts.v ===== *)
(** * RenderFacts: the scan computes the least layout

    The scan is about a list of elements, the linearizations through them and the elements that
    could follow each linearization.  Its points are the earliest ones that the positions allow
    ([ideal]); its positions are bounded by what the events need ([needs]), which both makes the
    layout fit and makes it the least one that does. *)

From S2P Require Import Prelude Bitset LinkedList Porcupine Visualization Render.
Local Open Scope Z_scope.

(** ** Sorting *)

Section SortBy.
Context {A : Type} (key : A -> Z).
Definition key_le (x y : A) : Prop := key x <= key y.

Lemma insertBy_perm x l : insertBy key x l ≡ₚ x :: l.
Proof.
  induction l as [|y l IH]; [done|]. cbn. destruct (key x <? key y); [done|]. rewrite IH. apply perm_swap.
Qed.

Lemma insertBy_sorted x l : StronglySorted key_le l -> StronglySorted key_le (insertBy key x l).
Proof.
  induction 1 as [|y l Hs IH Hall]; cbn; [repeat constructor|]. destruct (Z.ltb_spec (key x) (key y)) as [Hlt|Hge].
  - constructor; [by constructor|]. constructor; [unfold key_le; lia|]. eapply Forall_impl; [exact Hall|]. unfold key_le. lia.
  - constructor; [done|]. rewrite insertBy_perm. constructor; [done|exact Hall].
Qed.

Lemma sortBy_from l acc : foldl (fun acc x => insertBy key x acc) acc l ≡ₚ l ++ acc /\
  (StronglySorted key_le acc -> StronglySorted key_le (foldl (fun acc x => insertBy key x acc) acc l)).
Proof.
  revert acc. induction l as [|x l IH]; intros acc; [done|]. cbn. destruct (IH (insertBy key x acc)) as [Hp Hs]. split.
  - rewrite Hp, insertBy_perm. by rewrite Permutation_middle.
  - intros Ha. by apply Hs, insertBy_sorted.
Qed.

Lemma sortBy_perm l : sortBy key l ≡ₚ l.
Proof. unfold sortBy. destruct (sortBy_from l []) as [Hp _]. by rewrite Hp, app_nil_r. Qed.

Lemma sortBy_sorted l : StronglySorted key_le (sortBy key l).
Proof. destruct (sortBy_from l []) as [_ Hs]. apply Hs. constructor. Qed.
End SortBy.

Lemma sorted_distinct (l : list Z) : NoDup l -> StronglySorted (key_le (fun t => t)) l -> StronglySorted Z.lt l.
Proof.
  intros Hnd Hs. induction Hs as [|x l Hs IH Hall]; [constructor|]. apply NoDup_cons in Hnd as [Hx Hnd]. constructor; [by apply IH|].
  rewrite Forall_forall in Hall |- *. intros y Hy. specialize (Hall y Hy). unfold key_le in Hall. assert (x <> y) by (by intros ->). lia.
Qed.

Lemma sortedTimestamps_spec (ts : gset Z) :
  StronglySorted Z.lt (sortedTimestamps ts) /\ forall t, t ∈ sortedTimestamps ts <-> t ∈ ts.
Proof.
  split.
  - apply sorted_distinct; [unfold sortedTimestamps; rewrite sortBy_perm; apply NoDup_elements|apply sortBy_sorted].
  - intros t. unfold sortedTimestamps. rewrite sortBy_perm. apply elem_of_elements.
Qed.

(** ** The earliest points *)

Section Scan.
Context (px : Z) (Hpx : 0 < px) (bbox : string -> Z).
Context (byGid : list El) (pts : Points).

Local Abbreviation EPS := (EPSILON px).
Local Abbreviation lins := (allLinearizations pts).

Definition st (g : nat) : Z := from_option el_Start 0 (byGid !! g).
Definition en (g : nat) : Z := from_option el_End 0 (byGid !! g).
Definition wd (g : nat) : Z := from_option (fun e => bbox (el_Description e) + 2 * BOX_TEXT_PADDING px) 0 (byGid !! g).
Definition own (g : nat) : list (nat * nat) := default [] (eventToLinearizations pts !! g).
Definition ill (g : nat) : list nat := default [] (eventIllegalLast pts !! g).

(** The earliest points of a linearization when timestamp [t] is at [x t]. *)
Definition nextPoint (x : Z -> Z) (prev : option Z) (g : nat) : Z :=
  match prev with None => x (st g) | Some p => Z.max (x (st g)) (p + EPS) end.
Definition ideal (x : Z -> Z) (lin : list nat) : list Z := foldl (fun lp g => lp ++ [nextPoint x (last lp) g]) [] lin.
(** The point of the element at [a]. *)
Definition pointAt (x : Z -> Z) (lin : list nat) (a : nat) : Z := default 0 (last (ideal x (take (S a) lin))).

Lemma ideal_snoc x lin g : ideal x (lin ++ [g]) = ideal x lin ++ [nextPoint x (last (ideal x lin)) g].
Proof. unfold ideal. by rewrite foldl_app. Qed.

Lemma ideal_length x lin : length (ideal x lin) = length lin.
Proof. induction lin as [|g lin IH] using rev_ind; [done|]. rewrite ideal_snoc, !length_app, IH. done. Qed.

Lemma ideal_agree x y lin : (forall g, g ∈ lin -> x (st g) = y (st g)) -> ideal x lin = ideal y lin.
Proof.
  induction lin as [|g lin IH] using rev_ind; intros H; [done|]. rewrite !ideal_snoc, IH by (intros; apply H; set_solver).
  unfold nextPoint. rewrite (H g) by set_solver. done.
Qed.

Lemma take_snoc {A} (l : list A) n x : l !! n = Some x -> take (S n) l = take n l ++ [x].
Proof. intros H. by apply take_S_r. Qed.

Lemma elem_of_take_inv {A} (x : A) n (l : list A) : x ∈ take n l -> x ∈ l.
Proof. intros (i & [Hi _]%lookup_take_Some)%list_elem_of_lookup. by eapply list_elem_of_lookup_2. Qed.

Lemma pointAt_first x lin g : lin !! 0%nat = Some g -> pointAt x lin 0 = x (st g).
Proof. intros H. unfold pointAt. rewrite (take_snoc _ _ _ H), ideal_snoc, last_snoc. by rewrite take_0. Qed.

Lemma pointAt_succ x lin a g : lin !! S a = Some g -> pointAt x lin (S a) = Z.max (x (st g)) (pointAt x lin a + EPS).
Proof.
  intros H. unfold pointAt at 1. rewrite (take_snoc _ _ _ H), ideal_snoc, last_snoc. cbn [default]. unfold nextPoint, pointAt.
  destruct (last (ideal x (take (S a) lin))) as [p|] eqn:E; [done|]. exfalso.
  apply last_None in E. apply (f_equal length) in E. rewrite ideal_length, length_take in E. apply lookup_lt_Some in H. cbn [length] in E. lia.
Qed.

Lemma ideal_lookup x lin a g : lin !! a = Some g -> ideal x lin !! a = Some (pointAt x lin a).
Proof.
  revert a. induction lin as [|h lin IH] using rev_ind; intros a Ha; [done|]. rewrite ideal_snoc.
  destruct (decide (a < length lin)%nat) as [Hlt|Hge].
  - rewrite lookup_app_l in Ha by done. rewrite lookup_app_l by (by rewrite ideal_length). rewrite (IH a Ha). unfold pointAt.
    by rewrite take_app_le by lia.
  - apply lookup_lt_Some in Ha as Hl. rewrite length_app in Hl. cbn in Hl. assert (a = length lin) as -> by lia.
    rewrite lookup_app_r, ideal_length, Nat.sub_diag by (rewrite ideal_length; lia). cbn. unfold pointAt.
    rewrite firstn_all2 by (rewrite length_app; cbn; lia). by rewrite ideal_snoc, last_snoc.
Qed.

(** The points are at or behind the starts, and [EPS] apart. *)
Lemma pointAt_start x lin a g : lin !! a = Some g -> x (st g) <= pointAt x lin a.
Proof. destruct a as [|a]; intros H; [rewrite (pointAt_first _ _ _ H)|rewrite (pointAt_succ _ _ _ _ H)]; lia. Qed.

(** Any points that are spaced and behind the starts of [y] are behind the earliest ones of [x]. *)
Lemma pointAt_least x y q lin a :
  (a < length lin)%nat ->
  (forall b g, (b <= a)%nat -> lin !! b = Some g -> x (st g) <= y (st g) /\ y (st g) <= q b) ->
  (forall b, (b < a)%nat -> q b + EPS <= q (S b)) -> pointAt x lin a <= q a.
Proof.
  induction a as [|a IH]; intros Ha Hs Hq.
  - destruct (lookup_lt_is_Some_2 lin 0 Ha) as [g Hg]. rewrite (pointAt_first _ _ _ Hg). destruct (Hs 0%nat g); [lia|done|lia].
  - destruct (lookup_lt_is_Some_2 lin (S a) Ha) as [g Hg]. rewrite (pointAt_succ _ _ _ _ Hg).
    destruct (Hs (S a) g); [lia|done|]. specialize (Hq a ltac:(lia)) as Hqa.
    assert (pointAt x lin a <= q a); [|lia]. apply IH; [lia| |]; intros; [apply Hs|apply Hq]; lia || done.
Qed.

(** ** What an event needs *)

(** The points and the elements belong together, and time allows the order of each linearization. *)
Record points_ok : Prop := {
  po_own_len : length (eventToLinearizations pts) = length byGid;
  po_ill_len : length (eventIllegalLast pts) = length byGid;
  po_own g index a : (index, a) ∈ own g <-> exists lin, lins !! index = Some lin /\ lin !! a = Some g;
  po_ill g index : index ∈ ill g -> exists lin, lins !! index = Some lin /\ lin <> [] /\ forall h, h ∈ lin -> st h < en g;
  po_gid index lin g : lins !! index = Some lin -> g ∈ lin -> (g < length byGid)%nat;
  po_order index lin a b g h : lins !! index = Some lin -> (a <= b)%nat -> lin !! a = Some g -> lin !! b = Some h -> st g < en h;
  po_start g : (g < length byGid)%nat -> st g < en g
}.
Context (Hok : points_ok).

Definition linOf (index : nat) : list nat := default [] (lins !! index).
(** The position of the end of event [g] is at least this. *)
Definition needs (x : Z -> Z) (g : nat) (B : Z) : Prop :=
  x (st g) + wd g <= B /\ (forall index a, (index, a) ∈ own g -> pointAt x (linOf index) a <= B) /\
  (forall index, index ∈ ill g -> pointAt x (linOf index) (length (linOf index) - 1) + EPS <= B).

(** The positions found so far, as a function. *)
Definition xf (m : gmap Z Z) (t : Z) : Z := default 0 (m !! t).
(** The points found so far are the earliest ones. *)
Definition lps_ok (m : gmap Z Z) (lps : list (list Z)) : Prop :=
  Forall2 (fun lin lp => (length lp <= length lin)%nat /\ lp = ideal (xf m) (take (length lp) lin) /\
    forall g, g ∈ take (length lp) lin -> is_Some (m !! st g)) lins lps.

Lemma lps_ok_lookup m lps index lin : lps_ok m lps -> lins !! index = Some lin ->
  exists lp, lps !! index = Some lp /\ (length lp <= length lin)%nat /\ lp = ideal (xf m) (take (length lp) lin) /\
    forall g, g ∈ take (length lp) lin -> is_Some (m !! st g).
Proof. intros HF Hl. by destruct (Forall2_lookup_l _ _ _ _ _ HF Hl) as (lp & ? & ?); exists lp. Qed.

Lemma lps_ok_insert m lps index lin n :
  lps_ok m lps -> lins !! index = Some lin -> (n <= length lin)%nat -> (forall g, g ∈ take n lin -> is_Some (m !! st g)) ->
  lps_ok m (<[index := ideal (xf m) (take n lin)]> lps).
Proof.
  intros HF Hl Hn Hdef. apply Forall2_same_length_lookup_2; [by rewrite length_insert; apply Forall2_length in HF|].
  intros i l lp Hi Hp. apply list_lookup_insert_Some in Hp as [(<- & <- & _)|[_ Hp]].
  - assert (l = lin) as -> by congruence. rewrite ideal_length, length_take, Nat.min_l by done. done.
  - exact (Forall2_lookup_lr _ _ _ _ _ _ HF Hi Hp).
Qed.

Lemma lps_ok_new m t pos lps : m !! t = None -> lps_ok m lps -> lps_ok (<[t := pos]> m) lps.
Proof.
  intros Hn HF. eapply Forall2_impl; [exact HF|]. intros lin lp (Hlen & Hid & Hdef).
  assert (forall g, g ∈ take (length lp) lin -> t <> st g) as Hne by (intros g Hg ->; destruct (Hdef g Hg); congruence).
  split_and!; [done| |].
  - rewrite Hid at 1. apply ideal_agree. intros g Hg. unfold xf. by rewrite lookup_insert_ne by auto.
  - intros g Hg. rewrite lookup_insert_ne by auto. by apply Hdef.
Qed.

Lemma extendPoints_spec m lin n count :
  (n + count <= length lin)%nat -> (forall g, g ∈ lin -> (g < length byGid)%nat) ->
  (forall g, g ∈ take (n + count) lin -> is_Some (m !! st g)) ->
  extendPoints px byGid count m lin (ideal (xf m) (take n lin)) = Some (ideal (xf m) (take (n + count) lin)).
Proof.
  revert n. induction count as [|count IH]; intros n Hn Hg Hdef; [by rewrite Nat.add_0_r|]. cbn [extendPoints].
  rewrite ideal_length, length_take, Nat.min_l by lia. destruct (lookup_lt_is_Some_2 lin n) as [g Hl]; [lia|]. rewrite Hl. cbn [mbind option_bind].
  destruct (lookup_lt_is_Some_2 byGid g) as [e He]; [apply Hg; by eapply list_elem_of_lookup_2|]. rewrite He. cbn [mbind option_bind].
  assert (st g = el_Start e) as Est by (unfold st; by rewrite He).
  destruct (Hdef g) as [here Hh]; [eapply list_elem_of_lookup_2, (lookup_take_Some _ _ n); split; [done|lia]|].
  rewrite <- Est, Hh. cbn [mbind option_bind].
  replace (match last (ideal (xf m) (take n lin)) with Some prev => Z.max here (prev + EPS) | None => here end)
    with (nextPoint (xf m) (last (ideal (xf m) (take n lin))) g).
  2: { assert (xf m (st g) = here) as Hx by (unfold xf; by rewrite Hh). unfold nextPoint. rewrite Hx. by destruct (last _). }
  rewrite <- ideal_snoc, <- (take_snoc _ _ _ Hl). rewrite (IH (S n)); [by rewrite Nat.add_succ_r|lia|done|].
  intros h Hin. apply Hdef. by rewrite Nat.add_succ_r.
Qed.

(** Linearization [index] has its point at [a]. *)
Definition covers (lps : list (list Z)) (index a : nat) : Prop := exists lp, lps !! index = Some lp /\ (a < length lp)%nat.

(** The points there are stay. *)
Definition keeps (lps lps' : list (list Z)) : Prop := forall i a, covers lps i a -> covers lps' i a.
(** The points in event [g] are there. *)
Definition has_points (lps : list (list Z)) (g : nat) : Prop := forall i a, (i, a) ∈ own g -> covers lps i a.

Instance keeps_preorder : PreOrder keeps.
Proof using Type. split; [by intros lps i a|]. intros l1 l2 l3 H1 H2 i a Hc. by apply H2, H1. Qed.

Lemma keeps_points lps lps' g : keeps lps lps' -> has_points lps g -> has_points lps' g.
Proof using Type. intros Hk Hh i a Hin. by apply Hk, Hh. Qed.

(** One point: the linearization has its points up to [a], and the end is behind the last. *)
Lemma fitPoint_spec m pos lps index lin a :
  lps_ok m lps -> lins !! index = Some lin -> (a < length lin)%nat ->
  (forall g, g ∈ take (S a) lin -> is_Some (m !! st g)) ->
  exists lps', fitPoint px byGid pts m (Some (pos, lps)) (index, Z.of_nat a) = Some (Z.max pos (pointAt (xf m) lin a), lps') /\
    lps_ok m lps' /\ covers lps' index a /\ keeps lps lps'.
Proof.
  intros Hl Hlin Ha Hdef. destruct (lps_ok_lookup _ _ _ _ Hl Hlin) as (lp & Hlp & Hlen & Hid & Hd). unfold fitPoint. cbn [fst snd mbind option_bind].
  rewrite Hlin. cbn [mbind option_bind]. rewrite Hlp. cbn [mbind option_bind].
  set (n := length lp) in *. set (k := Z.to_nat (Z.of_nat a + 1 - zlen lp)). assert (k = (S a - n)%nat) as Ek by (unfold k, zlen; fold n; lia).
  assert (forall g, g ∈ take (n + k) lin -> is_Some (m !! st g)) as Hdef'.
  { destruct (decide (n <= S a)%nat); [by replace (n + k)%nat with (S a) by lia|]. by replace (n + k)%nat with n by lia. }
  rewrite Hid. rewrite extendPoints_spec; [|lia| |done]. 2: { intros g Hg. by eapply (po_gid Hok). }
  cbn [mbind option_bind]. destruct (lookup_lt_is_Some_2 lin a Ha) as [g Hg].
  assert (take (n + k) lin !! a = Some g) as Hg' by (apply lookup_take_Some; split; [done|lia]).
  assert (go_index (ideal (xf m) (take (n + k) lin)) (Z.of_nat a) = Some (pointAt (xf m) lin a)) as ->.
  { apply go_index_Some. rewrite Nat2Z.id, (ideal_lookup _ _ _ _ Hg'). unfold zlen. rewrite ideal_length. apply lookup_lt_Some in Hg' as Hlt.
    split; [lia|]. unfold pointAt. rewrite take_take, Nat.min_l by lia. done. }
  cbn [mbind option_bind]. eexists. split; [done|]. split; [by apply lps_ok_insert; [..|lia|]|].
  assert (length (ideal (xf m) (take (n + k) lin)) = (n + k)%nat) as Hlen' by (rewrite ideal_length, length_take; lia). split.
  - eexists. rewrite list_lookup_insert_eq by (by eapply lookup_lt_Some). split; [done|]. lia.
  - intros i b (lp' & Hi & Hb). destruct (decide (i = index)) as [->|Hne].
    + assert (lp' = lp) as -> by congruence. eexists. rewrite list_lookup_insert_eq by (by eapply lookup_lt_Some). split; [done|]. fold n in Hb. lia.
    + exists lp'. by rewrite list_lookup_insert_ne.
Qed.

(** The starts that a point needs are placed. *)
Definition placed (m : gmap Z Z) (index a : nat) : Prop :=
  exists lin, lins !! index = Some lin /\ (a < length lin)%nat /\ forall g, g ∈ take (S a) lin -> is_Some (m !! st g).

Lemma fitPoints_spec m (lis : list (nat * nat)) pos lps :
  lps_ok m lps -> (forall i a, (i, a) ∈ lis -> placed m i a) ->
  exists pos' lps', foldl (fitPoint px byGid pts m) (Some (pos, lps)) ((fun ia : nat * nat => (ia.1, Z.of_nat ia.2)) <$> lis) = Some (pos', lps') /\
    lps_ok m lps' /\ (forall i a, (i, a) ∈ lis -> covers lps' i a) /\ keeps lps lps' /\
    forall B, pos' <= B <-> pos <= B /\ forall i a, (i, a) ∈ lis -> pointAt (xf m) (linOf i) a <= B.
Proof.
  revert pos lps. induction lis as [|[i a] lis IH]; intros pos lps Hl Hp.
  { exists pos, lps. split_and!; [done..|set_solver|done|]. intros B. split; [intros; split; [done|set_solver]|by intros [? _]]. }
  destruct (Hp i a) as (lin & Hlin & Ha & Hdef); [by left|].
  destruct (fitPoint_spec m pos lps i lin a Hl Hlin Ha Hdef) as (lps1 & Hrun & Hl1 & Hc & Hm). rewrite fmap_cons. cbn [foldl]. cbn [fst snd] in *. rewrite Hrun.
  destruct (IH (Z.max pos (pointAt (xf m) lin a)) lps1 Hl1) as (pos' & lps' & -> & Hl' & Hc' & Hm' & HB); [intros; apply Hp; by right|].
  exists pos', lps'. split_and!; [done|done| |by etrans|].
  - intros j b [[= -> ->]|Hin]%elem_of_cons; [by apply Hm'|by apply Hc'].
  - intros B. rewrite HB. assert (linOf i = lin) as El by (unfold linOf; by rewrite Hlin). split.
    + intros [Hmax Hall]. split; [lia|]. intros j b [[= -> ->]|Hin]%elem_of_cons; [rewrite El; lia|by apply Hall].
    + intros [Hpos Hall]. split; [|intros; apply Hall; by right]. specialize (Hall i a ltac:(by left)). rewrite El in Hall. lia.
Qed.

Lemma fitIllegals_spec m lps (is_ : list nat) pos :
  lps_ok m lps -> (forall i, i ∈ is_ -> exists lin, lins !! i = Some lin /\ lin <> [] /\ covers lps i (length lin - 1)) ->
  exists pos', foldl (fitIllegal px lps) (Some pos) is_ = Some pos' /\
    forall B, pos' <= B <-> pos <= B /\ forall i, i ∈ is_ -> pointAt (xf m) (linOf i) (length (linOf i) - 1) + EPS <= B.
Proof.
  revert pos. induction is_ as [|i is_ IH]; intros pos Hl Hc.
  { exists pos. split; [done|]. intros B. split; [intros; split; [done|set_solver]|by intros [? _]]. }
  destruct (Hc i) as (lin & Hlin & Hne & (lp & Hlp & Hlen)); [by left|].
  assert (linOf i = lin) as El by (unfold linOf; by rewrite Hlin).
  assert (last lp = Some (pointAt (xf m) lin (length lin - 1))) as Hlast.
  { destruct (lps_ok_lookup _ _ _ _ Hl Hlin) as (lp' & Hlp' & Hle & Hid & _). assert (lp' = lp) as -> by congruence.
    assert (length lp = length lin) as E by (destruct lin; [done|cbn in *; lia]). rewrite E, firstn_all in Hid. rewrite last_lookup, Hid, ideal_length.
    destruct (lookup_lt_is_Some_2 lin (length lin - 1)) as [g Hg]; [destruct lin; [done|cbn; lia]|].
    replace (Init.Nat.pred (length lin)) with (length lin - 1)%nat by lia. by rewrite (ideal_lookup _ _ _ _ Hg). }
  cbn [foldl]. unfold fitIllegal at 2. cbn [mbind option_bind]. rewrite Hlp. cbn [mbind option_bind]. rewrite Hlast. cbn [mbind option_bind].
  destruct (IH (Z.max pos (pointAt (xf m) lin (length lin - 1) + EPS)) Hl) as (pos' & -> & HB); [intros; apply Hc; by right|].
  exists pos'. split; [done|]. intros B. rewrite HB. split.
  - intros [Hmax Hall]. split; [lia|]. intros j [->|Hin]%elem_of_cons; [rewrite El; lia|by apply Hall].
  - intros [Hpos Hall]. split; [|intros; apply Hall; by right]. specialize (Hall i ltac:(by left)). rewrite El in Hall. lia.
Qed.

(** The points an event has to fit, as numbers. *)
Definition pointsOf (g : nat) : list (nat * nat) := own g ++ ((fun i => (i, (length (linOf i) - 1)%nat)) <$> ill g).

Lemma pointsAt_spec g : (g < length byGid)%nat -> pointsAt pts g = Some ((fun ia : nat * nat => (ia.1, Z.of_nat ia.2)) <$> pointsOf g).
Proof.
  intros Hg. unfold pointsAt, pointsOf, own. destruct (lookup_lt_is_Some_2 (eventToLinearizations pts) g) as [o Ho]; [by rewrite (po_own_len Hok)|].
  destruct (lookup_lt_is_Some_2 (eventIllegalLast pts) g) as [l Hl]; [by rewrite (po_ill_len Hok)|]. rewrite Ho, Hl. cbn [mbind option_bind default].
  assert (ill g = l) as Ei by (unfold ill; by rewrite Hl). rewrite Ei.
  assert (forall i, i ∈ l -> exists lin, lins !! i = Some lin /\ lin <> []) as Hl'.
  { intros i Hi. rewrite <- Ei in Hi. destruct (po_ill Hok g i Hi) as (lin & ? & ? & _). by exists lin. }
  assert (mapM (fun index => lin ← allLinearizations pts !! index; Some (index, zlen lin - 1)) l =
    Some ((fun i => (i, Z.of_nat (length (linOf i) - 1))) <$> l)) as ->.
  { clear Hl Ei. induction l as [|i l IH]; [done|]. destruct (Hl' i) as (lin & Hi & Hne); [by left|]. cbn [mapM mbind option_bind].
    rewrite IH by (intros; apply Hl'; by right). rewrite Hi. cbn [mbind option_bind mret option_ret]. rewrite fmap_cons.
    assert (linOf i = lin) as -> by (unfold linOf; by rewrite Hi). do 3 f_equal. unfold zlen. destruct lin; [done|cbn; lia]. }
  cbn [mbind option_bind]. f_equal. rewrite fmap_app. f_equal. by rewrite <- list_fmap_compose.
Qed.

Definition is_event (ev : Ev) : Prop := exists e, byGid !! ev_gid ev = Some e /\ el_Gid e = ev_gid ev /\ ev = evOf px bbox e.

Lemma is_event_spec ev : is_event ev -> (ev_gid ev < length byGid)%nat /\ ev_start ev = st (ev_gid ev) /\ ev_end ev = en (ev_gid ev) /\ ev_width ev = wd (ev_gid ev).
Proof.
  intros (e & He & Hg & ->). cbn [evOf ev_gid ev_start ev_end ev_width] in *. split; [by eapply lookup_lt_Some|]. unfold st, en, wd. by rewrite He.
Qed.

Lemma placeEvent_spec m ev pos lps :
  is_event ev -> lps_ok m lps -> (forall h, (h < length byGid)%nat -> st h < ev_end ev -> is_Some (m !! st h)) ->
  exists pos' lps', placeEvent px byGid pts m ev pos lps = Some (pos', lps') /\ lps_ok m lps' /\ keeps lps lps' /\ has_points lps' (ev_gid ev) /\
    forall B, pos' <= B <-> pos <= B /\ needs (xf m) (ev_gid ev) B.
Proof.
  intros Hev Hl Hdef. destruct (is_event_spec ev Hev) as (Hg & Es & Ee & Ew). set (g := ev_gid ev) in *. rewrite Ee in Hdef. unfold placeEvent. rewrite Es.
  destruct (Hdef g Hg (po_start Hok g Hg)) as [start Hstart]. rewrite Hstart. cbn [mbind option_bind]. fold g. rewrite (pointsAt_spec g Hg). cbn [mbind option_bind].
  assert (xf m (st g) = start) as Hx by (unfold xf; by rewrite Hstart).
  destruct (fitPoints_spec m (pointsOf g) (Z.max pos (start + ev_width ev)) lps Hl) as (pos1 & lps' & -> & Hl' & Hc & Hk & HB1).
  { intros i a [Hin|Hin]%elem_of_app.
    - apply (po_own Hok) in Hin as (lin & Hlin & Ha). exists lin. split_and!; [done|by eapply lookup_lt_Some|].
      intros h (b & Hb)%list_elem_of_lookup. apply lookup_take_Some in Hb as [Hb Hlt]. apply Hdef.
      + eapply (po_gid Hok); [done|]. by eapply list_elem_of_lookup_2.
      + by apply (po_order Hok i lin b a h g Hlin ltac:(lia)).
    - apply list_elem_of_fmap in Hin as (j & [= -> ->] & Hj). destruct (po_ill Hok g j Hj) as (lin & Hlin & Hne & Hst). exists lin.
      unfold linOf. rewrite Hlin. cbn [default]. split_and!; [done|destruct lin; [done|cbn; lia]|].
      intros h Hh. assert (h ∈ lin) as Hh' by (by eapply elem_of_take_inv).
      apply Hdef; [by eapply (po_gid Hok)|by apply Hst]. }
  cbn [mbind option_bind]. destruct (lookup_lt_is_Some_2 (eventIllegalLast pts) g) as [l Hill]; [by rewrite (po_ill_len Hok)|].
  rewrite Hill. cbn [mbind option_bind]. assert (ill g = l) as Ei by (unfold ill; by rewrite Hill).
  destruct (fitIllegals_spec m lps' l pos1 Hl') as (pos' & -> & HB2).
  { intros i Hi. rewrite <- Ei in Hi. destruct (po_ill Hok g i Hi) as (lin & Hlin & Hne & _). exists lin. split_and!; [done..|].
    assert (linOf i = lin) as <- by (unfold linOf; by rewrite Hlin). apply Hc. apply elem_of_app. right. apply list_elem_of_fmap. by exists i. }
  cbn [mbind option_bind]. exists pos', lps'. split_and!; [done..|intros i a Hin; apply Hc, elem_of_app; by left|]. intros B. rewrite HB2, HB1, <- Ei. unfold needs. rewrite Hx, <- Ew. split.
  - intros [[Hm Hall] Hi]. split_and!; [lia|lia| |exact Hi]. intros i a Hin. apply Hall, elem_of_app. by left.
  - intros (Hp & Hw & Ho & Hi). split; [|exact Hi]. split; [lia|]. intros i a [Hin|Hin]%elem_of_app; [by apply Ho|].
    apply list_elem_of_fmap in Hin as (j & [= -> ->] & Hj). specialize (Hi j Hj). unfold EPSILON in Hi. lia.
Qed.

Lemma placeEvents_spec m ts events pos lps :
  Forall is_event events -> StronglySorted (key_le ev_end) events -> lps_ok m lps ->
  (forall h, (h < length byGid)%nat -> st h < ts -> is_Some (m !! st h)) ->
  exists done_ rest pos' lps', placeEvents px byGid pts m ts events pos lps = Some (rest, pos', lps') /\ events = done_ ++ rest /\
    Forall (fun ev => ev_end ev <= ts) done_ /\ Forall (fun ev => ts < ev_end ev) rest /\ lps_ok m lps' /\ keeps lps lps' /\ (forall ev, ev ∈ done_ -> has_points lps' (ev_gid ev)) /\
    forall B, pos' <= B <-> pos <= B /\ forall ev, ev ∈ done_ -> needs (xf m) (ev_gid ev) B.
Proof.
  intros Hev Hs. revert pos lps. induction Hs as [|ev events Hs IH Hle]; intros pos lps Hl Hdef; cbn [placeEvents].
  { exists [], [], pos, lps. split_and!; [done..|set_solver|]. intros B. split; [intros; split; [done|set_solver]|by intros [? _]]. }
  apply Forall_cons in Hev as [He Hev]. destruct (Z.leb_spec (ev_end ev) ts) as [Hend|Hend].
  - destruct (placeEvent_spec m ev pos lps He Hl) as (pos1 & lps1 & -> & Hl1 & Hk1 & Hp1 & HB1); [intros h Hh Hlt; apply Hdef; [done|lia]|]. cbn [mbind option_bind].
    destruct (IH Hev pos1 lps1 Hl1 Hdef) as (d & r & pos' & lps' & -> & -> & Hd & Hr & Hl' & Hk & Hps & HB). exists (ev :: d), r, pos', lps'.
    split_and!; [done|done|by constructor|done|done|by etrans| |].
    { intros e [->|Hin]%elem_of_cons; [by eapply keeps_points|by apply Hps]. }
    intros B. rewrite HB, HB1. split.
    + intros [[Hp Hn] Hall]. split; [done|]. intros e [->|Hin]%elem_of_cons; [done|by apply Hall].
    + intros [Hp Hall]. split; [split; [done|apply Hall; by left]|]. intros e Hin. apply Hall. by right.
  - exists [], (ev :: events), pos, lps. split_and!; [done..| |done|done|set_solver|].
    + constructor; [done|]. eapply Forall_impl; [exact Hle|]. unfold key_le. lia.
    + intros B. split; [intros; split; [done|set_solver]|by intros [? _]].
Qed.

(** ** The scan *)

Lemma needs_agree x y g B :
  (g < length byGid)%nat -> (forall h, (h < length byGid)%nat -> st h < en g -> x (st h) = y (st h)) -> needs x g B -> needs y g B.
Proof.
  intros Hg Hagree (Hw & Ho & Hi).
  assert (forall lin a, (forall h, h ∈ take (S a) lin -> (h < length byGid)%nat /\ st h < en g) -> pointAt x lin a = pointAt y lin a) as Hp.
  { intros lin a Hlin. unfold pointAt. f_equal. f_equal. apply ideal_agree. intros h Hh. by apply Hagree; apply Hlin. }
  split_and!.
  - rewrite <- Hagree; [done..|by apply (po_start Hok)].
  - intros i a Hin. specialize (Ho i a Hin). apply (po_own Hok) in Hin as (lin & Hlin & Ha).
    assert (linOf i = lin) as E by (unfold linOf; by rewrite Hlin). rewrite E in Ho |- *. rewrite <- Hp; [done|].
    intros h (b & [Hb Hlt]%lookup_take_Some)%list_elem_of_lookup. split; [eapply (po_gid Hok); [done|by eapply list_elem_of_lookup_2]|].
    by apply (po_order Hok i lin b a h g Hlin ltac:(lia)).
  - intros i Hin. specialize (Hi i Hin). destruct (po_ill Hok g i Hin) as (lin & Hlin & _ & Hst).
    assert (linOf i = lin) as E by (unfold linOf; by rewrite Hlin). rewrite E in Hi |- *. rewrite <- Hp; [done|].
    intros h Hh%elem_of_take_inv. split; [by eapply (po_gid Hok)|by apply Hst].
Qed.

(** Neighbouring timestamps are apart. *)
Fixpoint gaps (x : Z -> Z) (prev : Z) (ts : list Z) : Prop :=
  match ts with [] => True | t :: ts => x prev + BOX_GAP px <= x t /\ gaps x t ts end.

Lemma xf_subseteq m m' t : m ⊆ m' -> is_Some (m !! t) -> xf m' t = xf m t.
Proof. intros Hs [v Hv]. unfold xf. by rewrite Hv, (lookup_weaken _ _ _ _ Hv Hs). Qed.

(** What the scan does from one timestamp on: the positions there are stay, the others are apart and fit
    the events, and they are at most those of any [y] that is above the ones there are, is
    apart and fits the events. *)
Definition scanned (prev : Z) (ts : list Z) (m m' : gmap Z Z) (events : list Ev) : Prop :=
  m ⊆ m' /\ (forall t, is_Some (m' !! t) <-> is_Some (m !! t) \/ t ∈ ts) /\ gaps (xf m') prev ts /\
  (forall ev, ev ∈ events -> needs (xf m') (ev_gid ev) (xf m' (ev_end ev))) /\
  forall y, (forall t, is_Some (m !! t) -> xf m t <= y t) -> gaps y prev ts ->
    (forall ev x, ev ∈ events -> (forall h, (h < length byGid)%nat -> st h < ev_end ev -> x (st h) <= y (st h)) -> needs x (ev_gid ev) (y (ev_end ev))) ->
    forall t, t ∈ ts -> xf m' t <= y t.

Lemma scan_spec prev ts m events lps :
  StronglySorted Z.lt (prev :: ts) -> is_Some (m !! prev) -> (forall t, t ∈ ts -> m !! t = None) ->
  (forall h, (h < length byGid)%nat -> is_Some (m !! st h) \/ st h ∈ ts) ->
  Forall is_event events -> StronglySorted (key_le ev_end) events -> Forall (fun ev => ev_end ev ∈ ts) events -> lps_ok m lps ->
  exists m' lps', scan px byGid pts prev ts m events lps = Some (m', lps') /\ lps_ok m' lps' /\ keeps lps lps' /\ (forall ev, ev ∈ events -> has_points lps' (ev_gid ev)) /\ scanned prev ts m m' events.
Proof.
  revert prev m events lps. induction ts as [|t ts IH]; intros prev m events lps Hts Hprev Hfresh Hst Hev Hes Hends Hl.
  { exists m, lps. cbn [scan]. destruct events as [|ev events]; [|apply Forall_cons in Hends as [Hin _]; by apply not_elem_of_nil in Hin].
    split_and!; [done..|set_solver|]. split_and!; [done| |done|set_solver|set_solver]. intros t. set_solver. }
  apply StronglySorted_cons in Hts as [Hall Hts]. apply StronglySorted_cons in Hts as Hts'. destruct Hts' as [Hall' Hts'].
  apply Forall_cons in Hall as [Hpt _]. rewrite Forall_forall in Hall'.
  assert (forall h, (h < length byGid)%nat -> st h < t -> is_Some (m !! st h)) as Hdef.
  { intros h Hh Hlt. destruct (Hst h Hh) as [?|[E|Hin]%elem_of_cons]; [done|lia|]. specialize (Hall' _ Hin). lia. }
  destruct Hprev as [pv Hpv]. cbn [scan]. rewrite Hpv. cbn [mbind option_bind].
  destruct (placeEvents_spec m t events (pv + BOX_GAP px) lps Hev Hes Hl Hdef) as (d & r & pos & lps1 & -> & -> & Hd & Hr & Hl1 & Hk1 & Hp1 & HB).
  cbn [mbind option_bind]. pose proof (Hfresh t ltac:(by left)) as Ht. set (m1 := <[t := pos]> m).
  apply Forall_app in Hev as [Hevd Hevr]. apply StronglySorted_app in Hes as (_ & _ & Hesr). apply Forall_app in Hends as [Hendd Hendr].
  rewrite Forall_forall in Hr, Hd, Hendd, Hevd. assert (m ⊆ m1) as Hsub by (by apply insert_subseteq). assert (xf m1 t = pos) as Hx1 by (unfold xf, m1; by rewrite lookup_insert_eq).
  destruct (IH t m1 r lps1 Hts) as (m' & lps' & Hrun & Hl' & Hk' & Hp' & (S1 & S2 & S3 & S4 & S5)).
  { unfold m1. rewrite lookup_insert_eq. by eexists. }
  { intros t' Hin. unfold m1. rewrite lookup_insert_ne by (intros <-; specialize (Hall' _ Hin); lia). apply Hfresh. by right. }
  { intros h Hh. destruct (Hst h Hh) as [[v Hv]|[->|Hin]%elem_of_cons]; [left; by exists v; eapply lookup_weaken|left; unfold m1; rewrite lookup_insert_eq; by eexists|by right]. }
  { done. } { done. }
  { rewrite Forall_forall in Hendr |- *. intros ev Hin. destruct (proj1 (elem_of_cons _ _ _) (Hendr ev Hin)) as [E|]; [|done]. specialize (Hr _ Hin). lia. }
  { by apply lps_ok_new. }
  assert (xf m' t = pos) as Hx' by (rewrite (xf_subseteq m1 m' t S1); [done|]; unfold m1; rewrite lookup_insert_eq; by eexists).
  assert (xf m prev = pv) as Hxp by (unfold xf; by rewrite Hpv).
  assert (xf m' prev = pv) as Hxp' by (rewrite (xf_subseteq m m' prev); [done|by etrans|by eexists]).
  assert (forall ev, ev ∈ d -> ev_end ev = t) as Hdt.
  { intros ev Hin. destruct (proj1 (elem_of_cons _ _ _) (Hendd ev Hin)) as [|Hin']; [done|]. specialize (Hall' _ Hin'). specialize (Hd _ Hin). lia. }
  destruct (proj1 (HB pos) (Z.le_refl pos)) as [Hpos Hneeds].
  exists m', lps'. split_and!; [done..|by etrans| |].
  { intros ev [Hin|Hin]%elem_of_app; [by eapply keeps_points, Hp1|by apply Hp']. }
  split_and!.
  - by etrans.
  - intros t'. rewrite S2, elem_of_cons. unfold m1. destruct (decide (t' = t)) as [->|Hne]; [rewrite lookup_insert_eq; split; [tauto|left; by eexists]|].
    rewrite lookup_insert_ne by done. tauto.
  - cbn [gaps]. split; [lia|done].
  - intros ev [Hin|Hin]%elem_of_app; [|by apply S4]. rewrite (Hdt ev Hin), Hx'. destruct (is_event_spec ev (Hevd ev Hin)) as (Hg & _ & Ee & _).
    eapply needs_agree; [done| |by apply Hneeds]. intros h Hh Hlt. symmetry. apply xf_subseteq; [by etrans|]. apply Hdef; [done|]. rewrite <- Ee, (Hdt ev Hin) in Hlt. done.
  - intros y Hy [Hyg Hyr] Hyn. assert (pos <= y t) as Hpy.
    { apply HB. split; [specialize (Hy prev ltac:(by eexists)); lia|]. intros ev Hin. rewrite <- (Hdt ev Hin). apply Hyn; [apply elem_of_app; by left|].
      intros h Hh Hlt. apply Hy, Hdef; [done|]. by rewrite (Hdt ev Hin) in Hlt. }
    intros t' [->|Hin]%elem_of_cons; [lia|]. apply S5; [|done| |done].
    + intros t0. unfold m1, xf. destruct (decide (t0 = t)) as [->|Hne]; [rewrite lookup_insert_eq; done|]. rewrite lookup_insert_ne by done. apply Hy.
    + intros ev x Hin'. apply Hyn, elem_of_app. by right.
Qed.

(** ** Layouts that fit *)

(** By the numbers of the elements: texts and points fit in the boxes, points are apart, and there is
    room for a next point in every element that could follow. *)
Record fits_gids (x : Z -> Z) (qs : list (list Z)) : Prop := {
  fg_text g : (g < length byGid)%nat -> x (st g) + wd g <= x (en g);
  fg_points index lin : lins !! index = Some lin -> exists q, qs !! index = Some q /\ length q = length lin /\
    (forall a g v, lin !! a = Some g -> q !! a = Some v -> x (st g) <= v <= x (en g)) /\
    (forall a v w, q !! a = Some v -> q !! S a = Some w -> v + EPS <= w) /\
    (forall g, index ∈ ill g -> exists v r, last q = Some v /\ v + EPS <= r /\ x (st g) <= r <= x (en g))
}.

Lemma ideal_inv x lin a v : ideal x lin !! a = Some v -> exists g, lin !! a = Some g /\ v = pointAt x lin a.
Proof using Type.
  intros Ha. pose proof (lookup_lt_Some _ _ _ Ha) as Hlt. rewrite ideal_length in Hlt. destruct (lookup_lt_is_Some_2 lin a Hlt) as [g Hg].
  rewrite (ideal_lookup _ _ _ _ Hg) in Ha. exists g. split; congruence.
Qed.

Lemma ideal_last x lin : lin <> [] -> last (ideal x lin) = Some (pointAt x lin (length lin - 1)).
Proof using Type.
  intros Hne. rewrite last_lookup, ideal_length. replace (Init.Nat.pred (length lin)) with (length lin - 1)%nat by lia.
  destruct (lookup_lt_is_Some_2 lin (length lin - 1)) as [g Hg]; [destruct lin; [done|cbn; lia]|]. by apply (ideal_lookup _ _ _ g).
Qed.

Lemma needs_fits x :
  (forall g, (g < length byGid)%nat -> x (st g) <= x (en g) /\ needs x g (x (en g))) -> fits_gids x (ideal x <$> lins).
Proof using Hok.
  intros Hn. split; [intros g Hg; by apply Hn|]. intros index lin Hlin. exists (ideal x lin). rewrite list_lookup_fmap, Hlin.
  assert (linOf index = lin) as El by (unfold linOf; by rewrite Hlin). split_and!; [done|apply ideal_length| | |].
  - intros a g v Ha Hv. rewrite (ideal_lookup _ _ _ _ Ha) in Hv. injection Hv as <-. split; [by apply pointAt_start|].
    destruct (Hn g) as (_ & _ & Ho & _); [eapply (po_gid Hok); [done|by eapply list_elem_of_lookup_2]|]. rewrite <- El. apply Ho, (po_own Hok). by exists lin.
  - intros a v w (g & Hg & ->)%ideal_inv (g' & Hg' & ->)%ideal_inv. rewrite (pointAt_succ _ _ _ _ Hg'). lia.
  - intros g Hill. destruct (po_ill Hok g index Hill) as (lin' & Hlin' & Hne & _). assert (lin' = lin) as -> by congruence.
    assert (g < length byGid)%nat as Hg.
    { rewrite <- (po_ill_len Hok). unfold ill in Hill. destruct (eventIllegalLast pts !! g) eqn:E; [by eapply lookup_lt_Some|by apply not_elem_of_nil in Hill]. }
    destruct (Hn g Hg) as (Hle & _ & _ & Hi). specialize (Hi index Hill). rewrite El in Hi.
    exists (pointAt x lin (length lin - 1)), (Z.max (x (st g)) (pointAt x lin (length lin - 1) + EPS)). split_and!; [by apply ideal_last|lia..].
Qed.

(** Points that fit are behind the earliest ones of smaller positions. *)
Lemma fits_least x y qs index lin q a v :
  fits_gids y qs -> lins !! index = Some lin -> qs !! index = Some q -> q !! a = Some v ->
  (forall b g, (b <= a)%nat -> lin !! b = Some g -> x (st g) <= y (st g)) -> pointAt x lin a <= v.
Proof using Type.
  intros Hf Hlin Hq Hv Hle. destruct (fg_points _ _ Hf index lin Hlin) as (q' & Hq' & Hlen & Hin & Hsp & _). assert (q' = q) as -> by congruence.
  apply lookup_lt_Some in Hv as Hlt. assert (forall b, (b <= a)%nat -> exists w, q !! b = Some w) as Hdef by (intros b Hb; apply lookup_lt_is_Some_2; lia).
  replace v with (default 0 (q !! a)) by (by rewrite Hv). apply (pointAt_least x y (fun b => default 0 (q !! b))); [lia| |].
  - intros b g Hb Hg. split; [by eapply Hle|]. destruct (Hdef b Hb) as [w Hw]. rewrite Hw. cbn. by apply (Hin b g w).
  - intros b Hb. destruct (Hdef b ltac:(lia)) as [w Hw], (Hdef (S b) Hb) as [w' Hw']. rewrite Hw, Hw'. cbn. by apply (Hsp b).
Qed.

Lemma fits_needs x y qs g :
  fits_gids y qs -> (g < length byGid)%nat -> (forall h, (h < length byGid)%nat -> st h < en g -> x (st h) <= y (st h)) -> needs x g (y (en g)).
Proof using Hok.
  intros Hf Hg Hle. split_and!.
  - pose proof (fg_text _ _ Hf g Hg). specialize (Hle g Hg (po_start Hok g Hg)). lia.
  - intros index a Hown. apply (po_own Hok) in Hown as (lin & Hlin & Ha). assert (linOf index = lin) as -> by (unfold linOf; by rewrite Hlin).
    destruct (fg_points _ _ Hf index lin Hlin) as (q & Hq & Hlen & Hin & _). destruct (lookup_lt_is_Some_2 q a) as [v Hv]; [rewrite Hlen; by eapply lookup_lt_Some|].
    etrans; [|by eapply Hin]. eapply fits_least; [done..|]. intros b h Hb Hh. apply Hle; [eapply (po_gid Hok); [done|by eapply list_elem_of_lookup_2]|].
    by apply (po_order Hok index lin b a h g).
  - intros index Hill. destruct (po_ill Hok g index Hill) as (lin & Hlin & Hne & Hst). assert (linOf index = lin) as -> by (unfold linOf; by rewrite Hlin).
    destruct (fg_points _ _ Hf index lin Hlin) as (q & Hq & Hlen & _ & _ & Hi). destruct (Hi g Hill) as (v & r & Hv & Hr & _ & Hend).
    rewrite last_lookup in Hv. replace (Init.Nat.pred (length q)) with (length lin - 1)%nat in Hv by lia.
    assert (pointAt x lin (length lin - 1) <= v); [|lia]. eapply fits_least; [done..|]. intros b h Hb Hh. apply list_elem_of_lookup_2 in Hh.
    apply Hle; [by eapply (po_gid Hok)|by apply Hst].
Qed.

Lemma gaps_pairs x prev ts : StronglySorted Z.lt (prev :: ts) ->
  gaps x prev ts <-> forall t t', t ∈ prev :: ts -> t' ∈ prev :: ts -> t < t' -> x t + BOX_GAP px <= x t'.
Proof using Hpx.
  assert (0 < BOX_GAP px) as Hgap by (unfold BOX_GAP; lia).
  revert prev. induction ts as [|t1 ts IH]; intros prev Hs; cbn [gaps].
  { split; [|done]. intros _ t t' ->%list_elem_of_singleton ->%list_elem_of_singleton. lia. }
  apply StronglySorted_cons in Hs as [Hall Hs]. rewrite Forall_forall in Hall. rewrite (IH t1 Hs). split.
  - intros [H1 H2] t t' [->|Ht]%elem_of_cons [->|Ht']%elem_of_cons Hlt; [lia| | |by apply H2].
    + destruct (decide (t' = t1)) as [->|Hne]; [done|]. specialize (H2 t1 t' ltac:(by left) Ht').
      assert (t1 < t'); [|lia]. apply StronglySorted_cons in Hs as [Hall' _]. rewrite Forall_forall in Hall'.
      apply elem_of_cons in Ht' as [->|Ht']; [done|by apply Hall'].
    + specialize (Hall _ Ht). lia.
  - intros H. split; [apply H; [by left|right; by left|apply Hall; by left]|]. intros t t' Ht Ht'. apply H; by right.
Qed.
End Scan.
