(* ===== verification/RenderProps.v ===== *)
(** * RenderProps: the page of the checker is laid out as its comment says

    For the data of a check the scan places every timestamp.  The layout keeps timestamps apart,
    gives every box the room for its text and its points, and is the least one that does. *)

From S2P Require Import Prelude Bitset LinkedList Porcupine CheckerFacts CheckerSim CheckerInit CheckerSpec CheckerProps KvModel KvModelProps Visualization VisualizationProps Render RenderFacts.
Local Open Scope Z_scope.

(** ** Data that can be drawn *)

(** The operations have a start and an end in this order, and none starts at the very last timestamp;
    a sequence of a partition with operations is not empty, has its operations in an order that
    time allows, and leaves out no operation that ends before one of its own starts. *)
Definition starts_by (a b : historyElement) : Prop := Start a <= End_ b.

Record drawable_lin (h : list historyElement) (lin : list linearizationStep) : Prop := {
  dl_nonempty : h <> [] -> lin <> [];
  dl_range s : s ∈ lin -> exists e, go_index h (Index s) = Some e;
  dl_order a b s s' e e' : (a <= b)%nat -> lin !! a = Some s -> lin !! b = Some s' ->
    go_index h (Index s) = Some e -> go_index h (Index s') = Some e' -> starts_by e e';
  dl_closed s e k e' : s ∈ lin -> go_index h (Index s) = Some e -> h !! k = Some e' -> Z.of_nat k ∉ Index <$> lin -> starts_by e e'
}.

Definition elements_of (data : list partitionVisualizationData) : list historyElement := concat (History <$> data).

Record drawable (data : list partitionVisualizationData) : Prop := {
  dr_timely e : e ∈ elements_of data -> starts_by e e;
  dr_last e : e ∈ elements_of data -> exists e', e' ∈ elements_of data /\ Start e < End_ e';
  dr_lins p lin : p ∈ data -> lin ∈ PartialLinearizations p -> drawable_lin (History p) lin
}.

(** ** Layouts that fit *)

(** Element [k] of a partition is not in a sequence. *)
Definition left_out (p : list El) (lin : list linearizationStep) (k : nat) (e : El) : Prop :=
  p !! k = Some e /\ Z.of_nat k ∉ Index <$> lin.
(** It could come next: it starts before every element that is left out ends. *)
Definition could_follow (p : list El) (lin : list linearizationStep) (k : nat) (e : El) : Prop :=
  left_out p lin k e /\ forall k' e', left_out p lin k' e' -> el_Start e < el_End e'.

(** The sequences with the elements of their partition, in the order of their numbers. *)
Definition numbered (parts : list (list El)) (data : list partitionVisualizationData) : list (list El * list linearizationStep) :=
  concat (zip_with (fun p d => (fun lin => (p, lin)) <$> PartialLinearizations d) parts data).

(** The points [q] of a sequence when timestamp [t] is at [x t]: each is in the box of its element, they
    are apart, and an element that could follow has room for one more. *)
Definition points_fit (px : Z) (x : Z -> Z) (p : list El) (lin : list linearizationStep) (q : list Z) : Prop :=
  length q = length lin /\
  (forall a s e v, lin !! a = Some s -> go_index p (Index s) = Some e -> q !! a = Some v -> x (el_Start e) <= v <= x (el_End e)) /\
  (forall a v w, q !! a = Some v -> q !! S a = Some w -> v + EPSILON px <= w) /\
  (forall k e, could_follow p lin k e -> exists v r, last q = Some v /\ v + EPSILON px <= r /\ x (el_Start e) <= r <= x (el_End e)).

(** The text of an element fits in its box. *)
Definition text_fits (px : Z) (bbox : string -> Z) (x : Z -> Z) (e : El) : Prop :=
  x (el_Start e) + (bbox (el_Description e) + 2 * BOX_TEXT_PADDING px) <= x (el_End e).

(** What the comment in the script asks of a layout: timestamp [t] is at [x t], and the points of sequence
    [i] are at [qs !! i]. *)
Record fits (px : Z) (bbox : string -> Z) (parts : list (list El)) (data : list partitionVisualizationData) (x : Z -> Z) (qs : list (list Z)) : Prop := {
  ft_positive t : t ∈ timestamps parts -> 0 <= x t;
  ft_apart t t' : t ∈ timestamps parts -> t' ∈ timestamps parts -> t < t' -> x t + BOX_GAP px <= x t';
  ft_text e : e ∈ concat (tweaked parts) -> text_fits px bbox x e;
  ft_points i p lin : numbered (tweaked parts) data !! i = Some (p, lin) -> exists q, qs !! i = Some q /\ points_fit px x p lin q
}.

(** ** Elements and their numbers *)

Lemma list_elem_of_concat {A} (x : A) (ls : list (list A)) : x ∈ concat ls <-> exists l, x ∈ l /\ l ∈ ls.
Proof. induction ls as [|l ls IH]; cbn; [set_solver|]. rewrite elem_of_app, IH. set_solver. Qed.

Definition elOf (gid : nat) (e : historyElement) : El := mkEl (ClientId e) (2 * Start e) (2 * End_ e) (Description e) gid (2 * End_ e).

Lemma giveGids_lookup gid h k : giveGids gid h !! k = elOf (gid + k) <$> h !! k.
Proof.
  revert gid k. induction h as [|e h IH]; intros gid [|k]; [done..| |].
  - cbn. by rewrite Nat.add_0_r.
  - change (giveGids (S gid) h !! k = elOf (gid + S k) <$> h !! k). rewrite IH. by rewrite Nat.add_succ_r.
Qed.

Lemma giveGids_length gid h : length (giveGids gid h) = length h.
Proof. revert gid. induction h; intros; cbn; [done|]. by f_equal. Qed.

(** Partition [k] has the numbers from [off] on. *)
Lemma partitionsFrom_lookup gid data k p :
  partitionsFrom gid data !! k = Some p -> exists off d, data !! k = Some d /\ p = giveGids (gid + off) (History d) /\
    forall j h, History d !! j = Some h -> concat (partitionsFrom gid data) !! (off + j)%nat = Some (elOf (gid + off + j) h).
Proof.
  revert gid k. induction data as [|d data IH]; intros gid [|k] H; [done..| |].
  - injection H as <-. exists 0%nat, d. rewrite !Nat.add_0_r. split_and!; [done..|]. intros j h Hj. cbn. apply lookup_app_l_Some.
    by rewrite giveGids_lookup, Hj.
  - cbn in H. apply IH in H as (off & d' & Hd & -> & Hel). exists (length (History d) + off)%nat, d'. rewrite Nat.add_assoc. split_and!; [done..|].
    intros j h Hj. cbn. rewrite lookup_app_r, giveGids_length by (rewrite giveGids_length; lia).
    replace (length (History d) + off + j - length (History d))%nat with (off + j)%nat by lia. by apply Hel.
Qed.

Lemma concat_partitions_gid gid data g e :
  concat (partitionsFrom gid data) !! g = Some e -> el_Gid e = (gid + g)%nat.
Proof.
  revert gid g. induction data as [|d data IH]; intros gid g H; [done|]. cbn in H.
  apply lookup_app_Some in H as [H|[Hle H]].
  - rewrite giveGids_lookup in H. apply fmap_Some in H as (h & _ & ->). done.
  - rewrite giveGids_length in Hle, H. rewrite (IH _ _ H). lia.
Qed.

Lemma elements_concat gid data e :
  e ∈ concat (partitionsFrom gid data) -> exists h g, h ∈ elements_of data /\ e = elOf g h.
Proof.
  revert gid. induction data as [|d data IH]; intros gid H; [by apply not_elem_of_nil in H|]. cbn in H. unfold elements_of. cbn.
  apply elem_of_app in H as [(k & Hk)%list_elem_of_lookup|H].
  - rewrite giveGids_lookup in Hk. apply fmap_Some in Hk as (h & Hh & ->). exists h, (gid + k)%nat. split; [|done]. apply elem_of_app. left. by eapply list_elem_of_lookup_2.
  - destruct (IH _ H) as (h & g & Hh & ->). exists h, g. split; [|done]. apply elem_of_app. by right.
Qed.

Lemma concat_elements gid data h : h ∈ elements_of data -> exists g, elOf g h ∈ concat (partitionsFrom gid data).
Proof.
  revert gid. induction data as [|d data IH]; intros gid H; [by apply not_elem_of_nil in H|]. unfold elements_of in H. cbn in H |- *.
  apply elem_of_app in H as [(k & Hk)%list_elem_of_lookup|H].
  - exists (gid + k)%nat. apply elem_of_app. left. eapply list_elem_of_lookup_2 with (i := k). by rewrite giveGids_lookup, Hk.
  - destruct (IH (gid + length (History d))%nat H) as [g Hg]. exists g. apply elem_of_app. by right.
Qed.

(** ** The tweaked ends *)

Lemma nextTs_spec l t t' : StronglySorted Z.lt l -> t ∈ l -> t' ∈ l -> t < t' -> exists n, nextTs l !! t = Some n /\ t < n <= t' /\ n ∈ l.
Proof.
  induction l as [|a l IH]; intros Hs Ht Ht' Hlt; [by apply not_elem_of_nil in Ht|]. apply StronglySorted_cons in Hs as [Hall Hs].
  rewrite Forall_forall in Hall. destruct l as [|b l]; [apply list_elem_of_singleton in Ht, Ht'; lia|]. cbn [nextTs].
  destruct (decide (t = a)) as [->|Hne].
  - exists b. rewrite lookup_insert_eq. split_and!; [done|apply Hall; by left| |right; by left].
    apply StronglySorted_cons in Hs as [Hb _]. rewrite Forall_forall in Hb. apply elem_of_cons in Ht' as [->|[->|Ht']%elem_of_cons]; [lia..|].
    specialize (Hb _ Ht'). lia.
  - apply elem_of_cons in Ht as [->|Ht]; [done|]. assert (t' <> a) as Hne' by (intros ->; specialize (Hall _ Ht); lia).
    apply elem_of_cons in Ht' as [->|Ht']; [done|]. destruct (IH Hs Ht Ht' Hlt) as (n & Hn & Hlt' & Hin). exists n.
    rewrite lookup_insert_ne by done. split_and!; [done|lia..|by right].
Qed.

Section Tweaked.
Context (data : list partitionVisualizationData) (Hd : drawable data).

Local Abbreviation parts := (partitionsFrom 0 data).
Local Abbreviation next := (nextTs (sortedTimestamps (allTimestamps parts))).
Local Abbreviation twk := (tweakEnd (startTimestamps parts) next).

Lemma all_timestamps h : h ∈ elements_of data -> 2 * Start h ∈ allTimestamps parts /\ 2 * End_ h ∈ allTimestamps parts /\ 2 * Start h ∈ startTimestamps parts.
Proof using Type.
  intros Hh. destruct (concat_elements 0 data h Hh) as [g Hg]. unfold allTimestamps, startTimestamps.
  rewrite !elem_of_union, !elem_of_list_to_set. assert (2 * Start h ∈ el_Start <$> concat parts) by (apply list_elem_of_fmap; by exists (elOf g h)).
  assert (2 * End_ h ∈ el_End <$> concat parts) by (apply list_elem_of_fmap; by exists (elOf g h)). tauto.
Qed.

Lemma even_timestamps t : t ∈ allTimestamps parts -> exists k, t = 2 * k.
Proof using Type.
  unfold allTimestamps, startTimestamps. rewrite elem_of_union, !elem_of_list_to_set, !list_elem_of_fmap.
  intros [(e & -> & He)|(e & -> & He)]; destruct (elements_concat 0 data e He) as (h & g & _ & ->); cbn; eauto.
Qed.

(** A start that is not after an end is before the tweaked end. *)
Lemma start_before_end h g f g' : h ∈ elements_of data -> f ∈ elements_of data -> starts_by h f -> el_Start (elOf g h) < el_End (twk (elOf g' f)).
Proof using Hd.
  intros Hh Hf Hle. unfold starts_by in Hle. unfold tweakEnd. cbn [el_Start el_End elOf].
  destruct (all_timestamps h Hh) as (_ & _ & Hs). case_bool_decide as Hin.
  2: { cbn. assert (Start h <> End_ f) as Hne by (intros E; rewrite <- E in Hin; done). lia. }
  assert (exists t', t' ∈ allTimestamps parts /\ 2 * End_ f < t') as (t' & Ht' & Hlt).
  { unfold startTimestamps in Hin. apply elem_of_list_to_set, list_elem_of_fmap in Hin as (e & E & He).
    destruct (elements_concat 0 data e He) as (h' & g'' & Hh' & ->). cbn in E. destruct (dr_last data Hd h' Hh') as (h2 & Hh2 & Hlt).
    exists (2 * End_ h2). split; [apply all_timestamps; done|lia]. }
  destruct (sortedTimestamps_spec (allTimestamps parts)) as [Hss Hel].
  destruct (nextTs_spec _ (2 * End_ f) t' Hss) as (n & Hn & Hltn & Hinn); [apply Hel, all_timestamps; done|by apply Hel|done|].
  rewrite Hn. cbn [el_End]. apply Hel, even_timestamps in Hinn as [k ->]. replace (2 * End_ f + 2 * k) with ((End_ f + k) * 2) by lia.
  rewrite Z.div_mul by lia. lia.
Qed.

(** The tweak leaves the order of starts and ends as it was. *)
Lemma start_before_end_iff h g f g' : h ∈ elements_of data -> f ∈ elements_of data -> el_Start (elOf g h) < el_End (twk (elOf g' f)) <-> starts_by h f.
Proof using Hd.
  intros Hh Hf. split; [|by apply start_before_end]. unfold starts_by, tweakEnd. cbn [el_Start el_End elOf]. intros Hlt.
  destruct (Z.le_gt_cases (Start h) (End_ f)) as [|Hgt]; [done|exfalso]. case_bool_decide as Hin; [|cbn in Hlt; lia].
  destruct (sortedTimestamps_spec (allTimestamps parts)) as [Hss Hel].
  destruct (nextTs_spec _ (2 * End_ f) (2 * Start h) Hss) as (n & Hn & Hltn & _); [apply Hel, all_timestamps; done..|lia|].
  rewrite Hn in Hlt. cbn [el_End] in Hlt. pose proof (Z.div_le_mono (2 * End_ f + n) (n * 2) 2 ltac:(lia) ltac:(lia)) as Hm.
  rewrite Z.div_mul in Hm by lia. lia.
Qed.

(** Element [j] of a history could come next after [lin]: nothing else that [lin] leaves out ends before it starts. *)
Definition could_come_next (hs : list historyElement) (lin : list linearizationStep) (j : nat) : Prop :=
  exists h, hs !! j = Some h /\ (Z.of_nat j ∉ Index <$> lin) /\
    forall k h', hs !! k = Some h' -> (Z.of_nat k ∉ Index <$> lin) -> starts_by h h'.

Lemma could_follow_history off d lin j e : d ∈ data ->
  could_follow (twk <$> giveGids off (History d)) lin j e <->
  could_come_next (History d) lin j /\ (twk <$> giveGids off (History d)) !! j = Some e.
Proof using Hd.
  intros Hdin. assert (forall k h, History d !! k = Some h -> h ∈ elements_of data) as Hel.
  { intros k h Hk. apply list_elem_of_concat. exists (History d). split; [by eapply list_elem_of_lookup_2|by apply list_elem_of_fmap_2]. }
  assert (forall k x, (twk <$> giveGids off (History d)) !! k = Some x <-> exists h, History d !! k = Some h /\ x = twk (elOf (off + k) h)) as Hp.
  { intros k x. rewrite list_lookup_fmap, giveGids_lookup. destruct (History d !! k) as [hk|]; cbn; split; [intros [= <-]; eauto|by intros (? & [= <-] & ->)|done|by intros (? & ? & _)]. }
  assert (forall g h, el_Start (twk (elOf g h)) = el_Start (elOf g h)) as Hst by (intros; unfold tweakEnd; case_bool_decide; [|done]; by destruct (_ !! _)).
  unfold could_follow, left_out, could_come_next. split.
  - intros [[Hj Hn] Hall]. split; [|done]. apply Hp in Hj as (h & Hj & ->). exists h. split_and!; [done..|]. intros k h' Hk Hk'.
    apply (start_before_end_iff h (off + j) h' (off + k)); [by eapply Hel..|]. rewrite <- Hst. apply (Hall k). split; [|done]. apply Hp. eauto.
  - intros [(h & Hj & Hn & Hall) He]. split; [done|]. intros k e' [Hk Hk']. apply Hp in Hk as (h' & Hk & ->). apply Hp in He as (h0 & Hj0 & ->). simplify_eq.
    rewrite Hst. apply start_before_end_iff; [by eapply Hel..|]. by eapply Hall.
Qed.
End Tweaked.

(** ** The points of the elements *)

Lemma push_elem {A} (g h : nat) (x y : A) (l : list (list A)) :
  y ∈ default [] (push g x l !! h) <-> y ∈ default [] (l !! h) \/ (h = g /\ y = x /\ (g < length l)%nat).
Proof.
  unfold push. destruct (decide (h = g)) as [->|Hne].
  - rewrite list_lookup_alter_eq. destruct (l !! g) as [k|] eqn:E; cbn.
    + apply lookup_lt_Some in E. rewrite elem_of_app, list_elem_of_singleton. tauto.
    + apply lookup_ge_None in E. split; [set_solver|]. intros [?|(_ & _ & ?)]; [done|lia].
  - rewrite list_lookup_alter_ne by done. tauto.
Qed.

Lemma push_length {A} g (x : A) l : length (push g x l) = length l.
Proof. apply length_alter. Qed.

Lemma pushes_elem {A B} (gf : B -> nat) (xf : B -> A) (bs : list B) (l : list (list A)) h y :
  length (foldl (fun l b => push (gf b) (xf b) l) l bs) = length l /\
  (y ∈ default [] (foldl (fun l b => push (gf b) (xf b) l) l bs !! h) <->
   y ∈ default [] (l !! h) \/ exists b, b ∈ bs /\ gf b = h /\ xf b = y /\ (h < length l)%nat).
Proof.
  revert l. induction bs as [|b bs IH]; intros l; cbn [foldl]; [split; [done|]; set_solver|].
  destruct (IH (push (gf b) (xf b) l)) as [Hlen Hel]. rewrite push_length in Hlen, Hel. split; [done|].
  rewrite Hel, push_elem. split.
  - intros [[?|(-> & -> & ?)]|(b' & ? & ?)]; [by left|right; exists b; split; [by left|done]|right; exists b'; split; [by right|done]].
  - intros [?|(b' & [->|Hin]%elem_of_cons & <- & <- & ?)]; [by left; left|by left; right|]. right. by exists b'.
Qed.

Definition addOne (st : option Points) (pl : list El * list linearizationStep) : option Points := s ← st; addLinearization pl.1 pl.2 s.

Lemma preparePoints_numbered n parts data :
  preparePoints n parts data = foldl addOne (Some (mkPoints (replicate n []) (replicate n []) [])) (numbered parts data).
Proof.
  unfold preparePoints, numbered. generalize (Some (mkPoints (replicate n []) (replicate n []) [])) as st.
  revert data. induction parts as [|p parts IH]; intros [|d data] st; [done..|]. cbn [zip zip_with foldl concat]. rewrite foldl_app. rewrite IH. f_equal.
  unfold addPartition. cbn [fst snd]. generalize st. induction (PartialLinearizations d) as [|lin lins IHl]; intros st'; [done|]. cbn. apply IHl.
Qed.

(** What the points are after the linearizations [L], for [n] elements. *)
Record prepared (n : nat) (L : list (list El * list linearizationStep)) (pts : Points) : Prop := {
  pr_own_len : length (eventToLinearizations pts) = n;
  pr_ill_len : length (eventIllegalLast pts) = n;
  pr_lins : Forall2 (fun pl gids => mapM (fun id => el_Gid <$> go_index pl.1 (Index id)) pl.2 = Some gids) L (allLinearizations pts);
  pr_own g index a : (index, a) ∈ own pts g <-> (g < n)%nat /\ exists lin, allLinearizations pts !! index = Some lin /\ lin !! a = Some g;
  pr_ill g index : index ∈ ill pts g <-> (g < n)%nat /\ exists pl ie, L !! index = Some pl /\ ie ∈ nextElements pl.1 (Index <$> pl.2) /\ el_Gid ie.2 = g
}.

Lemma prepared_init n : prepared n [] (mkPoints (replicate n []) (replicate n []) []).
Proof.
  assert (forall {A} g (x : A), x ∈ default [] (replicate n [] !! g) <-> False) as Hno.
  { intros A g x. destruct (replicate n [] !! g) as [l|] eqn:E; cbn; [|set_solver]. apply lookup_replicate in E as [-> _]. set_solver. }
  split; cbn; [apply length_replicate..|constructor| |].
  - intros g index a. unfold own. cbn. rewrite Hno. split; [done|]. intros (_ & lin & H & _). done.
  - intros g index. unfold ill. cbn. rewrite Hno. split; [done|]. intros (_ & pl & ie & H & _). done.
Qed.

Lemma prepared_add n L pts pl gids :
  prepared n L pts -> mapM (fun id => el_Gid <$> go_index pl.1 (Index id)) pl.2 = Some gids ->
  exists pts', addLinearization pl.1 pl.2 pts = Some pts' /\ prepared n (L ++ [pl]) pts'.
Proof.
  intros [H1 H2 H3 H4 H5] Hg. unfold addLinearization. rewrite Hg. cbn [mbind option_bind]. eexists. split; [done|].
  set (lgid := length (allLinearizations pts)) in *. assert (lgid = length L) as Elen by (by apply Forall2_length in H3).
  split; cbn [eventToLinearizations eventIllegalLast allLinearizations].
  - rewrite <- H1. by eapply (pushes_elem (fun ig : nat * nat => ig.2) (fun ig => (lgid, ig.1)) _ _ 0%nat (0%nat, 0%nat)).
  - rewrite <- H2. by eapply (pushes_elem (fun ie : nat * El => el_Gid ie.2) (fun _ => lgid) _ _ 0%nat 0%nat).
  - apply Forall2_app; [done|by constructor].
  - intros g index a. unfold own. cbn [eventToLinearizations]. rewrite (proj2 (pushes_elem (fun ig : nat * nat => ig.2) (fun ig => (lgid, ig.1)) _ _ g (index, a))).
    fold (own pts g). rewrite H1, H4. split.
    + intros [(Hn & lin & Hl & Ha)|([a' g'] & Hin & E1 & E2 & Hn)].
      * split; [done|]. exists lin. split; [by apply lookup_app_l_Some|done].
      * cbn in E1, E2. injection E2 as <- <-. subst g'. split; [done|]. exists gids. rewrite list_lookup_middle by done. split; [done|].
        apply list_elem_of_lookup in Hin as (j & Hj). rewrite list_lookup_imap in Hj. apply fmap_Some in Hj as (x & Hx & [= -> ->]). done.
    + intros (Hn & lin & Hl & Ha). apply lookup_app_Some in Hl as [Hl|[Hge Hl]]; [left; split; [done|by exists lin]|].
      apply list_lookup_singleton_Some in Hl as [Hz <-]. assert (index = lgid) as -> by lia. right. exists (a, g). split_and!; [|done..].
      eapply list_elem_of_lookup_2 with (i := a). by rewrite list_lookup_imap, Ha.
  - intros g index. unfold ill. cbn [eventIllegalLast]. rewrite (proj2 (pushes_elem (fun ie : nat * El => el_Gid ie.2) (fun _ => lgid) _ _ g index)).
    fold (ill pts g). rewrite H2, H5. split.
    + intros [(Hn & pl' & ie & Hl & Hie)|(ie & Hin & E1 & <- & Hn)].
      * split; [done|]. exists pl', ie. split; [by apply lookup_app_l_Some|done].
      * split; [done|]. exists pl, ie. by rewrite Elen, list_lookup_middle.
    + intros (Hn & pl' & ie & Hl & Hin & Eg). apply lookup_app_Some in Hl as [Hl|[Hge Hl]]; [left; split; [done|by exists pl', ie]|].
      apply list_lookup_singleton_Some in Hl as [Hz <-]. right. exists ie. split_and!; [done|done|lia|done].
Qed.

Lemma prepared_all n L : (forall pl, pl ∈ L -> exists gids, mapM (fun id => el_Gid <$> go_index pl.1 (Index id)) pl.2 = Some gids) ->
  exists pts, foldl addOne (Some (mkPoints (replicate n []) (replicate n []) [])) L = Some pts /\ prepared n L pts.
Proof.
  intros H. induction L as [|pl L IH] using rev_ind; [eexists; split; [done|apply prepared_init]|].
  destruct IH as (pts & Hp & Hpr); [intros; apply H; set_solver|]. destruct (H pl) as [gids Hg]; [set_solver|].
  destruct (prepared_add n L pts pl gids Hpr Hg) as (pts' & Ha & Hpr'). exists pts'. rewrite foldl_app, Hp. cbn. by rewrite Ha.
Qed.

(** ** The elements of a drawable history make a scan possible *)

Section Prepared.
Context (data : list partitionVisualizationData) (Hd : drawable data).

Local Abbreviation parts := (partitionsFrom 0 data).
Local Abbreviation twk := (tweakEnd (startTimestamps parts) (nextTs (sortedTimestamps (allTimestamps parts)))).
Local Abbreviation byGid := (concat (tweaked parts)).
Local Abbreviation L := (numbered (tweaked parts) data).

Lemma tweaked_concat : byGid = twk <$> concat parts.
Proof using Type. unfold tweaked. generalize twk. intros f. induction parts as [|p ps IH]; [done|]. cbn. by rewrite fmap_app, IH. Qed.

Lemma byGid_lookup g e : byGid !! g = Some e -> el_Gid e = g /\ exists h, h ∈ elements_of data /\ e = twk (elOf g h).
Proof using Type.
  rewrite tweaked_concat. intros (e0 & -> & He)%list_lookup_fmap_Some. pose proof (concat_partitions_gid _ _ _ _ He) as Hg.
  destruct (elements_concat 0 data e0) as (h & g' & Hh & ->); [by eapply list_elem_of_lookup_2|]. cbn in Hg. subst g'.
  split; [|by exists h]. unfold tweakEnd. case_bool_decide; [|done]. by destruct (nextTs _ !! _).
Qed.

(** A linearization with its partition, whose elements have the numbers from [off] on. *)
Lemma numbered_elem pl : pl ∈ L -> exists off d, d ∈ data /\ pl.2 ∈ PartialLinearizations d /\
  pl.1 = twk <$> giveGids off (History d) /\
  forall j h, History d !! j = Some h -> byGid !! (off + j)%nat = Some (twk (elOf (off + j) h)) /\ h ∈ elements_of data.
Proof using Type.
  unfold numbered. intros (l & Hpl & Hl)%list_elem_of_concat. apply list_elem_of_lookup in Hl as (k & Hk).
  apply lookup_zip_with_Some in Hk as (p & d & -> & Hp & Hdk). apply list_elem_of_fmap in Hpl as (lin & -> & Hlin).
  unfold tweaked in Hp. apply list_lookup_fmap_Some in Hp as (p0 & -> & Hp). destruct (partitionsFrom_lookup _ _ _ _ Hp) as (off & d' & Hd' & -> & Hel).
  assert (d' = d) as -> by congruence. apply list_elem_of_lookup_2 in Hdk as Hin. exists off, d. cbn [fst snd]. split_and!; [done..|].
  intros j h Hj. rewrite tweaked_concat, list_lookup_fmap, (Hel j h Hj). split; [done|]. unfold elements_of. apply list_elem_of_concat.
  exists (History d). split; [by eapply list_elem_of_lookup_2|by apply list_elem_of_fmap_2].
Qed.

Lemma twk_same e : el_Gid (twk e) = el_Gid e /\ el_Start (twk e) = el_Start e /\ el_Description (twk e) = el_Description e.
Proof using Type. unfold tweakEnd. case_bool_decide; [|done]. by destruct (nextTs _ !! _). Qed.

(** The numbers of a linearization, element by element. *)
Lemma globalized_spec off d lin : d ∈ data -> lin ∈ PartialLinearizations d ->
  exists gids, mapM (fun id => el_Gid <$> go_index (twk <$> giveGids off (History d)) (Index id)) lin = Some gids /\
    length gids = length lin /\
    forall a g, gids !! a = Some g -> exists s j h, lin !! a = Some s /\ Index s = Z.of_nat j /\ History d !! j = Some h /\ g = (off + j)%nat.
Proof using Hd.
  intros Hdin Hlin. destruct (dr_lins _ Hd d lin Hdin Hlin) as [_ Hr _ _].
  assert (forall s, s ∈ lin -> exists j h, Index s = Z.of_nat j /\ History d !! j = Some h /\
    el_Gid <$> go_index (twk <$> giveGids off (History d)) (Index s) = Some (off + j)%nat) as Hone.
  { intros s Hs. destruct (Hr s Hs) as (h & [Hb Hh]%go_index_Some). exists (Z.to_nat (Index s)), h. split_and!; [lia|done|].
    assert (go_index (twk <$> giveGids off (History d)) (Index s) = Some (twk (elOf (off + Z.to_nat (Index s)) h))) as ->.
    { apply go_index_Some. rewrite list_lookup_fmap, giveGids_lookup, Hh. unfold zlen in *. rewrite length_fmap, giveGids_length. split; [lia|done]. }
    cbn. f_equal. by apply twk_same. }
  destruct (mapM_is_Some_2 (fun id => el_Gid <$> go_index (twk <$> giveGids off (History d)) (Index id)) lin) as [gids Hg].
  { apply Forall_forall. intros s Hs. destruct (Hone s Hs) as (j & h & _ & _ & E). exists (off + j)%nat. exact E. }
  exists gids. apply mapM_Some in Hg as HF. split_and!; [done|by symmetry; eapply Forall2_length|].
  intros a g Ha. destruct (Forall2_lookup_r _ _ _ _ _ HF Ha) as (s & Hs & Hgs). destruct (Hone s) as (j & h & Ej & Hj & E); [by eapply list_elem_of_lookup_2|].
  rewrite E in Hgs. injection Hgs as <-. by exists s, j, h.
Qed.

(** The smallest end of the elements that are left out. *)
Lemma minEnd_spec p (lin : list linearizationStep) t :
  beforeEnd t (minEnd p (Index <$> lin)) = true <-> forall k e, left_out p lin k e -> t < el_End e.
Proof using Type.
  unfold left_out. induction p as [|e p IH] using rev_ind; [by split; [intros _ k e [Hk _]|]|].
  unfold minEnd. rewrite imap_app, foldl_app. fold (minEnd p (Index <$> lin)). cbn [imap foldl fst snd compose]. rewrite Nat.add_0_r.
  assert (forall k e', (p ++ [e]) !! k = Some e' <-> p !! k = Some e' \/ (k = length p /\ e' = e)) as Hsn.
  { intros k e'. rewrite lookup_app_Some, list_lookup_singleton_Some. split; [intros [?|(? & ? & <-)]; [by left|right; split; [lia|done]]|].
    intros [?|[-> ->]]; [by left|right; split_and!; [done|lia|done]]. }
  case_bool_decide as Hin.
  - rewrite IH. split; intros H k e' [Hk Hn]; apply (H k); (split; [|done]); [apply Hsn in Hk as [?|[-> _]]; done|apply Hsn; by left].
  - transitivity (beforeEnd t (minEnd p (Index <$> lin)) = true /\ t < el_End e).
    { destruct (minEnd p _) as [m|]; cbn; rewrite ?Z.ltb_lt; split; [intros; split; lia|intros []; lia|intros; by split|by intros []]. }
    rewrite IH. split.
    + intros [H He] k e' [[Hk|[-> ->]]%Hsn Hn]; [by apply (H k)|done].
    + intros H. split; [|apply (H (length p)); split; [apply Hsn; by right|done]]. intros k e' [Hk Hn]. apply (H k). split; [apply Hsn; by left|done].
Qed.

Lemma nextElements_spec p lin k e : (k, e) ∈ nextElements p (Index <$> lin) <-> could_follow p lin k e.
Proof using Type.
  unfold nextElements, could_follow. rewrite list_elem_of_filter, minEnd_spec. cbn [fst snd]. unfold left_out.
  assert ((k, e) ∈ imap pair p <-> p !! k = Some e) as Hi; [|tauto].
  rewrite list_elem_of_lookup. split.
  - intros (j & Hj). rewrite list_lookup_imap in Hj. by apply fmap_Some in Hj as (x & Hx & [= -> ->]).
  - intros Hk. exists k. by rewrite list_lookup_imap, Hk.
Qed.

Lemma byGid_times g h : byGid !! g = Some (twk (elOf g h)) ->
  st byGid g = 2 * Start h /\ en byGid g = el_End (twk (elOf g h)).
Proof using Type. intros Hg. unfold st, en. rewrite Hg. cbn. split; [by apply twk_same|done]. Qed.

Context (pts : Points) (Hpr : prepared (length (concat parts)) L pts).

(** A linearization by numbers and the sequence it comes from. *)
Lemma lin_elem index lin : allLinearizations pts !! index = Some lin ->
  exists off d l, L !! index = Some (twk <$> giveGids off (History d), l) /\ drawable_lin (History d) l /\ length lin = length l /\
    (forall j h, History d !! j = Some h -> byGid !! (off + j)%nat = Some (twk (elOf (off + j) h)) /\ h ∈ elements_of data) /\
    (forall a g, lin !! a = Some g -> exists s j h, l !! a = Some s /\ Index s = Z.of_nat j /\ History d !! j = Some h /\ g = (off + j)%nat).
Proof using Hd Hpr.
  intros Hlin. destruct (Forall2_lookup_r _ _ _ _ _ (pr_lins _ _ _ Hpr) Hlin) as (pl & Hpl & Hm).
  destruct (numbered_elem pl) as (off & d & Hdin & Hl & E & Hel); [by eapply list_elem_of_lookup_2|].
  destruct (globalized_spec off d pl.2 Hdin Hl) as (gids & Hg & Hlen & Hgids). rewrite <- E, Hm in Hg. injection Hg as <-.
  exists off, d, pl.2. rewrite <- E, <- surjective_pairing. split_and!; [done|by eapply dr_lins|done..].
Qed.

Lemma byGid_length : length byGid = length (concat parts).
Proof using Type. by rewrite tweaked_concat, length_fmap. Qed.

(** The linearization [lin] by numbers is the sequence [l] of [d], and element [g] could follow it. *)
Lemma ill_elem g index : index ∈ ill pts g <-> exists p l k e, L !! index = Some (p, l) /\ could_follow p l k e /\ el_Gid e = g /\ (g < length byGid)%nat.
Proof using Hpr.
  rewrite (pr_ill _ _ _ Hpr), byGid_length. split.
  - intros (Hg & [p l] & [k e] & Hl & Hie & Eg). apply nextElements_spec in Hie. by exists p, l, k, e.
  - intros (p & l & k & e & Hl & Hc%nextElements_spec & Eg & Hg). split; [done|]. by exists (p, l), (k, e).
Qed.

Lemma prepared_ok : points_ok byGid pts.
Proof using Hd Hpr.
  split.
  - by rewrite (pr_own_len _ _ _ Hpr), byGid_length.
  - by rewrite (pr_ill_len _ _ _ Hpr), byGid_length.
  - intros g index a. rewrite (pr_own _ _ _ Hpr). split; [by intros [_ ?]|]. intros (lin & Hlin & Ha). split; [|by exists lin].
    destruct (lin_elem index lin Hlin) as (off & d & l & _ & _ & _ & Hel & Hg). destruct (Hg a g Ha) as (s & j & h & _ & _ & Hj & ->).
    rewrite <- byGid_length. destruct (Hel j h Hj) as [Hb _]. by eapply lookup_lt_Some.
  - intros g index (p & l' & k & e & HL & [[Hk Hn] _] & Eg & _)%ill_elem.
    destruct (Forall2_lookup_l _ _ _ _ _ (pr_lins _ _ _ Hpr) HL) as (lin & Hlin & _). exists lin. split; [done|].
    destruct (lin_elem index lin Hlin) as (off & d & l & HL' & [Hne Hr _ Hc] & Hlen & Hel & Hg). rewrite HL in HL'. injection HL' as -> ->.
    split; [intros ->; apply Hne; [intros E0; by rewrite E0 in Hk|by destruct l]|]. intros h0 (a & Ha)%list_elem_of_lookup. destruct (Hg a h0 Ha) as (s & j & h & Hs & Ej & Hj & ->).
    rewrite list_lookup_fmap, giveGids_lookup in Hk. destruct (History d !! k) as [h'|] eqn:Hk'; [|done]. injection Hk as <-.
    rewrite (proj1 (twk_same _)) in Eg. cbn in Eg. subst g. destruct (Hel j h Hj) as [Hb Hin], (Hel k h' Hk') as [Hb' Hin'].
    rewrite (proj1 (byGid_times _ _ Hb)), (proj2 (byGid_times _ _ Hb')). apply (start_before_end data Hd h 0); [done..|].
    apply (Hc s h k h'); [by eapply list_elem_of_lookup_2| |done..]. apply go_index_Some. rewrite Ej, Nat2Z.id. apply lookup_lt_Some in Hj as Hlt. unfold zlen. split; [lia|done].
  - intros index lin g Hlin (a & Ha)%list_elem_of_lookup. destruct (lin_elem index lin Hlin) as (off & d & l & _ & _ & _ & Hel & Hg).
    destruct (Hg a g Ha) as (s & j & h & _ & _ & Hj & ->). destruct (Hel j h Hj) as [Hb _]. by eapply lookup_lt_Some.
  - intros index lin a b g g' Hlin Hab Ha Hb. destruct (lin_elem index lin Hlin) as (off & d & l & _ & [_ _ Ho _] & _ & Hel & Hg).
    destruct (Hg a g Ha) as (s & j & h & Hs & Ej & Hj & ->), (Hg b g' Hb) as (s' & j' & h' & Hs' & Ej' & Hj' & ->).
    destruct (Hel j h Hj) as [Hb1 Hin], (Hel j' h' Hj') as [Hb2 Hin'].
    rewrite (proj1 (byGid_times _ _ Hb1)), (proj2 (byGid_times _ _ Hb2)). apply (start_before_end data Hd h 0); [done..|].
    apply (Ho a b s s'); [done..| |]; apply go_index_Some; [rewrite Ej|rewrite Ej']; rewrite Nat2Z.id; unfold zlen;
      [apply lookup_lt_Some in Hj as Hlt|apply lookup_lt_Some in Hj' as Hlt]; (split; [lia|done]).
  - intros g Hg. destruct (lookup_lt_is_Some_2 byGid g Hg) as [e He]. destruct (byGid_lookup g e He) as (_ & h & Hin & ->).
    rewrite (proj1 (byGid_times _ _ He)), (proj2 (byGid_times _ _ He)). apply (start_before_end data Hd h 0); [done..|by apply (dr_timely data Hd)].
Qed.

(** The comment's conditions, by partitions and by numbers. *)
Lemma fits_numbers px bbox x qs :
  fits_gids px bbox byGid pts x qs <->
  (forall e, e ∈ byGid -> text_fits px bbox x e) /\
  (forall i p lin, L !! i = Some (p, lin) -> exists q, qs !! i = Some q /\ points_fit px x p lin q).
Proof using Hd Hpr.
  assert (forall off h k, go_index (twk <$> giveGids off h) (Z.of_nat k) = (fun e => twk (elOf (off + k) e)) <$> h !! k) as Hgo.
  { intros off h k. unfold go_index. destruct (Z.ltb_spec (Z.of_nat k) 0); [lia|]. rewrite Nat2Z.id, list_lookup_fmap, giveGids_lookup. by destruct (h !! k). }
  split.
  - intros [Ht Hp]. split.
    + intros e (g & He)%list_elem_of_lookup. specialize (Ht g ltac:(by eapply lookup_lt_Some)). unfold st, en, wd in Ht. by rewrite He in Ht.
    + intros i p l HL. destruct (Forall2_lookup_l _ _ _ _ _ (pr_lins _ _ _ Hpr) HL) as (lin & Hlin & _).
      destruct (lin_elem i lin Hlin) as (off & d & l' & HL' & _ & Hlen & Hel & Hg). rewrite HL in HL'. injection HL' as -> ->.
      destruct (Hp i lin Hlin) as (q & Hq & Hql & Hin & Hsp & Hi). exists q. split; [done|]. unfold points_fit. split_and!; [lia| |done|].
      * intros a s e v Hs Hgi Hv. destruct (lookup_lt_is_Some_2 lin a) as [g Ha]; [rewrite Hlen; by eapply lookup_lt_Some|].
        destruct (Hg a g Ha) as (s' & j & h & Hs' & Ej & Hj & ->). assert (s' = s) as -> by congruence. rewrite Ej, Hgo, Hj in Hgi. injection Hgi as <-.
        specialize (Hin a _ v Ha Hv). destruct (Hel j h Hj) as [Hb _]. unfold st, en in Hin. by rewrite Hb in Hin.
      * intros k e Hc. assert (exists h, History d !! k = Some h /\ e = twk (elOf (off + k) h)) as (h & Hh & ->).
        { destruct Hc as [[Hk _] _]. rewrite list_lookup_fmap, giveGids_lookup in Hk. destruct (History d !! k) as [h|] eqn:Hh; [|done]. injection Hk as <-. by exists h. }
        destruct (Hel k h Hh) as [Hb _]. destruct (Hi (off + k)%nat) as (v & r & Hv & Hr & Hx).
        { apply ill_elem. eexists _, _, k, _. split_and!; [exact HL|exact Hc|by apply twk_same|by eapply lookup_lt_Some]. }
        exists v, r. unfold st, en in Hx. rewrite Hb in Hx. done.
  - intros [Ht Hp]. split.
    + intros g Hg. destruct (lookup_lt_is_Some_2 byGid g Hg) as [e He]. unfold st, en, wd. rewrite He. cbn. apply Ht. by eapply list_elem_of_lookup_2.
    + intros index lin Hlin. destruct (lin_elem index lin Hlin) as (off & d & l & HL & _ & Hlen & Hel & Hg).
      destruct (Hp index _ l HL) as (q & Hq & Hql & Hin & Hsp & Hi). exists q. split_and!; [done|lia| |done|].
      * intros a g v Ha Hv. destruct (Hg a g Ha) as (s & j & h & Hs & Ej & Hj & ->). destruct (Hel j h Hj) as [Hb _]. unfold st, en. rewrite Hb. cbn.
        apply (Hin a s _ v Hs); [|done]. by rewrite Ej, Hgo, Hj.
      * intros g (p & l' & k & e & HL' & Hc & Eg & _)%ill_elem. rewrite HL in HL'. injection HL' as <- <-. destruct (Hi k e Hc) as (v & r & Hv & Hr & Hx). exists v, r.
        destruct Hc as [[Hk _] _]. rewrite list_lookup_fmap, giveGids_lookup in Hk. destruct (History d !! k) as [h|] eqn:Hh; [|done]. injection Hk as <-.
        rewrite (proj1 (twk_same _)) in Eg. cbn in Eg. subst g. destruct (Hel k h Hh) as [Hb _]. unfold st, en. by rewrite Hb.
Qed.
End Prepared.

(** ** The timestamps *)

Section Timestamps.
Context (data : list partitionVisualizationData) (Hd : drawable data).

Local Abbreviation parts := (partitionsFrom 0 data).
Local Abbreviation byGid := (concat (tweaked parts)).

Lemma timestamps_spec : StronglySorted Z.lt (timestamps parts) /\
  forall e, e ∈ byGid -> el_Start e ∈ timestamps parts /\ el_End e ∈ timestamps parts.
Proof using Type.
  destruct (sortedTimestamps_spec (allTimestamps parts ∪ list_to_set (el_End <$> byGid))) as [Hs Hel]. split; [done|].
  intros e He. unfold timestamps. rewrite !Hel, !elem_of_union, !elem_of_list_to_set. split; [left|right; by apply list_elem_of_fmap_2].
  apply list_elem_of_lookup in He as (g & Hg). destruct (byGid_lookup data g e Hg) as (_ & h & Hh & ->).
  rewrite (proj1 (proj2 (twk_same _ _))). cbn [elOf el_Start]. by apply all_timestamps.
Qed.

(** Some start is before a given end, which so is not the first timestamp. *)
Lemma end_not_first t ts e : timestamps parts = t :: ts -> e ∈ byGid -> el_End e ∈ ts.
Proof using Hd.
  intros Et He. destruct timestamps_spec as [Hs Hin]. destruct (Hin e He) as [Hst Hen]. rewrite Et in Hs, Hst, Hen.
  assert (el_Start e < el_End e) as Hlt.
  { apply list_elem_of_lookup in He as (g & Hg). destruct (byGid_lookup data g e Hg) as (_ & h & Hh & ->).
    rewrite (proj1 (proj2 (twk_same _ _))). by apply (start_before_end data Hd h g h g Hh Hh), (dr_timely data Hd). }
  apply elem_of_cons in Hen as [E|]; [|done]. apply StronglySorted_cons in Hs as [Hall _]. rewrite Forall_forall in Hall.
  apply elem_of_cons in Hst as [E'|Hst]; [lia|]. specialize (Hall _ Hst). lia.
Qed.

Lemma byEnd_events px bbox : Forall (is_event px bbox byGid) (byEnd px bbox (tweaked parts)) /\
  forall g e, byGid !! g = Some e -> evOf px bbox e ∈ byEnd px bbox (tweaked parts).
Proof using Type.
  unfold byEnd. split.
  - rewrite sortBy_perm. apply Forall_fmap, Forall_forall. intros e (g & Hg)%list_elem_of_lookup. exists e. cbn.
    destruct (byGid_lookup data g e Hg) as [-> _]. done.
  - intros g e He. rewrite sortBy_perm. by eapply list_elem_of_fmap_2, list_elem_of_lookup_2.
Qed.
End Timestamps.

(** ** The layout *)

Section Layout.
Context (px : Z) (Hpx : 0 < px) (bbox : string -> Z) (data : list partitionVisualizationData) (Hd : drawable data).

Local Abbreviation parts := (partitionsFrom 0 data).
Local Abbreviation byGid := (concat (tweaked parts)).

Lemma preparePoints_ok : exists pts, preparePoints (length (concat parts)) (tweaked parts) data = Some pts /\
  prepared (length (concat parts)) (numbered (tweaked parts) data) pts.
Proof using Hd.
  destruct (prepared_all (length (concat parts)) (numbered (tweaked parts) data)) as (pts & Hp & Hpr).
  - intros pl Hpl. destruct (numbered_elem data pl Hpl) as (off & d & Hdin & Hl & -> & _).
    destruct (globalized_spec data Hd off d pl.2 Hdin Hl) as (gids & Hg & _). by exists gids.
  - exists pts. by rewrite preparePoints_numbered.
Qed.

(** All points of all sequences are there after the scan. *)
Lemma points_complete pts m lps : points_ok byGid pts -> lps_ok px byGid pts m lps ->
  (forall g, (g < length byGid)%nat -> has_points pts lps g) -> lps = ideal px byGid (xf m) <$> allLinearizations pts.
Proof using Type.
  intros Hok Hl Hp. apply list_eq_Forall2, Forall2_fmap_r, Forall2_flip. apply Forall2_same_length_lookup_2; [by eapply Forall2_length|].
  intros index lin lp Hlin Hlp. destruct (Forall2_lookup_lr _ _ _ _ _ _ Hl Hlin Hlp) as (Hle & Hid & _).
  destruct (decide (lin = [])) as [->|Hn]; [destruct lp; [done|cbn in Hle; lia]|]. destruct (lookup_lt_is_Some_2 lin (length lin - 1)) as [g Hg]; [destruct lin; [done|cbn; lia]|].
  assert ((index, (length lin - 1)%nat) ∈ own pts g) as Hown by (apply (po_own _ _ Hok); by exists lin).
  destruct (Hp g ltac:(eapply (po_gid _ _ Hok); [done|by eapply list_elem_of_lookup_2]) index _ Hown) as (lp' & Hlp' & Hlt).
  assert (lp' = lp) as -> by congruence. rewrite Hid. f_equal. apply firstn_all2. lia.
Qed.

Lemma no_points pts m : lps_ok px byGid pts m (replicate (length (allLinearizations pts)) []).
Proof using Type.
  apply Forall2_same_length_lookup_2; [by rewrite length_replicate|]. intros i lin lp _ [-> _]%lookup_replicate. cbn. split_and!; [lia|done|].
  intros g Hg%not_elem_of_nil. done.
Qed.

(** What the run of the layout leaves. *)
Record laid_out (pts : Points) (xPos : gmap Z Z) (lps : list (list Z)) : Prop := {
  lo_prepared : prepared (length (concat parts)) (numbered (tweaked parts) data) pts;
  lo_dom t : is_Some (xPos !! t) <-> t ∈ timestamps parts;
  lo_points : lps = ideal px byGid (xf xPos) <$> allLinearizations pts;
  lo_needs g : (g < length byGid)%nat -> needs px bbox byGid pts (xf xPos) g (xf xPos (en byGid g));
  lo_apart t t' : t ∈ timestamps parts -> t' ∈ timestamps parts -> t < t' -> xf xPos t + BOX_GAP px <= xf xPos t';
  lo_first t ts : timestamps parts = t :: ts -> xf xPos t = 0;
  lo_least y : (forall t, t ∈ timestamps parts -> 0 <= y t) ->
    (forall t t', t ∈ timestamps parts -> t' ∈ timestamps parts -> t < t' -> y t + BOX_GAP px <= y t') ->
    (forall g x, (g < length byGid)%nat -> (forall h, (h < length byGid)%nat -> st byGid h < en byGid g -> x (st byGid h) <= y (st byGid h)) -> needs px bbox byGid pts x g (y (en byGid g))) ->
    forall t, t ∈ timestamps parts -> xf xPos t <= y t
}.

(** Without timestamps there are no elements and no sequences. *)
Lemma laid_out_empty pts : timestamps parts = [] -> prepared (length (concat parts)) (numbered (tweaked parts) data) pts ->
  laid_out pts ∅ (replicate (length (allLinearizations pts)) []).
Proof using Hd.
  intros Et Hpr. pose proof (prepared_ok data Hd pts Hpr) as Hok. destruct (timestamps_spec data) as [_ Hin]. rewrite Et in Hin.
  assert (byGid = []) as E0 by (apply elem_of_nil_inv; intros e He; by destruct (Hin e He) as [?%not_elem_of_nil _]).
  split; rewrite ?Et, ?E0; [done| | | | | |].
  - intros t. split; [by intros [? ?]|by intros ?%not_elem_of_nil].
  - apply list_eq_Forall2, Forall2_fmap_r, Forall2_same_length_lookup_2; [by rewrite length_replicate|].
    intros i lp lin [-> _]%lookup_replicate Hlin. destruct lin as [|g lin]; [done|].
    pose proof (po_gid _ _ Hok i (g :: lin) g Hlin ltac:(by left)) as Hg. rewrite E0 in Hg. cbn in Hg. lia.
  - cbn. lia.
  - intros t t' ?%not_elem_of_nil. done.
  - done.
  - intros y _ _ _ t ?%not_elem_of_nil. done.
Qed.

(** The events are those of the elements. *)
Lemma events_numbers : (forall g, (g < length byGid)%nat -> exists ev, ev ∈ byEnd px bbox (tweaked parts) /\ ev_gid ev = g /\ ev_end ev = en byGid g) /\
  (forall ev, ev ∈ byEnd px bbox (tweaked parts) -> (ev_gid ev < length byGid)%nat /\ ev_end ev = en byGid (ev_gid ev)).
Proof using Type.
  destruct (byEnd_events data px bbox) as [Hev Hall]. split.
  - intros g Hg. destruct (lookup_lt_is_Some_2 byGid g Hg) as [e He]. exists (evOf px bbox e). destruct (byGid_lookup data g e He) as [Eg _].
    split_and!; [by eapply Hall|done|]. unfold en. by rewrite He.
  - intros ev He. rewrite Forall_forall in Hev. by destruct (is_event_spec _ _ _ _ (Hev ev He)) as (? & _ & ? & _).
Qed.

Lemma layout_run : exists pts xPos lps, layout px bbox parts data = Some (xPos, lps) /\ laid_out pts xPos lps.
Proof using Hd Hpx.
  destruct preparePoints_ok as (pts & Hpp & Hpr). pose proof (prepared_ok data Hd pts Hpr) as Hok. unfold layout. rewrite Hpp. cbn [mbind option_bind].
  destruct (timestamps_spec data) as [Hts Hin]. exists pts. pose proof (laid_out_empty pts) as Hnil. destruct (timestamps parts) as [|t ts] eqn:Et.
  { eexists _, _. split; [done|by apply Hnil]. }
  clear Hnil. destruct events_numbers as [Hevs Hevs'].
  destruct (scan_spec px Hpx bbox byGid pts Hok t ts {[t := 0]} (byEnd px bbox (tweaked parts)) (replicate (length (allLinearizations pts)) []))
    as (m & lps & Hrun & Hl & _ & Hp & (S1 & S2 & S3 & S4 & S5)).
  - done.
  - rewrite lookup_singleton_eq. by eexists.
  - intros t' Ht'. apply lookup_singleton_ne. intros <-. apply StronglySorted_cons in Hts as [Hf _]. rewrite Forall_forall in Hf. specialize (Hf _ Ht'). lia.
  - intros g Hg. destruct (lookup_lt_is_Some_2 byGid g Hg) as [e He]. unfold st. rewrite He. cbn. destruct (Hin e) as [Hs _]; [by eapply list_elem_of_lookup_2|].
    apply elem_of_cons in Hs as [->|]; [left; rewrite lookup_singleton_eq; by eexists|by right].
  - apply byEnd_events.
  - apply sortBy_sorted.
  - apply Forall_forall. intros ev He. destruct (proj1 (Forall_forall _ _) (proj1 (byEnd_events data px bbox)) ev He) as (e & Hg & _ & ->). cbn.
    eapply (end_not_first data Hd t ts); [done|by eapply list_elem_of_lookup_2].
  - apply no_points.
  - exists m, lps. split; [done|]. assert (xf m t = 0) as H0 by (unfold xf; by erewrite lookup_weaken; [|apply lookup_singleton_eq|done]).
    split; rewrite ?Et.
    + done.
    + intros t'. rewrite S2, elem_of_cons. split; [intros [Hs|?]; [left|by right]|intros [->|?]; [left|by right]].
      * destruct (decide (t' = t)) as [|Hn]; [done|]. rewrite lookup_singleton_ne in Hs by done. by destruct Hs.
      * rewrite lookup_singleton_eq. by eexists.
    + apply points_complete; [done..|]. intros g Hg. destruct (Hevs g Hg) as (ev & He & <- & _). by apply Hp.
    + intros g Hg. destruct (Hevs g Hg) as (ev & He & <- & <-). by apply S4.
    + by apply (gaps_pairs px Hpx).
    + intros t' ts' [= <- _]. done.
    + intros y Hy0 Hyg Hyn t' Ht'. apply elem_of_cons in Ht' as [->|Ht']; [rewrite H0; apply Hy0; by left|]. apply S5; [..|done].
      * intros t'' Hs. destruct (decide (t'' = t)) as [->|Hn]; [|rewrite lookup_singleton_ne in Hs by done; by destruct Hs].
        unfold xf. rewrite lookup_singleton_eq. cbn. apply Hy0. by left.
      * by apply (gaps_pairs px Hpx).
      * intros ev x He Hx. destruct (Hevs' ev He) as [Hg E]. rewrite E in *. by apply Hyn.
Qed.
End Layout.

Lemma layout_fits px bbox data :
  0 < px -> drawable data ->
  exists xPos lps, layout px bbox (partitionsFrom 0 data) data = Some (xPos, lps) /\
    (forall t, is_Some (xPos !! t) <-> t ∈ timestamps (partitionsFrom 0 data)) /\
    fits px bbox (partitionsFrom 0 data) data (xf xPos) lps /\
    forall y qs, fits px bbox (partitionsFrom 0 data) data y qs ->
      (forall t, t ∈ timestamps (partitionsFrom 0 data) -> xf xPos t <= y t) /\
      (forall i a q r v w, lps !! i = Some q -> q !! a = Some v -> qs !! i = Some r -> r !! a = Some w -> v <= w).
Proof.
  intros Hpx Hd. destruct (layout_run px Hpx bbox data Hd) as (pts & xPos & lps & Hrun & [Hpr Hdom -> Hn Ha H0 Hl]).
  pose proof (prepared_ok data Hd pts Hpr) as Hok. destruct (timestamps_spec data) as [Hts Hin]. exists xPos. eexists. split_and!; [done..| |].
  - assert (fits_gids px bbox (concat (tweaked (partitionsFrom 0 data))) pts (xf xPos) (ideal px (concat (tweaked (partitionsFrom 0 data))) (xf xPos) <$> allLinearizations pts)) as Hf.
    { apply needs_fits; [done|]. intros g Hg. split; [|by apply Hn]. pose proof (po_start _ _ Hok g Hg) as Hlt.
      destruct (lookup_lt_is_Some_2 _ g Hg) as [e He]. unfold st, en in *. rewrite He in *. cbn in *. apply list_elem_of_lookup_2 in He.
      destruct (Hin e He) as [Hs He']. specialize (Ha _ _ Hs He' Hlt). unfold BOX_GAP in Ha. lia. }
    apply (fits_numbers data Hd pts Hpr) in Hf as [Ht Hp]. split; [|done..]. intros t Ht'. destruct (timestamps (partitionsFrom 0 data)) as [|t0 ts] eqn:Et; [by apply not_elem_of_nil in Ht'|].
    specialize (H0 t0 ts eq_refl). apply elem_of_cons in Ht' as [->|Ht']; [lia|]. apply StronglySorted_cons in Hts as [Hall _]. rewrite Forall_forall in Hall.
    specialize (Ha t0 t ltac:(by left) ltac:(by right) (Hall t Ht')). unfold BOX_GAP in Ha. lia.
  - intros y qs [Hy0 Hya Hyt Hyp]. assert (fits_gids px bbox (concat (tweaked (partitionsFrom 0 data))) pts y qs) as Hf by (by apply (fits_numbers data Hd pts Hpr)).
    assert (forall t, t ∈ timestamps (partitionsFrom 0 data) -> xf xPos t <= y t) as Hle.
    { apply Hl; [done..|]. intros g x Hg Hx. by eapply fits_needs. }
    split; [done|]. intros i a q r v w Hq Hv Hr Hw. apply list_lookup_fmap_Some in Hq as (lin & -> & Hlin). apply ideal_inv in Hv as (g & Hg & ->).
    eapply fits_least; [done..|]. intros b h _ Hb. apply Hle. assert (h < length (concat (tweaked (partitionsFrom 0 data))))%nat as Hlt
      by (eapply (po_gid _ _ Hok); [done|by eapply list_elem_of_lookup_2]). destruct (lookup_lt_is_Some_2 _ h Hlt) as [e He].
    unfold st. rewrite He. cbn. apply Hin. by eapply list_elem_of_lookup_2.
Qed.
