(* ===== verification/RenderCheck.v ===== *)
(** * RenderCheck: the picture of a verbose check is laid out

    The data that a verbose check collects can be drawn, unless an operation starts at the very
    last timestamp, where the layout fails. *)

From S2P Require Import Prelude Bitset LinkedList Porcupine CheckerFacts CheckerSim CheckerInit CheckerSpec CheckerProps KvModel KvModelProps Visualization VisualizationProps Render RenderFacts RenderProps.
Local Open Scope Z_scope.

(** ** The layout of data that can be drawn *)

(** C26: the scan solves the layout problem that its comment states.  Data that can be drawn is laid
    out without NaN: every timestamp has a position.  Positions are not negative and [BOX_GAP] apart,
    texts and linearization points fit in their boxes, the points of a sequence are [EPSILON] apart,
    and every element that could follow a sequence has room for one more point.  The layout is
    the least one of those that fit: no timestamp and no point can be further left. *)
Theorem layout_least px bbox data :
  0 < px -> drawable data ->
  exists xPos lps, layout px bbox (partitionsFrom 0 data) data = Some (xPos, lps) /\
    (forall t, is_Some (xPos !! t) <-> t ∈ timestamps (partitionsFrom 0 data)) /\
    fits px bbox (partitionsFrom 0 data) data (xf xPos) lps /\
    forall y qs, fits px bbox (partitionsFrom 0 data) data y qs ->
      (forall t, t ∈ timestamps (partitionsFrom 0 data) -> xf xPos t <= y t) /\
      (forall i a q r v w, lps !! i = Some q -> q !! a = Some v -> qs !! i = Some r -> r !! a = Some w -> v <= w).
Proof. apply layout_fits. Qed.

(** ** The data of a check *)

Section Check.
Context {In Out T : Type} `{!EqDecision T} `{!Sorter (A:=entry (In + Out)) Less} `{!Sorter (A := list Z) longer}.
Context (fmt_input : In -> string) (fmt_output : Out -> string) (fmt_state : T -> string) (range_order : list nat -> list nat).
Implicit Types (model : Model In Out T) (ops : list (Operation In Out)).

Local Abbreviation elem_of_op := (fun model op => mkHistoryElement (op_ClientId op) (op_Call op) (op_Return op) (describeOperation fmt_input fmt_output model (op_Input op) (op_Output op))).

(** No operation starts at the very last timestamp. *)
Definition no_late_start (parts : list (list (Operation In Out))) : Prop :=
  forall op, op ∈ concat parts -> exists op', op' ∈ concat parts /\ op_Call op < op_Return op'.

Lemma not_precedes_starts_by model ops i j a b : ~ precedes ops j i -> ops !! i = Some a -> ops !! j = Some b -> starts_by (elem_of_op model a) (elem_of_op model b).
Proof using Type.
  intros Hn Ha Hb. unfold starts_by. cbn. destruct (Z.le_gt_cases (op_Call a) (op_Return b)) as [|Hlt]; [done|]. exfalso. apply Hn. by exists b, a.
Qed.

(** The steps of a legal run, in the terms of its operations. *)
Lemma step_op model ops order a s e : legal model ops (Init model) order -> stepsOf fmt_state model ops order !! a = Some s ->
  go_index (elem_of_op model <$> ops) (Index s) = Some e -> exists k op, order !! a = Some k /\ Index s = Z.of_nat k /\ ops !! k = Some op /\ e = elem_of_op model op.
Proof using Type.
  intros Hl Hs He. pose proof (stepsOf_ids fmt_state model ops order Hl) as Hids. assert (Index <$> stepsOf fmt_state model ops order !! a = Some (Index s)) as Hi by (by rewrite Hs).
  rewrite <- list_lookup_fmap, Hids in Hi. apply list_lookup_fmap_Some in Hi as (k & Ek & Hk). apply go_index_Some in He as [_ He]. rewrite Ek, Nat2Z.id in He.
  apply list_lookup_fmap_Some in He as (op & -> & Hop). by exists k, op.
Qed.

Lemma legal_ops model ops s order k : legal model ops s order -> k ∈ order -> exists op, ops !! k = Some op.
Proof using Type.
  revert s. induction order as [|k' order IH]; intros s Hl Hk; [by apply not_elem_of_nil in Hk|]. destruct Hl as (op & Hop & _ & Hl).
  apply elem_of_cons in Hk as [->|Hk]; [by exists op|by eapply IH].
Qed.

Lemma shows_drawable_lin model ops order :
  timely ops -> legal_partial model ops (Z.of_nat <$> order) -> drawable_lin (elem_of_op model <$> ops) (stepsOf fmt_state model ops order).
Proof using Type.
  intros Ht (order' & E & _ & Hl & Hs & Hc & Hne). apply (inj (fmap Z.of_nat)) in E as <-. pose proof (stepsOf_ids fmt_state model ops order Hl) as Hids. split.
  - intros Hops E. rewrite E in Hids. destruct ops as [|op ops]; [done|]. by destruct order; [apply Hne|].
  - intros s Hin. apply (list_elem_of_fmap_2 Index) in Hin. rewrite Hids in Hin. apply list_elem_of_fmap in Hin as (k & -> & Hk).
    destruct (legal_ops model ops _ order k Hl Hk) as [op Hop]. exists (elem_of_op model op). apply go_index_Some. rewrite Nat2Z.id, list_lookup_fmap, Hop.
    apply lookup_lt_Some in Hop. unfold zlen. rewrite length_fmap. split; [lia|done].
  - intros a b s s' e e' Hab Ha Hb He He'. destruct (step_op model ops order a s e Hl Ha He) as (k & op & Hk & _ & Hop & ->).
    destruct (step_op model ops order b s' e' Hl Hb He') as (k' & op' & Hk' & _ & Hop' & ->). destruct (decide (a = b)) as [->|Hn].
    + assert (op' = op) as -> by congruence. unfold starts_by. cbn. by apply (proj1 (Forall_lookup (fun op => op_Call op <= op_Return op) ops) Ht k).
    + eapply not_precedes_starts_by; [|done..]. exact (sorted_lookup (fun i j => ~ precedes ops j i) order a b k k' Hs ltac:(lia) Hk Hk').
  - intros s e k' e' Hin He Hk' Hn. apply list_elem_of_lookup in Hin as (a & Ha). destruct (step_op model ops order a s e Hl Ha He) as (k & op & Hk & _ & Hop & ->).
    apply list_lookup_fmap_Some in Hk' as (op' & -> & Hop'). eapply not_precedes_starts_by; [|done..]. apply Hc; [by eapply list_elem_of_lookup_2|].
    rewrite Hids in Hn. intros Hin. by apply Hn, list_elem_of_fmap_2.
Qed.

Lemma shows_elements model parts data e : Forall2 (shows fmt_input fmt_output fmt_state model) parts data ->
  (e ∈ elements_of data <-> exists op, op ∈ concat parts /\ e = elem_of_op model op).
Proof using Type.
  induction 1 as [|ops d parts data [Hh _] HF IH]; unfold elements_of; cbn; [set_solver|]. rewrite elem_of_app. unfold elements_of in IH. rewrite IH, Hh, list_elem_of_fmap. split.
  - intros [(op & -> & Hop)|(op & Hop & ->)]; exists op; (split; [|done]); apply elem_of_app; [by left|by right].
  - intros (op & [Hop|Hop]%elem_of_app & ->); [left|right]; by exists op.
Qed.

Lemma shows_drawable model parts data :
  Forall2 (shows fmt_input fmt_output fmt_state model) parts data -> Forall timely parts -> no_late_start parts -> drawable data.
Proof using Type.
  intros HF Ht Hlate. split.
  - intros e (op & Hop & ->)%(shows_elements model parts data _ HF). apply list_elem_of_concat in Hop as (ops & Hop & Hops).
    rewrite Forall_forall in Ht. specialize (Ht ops Hops). unfold timely in Ht. rewrite Forall_forall in Ht. by apply Ht.
  - intros e (op & Hop & ->)%(shows_elements model parts data _ HF). destruct (Hlate op Hop) as (op' & Hop' & Hlt). exists (elem_of_op model op').
    split; [|done]. apply (shows_elements model parts data _ HF). by exists op'.
  - intros d lin (i & Hi)%list_elem_of_lookup Hlin. destruct (Forall2_lookup_r _ _ _ _ _ HF Hi) as (ops & Hops & (Hh & orders & Hl & Hleg & _)).
    rewrite Hl in Hlin. apply list_elem_of_fmap in Hlin as (o & -> & Ho). rewrite Hh. apply shows_drawable_lin.
    + rewrite Forall_forall in Ht. apply Ht. by eapply list_elem_of_lookup_2.
    + rewrite Forall_forall in Hleg. by apply Hleg.
Qed.

(** From a verbose check to the page.  Whatever the answer and whenever the searches were killed, the
    data computed from the information that [CheckOperationsVerbose] returns is laid out by the
    page: every timestamp has a position, and texts and linearization points fit.  No operation
    may start at the very last timestamp. *)
Theorem check_laid_out fuel model ops kills sched res info px bbox :
  0 < px -> (forall sub, sub ∈ partitions model ops -> timely sub /\ (searchFuel sub <= fuel)%nat) -> no_late_start (partitions model ops) ->
  CheckOperationsVerbose fmt_input fmt_output fmt_state range_order fuel model ops kills sched = Some (res, Some info) ->
  exists data xPos lps, computeVisualizationData fmt_input fmt_output fmt_state model info = Some data /\
    layout px bbox (partitionsFrom 0 data) data = Some (xPos, lps) /\ fits px bbox (partitionsFrom 0 data) data (xf xPos) lps.
Proof using Type.
  intros Hpx Hsub Hlate Hrun. destruct (visualization_shows fmt_input fmt_output fmt_state range_order fuel model ops kills sched res info Hsub Hrun) as (data & Hdata & HF).
  assert (drawable data) as Hd by (eapply shows_drawable; [done|apply Forall_forall; intros; by apply Hsub|done]).
  destruct (layout_fits px bbox data Hpx Hd) as (xPos & lps & Hl & _ & Hf & _). by exists data, xPos, lps.
Qed.
End Check.

(** ** An operation at the very last timestamp *)

Section Stuck.
Context (px : Z) (byGid : list El) (pts : Points).

Lemma placeEvents_stuck m t events pos lps ev :
  StronglySorted (key_le ev_end) events -> ev ∈ events -> ev_end ev <= t -> m !! ev_start ev = None ->
  placeEvents px byGid pts m t events pos lps = None.
Proof using Type.
  intros Hs. revert pos lps. induction Hs as [|ev' events Hs IH Hle]; intros pos lps Hin Hend Hm; [by apply not_elem_of_nil in Hin|]. cbn [placeEvents].
  rewrite Forall_forall in Hle. apply elem_of_cons in Hin as [->|Hin].
  - destruct (Z.leb_spec (ev_end ev') t); [|lia]. unfold placeEvent. by rewrite Hm.
  - specialize (Hle ev Hin). unfold key_le in Hle. destruct (Z.leb_spec (ev_end ev') t); [|lia].
    destruct (placeEvent px byGid pts m ev' pos lps) as [[pos' lps']|]; [|done]. cbn. by apply IH.
Qed.

Lemma placeEvents_rest m t events pos lps rest pos' lps' ev :
  placeEvents px byGid pts m t events pos lps = Some (rest, pos', lps') -> StronglySorted (key_le ev_end) events -> ev ∈ events -> t < ev_end ev ->
  StronglySorted (key_le ev_end) rest /\ ev ∈ rest.
Proof using Type.
  intros Hrun Hs. revert pos lps Hrun. induction Hs as [|ev' events Hs IH Hle]; intros pos lps Hrun Hin Hend; [by apply not_elem_of_nil in Hin|]. cbn [placeEvents] in Hrun.
  destruct (Z.leb_spec (ev_end ev') t).
  - apply elem_of_cons in Hin as [->|Hin]; [lia|]. apply bind_Some in Hrun as ([p l] & _ & Hrun). by eapply IH.
  - injection Hrun as <- _ _. split; [by constructor|done].
Qed.

Lemma scan_stuck prev ts m events lps ev :
  StronglySorted Z.lt (prev :: ts) -> ev_start ev ∈ ts -> (forall t, t ∈ ts -> t <= ev_start ev) -> ev_end ev = ev_start ev ->
  m !! ev_start ev = None -> ev ∈ events -> StronglySorted (key_le ev_end) events -> scan px byGid pts prev ts m events lps = None.
Proof using Type.
  revert prev m events lps. induction ts as [|t ts IH]; intros prev m events lps Hts Hin Hmax He Hm Hev Hes; [by apply not_elem_of_nil in Hin|]. cbn [scan].
  destruct (m !! prev) as [pp|]; [|done]. cbn [mbind option_bind]. destruct (decide (t = ev_start ev)) as [->|Hn].
  { by rewrite (placeEvents_stuck _ _ _ _ _ ev) by (done || lia). }
  apply elem_of_cons in Hin as [<-|Hin]; [done|]. specialize (Hmax t ltac:(by left)) as Hle.
  destruct (placeEvents px byGid pts m t events (pp + BOX_GAP px) lps) as [[[rest pos] lps']|] eqn:Hrun; [|done]. cbn [mbind option_bind].
  destruct (placeEvents_rest _ _ _ _ _ _ _ _ ev Hrun Hes Hev) as [Hes' Hev']; [lia|]. apply StronglySorted_cons in Hts as [_ Hts].
  apply IH; [done|done|intros; apply Hmax; by right|done|by rewrite lookup_insert_ne|done..].
Qed.
End Stuck.

Lemma nextTs_inv l t n : StronglySorted Z.lt l -> nextTs l !! t = Some n -> t < n /\ n ∈ l.
Proof.
  induction l as [|a l IH]; intros Hs H; [done|]. apply StronglySorted_cons in Hs as [Hall Hs]. rewrite Forall_forall in Hall. destruct l as [|b l]; [done|].
  cbn [nextTs] in H. apply lookup_insert_Some in H as [[<- <-]|[_ H]]; [split; [apply Hall; by left|right; by left]|]. destruct (IH Hs H). split; [done|by right].
Qed.

(** Ends move only up to the last timestamp. *)
Lemma tweakEnd_max (starts ts : gset Z) M e :
  (forall t, t ∈ ts -> t <= M) -> el_End e <= M ->
  el_End e <= el_End (tweakEnd starts (nextTs (sortedTimestamps ts)) e) <= M.
Proof.
  intros Hmax He. unfold tweakEnd. case_bool_decide; [|lia]. destruct (nextTs _ !! _) as [n|] eqn:En; [|lia]. cbn [el_End].
  destruct (sortedTimestamps_spec ts) as [Hs Hel]. destruct (nextTs_inv _ _ _ Hs En) as [Hlt Hin]. apply Hel, Hmax in Hin.
  pose proof (Z.div_le_upper_bound (el_End e + n) 2 M ltac:(lia) ltac:(lia)). pose proof (Z.div_le_lower_bound (el_End e + n) 2 (el_End e) ltac:(lia) ltac:(lia)). lia.
Qed.

(** An operation that starts at the very last timestamp breaks the page.  Its end cannot be moved behind its
    start, so when the scan places its end its start has no position: all that follows is NaN. *)
Theorem late_start_no_layout px bbox data e e' :
  e ∈ elements_of data -> e' ∈ elements_of data -> starts_by e e -> Start e' < Start e ->
  (forall f, f ∈ elements_of data -> Start f <= Start e /\ End_ f <= Start e) ->
  layout px bbox (partitionsFrom 0 data) data = None.
Proof.
  intros He He' Hse Hlt Hmax. unfold layout. destruct (preparePoints _ _ _) as [pts|]; [|done]. cbn [mbind option_bind].
  set (parts := partitionsFrom 0 data). set (M := 2 * Start e).
  assert (forall t, t ∈ allTimestamps parts -> t <= M) as Hall.
  { intros t. unfold allTimestamps, startTimestamps. rewrite elem_of_union, !elem_of_list_to_set, !list_elem_of_fmap.
    intros [(x & -> & Hx)|(x & -> & Hx)]; destruct (elements_concat 0 data x Hx) as (h & g & Hh & ->); destruct (Hmax h Hh); cbn; unfold M; lia. }
  destruct (timestamps_spec data) as [Hts Hin]. fold parts in Hts, Hin.
  destruct (concat_elements 0 data e He) as [g Hg], (concat_elements 0 data e' He') as [g' Hg']. fold parts in Hg, Hg'.
  set (f := tweakEnd (startTimestamps parts) (nextTs (sortedTimestamps (allTimestamps parts)))) in *.
  assert (forall x, x ∈ concat parts -> f x ∈ concat (tweaked parts)) as Htw by (intros x Hx; unfold parts in *; rewrite tweaked_concat; by apply list_elem_of_fmap_2).
  assert (forall x, x ∈ concat parts -> el_Start (f x) = el_Start x) as Hst by (intros x _; by apply twk_same).
  assert (el_End (f (elOf g e)) = M) as Hend.
  { destruct (tweakEnd_max (startTimestamps parts) (allTimestamps parts) M (elOf g e) Hall) as [H1 H2]; [cbn; destruct (Hmax e He); unfold M; lia|].
    fold f in H1, H2. unfold starts_by in Hse. cbn in H1. unfold M in *. lia. }
  assert (forall t, t ∈ timestamps parts -> t <= M) as Hmax'.
  { intros t. unfold timestamps. rewrite (proj2 (sortedTimestamps_spec _)), elem_of_union, elem_of_list_to_set, list_elem_of_fmap. intros [Ht|(x & -> & Hx)]; [by apply Hall|].
    unfold parts in Hx. rewrite tweaked_concat in Hx. apply list_elem_of_fmap in Hx as (y & -> & Hy). apply tweakEnd_max; [done|].
    destruct (elements_concat 0 data y Hy) as (h & gy & Hh & ->). destruct (Hmax h Hh). cbn. unfold M. lia. }
  destruct (Hin _ (Htw _ Hg)) as [HM _], (Hin _ (Htw _ Hg')) as [Hs' _]. rewrite Hst in HM, Hs' by done. cbn [elOf el_Start] in HM, Hs'.
  destruct (timestamps parts) as [|t ts]; [by apply not_elem_of_nil in HM|]. apply StronglySorted_cons in Hts as Hts'. destruct Hts' as [Hlow _]. rewrite Forall_forall in Hlow.
  assert (t < M) as HtM.
  { apply elem_of_cons in Hs' as [<-|Hs']; [unfold M; lia|]. specialize (Hlow _ Hs'). unfold M. lia. }
  apply (scan_stuck px _ pts t ts _ _ _ (evOf px bbox (f (elOf g e)))); cbn [evOf ev_start ev_end]; rewrite ?Hst, ?Hend by done; cbn [elOf el_Start].
  - done.
  - apply elem_of_cons in HM as [E|]; [unfold M in HtM; lia|done].
  - intros t' Ht'. apply Hmax'. by right.
  - done.
  - apply lookup_singleton_ne. fold M. lia.
  - unfold byEnd. rewrite sortBy_perm. apply list_elem_of_fmap_2. by apply Htw.
  - apply sortBy_sorted.
Qed.

(** ** The picture of a read of an old value *)

(** Texts of ten pixels a character. *)
Definition ten_pixels (s : string) : Z := 10 * Z.of_nat (String.length s).

Definition stale_data : list partitionVisualizationData := default [] (computeVisualizationData fmt_in fmt_out fmt_st KvModel stale_info).

Lemma stale_check : CheckOperationsVerbose fmt_in fmt_out fmt_st (fun l => l) (searchFuel stale_history) KvModel stale_history (fun _ _ => 0) [Recv 0]
    = Some (Illegal, Some stale_info).
Proof. by vm_compute. Qed.

Lemma stale_parts sub : sub ∈ partitions KvModel stale_history -> timely sub /\ (searchFuel sub <= searchFuel stale_history)%nat.
Proof.
  intros Hsub. vm_compute in Hsub. apply elem_of_cons in Hsub as [-> | Hsub]; [|by apply not_elem_of_nil in Hsub].
  split; [repeat constructor; cbn; lia|vm_compute; lia].
Qed.

Lemma stale_no_late_start : no_late_start (partitions KvModel stale_history).
Proof.
  unfold no_late_start. assert (concat (partitions KvModel stale_history) = stale_history) as -> by (by vm_compute). intros op Hop. exists stale. split; [right; by left|].
  apply elem_of_cons in Hop as [->|Hop]; [by vm_compute|]. apply list_elem_of_singleton in Hop as ->. by vm_compute.
Qed.

Lemma stale_drawable : drawable stale_data.
Proof.
  destruct (visualization_shows fmt_in fmt_out fmt_st (fun l => l) _ _ _ _ _ _ _ stale_parts stale_check) as (data & Hdata & HF).
  unfold stale_data. rewrite Hdata. eapply shows_drawable; [exact HF|apply Forall_forall; intros; by apply stale_parts|apply stale_no_late_start].
Qed.

Lemma layout_least_witness :
  exists xPos lps, layout 1 ten_pixels (partitionsFrom 0 stale_data) stale_data = Some (xPos, lps) /\
    fits 1 ten_pixels (partitionsFrom 0 stale_data) stale_data (xf xPos) lps.
Proof.
  destruct (layout_least 1 ten_pixels stale_data ltac:(lia) stale_drawable) as (xPos & lps & Hl & _ & Hf & _). by exists xPos, lps.
Defined.

Lemma check_laid_out_witness :
  exists data xPos lps, computeVisualizationData fmt_in fmt_out fmt_st KvModel stale_info = Some data /\
    layout 1 ten_pixels (partitionsFrom 0 data) data = Some (xPos, lps) /\ fits 1 ten_pixels (partitionsFrom 0 data) data (xf xPos) lps.
Proof.
  exact (check_laid_out fmt_in fmt_out fmt_st (fun l => l) (searchFuel stale_history) KvModel stale_history (fun _ _ => 0) [Recv 0] Illegal stale_info 1 ten_pixels
    ltac:(lia) stale_parts stale_no_late_start stale_check).
Defined.

(** A put from 0 to 1, and a get at 1 that takes no time. *)
Definition late_data : list partitionVisualizationData :=
  [mkData [mkHistoryElement 0 0 1 "put"; mkHistoryElement 1 1 1 "get"] [] ∅].

Lemma late_start_no_layout_witness : layout 1 ten_pixels (partitionsFrom 0 late_data) late_data = None.
Proof.
  apply (late_start_no_layout 1 ten_pixels late_data (mkHistoryElement 1 1 1 "get") (mkHistoryElement 0 0 1 "put")).
  - right. by left.
  - by left.
  - unfold starts_by. cbn. lia.
  - cbn. lia.
  - intros f [->|[->|Hf%not_elem_of_nil]%elem_of_cons]%elem_of_cons; cbn; [lia..|done].
Defined.
