(* ===== verification/RenderDraw.v ===== *)
(** * RenderDraw: what the page of the checker draws
      (src/6.5840-golabs-2024/src/porcupine/visualization.go, the drawing part of [render])

    The shapes are values with their coordinates; a group of the document is the list of its
    shapes.  The centre of a text is kept doubled, because the script halves a width.  [None] is an
    exception or a NaN, as in the layout. *)

From stdpp Require Import pretty.
From S2P Require Import Prelude Bitset LinkedList Porcupine Visualization Render.
Local Open Scope Z_scope.

Inductive Shape :=
| Rect (x y width height : Z) (class : string)
| Text (x2 y : Z) (class content : string)
| Line (x1 x2 y1 y2 : Z) (class : string).

(** A history element on the page: the shapes of its group, and the target of the mouse. *)
Record Box := mkBox { bx_rect : Shape; bx_text : Shape; bx_target : Shape; data_partition : nat; data_index : nat }.

(** An entry of [errorPoints]; [er_layer] is the group of its element. *)
Record ErrorPoint := mkErr { er_x : Z; er_partition : nat; er_index : Z; er_layer : nat }.

(** What is drawn for the partial linearizations of a partition. *)
Record Partials := mkPartials {
  partialLayers : list (list Shape);
  illegalLast : list (gset Z);
  largestIllegal : gmap Z nat;
  largestIllegalLength : gmap Z Z;
  errorPoints : list ErrorPoint
}.

Record Page := mkPage {
  pg_height : Z;
  pg_width : Z;
  pg_background : list Shape;
  historyRects : list (list Box);
  pg_partials : list Partials;
  pg_errorPoints : list ErrorPoint
}.

Section Draw.
Context (px : Z).
Local Abbreviation PADDING := (PADDING px).
Local Abbreviation BOX_HEIGHT := (BOX_HEIGHT px).
Local Abbreviation BOX_SPACE := (BOX_SPACE px).
Local Abbreviation XOFF := (XOFF px).
Local Abbreviation EPSILON := (EPSILON px).
Local Abbreviation LINE_BLEED := (LINE_BLEED px).

(** ** Background *)

Definition pageHeight (nClient : Z) : Z := 2 * PADDING + BOX_HEIGHT * nClient + BOX_SPACE * (nClient - 1).
Definition pageWidth (xLast : Z) : Z := 2 * PADDING + XOFF + xLast.

Definition clientText (i : nat) : Shape :=
  Text XOFF (PADDING + BOX_HEIGHT / 2 + Z.of_nat i * (BOX_HEIGHT + BOX_SPACE)) "" (pretty i).
Definition background (nClient height width : Z) : list Shape :=
  Rect 0 0 width height "bg" :: (clientText <$> seq 0 (Z.to_nat nClient)) ++
  [Line (PADDING + XOFF) (PADDING + XOFF) PADDING (height - PADDING) "divider"].

(** ** History *)

Section Positions.
Context (xPos : gmap Z Z).

Definition rowY (e : El) : Z := PADDING + el_ClientId e * (BOX_HEIGHT + BOX_SPACE).

Definition drawElement (partitionIndex elIndex : nat) (e : El) : option Box :=
  rx ← xPos !! el_Start e;
  xEnd ← xPos !! el_End e;
  let width := xEnd - rx in
  let x := rx + XOFF + PADDING in
  let y := rowY e in
  Some (mkBox (Rect x y width BOX_HEIGHT "history-rect") (Text (2 * x + width) (y + BOX_HEIGHT / 2) "history-text" (el_Description e))
    (Rect x y width BOX_HEIGHT "target-rect") partitionIndex elIndex).

Definition drawHistory (partitionIndex : nat) (p : list El) : option (list Box) :=
  mapM (fun ie : nat * El => drawElement partitionIndex ie.1 ie.2) (imap pair p).

(** ** Partial linearizations *)

(** [prevX], [prevY] and [prevEl], [None] when they are null. *)
Abbreviation Prev := (option (Z * Z * El)).

Definition pointX (prev : Prev) (e : El) : option Z :=
  start ← xPos !! el_Start e;
  let hereX := PADDING + XOFF + start in
  Some (match prev with Some (prevX, _, _) => Z.max hereX (prevX + EPSILON) | None => hereX end).
Definition pointY (e : El) : Z := rowY e - LINE_BLEED.

(** The line from the previous point. *)
Definition fromPrev (prevX prevY : Z) (prevEl : El) (x y : Z) (e : El) (class : string) : Shape :=
  Line prevX x
    (if el_ClientId e <=? el_ClientId prevEl then prevY else prevY + BOX_HEIGHT + 2 * LINE_BLEED)
    (if el_ClientId prevEl <=? el_ClientId e then y else y + BOX_HEIGHT + 2 * LINE_BLEED) class.
Definition pointLine (x y : Z) (class : string) : Shape := Line x x y (y + BOX_HEIGHT + 2 * LINE_BLEED) class.

(** The loop over one linearization. *)
Fixpoint drawPoints (p : list El) (prev : Prev) (lin : list linearizationStep) : option (list Shape * Prev) :=
  match lin with
  | [] => Some ([], prev)
  | id :: lin =>
      e ← go_index p (Index id);
      x ← pointX prev e;
      let y := pointY e in
      let line := match prev with
        | Some (prevX, prevY, prevEl) => [fromPrev prevX prevY prevEl x y e "linearization linearization-line"]
        | None => []
        end in
      '(shapes, prev) ← drawPoints p (Some (x, y, e)) lin;
      Some (line ++ pointLine x y "linearization linearization-point" :: shapes, prev)
  end.

(** One element that could come next: its shapes and its point. *)
Definition drawIllegal (prev : Prev) (e : El) : option (list Shape * Z) :=
  x ← pointX prev e;
  let y := pointY e in
  '(prevX, prevY, prevEl) ← prev;
  Some ([fromPrev prevX prevY prevEl x y e "linearization-invalid linearization-line";
         pointLine x y "linearization-invalid linearization-point"], x).

(** The loop over the elements that could come next after linearization [linIndex], of length [len] and
    with last index [lastIndex]. *)
Definition addIllegal (partitionIndex linIndex : nat) (len : Z) (lastIndex : option Z) (prev : Prev)
    (st : option (list Shape * gset Z * gmap Z nat * gmap Z Z * list ErrorPoint)) (ie : nat * El)
    : option (list Shape * gset Z * gmap Z nat * gmap Z Z * list ErrorPoint) :=
  '(shapes, last_, largest, lengths, errors) ← st;
  '(new, x) ← drawIllegal prev ie.2;
  li ← lastIndex;
  let index := Z.of_nat ie.1 in
  let better := match lengths !! index with Some l => l <? len | None => true end in
  Some (shapes ++ new, last_ ∪ {[index]}, if better then <[index := linIndex]> largest else largest,
        if better then <[index := len]> lengths else lengths, errors ++ [mkErr x partitionIndex li linIndex]).

Definition drawLinearization (partitionIndex : nat) (p : list El) (st : option Partials) (il : nat * list linearizationStep) : option Partials :=
  st ← st;
  let '(linIndex, lin) := il in
  '(shapes, prev) ← drawPoints p None lin;
  '(shapes, last_, largest, lengths, errors) ←
    foldl (addIllegal partitionIndex linIndex (zlen lin) (Index <$> last lin) prev)
      (Some (shapes, ∅, largestIllegal st, largestIllegalLength st, errorPoints st)) (nextElements p (Index <$> lin));
  Some (mkPartials (partialLayers st ++ [shapes]) (illegalLast st ++ [last_]) largest lengths errors).

Definition drawPartials (partitionIndex : nat) (p : list El) (lins : list (list linearizationStep)) : option Partials :=
  foldl (drawLinearization partitionIndex p) (Some (mkPartials [] [] ∅ ∅ [])) (imap pair lins).
End Positions.

(** ** The page *)

Definition draw (bbox : string -> Z) (data : list partitionVisualizationData) : option Page :=
  let parts := partitionsFrom 0 data in
  '(xPos, _) ← layout px bbox parts data;
  xLast ← last (timestamps parts) ≫= fun t => xPos !! t;
  let height := pageHeight (nClient parts) in
  let width := pageWidth xLast in
  rects ← mapM (fun ip : nat * list El => drawHistory xPos ip.1 ip.2) (imap pair (tweaked parts));
  partials ← mapM (fun ipd : nat * (list El * partitionVisualizationData) =>
    drawPartials xPos ipd.1 ipd.2.1 (PartialLinearizations ipd.2.2)) (imap pair (zip (tweaked parts) data));
  Some (mkPage height width (background (nClient parts) height width) rects partials
    (sortBy er_x (partials ≫= errorPoints))).
End Draw.
