(* ===== verification/RenderUi.v ===== *)
(** * RenderUi: how the page of the checker reacts
      (src/6.5840-golabs-2024/src/porcupine/visualization.go, the event handlers of [render])

    The state is the variables of the script and the classes and styles that the handlers change.
    An event names the box under the mouse.  [None] is an exception. *)

From stdpp Require Import pretty.
From S2P Require Import Prelude Bitset LinkedList Porcupine Visualization Render RenderDraw.
Local Open Scope Z_scope.

(** ** Values in arrays, and their comparison *)

Inductive Val := Null | Num (z : Z) | Bool (b : bool).

#[export] Instance Val_eq_dec : EqDecision Val.
Proof. solve_decision. Defined.

Fixpoint sameVals (a b : list Val) : bool :=
  match a, b with
  | x :: a, y :: b => if decide (x = y) then sameVals a b else false
  | _, _ => true
  end.
Definition arrayEq (a b : list Val) : bool :=
  if (length a =? length b)%nat then sameVals a b else false.

(** ** State *)

Record Ui := mkUi {
  selected : bool;
  selectedIndex : Z * Z;
  (** the class "hidden" of the layers *)
  historyHidden : list bool;
  partialHidden : list (list bool);
  (** the class "selected" of the rectangles *)
  rectSelected : list (list bool);
  (** the link: its class "inactive", the point of its handler, and what was scrolled to *)
  jumpInactive : bool;
  jumpPoint : option ErrorPoint;
  scrolledTo : option ErrorPoint;
  (** the tooltip *)
  opacity : Z;
  innerHTML : string;
  lastTooltip : list Val;
  tooltipAt : option (Z * Z)
}.

Definition noTooltip : list Val := [Null; Null; Null; Null; Null].

Definition set_hidden (h : list bool) (p : list (list bool)) (st : Ui) : Ui :=
  mkUi (selected st) (selectedIndex st) h p (rectSelected st) (jumpInactive st) (jumpPoint st) (scrolledTo st) (opacity st) (innerHTML st) (lastTooltip st) (tooltipAt st).
Definition set_selected (s : bool) (i : Z * Z) (st : Ui) : Ui :=
  mkUi s i (historyHidden st) (partialHidden st) (rectSelected st) (jumpInactive st) (jumpPoint st) (scrolledTo st) (opacity st) (innerHTML st) (lastTooltip st) (tooltipAt st).
Definition set_rects (r : list (list bool)) (st : Ui) : Ui :=
  mkUi (selected st) (selectedIndex st) (historyHidden st) (partialHidden st) r (jumpInactive st) (jumpPoint st) (scrolledTo st) (opacity st) (innerHTML st) (lastTooltip st) (tooltipAt st).
Definition set_jump (b : bool) (p : option ErrorPoint) (st : Ui) : Ui :=
  mkUi (selected st) (selectedIndex st) (historyHidden st) (partialHidden st) (rectSelected st) b p (scrolledTo st) (opacity st) (innerHTML st) (lastTooltip st) (tooltipAt st).
Definition set_scrolled (p : ErrorPoint) (st : Ui) : Ui :=
  mkUi (selected st) (selectedIndex st) (historyHidden st) (partialHidden st) (rectSelected st) (jumpInactive st) (jumpPoint st) (Some p) (opacity st) (innerHTML st) (lastTooltip st) (tooltipAt st).
Definition set_tooltip (o : Z) (html : string) (last_ : list Val) (st : Ui) : Ui :=
  mkUi (selected st) (selectedIndex st) (historyHidden st) (partialHidden st) (rectSelected st) (jumpInactive st) (jumpPoint st) (scrolledTo st) o html last_ (tooltipAt st).
Definition set_tooltipAt (xy : Z * Z) (st : Ui) : Ui :=
  mkUi (selected st) (selectedIndex st) (historyHidden st) (partialHidden st) (rectSelected st) (jumpInactive st) (jumpPoint st) (scrolledTo st) (opacity st) (innerHTML st) (lastTooltip st) (Some xy).

(** [a[i][j] = x]. *)
Definition store2 (a : list (list bool)) (i j : Z) (x : bool) : option (list (list bool)) :=
  row ← go_index a i; row ← go_store row j x; go_store a i row.

Section Ui.
Context (data : list partitionVisualizationData) (page : Page).

(** ** What to show for an element *)

Definition linearizationIndex (partition index : Z) : option (option Z) :=
  d ← go_index data partition;
  match Largest d !! index with
  | Some q => Some (Some q)
  | None =>
      p ← go_index (pg_partials page) partition;
      match largestIllegal p !! index with
      | Some q => Some (Some (Z.of_nat q))
      | None => Some None
      end
  end.

(** The first point whose group is not hidden becomes the target of the link. *)
Definition isHidden (hidden : list (list bool)) (pt : ErrorPoint) : bool :=
  default false (row ← hidden !! er_partition pt; row !! er_layer pt).
Definition updateJump (st : Ui) : Ui :=
  match List.find (fun pt => negb (isHidden (partialHidden st) pt)) (pg_errorPoints page) with
  | Some point => set_jump false (Some point) st
  | None => set_jump true (jumpPoint st) st
  end.

Definition highlight (partition index : Z) (st : Ui) : option Ui :=
  let history := imap (fun i _ => negb (Z.of_nat i =? partition)) (historyHidden st) in
  let partials := (fun layer : list bool => (fun _ => true) <$> layer) <$> partialHidden st in
  maxIndex ← linearizationIndex partition index;
  partials ← match maxIndex with
    | Some m => store2 partials partition m false
    | None => Some partials
    end;
  Some (updateJump (set_hidden history partials st)).

Definition resetHighlight (st : Ui) : Ui :=
  updateJump (set_hidden ((fun _ => false) <$> historyHidden st)
    ((fun layers : list bool => imap (fun i _ => negb (i =? 0)%nat) layers) <$> partialHidden st) st).

(** ** Selection *)

Definition select (partition index : Z) (st : Ui) : option Ui :=
  st ← highlight partition index (set_selected true (partition, index) st);
  rects ← store2 (rectSelected st) partition index true;
  Some (set_rects rects st).

Definition deselect (st : Ui) : option Ui :=
  if negb (selected st) then Some st
  else
    let st := resetHighlight (set_selected false (selectedIndex st) st) in
    rects ← store2 (rectSelected st) (selectedIndex st).1 (selectedIndex st).2 false;
    Some (set_rects rects st).

(** ** The tooltip *)

(** The loop over the steps: the one before the element, and the element's. *)
Fixpoint findStep (index : Z) (curr : option linearizationStep) (lin : list linearizationStep) : option (option linearizationStep * linearizationStep) :=
  match lin with
  | [] => None
  | s :: lin => if Index s =? index then Some (curr, s) else findStep index (Some s) lin
  end.

Definition times (e : historyElement) : string :=
  "<br><br>Call: " +:+ pretty (Start e) +:+ "<br><br>Return: " +:+ pretty (End_ e).
Definition previousState (s : linearizationStep) : string := "<strong>Previous state:</strong><br>" +:+ StateDescription s.

(** What the tooltip says for a box, given the selection. *)
Definition tooltipText (sel : bool) (sPartition sIndex partition index : Z) : option string :=
  maxIndex ← (if negb sel then linearizationIndex partition index else linearizationIndex sPartition sIndex);
  if sel && negb (sPartition =? partition) then Some "Not part of selected partition."
  else match maxIndex with
  | None =>
      Some (if negb sel then "Not part of any partial linearization."
            else "Selected element is not part of any partial linearization.")
  | Some m =>
      d ← go_index data partition;
      lin ← go_index (PartialLinearizations d) m;
      e ← go_index (History d) index;
      match findStep index None lin with
      | Some (prev, curr) =>
          Some ((match prev with Some s => previousState s +:+ "<br><br>" | None => "" end) +:+
                "<strong>New state:</strong><br>" +:+ StateDescription curr +:+ times e)
      | None =>
          p ← go_index (pg_partials page) partition;
          illegal ← go_index (illegalLast p) m;
          if bool_decide (index ∈ illegal)
          then s ← last lin; Some (previousState s +:+ "<br><br><strong>New state:</strong><br>&langle;invalid op&rangle;" +:+ times e)
          else Some "Not part of selected element's partial linearization."
      end
  end.

(** ** Handlers *)

Definition handleMouseOver (partition index : Z) (st : Ui) : option Ui :=
  st ← (if negb (selected st) then highlight partition index st else Some st);
  Some (set_tooltip 1 (innerHTML st) (lastTooltip st) st).

Definition handleMouseMove (partition index pageX pageY : Z) (st : Ui) : option Ui :=
  let '(sPartition, sIndex) := selectedIndex st in
  let thisTooltip := [Num partition; Num index; Bool (selected st); Num sPartition; Num sIndex] in
  st ← (if negb (arrayEq (lastTooltip st) thisTooltip)
        then msg ← tooltipText (selected st) sPartition sIndex partition index;
             Some (set_tooltip (opacity st) msg thisTooltip st)
        else Some st);
  Some (set_tooltipAt (pageX + 20, pageY + 20) st).

Definition handleMouseOut (st : Ui) : Ui :=
  let st := if negb (selected st) then resetHighlight st else st in
  set_tooltip 0 (innerHTML st) noTooltip st.

Definition handleClick (partition index : Z) (st : Ui) : option Ui :=
  if selected st then
    let '(sPartition, sIndex) := selectedIndex st in
    if (partition =? sPartition) && (index =? sIndex) then deselect st
    else rects ← store2 (rectSelected st) sPartition sIndex false;
         select partition index (set_rects rects st)
  else select partition index st.

Definition handleBgClick (st : Ui) : option Ui := deselect st.

(** The handler that [updateJump] gave to the link. *)
Definition jumpClick (st : Ui) : option Ui :=
  match jumpPoint st with
  | None => Some st
  | Some point =>
      let st := set_scrolled point st in
      if negb (selected st) then select (Z.of_nat (er_partition point)) (er_index point) st else Some st
  end.

(** ** Events *)

Inductive Event :=
| MouseOver (partition index : nat)
| MouseMove (partition index : nat) (pageX pageY : Z)
| MouseOut
| Click (partition index : nat)
| BgClick
| JumpClick.

(** A link with the class "inactive" is not displayed and gets no click. *)
Definition handle (st : Ui) (ev : Event) : option Ui :=
  match ev with
  | MouseOver p i => handleMouseOver (Z.of_nat p) (Z.of_nat i) st
  | MouseMove p i x y => handleMouseMove (Z.of_nat p) (Z.of_nat i) x y st
  | MouseOut => Some (handleMouseOut st)
  | Click p i => handleClick (Z.of_nat p) (Z.of_nat i) st
  | BgClick => handleBgClick st
  | JumpClick => if jumpInactive st then Some st else jumpClick st
  end.

(** The page when it has been drawn. *)
Definition initUi : Ui :=
  handleMouseOut (mkUi false (-1, -1) ((fun _ => false) <$> historyRects page)
    ((fun p => (fun _ => false) <$> partialLayers p) <$> pg_partials page)
    ((fun boxes : list Box => (fun _ => false) <$> boxes) <$> historyRects page) false None None 0 "" noTooltip None).

Definition run (evs : list Event) : option Ui := foldl (fun st ev => st ← st; handle st ev) (Some initUi) evs.
End Ui.
