(* ===== verification/RenderUiProps.v ===== *)
(** * RenderUiProps: the page refines a machine with three modes

    The page idles, follows the mouse, or shows a selected element.  Whatever happens, its layers, its
    selected rectangle, the target of its link and its tooltip are those of its mode. *)

From S2P Require Import Prelude Bitset LinkedList Porcupine Visualization Render RenderDraw RenderUi.
Local Open Scope Z_scope.

(** ** Arrays of arrays *)

(** The array with the row lengths of [sh] that has [f k j] at [k], [j]. *)
Definition grid {A : Type} (f : nat -> nat -> bool) (sh : list (list A)) : list (list bool) :=
  imap (fun k row => imap (fun j _ => f k j) row) sh.

Lemma grid_lookup {A} f (sh : list (list A)) k row : sh !! k = Some row -> grid f sh !! k = Some (imap (fun j _ => f k j) row).
Proof. intros Hk. unfold grid. by rewrite list_lookup_imap, Hk. Qed.

Lemma grid_ext {A} f g (sh : list (list A)) :
  (forall k row j, sh !! k = Some row -> (j < length row)%nat -> f k j = g k j) -> grid f sh = grid g sh.
Proof.
  intros H. apply list_eq. intros k. unfold grid. rewrite !list_lookup_imap. destruct (sh !! k) as [row|] eqn:Hk; [|done]. cbn. f_equal. apply list_eq. intros j.
  rewrite !list_lookup_imap. destruct (row !! j) eqn:Hj; [|done]. cbn. f_equal. apply (H k row j Hk). by eapply lookup_lt_Some.
Qed.

Lemma grid_shape {A B} f (sh : list (list A)) (sh' : list (list B)) :
  Forall2 (fun r r' => length r = length r') sh sh' -> grid f sh = grid f sh'.
Proof.
  intros HF. apply list_eq. intros k. unfold grid. rewrite !list_lookup_imap. destruct (sh !! k) as [r|] eqn:Hk.
  - destruct (Forall2_lookup_l _ _ _ _ _ HF Hk) as (r' & -> & Hlen). cbn. f_equal. apply list_eq. intros j. rewrite !list_lookup_imap.
    destruct (r !! j) eqn:Hj, (r' !! j) eqn:Hj'; [done|..|done]; [apply lookup_lt_Some in Hj; apply lookup_ge_None in Hj'|apply lookup_ge_None in Hj; apply lookup_lt_Some in Hj']; lia.
  - apply lookup_ge_None in Hk. rewrite (lookup_ge_None_2 sh') by (by rewrite <- (Forall2_length _ _ _ HF)). done.
Qed.

(** Every row rewritten by its indices. *)
Lemma grid_rows {A} f g (sh : list (list A)) : (fun row : list bool => imap (fun j _ => g j) row) <$> grid f sh = grid (fun _ => g) sh.
Proof.
  apply list_eq. intros k. unfold grid. rewrite list_lookup_fmap, !list_lookup_imap. destruct (sh !! k) as [row|]; [|done]. cbn. f_equal.
  apply list_eq. intros j. rewrite !list_lookup_imap. by destruct (row !! j).
Qed.

Lemma imap_const {A B} (b : B) (l : list A) : (fun _ => b) <$> l = imap (fun _ _ => b) l.
Proof. apply list_eq. intros j. rewrite list_lookup_fmap, list_lookup_imap. by destruct (l !! j). Qed.

Lemma fmap_rows {A} (b : bool) f (sh : list (list A)) : (fun row : list bool => (fun _ => b) <$> row) <$> grid f sh = grid (fun _ _ => b) sh.
Proof. rewrite <- (grid_rows f (fun _ => b)). apply list_fmap_ext. intros _ row _. apply imap_const. Qed.

Lemma grid_const {A} (b : bool) (sh : list (list A)) : (fun row : list A => (fun _ => b) <$> row) <$> sh = grid (fun _ _ => b) sh.
Proof. unfold grid. apply list_eq. intros k. rewrite list_lookup_fmap, list_lookup_imap. destruct (sh !! k); [|done]. cbn. f_equal. apply imap_const. Qed.

Lemma go_index_nat {A} (l : list A) k : go_index l (Z.of_nat k) = l !! k.
Proof. unfold go_index. destruct (Z.ltb_spec (Z.of_nat k) 0); [lia|]. by rewrite Nat2Z.id. Qed.

Lemma go_store_nat {A} (l : list A) k x : (k < length l)%nat -> go_store l (Z.of_nat k) x = Some (<[k := x]> l).
Proof. intros Hk. rewrite go_store_in_range by (unfold zlen; lia). by rewrite Nat2Z.id. Qed.

Lemma store2_grid {A} f (sh : list (list A)) k row j x :
  sh !! k = Some row -> (j < length row)%nat ->
  store2 (grid f sh) (Z.of_nat k) (Z.of_nat j) x = Some (grid (fun k' j' => if ((k' =? k) && (j' =? j))%nat then x else f k' j') sh).
Proof.
  intros Hk Hj. unfold store2. rewrite go_index_nat, (grid_lookup _ _ _ _ Hk). cbn [mbind option_bind].
  rewrite go_store_nat by (by rewrite length_imap). cbn [mbind option_bind]. apply lookup_lt_Some in Hk as Hlt.
  rewrite go_store_nat by (unfold grid; by rewrite length_imap). f_equal. apply list_eq. intros k'.
  destruct (decide (k' = k)) as [->|Hne].
  - rewrite list_lookup_insert_eq by (unfold grid; by rewrite length_imap). rewrite (grid_lookup _ _ _ _ Hk). f_equal. apply list_eq. intros j'.
    rewrite list_lookup_imap, Nat.eqb_refl. destruct (decide (j' = j)) as [->|Hnj].
    + rewrite list_lookup_insert_eq by (by rewrite length_imap). destruct (lookup_lt_is_Some_2 row j Hj) as [v ->]. cbn. by rewrite Nat.eqb_refl.
    + rewrite list_lookup_insert_ne, list_lookup_imap by done. destruct (row !! j'); [|done]. cbn. by destruct (Nat.eqb_spec j' j).
  - rewrite list_lookup_insert_ne by done. unfold grid. rewrite !list_lookup_imap. destruct (sh !! k') as [r|]; [|done]. cbn. f_equal. apply list_eq. intros j'.
    rewrite !list_lookup_imap. destruct (r !! j'); [|done]. cbn. by destruct (Nat.eqb_spec k' k).
Qed.

Lemma sameVals_iff a b : length a = length b -> sameVals a b = true <-> a = b.
Proof.
  revert b. induction a as [|x a IH]; intros [|y b] Hlen; [done..|]. cbn. case_decide as E; [|split; [done|congruence]]. rewrite IH by (injection Hlen; done). split; congruence.
Qed.

Lemma arrayEq_iff a b : arrayEq a b = true <-> a = b.
Proof. unfold arrayEq. destruct (Nat.eqb_spec (length a) (length b)) as [E|E]; [by apply sameVals_iff|]. split; [done|congruence]. Qed.

(** ** Modes *)

Inductive Mode := Idle | Hover (partition index : nat) | Selected (partition index : nat).

#[export] Instance Mode_eq_dec : EqDecision Mode.
Proof. solve_decision. Defined.

(** The element whose sequence is shown. *)
Definition focus (m : Mode) : option (nat * nat) := match m with Idle => None | Hover p i | Selected p i => Some (p, i) end.

Section Modes.
Context (data : list partitionVisualizationData) (page : Page).

Local Abbreviation linearizationOf := (linearizationIndex data page).

(** What is hidden: without a focus all sequences but the first of each partition; with one the other
    partitions and all sequences but the one of the element. *)
Definition hiddenHistory (m : Mode) : list bool :=
  imap (fun k _ => match focus m with None => false | Some (p, _) => negb (k =? p)%nat end) data.
Definition hiddenLayer (m : Mode) (k li : nat) : bool :=
  match focus m with
  | None => negb (li =? 0)%nat
  | Some (p, i) => negb ((k =? p)%nat && bool_decide (linearizationOf (Z.of_nat p) (Z.of_nat i) = Some (Some (Z.of_nat li))))
  end.
Definition hiddenPartials (m : Mode) : list (list bool) := grid (hiddenLayer m) (PartialLinearizations <$> data).
Definition selectedRects (m : Mode) : list (list bool) := grid (fun k j => bool_decide (m = Selected k j)) (History <$> data).
(** The leftmost point of a sequence that is shown. *)
Definition jumpTarget (m : Mode) : option ErrorPoint :=
  List.find (fun pt => negb (hiddenLayer m (er_partition pt) (er_layer pt))) (pg_errorPoints page).

Definition react (m : Mode) (ev : Event) : Mode :=
  match m, ev with
  | Selected p i, Click p' i' => if decide (p = p' /\ i = i') then Idle else Selected p' i'
  | Selected _ _, BgClick => Idle
  | Selected _ _, _ => m
  | _, MouseOver p i => Hover p i
  | _, MouseMove _ _ _ _ => m
  | _, MouseOut => Idle
  | _, Click p i => Selected p i
  | _, BgClick => m
  | _, JumpClick => match jumpTarget m with Some pt => Selected (er_partition pt) (Z.to_nat (er_index pt)) | None => m end
  end.

(** The page has the boxes, the layers and the points of the data. *)
Record page_of : Prop := {
  pg_rects : Forall2 (fun d boxes => length (History d) = length boxes) data (historyRects page);
  pg_layers : Forall2 (fun d p => length (PartialLinearizations d) = length (partialLayers p) /\ length (PartialLinearizations d) = length (illegalLast p)) data (pg_partials page);
  pg_largest k d i q : data !! k = Some d -> Largest d !! i = Some q -> 0 <= q < zlen (PartialLinearizations d);
  pg_illegal k p i q : pg_partials page !! k = Some p -> largestIllegal p !! i = Some q -> (q < length (partialLayers p))%nat;
  pg_last k d p li lin s i : data !! k = Some d -> pg_partials page !! k = Some p -> PartialLinearizations d !! li = Some lin -> illegalLast p !! li = Some s -> i ∈ s -> lin <> [];
  pg_points pt : pt ∈ pg_errorPoints page -> exists d, data !! er_partition pt = Some d /\
    (er_layer pt < length (PartialLinearizations d))%nat /\ exists e, go_index (History d) (er_index pt) = Some e
}.
Context (Hpage : page_of).

Definition onPage (p i : nat) : Prop := exists d, data !! p = Some d /\ (i < length (History d))%nat.
Definition eventOnPage (ev : Event) : Prop :=
  match ev with MouseOver p i | MouseMove p i _ _ | Click p i => onPage p i | _ => True end.
Definition modeOnPage (m : Mode) : Prop := match m with Idle => True | Hover p i | Selected p i => onPage p i end.

(** The tooltip says what its key asks for. *)
Definition tooltipKey (sel : bool) (sp si p i : Z) : list Val := [Num p; Num i; Bool sel; Num sp; Num si].
Definition tooltip_ok (st : Ui) : Prop :=
  lastTooltip st = noTooltip \/ exists sel sp si p i, lastTooltip st = tooltipKey sel sp si p i /\ tooltipText data page sel sp si p i = Some (innerHTML st).

Record represents (st : Ui) (m : Mode) : Prop := {
  rp_selected : selected st = match m with Selected _ _ => true | _ => false end;
  rp_index p i : m = Selected p i -> selectedIndex st = (Z.of_nat p, Z.of_nat i);
  rp_history : historyHidden st = hiddenHistory m;
  rp_partials : partialHidden st = hiddenPartials m;
  rp_rects : rectSelected st = selectedRects m;
  rp_jump : match jumpTarget m with Some pt => jumpInactive st = false /\ jumpPoint st = Some pt | None => jumpInactive st = true end;
  rp_tooltip : tooltip_ok st
}.

(** *** Showing *)

Lemma isHidden_partials m pt : pt ∈ pg_errorPoints page -> isHidden (hiddenPartials m) pt = hiddenLayer m (er_partition pt) (er_layer pt).
Proof using Hpage.
  intros Hpt. destruct (pg_points Hpage pt Hpt) as (d & Hd & Hl & _). unfold isHidden, hiddenPartials.
  rewrite (grid_lookup _ _ _ (PartialLinearizations d)) by (by rewrite list_lookup_fmap, Hd). cbn [mbind option_bind]. rewrite list_lookup_imap.
  by destruct (lookup_lt_is_Some_2 _ _ Hl) as [v ->].
Qed.

Lemma find_ext_in {A} (f g : A -> bool) l : (forall x, x ∈ l -> f x = g x) -> List.find f l = List.find g l.
Proof using Type.
  induction l as [|x l IH]; intros H; [done|]. cbn. rewrite (H x) by (by left). rewrite IH by (intros; apply H; by right). done.
Qed.

Lemma updateJump_spec st m : partialHidden st = hiddenPartials m ->
  exists b pt, updateJump page st = set_jump b pt st /\ match jumpTarget m with Some pt' => b = false /\ pt = Some pt' | None => b = true end.
Proof using Hpage.
  intros Hp. unfold updateJump, jumpTarget. rewrite Hp.
  rewrite (find_ext_in _ (fun pt => negb (hiddenLayer m (er_partition pt) (er_layer pt)))) by (intros pt Hpt; by rewrite isHidden_partials).
  destruct (List.find _ _) as [pt|]; eexists _, _; (split; [done|done]).
Qed.

(** The sequence to show for an element is one of its partition. *)
Lemma linearizationIndex_spec p i d : data !! p = Some d ->
  exists o, linearizationOf (Z.of_nat p) i = Some o /\ forall q, o = Some q -> exists li, q = Z.of_nat li /\ (li < length (PartialLinearizations d))%nat.
Proof using Hpage.
  intros Hd. unfold linearizationIndex. rewrite !go_index_nat, Hd. cbn [mbind option_bind]. destruct (Largest d !! i) as [q|] eqn:Hq.
  - exists (Some q). split; [done|]. intros q' [= <-]. pose proof (pg_largest Hpage p d i q Hd Hq) as Hr. exists (Z.to_nat q). unfold zlen in Hr. lia.
  - destruct (Forall2_lookup_l _ _ _ _ _ (pg_layers Hpage) Hd) as (ps & Hps & Hlen & _). rewrite Hps. cbn [mbind option_bind].
    destruct (largestIllegal ps !! i) as [q|] eqn:Hi; [|by exists None]. exists (Some (Z.of_nat q)). split; [done|]. intros q' [= <-]. exists q.
    split; [done|]. rewrite Hlen. by eapply (pg_illegal Hpage).
Qed.

(** The parts of the state that only the layers and the link are not. *)
Definition same_rest (st st' : Ui) : Prop :=
  selected st' = selected st /\ selectedIndex st' = selectedIndex st /\ rectSelected st' = rectSelected st /\
  innerHTML st' = innerHTML st /\ lastTooltip st' = lastTooltip st /\ opacity st' = opacity st.
(** The layers and the link are those of mode [m]. *)
Definition shows_mode (st : Ui) (m : Mode) : Prop :=
  historyHidden st = hiddenHistory m /\ partialHidden st = hiddenPartials m /\
  match jumpTarget m with Some pt => jumpInactive st = false /\ jumpPoint st = Some pt | None => jumpInactive st = true end.
(** The layers are as many as in the data. *)
Definition has_layers (st : Ui) : Prop :=
  length (historyHidden st) = length data /\ exists f, partialHidden st = grid f (PartialLinearizations <$> data).

Lemma represents_layers st m : represents st m -> has_layers st.
Proof using Type. intros [_ _ Hh Hp _ _ _]. split; [rewrite Hh; unfold hiddenHistory; by rewrite length_imap|by exists (hiddenLayer m)]. Qed.

Lemma resetHighlight_shows st : has_layers st -> shows_mode (resetHighlight page st) Idle /\ same_rest st (resetHighlight page st).
Proof using Hpage.
  intros [Hlen (f & Hf)]. unfold resetHighlight. set (st' := set_hidden _ _ st).
  assert (partialHidden st' = hiddenPartials Idle) as Hp by (cbn; rewrite Hf; apply grid_rows).
  destruct (updateJump_spec st' Idle Hp) as (b & pt & -> & Hj). split; [|done]. split_and!; [|done|].
  - cbn. unfold hiddenHistory. cbn. rewrite imap_const. apply list_eq. intros k. rewrite !list_lookup_imap.
    destruct (historyHidden st !! k) eqn:E1, (data !! k) eqn:E2; [done|..|done]; [apply lookup_lt_Some in E1; apply lookup_ge_None in E2|apply lookup_ge_None in E1; apply lookup_lt_Some in E2]; lia.
  - destruct (jumpTarget Idle); cbn; [by destruct Hj as [-> ->]|done].
Qed.

Lemma highlight_shows st m p i : focus m = Some (p, i) -> onPage p i -> has_layers st ->
  exists st', highlight data page (Z.of_nat p) (Z.of_nat i) st = Some st' /\ shows_mode st' m /\ same_rest st st'.
Proof using Hpage.
  intros Hm (d & Hd & Hi) [Hlen (f & Hf)]. unfold highlight. destruct (linearizationIndex_spec p (Z.of_nat i) d Hd) as (o & Ho & Hr). rewrite Ho. cbn [mbind option_bind].
  rewrite Hf, fmap_rows. set (h := imap _ (historyHidden st)).
  assert (h = hiddenHistory m) as Hh.
  { unfold h, hiddenHistory. rewrite Hm. apply list_eq. intros k. rewrite !list_lookup_imap.
    destruct (historyHidden st !! k) eqn:E1, (data !! k) eqn:E2; cbn;
      [|apply lookup_lt_Some in E1; apply lookup_ge_None in E2; lia|apply lookup_ge_None in E1; apply lookup_lt_Some in E2; lia|done].
    do 2 f_equal. destruct (Nat.eqb_spec k p) as [->|Hn]; [apply Z.eqb_refl|]. by destruct (Z.eqb_spec (Z.of_nat k) (Z.of_nat p)); [lia|]. }
  assert (exists partials, match o with Some q => store2 (grid (fun _ _ => true) (PartialLinearizations <$> data)) (Z.of_nat p) q false
    | None => Some (grid (fun _ _ => true) (PartialLinearizations <$> data)) end = Some partials /\ partials = hiddenPartials m) as (partials & -> & Hp).
  { destruct o as [q|].
    - destruct (Hr q eq_refl) as (li & -> & Hli). eexists. split; [apply (store2_grid _ _ _ (PartialLinearizations d)); [by rewrite list_lookup_fmap, Hd|done]|].
      apply grid_ext. intros k row j Hk Hj. unfold hiddenLayer. rewrite Hm, Ho. destruct (Nat.eqb_spec k p) as [->|]; cbn; [|done].
      destruct (Nat.eqb_spec j li) as [->|Hn]; [by rewrite bool_decide_eq_true_2|]. rewrite bool_decide_eq_false_2; [done|]. intros [= E]. lia.
    - eexists. split; [done|]. apply grid_ext. intros k row j Hk Hj. unfold hiddenLayer. rewrite Hm, Ho. destruct (k =? p)%nat; [|done]. cbn. by rewrite bool_decide_eq_false_2. }
  cbn [mbind option_bind]. destruct (updateJump_spec (set_hidden h partials st) m Hp) as (b & pt & -> & Hj). eexists. split; [done|]. split; [|done].
  split_and!; [done..|]. destruct (jumpTarget m); cbn; [by destruct Hj as [-> ->]|done].
Qed.

(** *** Handlers *)

Lemma selectedRects_none m : (forall p i, m <> Selected p i) -> selectedRects m = grid (fun _ _ => false) (History <$> data).
Proof using Type. intros Hm. apply grid_ext. intros k row j _ _. by rewrite bool_decide_eq_false_2. Qed.

Lemma tooltip_same st st' : innerHTML st' = innerHTML st -> lastTooltip st' = lastTooltip st -> tooltip_ok st -> tooltip_ok st'.
Proof using Type. unfold tooltip_ok. intros -> ->. done. Qed.

Lemma select_represents st p i : onPage p i -> has_layers st -> rectSelected st = grid (fun _ _ => false) (History <$> data) -> tooltip_ok st ->
  exists st', select data page (Z.of_nat p) (Z.of_nat i) st = Some st' /\ represents st' (Selected p i).
Proof using Hpage.
  intros Hon Hl Hr Ht. unfold select. set (st0 := set_selected true _ st).
  destruct (highlight_shows st0 (Selected p i) p i eq_refl Hon Hl) as (st1 & -> & (Hh & Hp & Hj) & (S1 & S2 & S3 & S4 & S5 & S6)). cbn [mbind option_bind].
  destruct Hon as (d & Hd & Hi). rewrite S3. cbn [st0 set_selected rectSelected]. rewrite Hr.
  rewrite (store2_grid _ _ _ (History d)) by (by rewrite ?list_lookup_fmap, ?Hd). cbn [mbind option_bind]. eexists. split; [done|].
  split; cbn; [by rewrite S1|intros p' i' [= <- <-]; by rewrite S2|done|done| |done|].
  - apply grid_ext. intros k row j Hk Hj'. destruct (Nat.eqb_spec k p) as [->|Hn], (Nat.eqb_spec j i) as [->|Hn']; cbn; symmetry;
      [by apply bool_decide_eq_true_2|apply bool_decide_eq_false_2; congruence..].
  - eapply tooltip_same; [| |exact Ht]; cbn; [by rewrite S4|by rewrite S5].
Qed.

Lemma unselect_rect p i : onPage p i ->
  store2 (selectedRects (Selected p i)) (Z.of_nat p) (Z.of_nat i) false = Some (grid (fun _ _ => false) (History <$> data)).
Proof using Type.
  intros (d & Hd & Hi). unfold selectedRects. rewrite (store2_grid _ _ _ (History d)) by (by rewrite ?list_lookup_fmap, ?Hd). f_equal. apply grid_ext.
  intros k row j _ _. destruct (Nat.eqb_spec k p) as [->|Hn], (Nat.eqb_spec j i) as [->|Hn']; cbn; [done|apply bool_decide_eq_false_2; congruence..].
Qed.

Lemma deselect_represents st p i : represents st (Selected p i) -> onPage p i ->
  exists st', deselect page st = Some st' /\ represents st' Idle.
Proof using Hpage.
  intros Hrep Hon. pose proof Hrep as [Hs Hi Hh Hp Hr Hj Ht]. unfold deselect. rewrite Hs. cbn [negb]. set (st0 := set_selected false _ st).
  destruct (resetHighlight_shows st0) as [(Hh' & Hp' & Hj') (S1 & S2 & S3 & S4 & S5 & S6)]; [exact (represents_layers st _ Hrep)|].
  rewrite S2, S3. cbn [st0 set_selected selectedIndex rectSelected]. rewrite (Hi p i eq_refl), Hr. cbn [fst snd]. rewrite (unselect_rect p i Hon). cbn [mbind option_bind].
  eexists. split; [done|]. split; cbn; [by rewrite S1|done|done|done|by rewrite selectedRects_none|done|].
  eapply tooltip_same; [| |exact Ht]; cbn; [by rewrite S4|by rewrite S5].
Qed.

(** Every box has a tooltip. *)
Lemma tooltipText_some sel sp si p i : onPage p i -> (sel = true -> exists sp' si', sp = Z.of_nat sp' /\ si = Z.of_nat si' /\ onPage sp' si') ->
  exists msg, tooltipText data page sel sp si (Z.of_nat p) (Z.of_nat i) = Some msg.
Proof using Hpage.
  intros (d & Hd & Hi) Hsel. unfold tooltipText.
  assert (exists o, (if negb sel then linearizationOf (Z.of_nat p) (Z.of_nat i) else linearizationOf sp si) = Some o /\
    (sel && negb (sp =? Z.of_nat p) = false -> forall q, o = Some q -> exists li, q = Z.of_nat li /\ (li < length (PartialLinearizations d))%nat)) as (o & -> & Ho).
  { destruct sel; cbn [negb].
    - destruct (Hsel eq_refl) as (sp' & si' & -> & -> & (d' & Hd' & _)). destruct (linearizationIndex_spec sp' (Z.of_nat si') d' Hd') as (o & -> & Hr). exists o. split; [done|].
      cbn. intros E%negb_false_iff%Z.eqb_eq%Nat2Z.inj. subst sp'. assert (d' = d) as -> by congruence. done.
    - destruct (linearizationIndex_spec p (Z.of_nat i) d Hd) as (o & -> & Hr). by exists o. }
  cbn [mbind option_bind]. destruct (sel && negb (sp =? Z.of_nat p)); [by eexists|]. destruct o as [q|]; [|by eexists].
  destruct (Ho eq_refl q eq_refl) as (li & -> & Hli). rewrite !go_index_nat, Hd. cbn [mbind option_bind].
  destruct (lookup_lt_is_Some_2 _ _ Hli) as [lin Hlin]. rewrite ?go_index_nat, Hlin. cbn [mbind option_bind].
  destruct (lookup_lt_is_Some_2 _ _ Hi) as [e He]. rewrite ?go_index_nat, He. cbn [mbind option_bind].
  destruct (findStep _ _ _) as [[prev curr]|]; [by eexists|].
  destruct (Forall2_lookup_l _ _ _ _ _ (pg_layers Hpage) Hd) as (ps & Hps & _ & Hlen). rewrite Hps. cbn [mbind option_bind]. rewrite ?go_index_nat.
  destruct (lookup_lt_is_Some_2 (illegalLast ps) li) as [s Hs]; [lia|]. rewrite Hs. cbn [mbind option_bind]. case_bool_decide as Hin; [|by eexists].
  pose proof (pg_last Hpage p d ps li lin s _ Hd Hps Hlin Hs Hin) as Hne. destruct (last lin) as [x|] eqn:El; [by eexists|]. by apply last_None in El.
Qed.

(** Moving the mouse: the tooltip is the one for the box and the selection. *)
Lemma mouseMove_represents st m p i x y : represents st m -> modeOnPage m -> onPage p i ->
  exists st', handleMouseMove data page (Z.of_nat p) (Z.of_nat i) x y st = Some st' /\ represents st' m /\
    tooltipText data page (selected st) (selectedIndex st).1 (selectedIndex st).2 (Z.of_nat p) (Z.of_nat i) = Some (innerHTML st').
Proof using Hpage.
  intros [Hs Hi Hh Hp Hr Hj Ht] Hm Hon. unfold handleMouseMove. destruct (selectedIndex st) as [sp si] eqn:Esi. cbn [fst snd].
  destruct (tooltipText_some (selected st) sp si p i Hon) as [msg Hmsg].
  { intros Hsel. destruct m as [|?|sp' si']; [congruence..|]. specialize (Hi sp' si' eq_refl). injection Hi as -> ->. by exists sp', si'. }
  fold (tooltipKey (selected st) sp si (Z.of_nat p) (Z.of_nat i)). destruct (arrayEq (lastTooltip st) _) eqn:Eq; cbn [negb].
  - apply arrayEq_iff in Eq. cbn [mbind option_bind]. eexists. split; [done|]. split; [split; cbn; try done; try (intros; by rewrite Esi; apply Hi); by eapply tooltip_same|].
    destruct Ht as [E|(sel & sp' & si' & p' & i' & E & Ht)]; [rewrite E in Eq; done|]. rewrite E in Eq. injection Eq as -> -> -> -> ->. done.
  - rewrite Hmsg. cbn [mbind option_bind]. eexists. split; [done|]. split; [|done]. split; cbn; try done; try (intros; by rewrite Esi; apply Hi).
    right. by exists (selected st), sp, si, (Z.of_nat p), (Z.of_nat i).
Qed.

Lemma jumpTarget_onPage m pt : jumpTarget m = Some pt -> onPage (er_partition pt) (Z.to_nat (er_index pt)) /\ 0 <= er_index pt.
Proof using Hpage.
  unfold jumpTarget. intros [Hin _]%List.find_some. apply base.list_elem_of_In in Hin. destruct (pg_points Hpage pt Hin) as (d & Hd & _ & e & [Hr He]%go_index_Some).
  split; [|lia]. exists d. split; [done|]. unfold zlen in Hr. lia.
Qed.

Lemma over_represents st m p i : represents st m -> (forall p' i', m <> Selected p' i') -> onPage p i ->
  exists st', handleMouseOver data page (Z.of_nat p) (Z.of_nat i) st = Some st' /\ represents st' (Hover p i).
Proof using Hpage.
  intros Hrep Hm Hon. pose proof Hrep as [Hs Hi Hh Hp Hr Hj Ht]. unfold handleMouseOver. replace (selected st) with false by (rewrite Hs; by destruct m; [..|edestruct Hm]). cbn [negb].
  destruct (highlight_shows st (Hover p i) p i eq_refl Hon (represents_layers st m Hrep)) as (st1 & -> & (Hh' & Hp' & Hj') & (S1 & S2 & S3 & S4 & S5 & S6)). cbn [mbind option_bind].
  eexists. split; [done|]. split; cbn; [rewrite S1, Hs; by destruct m; [..|edestruct Hm]|done|done|done| |done|].
  - rewrite S3, Hr, !selectedRects_none; done.
  - by eapply tooltip_same.
Qed.

Lemma out_represents st m : represents st m -> represents (handleMouseOut page st) (match m with Selected _ _ => m | _ => Idle end).
Proof using Hpage.
  intros Hrep. pose proof Hrep as [Hs Hi Hh Hp Hr Hj Ht]. unfold handleMouseOut. rewrite Hs. destruct m as [|p i|p i]; cbn [negb];
    [| |split; cbn; try done; by left].
  all: destruct (resetHighlight_shows st (represents_layers st _ Hrep)) as [(Hh' & Hp' & Hj') (S1 & S2 & S3 & S4 & S5 & S6)];
    (split; cbn; [by rewrite S1|done|done|done|by rewrite S3, Hr, !selectedRects_none|done|by left]).
Qed.

Lemma click_represents st m p i : represents st m -> modeOnPage m -> onPage p i ->
  exists st', handleClick data page (Z.of_nat p) (Z.of_nat i) st = Some st' /\ represents st' (react m (Click p i)).
Proof using Hpage.
  intros Hrep Hm Hon. pose proof Hrep as [Hs Hi Hh Hp Hr Hj Ht]. unfold handleClick. rewrite Hs. destruct m as [|p' i'|p' i']; cbn [react].
  1, 2: apply select_represents; [done|by eapply represents_layers|by rewrite Hr, selectedRects_none|done].
  rewrite (Hi p' i' eq_refl). destruct (Z.eqb_spec (Z.of_nat p) (Z.of_nat p')) as [Ep%Nat2Z.inj|Ep], (Z.eqb_spec (Z.of_nat i) (Z.of_nat i')) as [Ei%Nat2Z.inj|Ei]; cbn [andb].
  1: subst; rewrite decide_True by done; by eapply deselect_represents.
  all: rewrite decide_False by (intros []; congruence); rewrite Hr, (unselect_rect p' i' Hm); cbn [mbind option_bind];
    apply select_represents; [done|exact (represents_layers st _ Hrep)|done|exact Ht].
Qed.

Lemma handle_represents st m ev : represents st m -> modeOnPage m -> eventOnPage ev ->
  exists st', handle data page st ev = Some st' /\ represents st' (react m ev) /\ modeOnPage (react m ev).
Proof using Hpage.
  intros Hrep Hm Hev. destruct ev as [p i|p i x y| |p i| |]; cbn [handle eventOnPage] in *.
  - destruct m as [|p' i'|p' i']; cbn [react]; [by destruct (over_represents st _ p i Hrep ltac:(done) Hev) as (st' & ? & ?); exists st'..|].
    pose proof Hrep as [Hs Hi Hh Hp Hr Hj Ht]. unfold handleMouseOver. rewrite Hs. cbn. eexists. split; [done|]. split; [|done]. by split.
  - destruct (mouseMove_represents st m p i x y Hrep Hm Hev) as (st' & ? & ? & _). exists st'. by destruct m.
  - exists (handleMouseOut page st). split; [done|]. pose proof (out_represents st m Hrep) as Ho. by destruct m.
  - destruct (click_represents st m p i Hrep Hm Hev) as (st' & ? & ?). exists st'. split_and!; [done..|]. destruct m; cbn; [done..|]. by case_decide.
  - unfold handleBgClick. destruct m as [|p' i'|p' i']; cbn [react].
    1, 2: exists st; split; [|done]; unfold deselect; by rewrite (rp_selected _ _ Hrep).
    destruct (deselect_represents st p' i' Hrep Hm) as (st' & ? & ?). by exists st'.
  - pose proof Hrep as [Hs Hi Hh Hp Hr Hj Ht]. destruct (jumpTarget m) as [pt|] eqn:Ej.
    2: { rewrite Hj. exists st. destruct m; cbn [react]; rewrite ?Ej; done. }
    destruct Hj as [Hji Hpt]. rewrite Hji. unfold jumpClick. rewrite Hpt. cbn [set_scrolled selected]. rewrite Hs. destruct (jumpTarget_onPage m pt Ej) as [Hon Hpos].
    destruct m as [|p' i'|p' i']; cbn [react negb]; rewrite ?Ej.
    3: { eexists. split; [done|]. split; [|done]. split; cbn; try done. by rewrite Ej. }
    all: destruct (select_represents (set_scrolled pt st) (er_partition pt) (Z.to_nat (er_index pt)) Hon) as (st' & Hsel & Hrep');
      [exact (represents_layers st _ Hrep)|cbn; by rewrite Hr, selectedRects_none|exact Ht|]; rewrite Z2Nat.id in Hsel by done; by exists st'.
Qed.

Lemma init_represents : represents (initUi page) Idle.
Proof using Hpage.
  unfold initUi. set (st := mkUi _ _ _ _ _ _ _ _ _ _ _ _).
  assert (has_layers st) as Hl.
  { split; [cbn; rewrite length_fmap; symmetry; apply (Forall2_length _ _ _ (pg_rects Hpage))|]. exists (fun _ _ => false). cbn.
    transitivity (grid (fun _ _ => false) (partialLayers <$> pg_partials page)).
    - rewrite <- grid_const. by rewrite <- list_fmap_compose.
    - symmetry. apply grid_shape. apply Forall2_fmap. eapply Forall2_impl; [apply (pg_layers Hpage)|]. by intros d p [? _]. }
  destruct (resetHighlight_shows st Hl) as [(Hh & Hp & Hj) (S1 & S2 & S3 & S4 & S5 & S6)]. unfold handleMouseOut. cbn [st selected negb]. fold st.
  split; cbn; [by rewrite S1|done|done|done| |done|by left]. rewrite S3, selectedRects_none by done. cbn. rewrite grid_const. symmetry. apply grid_shape.
  apply Forall2_fmap_l. exact (pg_rects Hpage).
Qed.

Lemma run_represents evs : Forall eventOnPage evs ->
  exists st, run data page evs = Some st /\ represents st (foldl react Idle evs) /\ modeOnPage (foldl react Idle evs).
Proof using Hpage.
  induction evs as [|ev evs IH] using rev_ind; intros Hev; [exists (initUi page); split; [done|]; split; [apply init_represents|done]|].
  apply Forall_app in Hev as [Hev [Hlast _]%Forall_cons]. destruct (IH Hev) as (st & Hrun & Hrep & Hm).
  unfold run in *. rewrite !foldl_app, Hrun. cbn [foldl mbind option_bind]. exact (handle_represents st _ ev Hrep Hm Hlast).
Qed.
End Modes.
