(* ===== verification/RenderDrawProps.v ===== *)
(** * RenderDrawProps: the page of the checker shows its data

    Everything is on the page: every element has its box, every point of a sequence is in the box of
    its element, and every point of an element that could follow is in that element's box. *)

From S2P Require Import Prelude Bitset LinkedList Porcupine CheckerFacts CheckerSim CheckerInit CheckerSpec CheckerProps KvModel KvModelProps Visualization VisualizationProps Render RenderFacts RenderProps RenderCheck RenderDraw RenderUi RenderUiProps.
Local Open Scope Z_scope.

(** ** Points and boxes *)

Definition in_box (b : Box) (x : Z) : Prop := match bx_rect b with Rect bx _ w _ _ => bx <= x <= bx + w | _ => False end.
(** The box is right of the divider, and inside the frame of the page. *)
Definition on_page (px : Z) (page : Page) (b : Box) : Prop :=
  match bx_rect b with
  | Rect x y w h _ => PADDING px + XOFF px <= x /\ x + w <= pg_width page - PADDING px /\ PADDING px <= y /\ y + h <= pg_height page - PADDING px
  | _ => False
  end.

(** Where the points of a sequence are. *)
Definition validX (s : Shape) : option Z :=
  match s with Line x _ _ _ c => if decide (c = "linearization linearization-point"%string) then Some x else None | _ => None end.
Definition validXs (l : list Shape) : list Z := omap validX l.

Fixpoint spaced (px : Z) (prev : option Z) (xs : list Z) : Prop :=
  match xs with
  | [] => True
  | x :: xs => match prev with Some v => v + EPSILON px <= x | None => True end /\ spaced px (Some x) xs
  end.

Section Partials.
Context (px : Z) (xPos : gmap Z Z).

Local Abbreviation x := (xf xPos).
Local Abbreviation off := (PADDING px + XOFF px).
Local Abbreviation EPS := (EPSILON px).

(** The times of an element have positions. *)
Definition placed_el (e : El) : Prop := is_Some (xPos !! el_Start e) /\ is_Some (xPos !! el_End e).

Lemma pointX_spec prev e : placed_el e ->
  pointX px xPos prev e = Some (match prev with Some (prevX, _, _) => Z.max (off + x (el_Start e)) (prevX + EPS) | None => off + x (el_Start e) end).
Proof using Type. intros [[v Hv] _]. unfold pointX, xf. rewrite Hv. done. Qed.

(** The point of [e] when the one before is at most [off + v]. *)
Definition below (prev : option (Z * Z * El)) (q : list Z) : Prop :=
  match prev, q with Some (prevX, _, _), v :: _ => prevX + EPS <= off + v | _, _ => True end.

(** The points of a sequence are left of any points [q] that fit. *)
Lemma drawPoints_spec p lin : forall prev q,
  length q = length lin ->
  (forall a s, lin !! a = Some s -> exists e v, go_index p (Index s) = Some e /\ placed_el e /\ q !! a = Some v /\ x (el_Start e) <= v <= x (el_End e)) ->
  (forall a v w, q !! a = Some v -> q !! S a = Some w -> v + EPS <= w) -> below prev q ->
  exists shapes prev', drawPoints px xPos p prev lin = Some (shapes, prev') /\
    Forall2 (fun s v => exists e, go_index p (Index s) = Some e /\ off + x (el_Start e) <= v <= off + x (el_End e)) lin (validXs shapes) /\
    spaced px ((fun t : Z * Z * El => t.1.1) <$> prev) (validXs shapes) /\
    match last q with Some v => exists pv py pe, prev' = Some (pv, py, pe) /\ pv <= off + v | None => prev' = prev end.
Proof using Type.
  induction lin as [|s lin IH]; intros prev q Hlen Hin Hsp Hb.
  { destruct q; [|done]. exists [], prev. split_and!; [done|constructor|done|done]. }
  destruct q as [|v q]; [done|]. injection Hlen as Hlen. destruct (Hin 0%nat s eq_refl) as (e & v' & He & Hpl & [= <-] & Hv). cbn [drawPoints]. rewrite He. cbn [mbind option_bind].
  rewrite (pointX_spec prev e Hpl). cbn [mbind option_bind]. 
  set (xv := match prev with Some (prevX, _, _) => Z.max (off + x (el_Start e)) (prevX + EPS) | None => off + x (el_Start e) end).
  assert (off + x (el_Start e) <= xv <= off + v) as Hxv.
  { unfold xv. destruct prev as [[[pv py] pe]|]; cbn in Hb; lia. }
  destruct (IH (Some (xv, pointY px e, e)) q Hlen) as (shapes & prev' & -> & HF & Hs & Hlast).
  { intros a s' Ha. by destruct (Hin (S a) s' Ha) as (e' & w & ?); exists e', w. }
  { intros a w w' Hw Hw'. by apply (Hsp (S a)). }
  { destruct q as [|w q]; [done|]. cbn. specialize (Hsp 0%nat v w eq_refl eq_refl). lia. }
  cbn [mbind option_bind]. eexists _, _. split; [done|].
  assert (validXs ((match prev with Some (prevX, prevY, prevEl) => [fromPrev px prevX prevY prevEl xv (pointY px e) e "linearization linearization-line"] | None => [] end)
    ++ pointLine px xv (pointY px e) "linearization linearization-point" :: shapes) = xv :: validXs shapes) as ->.
  { by destruct prev as [[[pv py] pe]|]. }
  split_and!.
  - constructor; [|done]. exists e. split; [done|]. lia.
  - cbn. split; [|done]. destruct prev as [[[pv py] pe]|]; [|done]. cbn. unfold xv. lia.
  - destruct q as [|w q]; [|change (last (v :: w :: q)) with (last (w :: q)); destruct (last (w :: q)) eqn:E; [done|by apply last_None in E]].
    cbn in Hlast |- *. exists xv, (pointY px e), e. split; [done|lia].
Qed.

(** ** The loop over the elements that could follow *)

(** An error point of sequence [li], [lin], of partition [k]. *)
Definition err_ok (k : nat) (p : list El) (li : nat) (lin : list linearizationStep) (pt : ErrorPoint) : Prop :=
  er_partition pt = k /\ er_layer pt = li /\ (exists s, last lin = Some s /\ er_index pt = Index s) /\
  exists j e, could_follow p lin j e /\ off + x (el_Start e) <= er_x pt <= off + x (el_End e).

(** The points end at [v] and the elements of [ies] have room. *)
Lemma addIllegal_spec k p li lin s prev v pv py pe (ies : list (nat * El)) : forall shapes last_ largest lengths errors,
  prev = Some (pv, py, pe) -> pv <= off + v -> last lin = Some s ->
  (forall j e, (j, e) ∈ ies -> could_follow p lin j e /\ placed_el e /\ exists r, v + EPS <= r /\ x (el_Start e) <= r <= x (el_End e)) ->
  exists shapes' last_' largest' lengths' errors',
    foldl (addIllegal px xPos k li (zlen lin) (Index <$> last lin) prev) (Some (shapes, last_, largest, lengths, errors)) ies =
      Some (shapes', last_', largest', lengths', errors ++ errors') /\
    validXs shapes' = validXs shapes /\ Forall (err_ok k p li lin) errors' /\
    (forall i q, largest' !! i = Some q -> largest !! i = Some q \/ q = li) /\
    (forall j : Z, j ∈ last_' <-> j ∈ last_ \/ exists ie, ie ∈ ies /\ j = Z.of_nat ie.1) /\
    (forall ie, ie ∈ ies -> exists pt, pt ∈ errors' /\ off + x (el_Start ie.2) <= er_x pt <= off + x (el_End ie.2)).
Proof using Type.
  induction ies as [|[j e] ies IH]; intros shapes last_ largest lengths errors Hprev Hpv Hl Hroom.
  { exists shapes, last_, largest, lengths, []. rewrite app_nil_r. split_and!; [done|done|done|by left|set_solver|set_solver]. }
  destruct (Hroom j e ltac:(by left)) as (Hcf & Hpl & r & Hr & Hre). cbn [foldl]. unfold addIllegal at 2. cbn [mbind option_bind fst snd]. unfold drawIllegal.
  rewrite (pointX_spec prev e Hpl), Hprev. cbn [mbind option_bind]. rewrite Hl. cbn [fmap option_fmap option_map mbind option_bind].
  set (xv := Z.max _ _). set (pt := mkErr xv k (Index s) li).
  set (better := match lengths !! Z.of_nat j with Some l => _ | None => _ end).
  set (new := [fromPrev px pv py pe xv _ e _; _]).
  assert (off + x (el_Start e) <= xv <= off + x (el_End e)) as Hxv by (unfold xv; lia).
  destruct (IH (shapes ++ new) (last_ ∪ {[Z.of_nat j]}) (if better then <[Z.of_nat j := li]> largest else largest)
    (if better then <[Z.of_nat j := zlen lin]> lengths else lengths) (errors ++ [pt]) Hprev Hpv Hl) as (sh' & la' & lg' & le' & er' & Hrun & Hv & He & Hg & Hs & Hall).
  { intros j' e' Hin. apply Hroom. by right. }
  exists sh', la', lg', le', (pt :: er'). split_and!.
  - rewrite Hprev, Hl in Hrun. cbn [fmap option_fmap option_map] in Hrun. rewrite Hrun. by rewrite <- app_assoc.
  - rewrite Hv. unfold validXs, new. rewrite omap_app. cbn. by rewrite app_nil_r.
  - constructor; [|done]. split_and!; [done|done|by exists s|]. exists j, e. by split.
  - intros i q Hq. destruct (Hg i q Hq) as [Hq'|]; [|by right]. destruct better; [|by left]. apply lookup_insert_Some in Hq' as [[_ <-]|[_ ?]]; [by right|by left].
  - intros i. rewrite Hs, elem_of_union, elem_of_singleton. split; [intros [[?| ->]|(ie & ? & ->)]|intros [?|(ie & [->|?]%elem_of_cons & ->)]].
    + by left.
    + right. exists (j, e). split; [by left|done].
    + right. exists ie. split; [by right|done].
    + by left; left.
    + by left; right.
    + right. by exists ie.
  - intros ie [->|Hin]%elem_of_cons; [exists pt; split; [by left|done]|]. destruct (Hall ie Hin) as (pt' & ? & ?). exists pt'. split; [by right|done].
Qed.

(** ** A partition *)

Definition boxOf (k j : nat) (e : El) : Box :=
  let bx := x (el_Start e) + XOFF px + PADDING px in
  let w := x (el_End e) - x (el_Start e) in
  mkBox (Rect bx (rowY px e) w (BOX_HEIGHT px) "history-rect") (Text (2 * bx + w) (rowY px e + BOX_HEIGHT px / 2) "history-text" (el_Description e))
    (Rect bx (rowY px e) w (BOX_HEIGHT px) "target-rect") k j.

Lemma drawHistory_spec k p : Forall placed_el p -> drawHistory px xPos k p = Some (imap (boxOf k) p).
Proof using Type.
  intros Hp. unfold drawHistory. apply mapM_Some. apply Forall2_same_length_lookup. rewrite !length_imap. split; [done|]. intros j ie b Hie Hb.
  rewrite list_lookup_imap in Hie. rewrite list_lookup_imap in Hb. destruct (p !! j) as [e|] eqn:Hj; [|done]. injection Hie as <-. injection Hb as <-.
  destruct (Forall_lookup_1 _ _ _ _ Hp Hj) as [[v Hv] [w Hw]]. cbn [fst snd]. unfold drawElement, boxOf, xf. by rewrite Hv, Hw.
Qed.

(** A layer with the points of a sequence. *)
Definition layer_ok (p : list El) (lin : list linearizationStep) (layer : list Shape) : Prop :=
  Forall2 (fun s v => exists e, go_index p (Index s) = Some e /\ off + x (el_Start e) <= v <= off + x (el_End e)) lin (validXs layer) /\
  spaced px None (validXs layer).

Record partials_ok (k : nat) (p : list El) (lins : list (list linearizationStep)) (ps : Partials) : Prop := {
  pk_layers : Forall2 (layer_ok p) lins (partialLayers ps);
  pk_illegal : Forall2 (fun lin s => forall i : Z, i ∈ s <-> exists j e, could_follow p lin j e /\ i = Z.of_nat j) lins (illegalLast ps);
  pk_largest i q : largestIllegal ps !! i = Some q -> (q < length lins)%nat;
  pk_errors pt : pt ∈ errorPoints ps -> exists li lin, lins !! li = Some lin /\ err_ok k p li lin pt;
  pk_all li lin j e : lins !! li = Some lin -> could_follow p lin j e ->
    exists pt, pt ∈ errorPoints ps /\ er_layer pt = li /\ off + x (el_Start e) <= er_x pt <= off + x (el_End e)
}.

(** The points of the sequence can be drawn. *)
Definition lin_ok (p : list El) (lin : list linearizationStep) : Prop :=
  (exists q, points_fit px x p lin q) /\ (forall s, s ∈ lin -> exists e, go_index p (Index s) = Some e) /\ (p <> [] -> lin <> []).

(** The shapes of one sequence. *)
Lemma drawLinearization_run k p li lin largest lengths errors : Forall placed_el p -> lin_ok p lin ->
  exists layer prev layer' last_ largest' lengths' errors',
    drawPoints px xPos p None lin = Some (layer, prev) /\
    foldl (addIllegal px xPos k li (zlen lin) (Index <$> last lin) prev) (Some (layer, ∅, largest, lengths, errors)) (nextElements p (Index <$> lin)) =
      Some (layer', last_, largest', lengths', errors ++ errors') /\
    layer_ok p lin layer' /\ Forall (err_ok k p li lin) errors' /\ (forall i q, largest' !! i = Some q -> largest !! i = Some q \/ q = li) /\
    (forall i : Z, i ∈ last_ <-> exists j e, could_follow p lin j e /\ i = Z.of_nat j) /\
    (forall j e, could_follow p lin j e -> exists pt, pt ∈ errors' /\ off + x (el_Start e) <= er_x pt <= off + x (el_End e)).
Proof using Type.
  intros Hpl ((q & Hlen & Hin & Hsp & Hroom) & Hrange & Hne).
  assert (forall j e, p !! j = Some e -> placed_el e) as Hpl' by (intros j e Hj; by eapply Forall_lookup_1).
  destruct (drawPoints_spec p lin None q Hlen) as (layer & prev & Hd & HF & Hs & Hlast); [|done|done|].
  { intros a s Ha. destruct (Hrange s) as [e He]; [by eapply list_elem_of_lookup_2|]. destruct (lookup_lt_is_Some_2 q a) as [v Hv]; [rewrite Hlen; by eapply lookup_lt_Some|].
    exists e, v. split_and!; [done| |done|by apply (Hin a s e v)..]. apply go_index_Some in He as [_ He]. by eapply Hpl'. }
  destruct (last lin) as [s|] eqn:El.
  - destruct (last q) as [v|] eqn:Eq; [|apply last_None in Eq; subst q; by destruct lin]. destruct Hlast as (pv & py & pe & -> & Hpv).
    destruct (addIllegal_spec k p li lin s (Some (pv, py, pe)) v pv py pe (nextElements p (Index <$> lin)) layer ∅ largest lengths errors eq_refl Hpv El)
      as (sh & la & lg & le & er & Hrun & Hv & He & Hg & Hl & Hall).
    { intros j e Hc%nextElements_spec. split; [done|]. split; [destruct Hc as [[Hj _] _]; by eapply Hpl'|]. destruct (Hroom j e Hc) as (v' & r & E & ? & ?). simplify_eq. by exists r. }
    rewrite El in Hrun. exists layer, (Some (pv, py, pe)), sh, la, lg, le, er. split_and!; [done|done|by unfold layer_ok; rewrite Hv|done|done| |].
    + intros i. rewrite Hl. split.
      * intros [?%not_elem_of_empty|([j e] & Hie%nextElements_spec & ->)]; [done|]. by exists j, e.
      * intros (j & e & Hc%nextElements_spec & ->). right. by exists (j, e).
    + intros j e Hc%nextElements_spec. by apply (Hall (j, e)).
  - apply last_None in El. subst lin. assert (p = []) as -> by (destruct p; [done|exfalso; by apply Hne]).
    assert (forall j e, ~ could_follow [] [] j e) as Hno by (by intros j e [[Hj _] _]).
    exists layer, prev, layer, ∅, largest, lengths, []. rewrite app_nil_r. split_and!; [done|done|done|done|by left| |].
    + intros i. split; [by intros ?%not_elem_of_empty|]. intros (j & e & Hc & _). by destruct (Hno j e).
    + intros j e Hc. by destruct (Hno j e).
Qed.

Lemma drawPartials_spec k p lins : Forall placed_el p -> Forall (lin_ok p) lins ->
  exists ps, drawPartials px xPos k p lins = Some ps /\ partials_ok k p lins ps.
Proof using Type.
  intros Hpl. induction lins as [|lin lins IH] using rev_ind; intros Hl.
  { eexists. split; [done|]. split; cbn; [constructor|constructor|done|by intros pt ?%not_elem_of_nil|done]. }
  apply Forall_app in Hl as [Hl [Hlin _]%Forall_cons]. destruct (IH Hl) as (ps & Hrun & [P1 P2 P3 P4 P5]). unfold drawPartials in *. rewrite imap_app, foldl_app, Hrun.
  cbn [imap foldl]. unfold compose. rewrite Nat.add_0_r. unfold drawLinearization. cbn [mbind option_bind].
  destruct (drawLinearization_run k p (length lins) lin (largestIllegal ps) (largestIllegalLength ps) (errorPoints ps) Hpl Hlin)
    as (layer & prev & layer' & la & lg & le & er & -> & Hf & Hlay & He & Hg & Hla & Hall). cbn [mbind option_bind]. rewrite Hf. cbn [mbind option_bind].
  eexists. split; [done|]. rewrite Forall_forall in He. split; cbn.
  - apply Forall2_app; [done|by constructor].
  - apply Forall2_app; [done|by constructor].
  - intros i q Hq. rewrite length_app. cbn. destruct (Hg i q Hq) as [Hq'| ->]; [specialize (P3 i q Hq'); lia|lia].
  - intros pt [Hpt|Hpt]%elem_of_app.
    + destruct (P4 pt Hpt) as (li & lin' & Hli & ?). exists li, lin'. split; [by apply lookup_app_l_Some|done].
    + exists (length lins), lin. split; [by apply list_lookup_middle|by apply He].
  - intros li lin' j e Hli Hc. apply lookup_app_Some in Hli as [Hli|[Hge Hli]].
    + destruct (P5 li lin' j e Hli Hc) as (pt & ? & ?). exists pt. split; [apply elem_of_app; by left|done].
    + apply list_lookup_singleton_Some in Hli as [Hz <-]. assert (li = length lins) as -> by lia. destruct (Hall j e Hc) as (pt & Hpt & ?). exists pt.
      split_and!; [apply elem_of_app; by right|by destruct (He pt Hpt) as (_ & ? & _)|lia..].
Qed.
End Partials.

(** ** The page *)

Section Page.
Context (px : Z) (Hpx : 0 < px) (bbox : string -> Z) (data : list partitionVisualizationData) (Hd : drawable data).

Local Abbreviation parts := (partitionsFrom 0 data).
Local Abbreviation twk := (tweakEnd (startTimestamps parts) (nextTs (sortedTimestamps (allTimestamps parts)))).

Lemma partitionsFrom_length gid : length (partitionsFrom gid data) = length data.
Proof using Type. clear Hd. revert gid. induction data as [|d data' IH]; intros gid; cbn; [done|]. by rewrite IH. Qed.

Lemma tweaked_lookup k d : data !! k = Some d ->
  exists off, tweaked parts !! k = Some (twk <$> giveGids off (History d)).
Proof using Type.
  intros Hk. destruct (lookup_lt_is_Some_2 parts k) as [p Hp]; [rewrite partitionsFrom_length; by eapply lookup_lt_Some|].
  destruct (partitionsFrom_lookup 0 data k p Hp) as (off & d' & Hk' & -> & _). assert (d' = d) as -> by congruence.
  exists off. unfold tweaked. rewrite list_lookup_fmap, Hp. done.
Qed.

Lemma tweaked_elem p e : p ∈ tweaked parts -> e ∈ p -> e ∈ concat (tweaked parts).
Proof using Type. intros Hp He. apply list_elem_of_concat. by exists p. Qed.

Lemma numbered_lookup k p d lin : tweaked parts !! k = Some p -> data !! k = Some d -> lin ∈ PartialLinearizations d ->
  exists i, numbered (tweaked parts) data !! i = Some (p, lin).
Proof using Type.
  intros Hp Hk Hlin. apply list_elem_of_lookup. unfold numbered. apply list_elem_of_concat. exists ((fun lin => (p, lin)) <$> PartialLinearizations d).
  split; [by apply list_elem_of_fmap_2|]. apply (list_elem_of_lookup_2 _ k). apply lookup_zip_with_Some. by exists p, d.
Qed.

(** What the parts of the page are. *)
Record drawn (xPos : gmap Z Z) (page : Page) : Prop := {
  dn_dom t : is_Some (xPos !! t) <-> t ∈ timestamps parts;
  dn_fits : exists qs, fits px bbox parts data (xf xPos) qs;
  dn_height : pg_height page = pageHeight px (nClient parts);
  dn_width : exists t, last (timestamps parts) = Some t /\ pg_width page = pageWidth px (xf xPos t);
  dn_rects : historyRects page = imap (fun k p => imap (boxOf px xPos k) p) (tweaked parts);
  dn_partials : Forall2 (fun (kpd : nat * (list El * partitionVisualizationData)) ps => partials_ok px xPos kpd.1 kpd.2.1 (PartialLinearizations kpd.2.2) ps)
    (imap pair (zip (tweaked parts) data)) (pg_partials page);
  dn_errors : pg_errorPoints page = sortBy er_x (pg_partials page ≫= errorPoints)
}.

Lemma draw_drawn : elements_of data <> [] -> exists xPos page, draw px bbox data = Some page /\ drawn xPos page.
Proof using Hd Hpx.
  intros Hne. destruct (layout_fits px bbox data Hpx Hd) as (xPos & lps & Hl & Hdom & Hf & _). unfold draw. rewrite Hl. cbn [mbind option_bind]. exists xPos.
  destruct (timestamps_spec data) as [_ Hts].
  assert (forall p, p ∈ tweaked parts -> Forall (placed_el xPos) p) as Hpl.
  { intros p Hp. apply Forall_forall. intros e He. destruct (Hts e (tweaked_elem p e Hp He)) as [H1 H2]. split; by apply Hdom. }
  assert (exists t v, last (timestamps parts) = Some t /\ xPos !! t = Some v) as (t & v & Et & Ev).
  { destruct (last (timestamps parts)) as [t|] eqn:Et.
    - exists t. destruct (proj2 (Hdom t)) as [v Hv]; [rewrite last_lookup in Et; by eapply list_elem_of_lookup_2|]. by exists v.
    - exfalso. apply last_None in Et. destruct (elements_of data) as [|h hs] eqn:Eh; [done|]. destruct (concat_elements 0 data h) as [g Hg]; [rewrite Eh; by left|].
      destruct (Hts (twk (elOf g h))) as [H1 _]; [rewrite tweaked_concat; by apply list_elem_of_fmap_2|]. rewrite Et in H1. by apply not_elem_of_nil in H1. }
  rewrite Et. cbn [mbind option_bind]. rewrite Ev. cbn [mbind option_bind].
  assert (mapM (fun ip : nat * list El => drawHistory px xPos ip.1 ip.2) (imap pair (tweaked parts)) = Some (imap (fun k p => imap (boxOf px xPos k) p) (tweaked parts))) as ->.
  { apply mapM_Some, Forall2_same_length_lookup. rewrite !length_imap. split; [done|]. intros k ip b Hi Hb. rewrite list_lookup_imap in Hi. rewrite list_lookup_imap in Hb.
    destruct (tweaked parts !! k) as [p|] eqn:Hk; [|done]. injection Hi as <-. injection Hb as <-. apply drawHistory_spec, Hpl. by eapply list_elem_of_lookup_2. }
  cbn [mbind option_bind].
  set (f := fun ipd : nat * (list El * partitionVisualizationData) => drawPartials px xPos ipd.1 ipd.2.1 (PartialLinearizations ipd.2.2)).
  assert (forall kpd, kpd ∈ imap pair (zip (tweaked parts) data) -> exists ps, f kpd = Some ps /\ partials_ok px xPos kpd.1 kpd.2.1 (PartialLinearizations kpd.2.2) ps) as Hps.
  { intros kpd (k & Hk)%list_elem_of_lookup. rewrite list_lookup_imap in Hk. apply fmap_Some in Hk as ([p d] & Hpd & ->). apply lookup_zip_with_Some in Hpd as (p' & d' & [= <- <-] & Hp & Hdk).
    cbn [fst snd]. apply drawPartials_spec; [apply Hpl; by eapply list_elem_of_lookup_2|]. apply Forall_forall. intros lin Hlin.
    destruct (tweaked_lookup k d Hdk) as [off Hp']. assert (p = twk <$> giveGids off (History d)) as -> by congruence.
    destruct (numbered_lookup k _ d lin Hp Hdk Hlin) as [i Hi]. destruct (ft_points _ _ _ _ _ _ Hf i _ lin Hi) as (q & _ & Hq).
    destruct (dr_lins data Hd d lin) as [Hdl Hr _ _]; [by eapply list_elem_of_lookup_2|done|]. split_and!; [by exists q| |].
    - intros s Hs. destruct (Hr s Hs) as (h & [Hb Hh]%go_index_Some). eexists. apply go_index_Some. rewrite list_lookup_fmap, giveGids_lookup, Hh.
      unfold zlen in *. rewrite length_fmap, giveGids_length. split; [lia|done].
    - intros Hn. apply Hdl. intros E. apply Hn. by rewrite E. }
  destruct (mapM_is_Some_2 f (imap pair (zip (tweaked parts) data))) as [partials Hpart].
  { apply Forall_forall. intros kpd Hk. destruct (Hps kpd Hk) as (ps & E & _). exists ps. exact E. }
  fold f. rewrite Hpart. cbn [mbind option_bind]. eexists. split; [done|]. split; cbn; [done|by exists lps|done| |done| |done].
  - exists t. split; [done|]. unfold xf. by rewrite Ev.
  - apply mapM_Some in Hpart. apply Forall2_same_length_lookup. split; [by eapply Forall2_length|]. intros k kpd ps Hk Hp.
    destruct (Hps kpd) as (ps' & E & Hok); [by eapply list_elem_of_lookup_2|]. pose proof (Forall2_lookup_lr _ _ _ _ _ _ Hpart Hk Hp) as E'. cbn in E'. assert (ps' = ps) as -> by congruence. done.
Qed.

(** *** What is on the page *)

Definition box_at (page : Page) (k j : nat) : option Box := boxes ← historyRects page !! k; boxes !! j.
Definition layer_at (page : Page) (k li : nat) : option (list Shape) := ps ← pg_partials page !! k; partialLayers ps !! li.

Section Drawn.
Context (xPos : gmap Z Z) (page : Page) (Hdn : drawn xPos page).

Lemma drawn_partition k d : data !! k = Some d ->
  exists off ps, tweaked parts !! k = Some (twk <$> giveGids off (History d)) /\ pg_partials page !! k = Some ps /\
    partials_ok px xPos k (twk <$> giveGids off (History d)) (PartialLinearizations d) ps.
Proof using Hdn.
  intros Hk. destruct (tweaked_lookup k d Hk) as [off Hp]. exists off.
  destruct (Forall2_lookup_l _ _ _ k (k, (twk <$> giveGids off (History d), d)) (dn_partials _ _ Hdn)) as (ps & Hps & Hok).
  { rewrite list_lookup_imap. by erewrite (proj2 (lookup_zip_with_Some _ _ _ _ _)); [|by eexists _, _]. }
  by exists ps.
Qed.

Lemma drawn_box k d off j e : data !! k = Some d -> tweaked parts !! k = Some (twk <$> giveGids off (History d)) ->
  (twk <$> giveGids off (History d)) !! j = Some e -> box_at page k j = Some (boxOf px xPos k j e).
Proof using Hdn.
  intros Hk Hp Hj. unfold box_at. rewrite (dn_rects _ _ Hdn), list_lookup_imap, Hp. cbn [fmap option_fmap option_map mbind option_bind]. by rewrite list_lookup_imap, Hj.
Qed.

Lemma drawn_element off d j h : History d !! j = Some h -> (twk <$> giveGids off (History d)) !! j = Some (twk (elOf (off + j) h)).
Proof using Type. intros Hj. by rewrite list_lookup_fmap, giveGids_lookup, Hj. Qed.

Lemma in_boxOf k j e v : in_box (boxOf px xPos k j e) v <-> PADDING px + XOFF px + xf xPos (el_Start e) <= v <= PADDING px + XOFF px + xf xPos (el_End e).
Proof using Type. unfold in_box, boxOf. cbn. lia. Qed.

Lemma history_element k d j h : data !! k = Some d -> History d !! j = Some h -> h ∈ elements_of data.
Proof using Type.
  intros Hk Hj. apply list_elem_of_concat. exists (History d). split; [by eapply list_elem_of_lookup_2|]. apply list_elem_of_fmap_2. by eapply list_elem_of_lookup_2.
Qed.

Lemma maxClient_le ps (e : El) : e ∈ concat ps -> el_ClientId e <= maxClient ps.
Proof using Type.
  intros He. apply foldl_max_le. right. by apply list_elem_of_fmap_2.
Qed.

(** The boxes are on the page. *)
Lemma drawn_on_page k d j h : (forall e, e ∈ elements_of data -> 0 <= ClientId e) -> data !! k = Some d -> History d !! j = Some h ->
  exists b, box_at page k j = Some b /\ on_page px page b.
Proof using Hdn Hpx.
  intros Hc Hk Hj. destruct (drawn_partition k d Hk) as (off & ps & Hp & _). eexists. split; [by eapply drawn_box, drawn_element|].
  set (e := twk (elOf (off + j) h)). assert (e ∈ concat (tweaked parts)) as He.
  { eapply tweaked_elem; [by eapply list_elem_of_lookup_2|]. eapply list_elem_of_lookup_2. by apply drawn_element. }
  destruct (dn_fits _ _ Hdn) as [qs Hf]. destruct (timestamps_spec data) as [Hs Hts]. destruct (Hts e He) as [H1 H2].
  destruct (dn_width _ _ Hdn) as (t & Ht & Hw). unfold on_page, boxOf. cbn. rewrite Hw, (dn_height _ _ Hdn). unfold pageWidth, pageHeight, rowY.
  pose proof (ft_positive _ _ _ _ _ _ Hf _ H1) as Hpos. assert (xf xPos (el_End e) <= xf xPos t) as Hend.
  { apply last_Some in Ht as (l & El). rewrite El in Hs, H2. apply elem_of_app in H2 as [H2| ->%list_elem_of_singleton]; [|lia].
    apply StronglySorted_app in Hs as (Hlt & _ & _). specialize (Hlt _ _ H2 ltac:(by left)).
    assert (xf xPos (el_End e) + BOX_GAP px <= xf xPos t); [|unfold BOX_GAP in *; lia].
    apply (ft_apart _ _ _ _ _ _ Hf); rewrite ?El; [apply elem_of_app; by left|apply elem_of_app; right; by left|done]. }
  assert (el_ClientId e = ClientId h) as Ec by (unfold e, tweakEnd; case_bool_decide; [|done]; by destruct (nextTs _ !! _)).
  assert (0 <= ClientId h <= nClient parts - 1) as Hcl.
  { pose proof (history_element k d j h Hk Hj) as Hin. split; [by apply Hc|]. destruct (concat_elements 0 data h Hin) as [g Hg].
    pose proof (maxClient_le parts (elOf g h) Hg) as Hm. cbn in Hm. unfold nClient. lia. }
  unfold PADDING, XOFF, BOX_HEIGHT, BOX_SPACE in *. rewrite Ec. nia.
Qed.

(** The points of a sequence are in the boxes of its elements. *)
Lemma drawn_layer k d li lin : data !! k = Some d -> PartialLinearizations d !! li = Some lin ->
  exists layer, layer_at page k li = Some layer /\ spaced px None (validXs layer) /\
    Forall2 (fun s v => exists b, box_at page k (Z.to_nat (Index s)) = Some b /\ in_box b v) lin (validXs layer).
Proof using Hdn.
  intros Hk Hl. destruct (drawn_partition k d Hk) as (off & ps & Hp & Hps & Hok). destruct (Forall2_lookup_l _ _ _ _ _ (pk_layers _ _ _ _ _ _ Hok) Hl) as (layer & Hlay & HF & Hs).
  exists layer. split_and!; [unfold layer_at; by rewrite Hps|done|]. eapply Forall2_impl; [exact HF|]. intros s v (e & [_ He]%go_index_Some & Hv).
  eexists. split; [by eapply drawn_box|by apply in_boxOf].
Qed.

(** An error point is in the box of an element that could follow its sequence. *)
Lemma drawn_error pt : pt ∈ pg_errorPoints page ->
  exists d lin s j b, data !! er_partition pt = Some d /\ PartialLinearizations d !! er_layer pt = Some lin /\ last lin = Some s /\ er_index pt = Index s /\
    box_at page (er_partition pt) j = Some b /\ could_come_next (History d) lin j /\ in_box b (er_x pt).
Proof using Hdn Hd.
  rewrite (dn_errors _ _ Hdn), sortBy_perm. intros (ps & Hpt & (k & Hk)%list_elem_of_lookup)%list_elem_of_bind.
  destruct (Forall2_lookup_r _ _ _ _ _ (dn_partials _ _ Hdn) Hk) as (kpd & Hkpd & _). rewrite list_lookup_imap in Hkpd. apply fmap_Some in Hkpd as ([p d] & Hpd & _).
  apply lookup_zip_with_Some in Hpd as (p' & d' & [= <- <-] & _ & Hd'). destruct (drawn_partition k d Hd') as (off & ps' & Hp & Hps & Hok). assert (ps' = ps) as -> by congruence.
  destruct (pk_errors _ _ _ _ _ _ Hok pt Hpt) as (li & lin & Hlin & -> & -> & (s & Hs & Ei) & (j & e & Hcf & Hx)). exists d, lin, s, j.
  apply could_follow_history in Hcf as [Hcf Hj]; [|done|by eapply list_elem_of_lookup_2].
  eexists. split_and!; [done..|by eapply drawn_box|done|by apply in_boxOf].
Qed.

(** And every such element has one. *)
Lemma drawn_all_errors k d li lin j : data !! k = Some d -> PartialLinearizations d !! li = Some lin -> could_come_next (History d) lin j ->
  exists pt b, pt ∈ pg_errorPoints page /\ er_partition pt = k /\ er_layer pt = li /\ box_at page k j = Some b /\ in_box b (er_x pt).
Proof using Hdn Hd.
  intros Hk Hli Hc. destruct (drawn_partition k d Hk) as (off & ps & Hp & Hps & Hok). pose proof Hc as (h & Hj & _).
  pose proof (drawn_element off d j h Hj) as He.
  destruct (pk_all _ _ _ _ _ _ Hok li lin j (twk (elOf (off + j) h)) Hli) as (pt & Hpt & Hl & Hx).
  { apply could_follow_history; [done|by eapply list_elem_of_lookup_2|by split]. }
  destruct (pk_errors _ _ _ _ _ _ Hok pt Hpt) as (li' & lin' & _ & Hkp & _). exists pt. eexists. split_and!; [|done|done|by eapply drawn_box|by apply in_boxOf].
  rewrite (dn_errors _ _ Hdn), sortBy_perm. apply list_elem_of_bind. exists ps. split; [done|by eapply list_elem_of_lookup_2].
Qed.

Lemma drawn_page_of : (forall k d i q, data !! k = Some d -> Largest d !! i = Some q -> 0 <= q < zlen (PartialLinearizations d)) -> page_of data page.
Proof using Hdn Hd.
  intros Hlg. assert (length (pg_partials page) = length data) as Hlen.
  { rewrite <- (Forall2_length _ _ _ (dn_partials _ _ Hdn)), length_imap, length_zip_with. unfold tweaked. rewrite length_fmap, partitionsFrom_length. lia. }
  split; [| |done| | |].
  - apply Forall2_same_length_lookup. rewrite (dn_rects _ _ Hdn), length_imap. split; [unfold tweaked; by rewrite length_fmap, partitionsFrom_length|].
    intros k d bs Hk Hb. destruct (tweaked_lookup k d Hk) as [off Hp]. rewrite list_lookup_imap, Hp in Hb. injection Hb as <-. by rewrite length_imap, length_fmap, giveGids_length.
  - apply Forall2_same_length_lookup. split; [done|]. intros k d ps Hk Hps. destruct (drawn_partition k d Hk) as (off & ps' & _ & Hps' & Hok). assert (ps' = ps) as -> by congruence.
    split; [by eapply Forall2_length, pk_layers|by eapply Forall2_length, pk_illegal].
  - intros k ps i q Hps Hq. destruct (lookup_lt_is_Some_2 data k) as [d Hk]; [rewrite <- Hlen; by eapply lookup_lt_Some|].
    destruct (drawn_partition k d Hk) as (off & ps' & _ & Hps' & Hok). assert (ps' = ps) as -> by congruence.
    rewrite <- (Forall2_length _ _ _ (pk_layers _ _ _ _ _ _ Hok)). by eapply pk_largest.
  - intros k d ps li lin s i Hk Hps Hlin Hs Hi E. destruct (drawn_partition k d Hk) as (off & ps' & _ & Hps' & Hok). assert (ps' = ps) as -> by congruence.
    pose proof (Forall2_lookup_lr _ _ _ _ _ _ (pk_illegal _ _ _ _ _ _ Hok) Hlin Hs) as Hiff. apply Hiff in Hi as (j & e & [[Hj _] _] & _).
    destruct (dr_lins data Hd d lin) as [Hne _ _ _]; [by eapply list_elem_of_lookup_2..|]. apply Hne; [|done]. intros E'. by rewrite E' in Hj.
  - intros pt Hpt. destruct (drawn_error pt Hpt) as (d & lin & s & j & b & Hk & Hlin & Hs & Ei & _). exists d. split_and!; [done|by eapply lookup_lt_Some|].
    rewrite Ei. destruct (dr_lins data Hd d lin) as [_ Hr _ _]; [by eapply list_elem_of_lookup_2..|]. apply Hr. apply last_Some in Hs as (l & ->). apply elem_of_app. right. by left.
Qed.
End Drawn.
End Page.
