(* ===== verification/RenderPageProps.v ===== *)
(** * RenderPageProps: from a check to the page and what it does

    The data of a verbose check is drawn, and the page that it makes reacts as its modes say; its
    link shows an error point. *)

From S2P Require Import Prelude Bitset LinkedList Porcupine CheckerFacts CheckerSim CheckerInit CheckerSpec CheckerProps KvModel KvModelProps Visualization VisualizationProps Render RenderFacts RenderProps RenderCheck RenderDraw RenderUi RenderUiProps RenderDrawProps.
Local Open Scope Z_scope.

(** C28: what the page shows.  Data that can be drawn, with at least one element, is drawn without an
    exception.  Every element has a box, inside the frame.  The points of every sequence are in the
    boxes of its elements and [EPSILON] apart.  Every error point is in the box of an
    element that could come next after its sequence: nothing that the sequence leaves out ends before it starts; every such element
    has an error point; and the error points are in order. *)
Theorem page_drawn px bbox data :
  0 < px -> drawable data -> elements_of data <> [] -> (forall e, e ∈ elements_of data -> 0 <= ClientId e) ->
  exists page, draw px bbox data = Some page /\
    (forall k d j e, data !! k = Some d -> History d !! j = Some e -> exists b, box_at page k j = Some b /\ on_page px page b) /\
    (forall k d li lin, data !! k = Some d -> PartialLinearizations d !! li = Some lin ->
       exists layer, layer_at page k li = Some layer /\ spaced px None (validXs layer) /\
         Forall2 (fun s v => exists b, box_at page k (Z.to_nat (Index s)) = Some b /\ in_box b v) lin (validXs layer)) /\
    (forall pt, pt ∈ pg_errorPoints page -> exists d lin s j b, data !! er_partition pt = Some d /\ PartialLinearizations d !! er_layer pt = Some lin /\
       last lin = Some s /\ er_index pt = Index s /\ box_at page (er_partition pt) j = Some b /\ could_come_next (History d) lin j /\ in_box b (er_x pt)) /\
    (forall k d li lin j, data !! k = Some d -> PartialLinearizations d !! li = Some lin -> could_come_next (History d) lin j ->
       exists pt b, pt ∈ pg_errorPoints page /\ er_partition pt = k /\ er_layer pt = li /\ box_at page k j = Some b /\ in_box b (er_x pt)) /\
    StronglySorted (key_le er_x) (pg_errorPoints page).
Proof.
  intros Hpx Hd Hne Hc. destruct (draw_drawn px Hpx bbox data Hd Hne) as (xPos & page & Hdraw & Hdn). exists page. split_and!; [done| | | | |].
  - intros k d j e. by eapply drawn_on_page.
  - intros k d li lin. by eapply drawn_layer.
  - intros pt. by eapply drawn_error.
  - intros k d li lin j. by eapply drawn_all_errors.
  - rewrite (dn_errors _ _ _ _ _ Hdn). apply sortBy_sorted.
Qed.

(** What the tooltip of a box says in a mode. *)
Definition tooltipOf (data : list partitionVisualizationData) (page : Page) (m : Mode) (p i : nat) : option string :=
  match m with
  | Selected sp si => tooltipText data page true (Z.of_nat sp) (Z.of_nat si) (Z.of_nat p) (Z.of_nat i)
  | _ => tooltipText data page false 0 0 (Z.of_nat p) (Z.of_nat i)
  end.

Lemma select_scrolled data page p i st st' : select data page p i st = Some st' -> scrolledTo st' = scrolledTo st.
Proof.
  unfold select, highlight, updateJump. intros (st1 & H1 & H2)%bind_Some. apply bind_Some in H1 as (o & _ & H1). apply bind_Some in H1 as (ps & _ & [= <-]).
  apply bind_Some in H2 as (r & _ & [= <-]). by destruct (List.find _ _).
Qed.

Lemma jump_handled data page st m pt : page_of data page -> represents data page st m -> (forall p i, m <> Selected p i) -> jumpTarget data page m = Some pt ->
  exists st', handle data page st JumpClick = Some st' /\ scrolledTo st' = Some pt /\
    represents data page st' (Selected (er_partition pt) (Z.to_nat (er_index pt))).
Proof.
  intros Hpg Hrep Hm Hj. pose proof (rp_jump _ _ _ _ Hrep) as Hjr. rewrite Hj in Hjr. destruct Hjr as [Hji Hjp].
  destruct (jumpTarget_onPage data page Hpg m pt Hj) as [Hon Hpos]. cbn [handle]. rewrite Hji. unfold jumpClick. rewrite Hjp. cbn [set_scrolled selected].
  rewrite (rp_selected _ _ _ _ Hrep). replace (negb _) with true by (destruct m; [done..|by edestruct Hm]).
  destruct (select_represents data page Hpg (set_scrolled pt st) (er_partition pt) (Z.to_nat (er_index pt)) Hon) as (st' & Hsel & Hrep').
  - exact (represents_layers data page st m Hrep).
  - cbn. rewrite (rp_rects _ _ _ _ Hrep). by apply selectedRects_none.
  - exact (rp_tooltip _ _ _ _ Hrep).
  - rewrite Z2Nat.id in Hsel by done. exists st'. split_and!; [done|by rewrite (select_scrolled _ _ _ _ _ _ Hsel)|done].
Qed.

Section Check.
Context {In Out T : Type} `{!EqDecision T} `{!Sorter (A:=entry (In + Out)) Less} `{!Sorter (A := list Z) longer}.
Context (fmt_input : In -> string) (fmt_output : Out -> string) (fmt_state : T -> string) (range_order : list nat -> list nat).
Implicit Types (model : Model In Out T) (ops : list (Operation In Out)).

(** The sequences that a picture gives for its operations are there. *)
Lemma shows_largest model ops d i q : shows fmt_input fmt_output fmt_state model ops d -> Largest d !! i = Some q -> 0 <= q < zlen (PartialLinearizations d).
Proof using Type.
  intros (_ & orders & -> & _ & _ & Hl) Hq. specialize (Hl i). rewrite Hq in Hl. destruct Hl as (Hpos & o & Ho & _). apply lookup_lt_Some in Ho.
  unfold zlen. rewrite length_fmap. lia.
Qed.

Lemma check_page fuel model ops kills sched res info px bbox :
  0 < px -> (forall sub, sub ∈ partitions model ops -> timely sub /\ (searchFuel sub <= fuel)%nat) -> no_late_start (partitions model ops) ->
  concat (partitions model ops) <> [] ->
  CheckOperationsVerbose fmt_input fmt_output fmt_state range_order fuel model ops kills sched = Some (res, Some info) ->
  exists data xPos page, computeVisualizationData fmt_input fmt_output fmt_state model info = Some data /\
    Forall2 (shows fmt_input fmt_output fmt_state model) (partitions model ops) data /\ draw px bbox data = Some page /\
    drawn px bbox data xPos page /\ drawable data /\ page_of data page.
Proof using Type.
  intros Hpx Hsub Hlate Hne Hrun. destruct (visualization_shows fmt_input fmt_output fmt_state range_order fuel model ops kills sched res info Hsub Hrun) as (data & Hdata & HF).
  assert (drawable data) as Hd by (eapply shows_drawable; [done|apply Forall_forall; intros; by apply Hsub|done]).
  destruct (draw_drawn px Hpx bbox data Hd) as (xPos & page & Hdraw & Hdn).
  { destruct (concat (partitions model ops)) as [|op rest] eqn:E; [done|]. intros En.
    assert (op ∈ concat (partitions model ops)) as Hop by (rewrite E; by left). pose proof (proj2 (shows_elements fmt_input fmt_output fmt_state model _ _ _ HF) (ex_intro _ op (conj Hop eq_refl))) as Hin.
    rewrite En in Hin. by apply not_elem_of_nil in Hin. }
  exists data, xPos, page. split_and!; [done..|]. apply (drawn_page_of px bbox data Hd xPos page Hdn). intros k d i q Hk Hq.
  destruct (Forall2_lookup_r _ _ _ _ _ HF Hk) as (sub & _ & Hs). by eapply shows_largest.
Qed.

(** C27: the page of a verbose check refines its modes.  However the mouse moves over the boxes and clicks on
    them, on the background and on the link, no handler throws.  The page is always that of its mode:
    idle, following the mouse, or with one selected element, whose box alone is marked.  The layers that
    are shown, the target of the link and, when the mouse moves, the tooltip are those of the mode. *)
Theorem page_reacts fuel model ops kills sched res info px bbox :
  0 < px -> (forall sub, sub ∈ partitions model ops -> timely sub /\ (searchFuel sub <= fuel)%nat) -> no_late_start (partitions model ops) ->
  concat (partitions model ops) <> [] ->
  CheckOperationsVerbose fmt_input fmt_output fmt_state range_order fuel model ops kills sched = Some (res, Some info) ->
  exists data page, computeVisualizationData fmt_input fmt_output fmt_state model info = Some data /\ draw px bbox data = Some page /\
    forall evs, Forall (eventOnPage data) evs -> exists st, run data page evs = Some st /\ represents data page st (foldl (react data page) Idle evs) /\
      forall p i x y, onPage data p i -> exists st', handle data page st (MouseMove p i x y) = Some st' /\
        tooltipOf data page (foldl (react data page) Idle evs) p i = Some (innerHTML st').
Proof using Type.
  intros Hpx Hsub Hlate Hne Hrun. destruct (check_page fuel model ops kills sched res info px bbox Hpx Hsub Hlate Hne Hrun) as (data & xPos & page & Hdata & _ & Hdraw & _ & _ & Hpg).
  exists data, page. split_and!; [done..|]. intros evs Hev. destruct (run_represents data page Hpg evs Hev) as (st & Hst & Hrep & Hm). exists st. split_and!; [done..|].
  intros p i x y Hon. destruct (mouseMove_represents data page Hpg st _ p i x y Hrep Hm Hon) as (st' & Hst' & _ & Ht). exists st'. split; [done|].
  rewrite <- Ht. rewrite (rp_selected _ _ _ _ Hrep). destruct (foldl _ _ _) as [|?|sp si] eqn:E; [done..|]. by rewrite (rp_index _ _ _ _ Hrep sp si eq_refl).
Qed.

(** The first sequence of a partition is the one of its last element. *)
Lemma first_of_last model ops d lin s : shows fmt_input fmt_output fmt_state model ops d ->
  PartialLinearizations d !! 0%nat = Some lin -> last lin = Some s -> Largest d !! Index s = Some 0.
Proof using Type.
  intros (_ & orders & Hl & Hleg & Hs & Hlg) H0 Hlast. rewrite Hl in H0. apply list_lookup_fmap_Some in H0 as (o & -> & Ho).
  assert (Index s ∈ ids o) as Hin.
  { unfold ids. destruct (Forall_lookup_1 _ _ _ _ Hleg Ho) as (o' & E & _ & Hleg' & _). apply (inj (fmap Z.of_nat)) in E as <-.
    rewrite <- (stepsOf_ids fmt_state model ops o Hleg'). apply list_elem_of_fmap_2. apply last_Some in Hlast as (l & ->). apply elem_of_app. right. by left. }
  specialize (Hlg (Index s)). destruct (Largest d !! Index s) as [q|].
  - destruct Hlg as (Hpos & o' & Ho' & _ & _ & Hfst). destruct (decide (q = 0)) as [->|Hn]; [done|]. exfalso. by apply (Hfst 0%nat o ltac:(lia) Ho).
  - exfalso. by apply (Hlg o); [eapply list_elem_of_lookup_2|].
Qed.

(** The link leads to an error.  When the page idles and some sequence that it shows could not be
    extended, a click on the link scrolls to the leftmost of the error points shown, and
    selects the element before it, whose sequence is the point's: the point stays visible. *)
Theorem jump_shows_error fuel model ops kills sched res info px bbox :
  0 < px -> (forall sub, sub ∈ partitions model ops -> timely sub /\ (searchFuel sub <= fuel)%nat) -> no_late_start (partitions model ops) ->
  concat (partitions model ops) <> [] ->
  CheckOperationsVerbose fmt_input fmt_output fmt_state range_order fuel model ops kills sched = Some (res, Some info) ->
  exists data page, computeVisualizationData fmt_input fmt_output fmt_state model info = Some data /\ draw px bbox data = Some page /\
    forall evs, Forall (eventOnPage data) evs -> foldl (react data page) Idle evs = Idle ->
    match List.find (fun pt => (er_layer pt =? 0)%nat) (pg_errorPoints page) with
    | None => exists st, run data page evs = Some st /\ jumpInactive st = true
    | Some pt => exists st, run data page (evs ++ [JumpClick]) = Some st /\ scrolledTo st = Some pt /\
        selected st = true /\ selectedIndex st = (Z.of_nat (er_partition pt), er_index pt) /\ isHidden (partialHidden st) pt = false
    end.
Proof using Type.
  intros Hpx Hsub Hlate Hne Hrun. destruct (check_page fuel model ops kills sched res info px bbox Hpx Hsub Hlate Hne Hrun) as (data & xPos & page & Hdata & HF & Hdraw & Hdn & Hd & Hpg).
  exists data, page. split_and!; [done..|]. intros evs Hev Hidle. destruct (run_represents data page Hpg evs Hev) as (st & Hst & Hrep & _). rewrite Hidle in Hrep.
  assert (jumpTarget data page Idle = List.find (fun pt => (er_layer pt =? 0)%nat) (pg_errorPoints page)) as Ej.
  { unfold jumpTarget. apply find_ext_in. intros pt _. unfold hiddenLayer. cbn. apply negb_involutive. }
  rewrite <- Ej. destruct (jumpTarget data page Idle) as [pt|] eqn:Hj.
  2: { exists st. split; [done|]. pose proof (rp_jump _ _ _ _ Hrep) as H. by rewrite Hj in H. }
  destruct (jump_handled data page st Idle pt Hpg Hrep ltac:(done) Hj) as (st' & Hst' & Hsc & Hrep'). exists st'.
  destruct (jumpTarget_onPage data page Hpg Idle pt Hj) as [_ Hpos]. symmetry in Ej. apply List.find_some in Ej as [Hin%base.list_elem_of_In H0%Nat.eqb_eq].
  split_and!; [unfold run in *; rewrite foldl_app, Hst; exact Hst'|done|exact (rp_selected _ _ _ _ Hrep')| |].
  - rewrite (rp_index _ _ _ _ Hrep' _ _ eq_refl), Z2Nat.id by done. done.
  - rewrite (rp_partials _ _ _ _ Hrep'), (isHidden_partials data page Hpg) by done. unfold hiddenLayer. cbn. rewrite Nat.eqb_refl, Z2Nat.id, H0 by done. cbn.
    destruct (drawn_error px bbox data Hd xPos page Hdn pt Hin) as (d & lin & s & j & b & Hk & Hlin & Hs & Ei & _). rewrite H0 in Hlin.
    destruct (Forall2_lookup_r _ _ _ _ _ HF Hk) as (sub & _ & Hshow). rewrite bool_decide_eq_true_2; [done|]. unfold linearizationIndex. rewrite !go_index_nat, Hk. cbn [mbind option_bind].
    by rewrite Ei, (first_of_last model sub d lin s Hshow Hlin Hs).
Qed.
End Check.

(** ** The page of a read of an old value *)

Lemma page_drawn_witness : exists page, draw 1 ten_pixels stale_data = Some page /\ length (pg_errorPoints page) = 1%nat.
Proof.
  destruct (page_drawn 1 ten_pixels stale_data ltac:(lia) stale_drawable) as (page & Hp & _).
  - assert (length (elements_of stale_data) = 2%nat) as Hl by (by vm_compute). intros E. by rewrite E in Hl.
  - intros e He. assert (Forall (fun e => 0 <= ClientId e) (elements_of stale_data)) as HF by (vm_compute; repeat constructor; done). rewrite Forall_forall in HF. by apply HF.
  - exists page. split; [done|]. assert (length <$> (pg_errorPoints <$> draw 1 ten_pixels stale_data) = Some 1%nat) as Hl by (by vm_compute). rewrite Hp in Hl. by injection Hl.
Defined.

Lemma stale_ops : concat (partitions KvModel stale_history) <> [].
Proof. assert (length (concat (partitions KvModel stale_history)) = 2%nat) as Hl by (by vm_compute). intros E. by rewrite E in Hl. Qed.

Lemma page_reacts_witness :
  exists data page, computeVisualizationData fmt_in fmt_out fmt_st KvModel stale_info = Some data /\ draw 1 ten_pixels data = Some page /\
    forall evs, Forall (eventOnPage data) evs -> exists st, run data page evs = Some st /\ represents data page st (foldl (react data page) Idle evs).
Proof.
  destruct (page_reacts fmt_in fmt_out fmt_st (fun l => l) (searchFuel stale_history) KvModel stale_history (fun _ _ => 0) [Recv 0] Illegal stale_info 1 ten_pixels
    ltac:(lia) stale_parts stale_no_late_start stale_ops stale_check) as (data & page & H1 & H2 & H3).
  exists data, page. split; [exact H1|]. split; [exact H2|]. intros evs Hev. destruct (H3 evs Hev) as (st & Hr & Hrep & _). by exists st.
Defined.

Lemma jump_shows_error_witness :
  exists data page st, computeVisualizationData fmt_in fmt_out fmt_st KvModel stale_info = Some data /\ draw 1 ten_pixels data = Some page /\
    run data page [JumpClick] = Some st /\ selected st = true /\ selectedIndex st = (0, 0).
Proof.
  destruct (jump_shows_error fmt_in fmt_out fmt_st (fun l => l) (searchFuel stale_history) KvModel stale_history (fun _ _ => 0) [Recv 0] Illegal stale_info 1 ten_pixels
    ltac:(lia) stale_parts stale_no_late_start stale_ops stale_check) as (data & page & H1 & H2 & H3).
  specialize (H3 [] (List.Forall_nil _) eq_refl). exists data, page.
  assert (data = stale_data) as Ed by (unfold stale_data; by rewrite H1). subst data.
  assert (pg_errorPoints <$> draw 1 ten_pixels stale_data = Some [mkErr 200 0 0 0]) as He by (by vm_compute). rewrite H2 in He. injection He as He. rewrite He in H3.
  destruct H3 as (st & Hr & _ & Hs & Hi & _). exists st. split; [exact H1|]. split; [exact H2|]. split; [exact Hr|]. by split.
Defined.
