(* ===== verification/KvSrv.v ===== *)
(** * KvSrv: the single-server key/value service
      (src/6.5840-golabs-2024/src/kvsrv: common.go, server.go, client.go)

    [KVServer] is the server's state; each handler is a function on it.  A [Clerk] numbers
    its writes; [PutAppend] holds the clerk's mutex, repeats its call until a reply comes
    and then asks the server once to forget the recorded result.  An operation in progress
    is a [Task]; the network executes an outstanding call once or not at all and may lose
    the reply, as labrpc does for a server that stays up: when [Call] has returned, the
    request does not run any more.  Events of different tasks interleave freely, and
    time may pass without any ([EvIdle]).
    [w_done] is what the test records: every completed operation with its times.
    Sequence numbers are 64-bit integers. *)

From S2P Require Import Prelude Porcupine KvModel.
Local Open Scope Z_scope.

(** ** common.go *)

Record PutAppendArgs := mkPutAppendArgs {
  pa_Key : string;
  pa_Value : string;
  pa_Seq : Z;
  pa_ClientID : Z
}.

Record GetArgs := mkGetArgs { ga_Key : string }.

Definition ErrVersion : string := "Error Version".
Definition ErrNoKey : string := "Error NoKey".

(** ** server.go *)

Record KVServer := mkKVServer {
  value : gmap string string;
  lastSeq : gmap Z Z;
  record_ : gmap Z string
}.

(** Reading a Go map of strings or integers: an absent key has the zero value. *)
Definition lookupStr {K} `{Countable K} (m : gmap K string) (k : K) : string := default ""%string (m !! k).
Definition lookupInt (m : gmap Z Z) (k : Z) : Z := default 0 (m !! k).

Definition Get (args : GetArgs) (kv : KVServer) : string :=
  match value kv !! ga_Key args with
  | Some exsits => exsits
  | None => ""%string
  end.

Definition Put (args : PutAppendArgs) (kv : KVServer) : KVServer * string :=
  if lookupInt (lastSeq kv) (pa_ClientID args) >=? pa_Seq args
  then (kv, lookupStr (record_ kv) (pa_ClientID args))
  else if negb (swrap 64 (lookupInt (lastSeq kv) (pa_ClientID args) + 1) =? pa_Seq args)
  then (kv, ""%string)
  else
    (mkKVServer (<[pa_Key args := pa_Value args]> (value kv))
                (<[pa_ClientID args := pa_Seq args]> (lastSeq kv))
                (<[pa_ClientID args := pa_Value args]> (record_ kv)),
     pa_Value args).

Definition Append (args : PutAppendArgs) (kv : KVServer) : KVServer * string :=
  if lookupInt (lastSeq kv) (pa_ClientID args) >=? pa_Seq args
  then (kv, lookupStr (record_ kv) (pa_ClientID args))
  else if negb (swrap 64 (lookupInt (lastSeq kv) (pa_ClientID args) + 1) =? pa_Seq args)
  then (kv, ""%string)
  else
    let ls := <[pa_ClientID args := pa_Seq args]> (lastSeq kv) in
    match value kv !! pa_Key args with
    | Some exsits =>
        (mkKVServer (<[pa_Key args := (exsits +:+ pa_Value args)%string]> (value kv)) ls
                    (<[pa_ClientID args := exsits]> (record_ kv)), exsits)
    | None =>
        (mkKVServer (<[pa_Key args := pa_Value args]> (value kv)) ls
                    (<[pa_ClientID args := ""%string]> (record_ kv)), ""%string)
    end.

Definition Delete (client : Z) (kv : KVServer) : KVServer :=
  mkKVServer (value kv) (lastSeq kv) (delete client (record_ kv)).

Definition StartKVServer : KVServer := mkKVServer ∅ ∅ ∅.

(** ** client.go *)

(** [locked] is the state of [mtx]. *)
Record Clerk := mkClerk { client : Z; seq_ : Z; locked : bool }.

Definition MakeClerk (id : Z) : Clerk := mkClerk id 0 false.

Inductive WriteOp := OpPut | OpAppend.

Inductive Request :=
| RGet (args : GetArgs)
| RWrite (op : WriteOp) (args : PutAppendArgs).

(** Where the method of a clerk is: its call is outstanding; its call was executed and the
    reply [v] is on the way; the reply was received and [Delete] was called. *)
Inductive Phase :=
| Sending
| Answered (v : string)
| Deleting (v : string) (executed : bool).

Record Task := mkTask {
  t_clerk : nat;
  t_req : Request;
  t_phase : Phase
}.

Definition set_phase (p : Phase) (t : Task) : Task := mkTask (t_clerk t) (t_req t) p.

(** The methods in progress, by the time at which they were called. *)
Record World := mkWorld {
  w_kv : KVServer;
  w_clerks : list Clerk;
  w_tasks : gmap Z Task;
  w_now : Z;
  w_done : list kvOp
}.

Inductive Event :=
| EvGet (c : nat) (key : string)
| EvWrite (c : nat) (op : WriteOp) (key val : string)
| EvExecute (call : Z)
| EvFail (call : Z)
| EvReturn (call : Z)
| EvIdle.

(** What [Clerk.Get] returns for a reply. *)
Definition getResult (v : string) : string :=
  if bool_decide (v = ErrNoKey) || bool_decide (v = ErrVersion) then ""%string else v.

(** The operation as the test logs it: [Put] has no result, [Append] is operation 3. *)
Definition logged (c : nat) (req : Request) (call ret : Z) (v : string) : kvOp :=
  match req with
  | RGet args => mkOperation (Z.of_nat c) (mkKvInput 0 (ga_Key args) "") call (mkKvOutput (getResult v)) ret
  | RWrite OpPut args =>
      mkOperation (Z.of_nat c) (mkKvInput 1 (pa_Key args) (pa_Value args)) call (mkKvOutput "") ret
  | RWrite OpAppend args =>
      mkOperation (Z.of_nat c) (mkKvInput 3 (pa_Key args) (pa_Value args)) call (mkKvOutput v) ret
  end.

(** The handler of a request. *)
Definition serve (req : Request) (kv : KVServer) : KVServer * string :=
  match req with
  | RGet args => (kv, Get args kv)
  | RWrite OpPut args => Put args kv
  | RWrite OpAppend args => Append args kv
  end.

Definition unlock (c : Clerk) : Clerk := mkClerk (client c) (seq_ c) false.

(** The method returns [v]: its deferred unlock runs. *)
Definition finish (i : Z) (t : Task) (v : string) (w : World) : World :=
  let clerks := match t_req t with
                | RGet _ => w_clerks w
                | RWrite _ _ => alter unlock (t_clerk t) (w_clerks w)
                end in
  mkWorld (w_kv w) clerks (delete i (w_tasks w)) (w_now w)
          (w_done w ++ [logged (t_clerk t) (t_req t) i (w_now w) v]).

Definition set_tasks (ts : gmap Z Task) (w : World) : World :=
  mkWorld (w_kv w) (w_clerks w) ts (w_now w) (w_done w).
Definition set_kv (kv : KVServer) (w : World) : World :=
  mkWorld kv (w_clerks w) (w_tasks w) (w_now w) (w_done w).
Definition tick (w : World) : World :=
  mkWorld (w_kv w) (w_clerks w) (w_tasks w) (w_now w + 1) (w_done w).

(** One event; [None] when it cannot happen. *)
Definition happen (ev : Event) (w : World) : option World :=
  match ev with
  | EvGet c key =>
      _ ← w_clerks w !! c;
      Some (set_tasks (<[w_now w := mkTask c (RGet (mkGetArgs key)) Sending]> (w_tasks w)) w)
  | EvWrite c op key val =>
      ck ← w_clerks w !! c;
      if locked ck then None
      else
        let seq := swrap 64 (seq_ ck + 1) in
        let args := mkPutAppendArgs key val seq (client ck) in
        Some (mkWorld (w_kv w) (<[c := mkClerk (client ck) seq true]> (w_clerks w))
                (<[w_now w := mkTask c (RWrite op args) Sending]> (w_tasks w)) (w_now w) (w_done w))
  | EvExecute i =>
      t ← w_tasks w !! i;
      match t_phase t, t_req t with
      | Sending, req =>
          let '(kv, v) := serve req (w_kv w) in
          Some (set_kv kv (set_tasks (<[i := set_phase (Answered v) t]> (w_tasks w)) w))
      | Deleting v false, RWrite _ args =>
          Some (set_kv (Delete (pa_ClientID args) (w_kv w))
                  (set_tasks (<[i := set_phase (Deleting v true) t]> (w_tasks w)) w))
      | _, _ => None
      end
  | EvFail i =>
      t ← w_tasks w !! i;
      match t_phase t with
      | Sending | Answered _ => Some (set_tasks (<[i := set_phase Sending t]> (w_tasks w)) w)
      | Deleting v _ => Some (finish i t v w)
      end
  | EvReturn i =>
      t ← w_tasks w !! i;
      match t_phase t, t_req t with
      | Answered v, RGet _ => Some (finish i t v w)
      | Answered v, RWrite _ _ => Some (set_tasks (<[i := set_phase (Deleting v false) t]> (w_tasks w)) w)
      | Deleting v true, _ => Some (finish i t v w)
      | _, _ => None
      end
  | EvIdle => Some w
  end.

(** Time passes with every event. *)
Definition step (ev : Event) (w : World) : option World := tick <$> happen ev w.

Fixpoint run (evs : list Event) (w : World) : option World :=
  match evs with
  | [] => Some w
  | ev :: evs => w' ← step ev w; run evs w'
  end.

(** Clerks with the given ids and a fresh server. *)
Definition start (ids : list Z) : World := mkWorld StartKVServer (MakeClerk <$> ids) ∅ 0 [].
