(* ===== verification/KvSrvFacts.v ===== *)
(** * KvSrvFacts: the linearization of the key/value service

    The invariant [Inv] keeps, beside the state, the list of the operations that have taken
    effect in the order in which the server executed them: every write once, at its first
    execution, and every read whose reply is on its way or has been received.  Each event
    preserves it. *)

From S2P Require Import Prelude Porcupine CheckerSpec KvModel KvModelProps KvSrv.
Local Open Scope Z_scope.

(** ** Runs of one key *)

Fixpoint final (s : string) (l : list kvOp) : string :=
  match l with
  | [] => s
  | op :: l => final (KvStep s (op_Input op) (op_Output op)).2 l
  end.

Lemma final_app s l l' : final s (l ++ l') = final (final s l) l'.
Proof. revert s. induction l as [|op l IH]; intros s; [done|]. cbn. apply IH. Qed.

Lemma legal_app s l l' :
  legal_ops KvModel s (l ++ l') <-> legal_ops KvModel s l /\ legal_ops KvModel (final s l) l'.
Proof.
  revert s. induction l as [|op l IH]; intros s; cbn [app legal_ops final]; [tauto|].
  rewrite IH. cbn [Step KvModel]. tauto.
Qed.

(** A read can be left out. *)
Lemma final_drop_get s l1 op l2 :
  ki_Op (op_Input op) = 0 -> final s (l1 ++ op :: l2) = final s (l1 ++ l2).
Proof. intros Hop. rewrite !final_app. cbn [final]. unfold KvStep at 1. by rewrite Hop. Qed.

Lemma legal_drop_get s l1 op l2 :
  ki_Op (op_Input op) = 0 -> legal_ops KvModel s (l1 ++ op :: l2) -> legal_ops KvModel s (l1 ++ l2).
Proof.
  intros Hop. rewrite !legal_app. cbn [legal_ops Step KvModel]. unfold KvStep at 1 2. rewrite Hop. cbn. tauto.
Qed.

(** ** Operations that have taken effect *)

Record Effect := mkEffect {
  x_clerk : nat;
  x_req : Request;
  x_id : Z;              (* when the method was called *)
  x_exec : Z;            (* when the server executed it *)
  x_ret : option Z;      (* when the method returned *)
  x_v : string           (* the reply *)
}.

Definition opOf (now : Z) (x : Effect) : kvOp :=
  logged (x_clerk x) (x_req x) (x_id x) (default now (x_ret x)) (x_v x).

Definition returned (r : Z) (x : Effect) : Effect :=
  mkEffect (x_clerk x) (x_req x) (x_id x) (x_exec x) (Some r) (x_v x).

(** What the specification sees of an operation does not depend on its times. *)
Lemma opOf_input n n' x : op_Input (opOf n x) = op_Input (opOf n' x).
Proof. unfold opOf, logged. by destruct (x_req x) as [|[] ?]. Qed.
Lemma opOf_output n n' x : op_Output (opOf n x) = op_Output (opOf n' x).
Proof. unfold opOf, logged. by destruct (x_req x) as [|[] ?]. Qed.
Lemma opOf_call n x : op_Call (opOf n x) = x_id x.
Proof. unfold opOf, logged. by destruct (x_req x) as [|[] ?]. Qed.
Lemma opOf_return n x : op_Return (opOf n x) = default n (x_ret x).
Proof. unfold opOf, logged. by destruct (x_req x) as [|[] ?]. Qed.

Definition keyX (x : Effect) : string := keyOf (opOf 0 x).
Definition runOf (k : string) (xs : list Effect) : list kvOp := withKey k (opOf 0 <$> xs).

Lemma runOf_app k xs ys : runOf k (xs ++ ys) = runOf k xs ++ runOf k ys.
Proof. unfold runOf. by rewrite fmap_app, withKey_app. Qed.

Lemma runOf_one k x : runOf k [x] = if decide (keyX x = k) then [opOf 0 x] else [].
Proof.
  unfold runOf, keyX. cbn [fmap list_fmap]. rewrite withKey_cons. case_decide; [|done].
  unfold withKey. by rewrite filter_nil, app_nil_r.
Qed.

(** The ghost list [xs] explains the values of the server. *)
Definition explains (xs : list Effect) (kv : KVServer) : Prop :=
  forall k, legal_ops KvModel "" (runOf k xs) /\ final "" (runOf k xs) = lookupStr (value kv) k.

(** Adding an operation at the end. *)
Lemma explains_add xs kv x v' :
  explains xs kv -> keyX x = keyOf (opOf 0 x) ->
  KvStep (lookupStr (value kv) (keyX x)) (op_Input (opOf 0 x)) (op_Output (opOf 0 x)) = (true, v') ->
  forall kv', value kv' = <[keyX x := v']> (value kv) \/ value kv' = value kv /\ lookupStr (value kv) (keyX x) = v' ->
  explains (xs ++ [x]) kv'.
Proof.
  intros He _ Hs kv' Hv k. destruct (He k) as [Hl Hf]. rewrite runOf_app, runOf_one.
  destruct (decide (keyX x = k)) as [<-|Hne].
  - rewrite legal_app, final_app, Hf. cbn [legal_ops final Step KvModel]. rewrite Hs. cbn. split; [done|].
    destruct Hv as [-> | [-> <-]]; [|done]. unfold lookupStr. by rewrite lookup_insert_eq.
  - rewrite app_nil_r. split; [done|]. rewrite Hf. destruct Hv as [-> | [-> _]]; [|done].
    unfold lookupStr. by rewrite lookup_insert_ne.
Qed.

Lemma explains_drop_get l1 x l2 kv args :
  explains (l1 ++ x :: l2) kv -> x_req x = RGet args -> explains (l1 ++ l2) kv.
Proof.
  intros He Hx k. destruct (He k) as [Hl Hf]. change (x :: l2) with ([x] ++ l2) in Hl, Hf.
  rewrite !runOf_app, runOf_one in Hl, Hf. rewrite runOf_app. case_decide; cbn [app] in Hl, Hf; [|done].
  assert (ki_Op (op_Input (opOf 0 x)) = 0) as Hop by (unfold opOf, logged; by rewrite Hx).
  rewrite final_drop_get in Hf by done. by apply legal_drop_get in Hl.
Qed.

Lemma explains_returned l1 x l2 kv r :
  explains (l1 ++ x :: l2) kv -> explains (l1 ++ returned r x :: l2) kv.
Proof.
  intros He k. destruct (He k) as [Hl Hf]. change (x :: l2) with ([x] ++ l2) in Hl, Hf.
  change (returned r x :: l2) with ([returned r x] ++ l2).
  rewrite !runOf_app, runOf_one in *. unfold keyX, keyOf in *.
  assert (op_Input (opOf 0 (returned r x)) = op_Input (opOf 0 x)) as Hi
    by (unfold opOf, logged, returned; cbn; by destruct (x_req x) as [|[] ?]).
  assert (op_Output (opOf 0 (returned r x)) = op_Output (opOf 0 x)) as Ho
    by (unfold opOf, logged, returned; cbn; by destruct (x_req x) as [|[] ?]).
  rewrite Hi. case_decide; [|done]. rewrite !legal_app, !final_app in *. cbn [legal_ops final app Step KvModel] in *.
  by rewrite Hi, Ho.
Qed.

(** ** The invariant *)

Section Invariant.
Context (ids : list Z) (Hids : NoDup ids).
Implicit Types (w : World) (xs : list Effect) (t : Task) (i : Z).

(** The task with call time [i] has taken effect, with reply [v]; or has not yet. *)
Definition effect_of xs i t v : Prop :=
  exists x, x ∈ xs /\ x_id x = i /\ x_req x = t_req t /\ x_clerk x = t_clerk t /\ x_ret x = None /\ x_v x = v.
Definition no_effect xs i : Prop := forall x, x ∈ xs -> x_id x <> i.

(** A write of clerk [ck]: it holds the lock, and the server has executed the clerk's writes
    up to this one or up to the one before. *)
Definition write_ok w xs i t (args : PutAppendArgs) (ck : Clerk) : Prop :=
  locked ck = true /\ pa_ClientID args = client ck /\ pa_Seq args = seq_ ck /\ 1 <= seq_ ck /\
  let last := lookupInt (lastSeq (w_kv w)) (client ck) in
  let recorded := lookupStr (record_ (w_kv w)) (client ck) in
  match t_phase t with
  | Sending => last = seq_ ck - 1 /\ no_effect xs i \/ last = seq_ ck /\ effect_of xs i t recorded
  | Answered v => last = seq_ ck /\ effect_of xs i t v /\ recorded = v
  | Deleting v _ => last = seq_ ck /\ effect_of xs i t v
  end.

Definition task_ok w xs i t : Prop :=
  exists ck, w_clerks w !! t_clerk t = Some ck /\
  match t_req t with
  | RGet _ =>
      match t_phase t with
      | Sending => no_effect xs i
      | Answered v => effect_of xs i t v
      | Deleting _ _ => False
      end
  | RWrite _ args => write_ok w xs i t args ck
  end.

Definition is_write t : Prop := match t_req t with RGet _ => False | RWrite _ _ => True end.

Record Inv w xs : Prop := {
  inv_ids : client <$> w_clerks w = ids;
  inv_now : 0 <= w_now w;
  inv_time x : x ∈ xs -> x_id x < x_exec x < w_now w /\ forall r, x_ret x = Some r -> x_exec x < r;
  inv_sorted : StronglySorted (fun a b => x_exec a < x_exec b) xs;
  inv_nodup : NoDup (x_id <$> xs);
  inv_done : w_done w ≡ₚ opOf 0 <$> filter (fun x => is_Some (x_ret x)) xs;
  inv_explains : explains xs (w_kv w);
  inv_task i t : w_tasks w !! i = Some t -> i < w_now w /\ task_ok w xs i t;
  inv_pending x : x ∈ xs -> is_Some (w_tasks w !! x_id x) <-> x_ret x = None;
  inv_clerk c ck : w_clerks w !! c = Some ck ->
    0 <= seq_ ck <= w_now w /\
    (locked ck = false -> lookupInt (lastSeq (w_kv w)) (client ck) = seq_ ck /\
                          forall i t, w_tasks w !! i = Some t -> is_write t -> t_clerk t <> c);
  inv_one i j t t' : w_tasks w !! i = Some t -> w_tasks w !! j = Some t' -> is_write t -> is_write t' ->
    t_clerk t = t_clerk t' -> i = j
}.

Lemma clerk_inj w xs c c' ck ck' :
  Inv w xs -> w_clerks w !! c = Some ck -> w_clerks w !! c' = Some ck' -> client ck = client ck' -> c = c'.
Proof.
  intros HI Hc Hc' Heq. pose proof (inv_ids _ _ HI) as Hi.
  eapply (NoDup_lookup ids); [done|by rewrite <- Hi, list_lookup_fmap, Hc|].
  rewrite <- Hi, list_lookup_fmap, Hc'. cbn. congruence.
Qed.

(** What a task needs is untouched by effects of other calls and by changes that concern
    other clerks. *)
Lemma task_ok_frame w w' xs xs' i t :
  task_ok w xs i t ->
  (forall x, x_id x = i -> x ∈ xs' <-> x ∈ xs) ->
  (forall ck, w_clerks w !! t_clerk t = Some ck ->
     exists ck', w_clerks w' !! t_clerk t = Some ck' /\
     (is_write t -> ck' = ck /\
        lookupInt (lastSeq (w_kv w')) (client ck) = lookupInt (lastSeq (w_kv w)) (client ck) /\
        lookupStr (record_ (w_kv w')) (client ck) = lookupStr (record_ (w_kv w)) (client ck))) ->
  task_ok w' xs' i t.
Proof.
  intros (ck & Hck & Ht) Hxs Hkv. destruct (Hkv ck Hck) as (ck' & Hck' & Hw). exists ck'. split; [done|].
  assert (no_effect xs i -> no_effect xs' i) as Hno by (intros H x Hx Hid; apply (H x); [by apply Hxs|done]).
  assert (forall v, effect_of xs i t v -> effect_of xs' i t v) as Hef.
  { intros v (x & Hx & Hid & H). exists x. split; [by apply Hxs|done]. }
  unfold is_write in Hw. destruct (t_req t) as [args|op args] eqn:Er.
  - destruct (t_phase t); [by apply Hno|by apply Hef|done].
  - destruct Ht as (H1 & H2 & H3 & H4 & Ht). destruct (Hw I) as (-> & Hls & Hrec).
    unfold write_ok. rewrite Hls, Hrec. split_and!; [done..|]. destruct (t_phase t).
    + destruct Ht as [[? ?]|[? ?]]; [left|right]; auto.
    + destruct Ht as (? & ? & ?). auto.
    + destruct Ht as (? & ?). auto.
Qed.

(** Time passes. *)
Lemma kv_Inv_tick w xs : Inv w xs -> Inv (tick w) xs.
Proof.
  intros [H1 H2 H3 H4 H5 H6 H7 H8 H9 H10 H11]. split; cbn; try done.
  - lia.
  - intros x Hx. destruct (H3 x Hx). split; [lia|done].
  - intros i t Ht. destruct (H8 i t Ht). split; [lia|done].
  - intros c ck Hc. destruct (H10 c ck Hc). split; [lia|done].
Qed.

Lemma kv_Inv_start : Inv (start ids) [].
Proof.
  split; cbn; try done.
  - rewrite <- list_fmap_compose. apply list_fmap_id.
  - set_solver.
  - constructor.
  - constructor.
  - set_solver.
  - intros c ck Hc. apply list_lookup_fmap_Some in Hc as (z & -> & _). cbn. split; [done|]. intros _.
    unfold lookupInt. rewrite lookup_empty. split; [done|]. intros i t Ht. by rewrite lookup_empty in Ht.
Qed.

(** *** Starting a method *)

Lemma fresh_id w xs : Inv w xs -> w_tasks w !! w_now w = None /\ no_effect xs (w_now w).
Proof.
  intros HI. split.
  - destruct (w_tasks w !! w_now w) as [t|] eqn:E; [|done]. destruct (inv_task _ _ HI _ _ E). lia.
  - intros x Hx Hid. destruct (inv_time _ _ HI x Hx). lia.
Qed.

Lemma Inv_new_task w xs clerks t :
  Inv w xs ->
  client <$> clerks = ids ->
  (forall c ck', clerks !! c = Some ck' -> exists ck, w_clerks w !! c = Some ck /\
     (ck' = ck \/ (c = t_clerk t /\ is_write t /\ locked ck = false /\ locked ck' = true /\
                   client ck' = client ck /\ 0 <= seq_ ck' <= seq_ ck + 1))) ->
  (forall c ck, w_clerks w !! c = Some ck -> exists ck', clerks !! c = Some ck' /\ (c <> t_clerk t -> ck' = ck)) ->
  (is_write t -> forall i t', w_tasks w !! i = Some t' -> is_write t' -> t_clerk t' <> t_clerk t) ->
  (is_write t -> forall ck, clerks !! t_clerk t = Some ck -> locked ck = true) ->
  let w' := tick (mkWorld (w_kv w) clerks (<[w_now w := t]> (w_tasks w)) (w_now w) (w_done w)) in
  task_ok w' xs (w_now w) t -> Inv w' xs.
Proof.
  intros HI Hcl Hold Hnew Hno Hlock w' Ht. destruct (fresh_id w xs HI) as [Hfr Hne].
  pose proof HI as [H1 H2 H3 H4 H5 H6 H7 H8 H9 H10 H11]. split; cbn; try done.
  - lia.
  - intros x Hx. destruct (H3 x Hx). split; [lia|done].
  - intros i t' Hi. destruct (decide (i = w_now w)) as [->|Hni].
    + rewrite lookup_insert_eq in Hi. injection Hi as <-. split; [lia|done].
    + rewrite lookup_insert_ne in Hi by done. destruct (H8 i t' Hi) as [Hlt Hok]. split; [lia|].
      apply (task_ok_frame w _ xs); [done|done|]. intros ck Hck. destruct (Hnew _ _ Hck) as (ck' & Hck' & Hsame).
      exists ck'. split; [done|]. intros Hw'. split; [|done].
      destruct (Hold _ _ Hck') as (ck0 & Hck0 & [->|(Hc & Hw & _)]); [congruence|].
      exfalso. by apply (Hno Hw i t' Hi Hw').
  - intros x Hx. rewrite lookup_insert_ne by (symmetry; by apply Hne). by apply H9.
  - intros c ck' Hc. destruct (Hold c ck' Hc) as (ck & Hck & Hcase). destruct (H10 c ck Hck) as [Hs Hun].
    destruct Hcase as [->|(-> & Hw & Hl & Hl' & _ & Hs')]; [|split; [lia|congruence]]. split; [lia|].
    intros Hlk. destruct (Hun Hlk) as [Hls Hnt]. split; [done|]. intros i t' Hi Hw'.
    destruct (decide (i = w_now w)) as [->|Hni]; [|rewrite lookup_insert_ne in Hi by done; by eapply Hnt].
    rewrite lookup_insert_eq in Hi. injection Hi as <-. intros <-. by rewrite (Hlock Hw' ck Hc) in Hlk.
  - intros i j t1 t2 Hi Hj Hw1 Hw2 Heq.
    apply lookup_insert_Some in Hi as [[<- <-]|[Hi' Hi]]; apply lookup_insert_Some in Hj as [[<- <-]|[Hj' Hj]].
    + done.
    + exfalso. by eapply (Hno Hw1 j t2).
    + exfalso. by eapply (Hno Hw2 i t1).
    + by eapply H11.
Qed.

(** *** Steps of a method in progress *)

(** The effects a step leaves behind: well timed and ordered. *)
Definition timed (now : Z) xs : Prop :=
  (forall x, x ∈ xs -> x_id x < x_exec x < now /\ forall r, x_ret x = Some r -> x_exec x < r) /\
  StronglySorted (fun a b => x_exec a < x_exec b) xs /\ NoDup (x_id <$> xs).

Lemma timed_same w xs : Inv w xs -> timed (w_now w + 1) xs.
Proof.
  intros HI. split_and!; [|apply HI|apply HI]. intros x Hx. destruct (inv_time _ _ HI x Hx). split; [lia|done].
Qed.

Lemma timed_add w xs c req i v :
  Inv w xs -> i < w_now w -> no_effect xs i ->
  timed (w_now w + 1) (xs ++ [mkEffect c req i (w_now w) None v]).
Proof.
  intros HI Hi Hno. destruct (timed_same w xs HI) as (Ht & Hs & Hn). split_and!.
  - intros x [Hx|Hx%list_elem_of_singleton]%elem_of_app; [by apply Ht|]. subst x. cbn. split; [lia|done].
  - apply StronglySorted_app. split_and!; [|done|repeat constructor].
    intros a b Ha Hb%list_elem_of_singleton. subst b. cbn. destruct (inv_time _ _ HI a Ha). lia.
  - rewrite fmap_app. apply NoDup_app. split_and!; [done| |apply NoDup_singleton].
    intros z (x & -> & Hx)%list_elem_of_fmap Hz%list_elem_of_singleton. by apply (Hno x).
Qed.

Lemma timed_drop w l1 x l2 : Inv w (l1 ++ x :: l2) -> timed (w_now w + 1) (l1 ++ l2).
Proof.
  intros HI. destruct (timed_same _ _ HI) as (Ht & Hs & Hn). split_and!.
  - intros y Hy. apply Ht. set_solver.
  - apply StronglySorted_app in Hs as (H1 & H2 & H3). apply StronglySorted_app.
    apply StronglySorted_inv in H3 as [H3 _]. split_and!; [|done|done]. intros a b Ha Hb. apply H1; [done|by right].
  - revert Hn. rewrite !fmap_app, fmap_cons, !NoDup_app, NoDup_cons. set_solver.
Qed.

Lemma timed_returned w l1 x l2 :
  Inv w (l1 ++ x :: l2) -> timed (w_now w + 1) (l1 ++ returned (w_now w) x :: l2).
Proof.
  intros HI. destruct (timed_same _ _ HI) as (Ht & Hs & Hn). split_and!.
  - intros y [Hy|[->|Hy]%elem_of_cons]%elem_of_app; [apply Ht; set_solver| |apply Ht; set_solver].
    destruct (inv_time _ _ HI x) as [Hx _]; [set_solver|]. cbn. split; [lia|]. intros r [= <-]. lia.
  - apply StronglySorted_app in Hs as (H1 & H2 & H3). apply StronglySorted_app.
    apply StronglySorted_inv in H3 as [H3 H4]. split_and!; [|done|by constructor].
    intros a b Ha [->|Hb]%elem_of_cons; [apply (H1 a x); [done|by left]|apply H1; [done|by right]].
  - revert Hn. rewrite !fmap_app, !fmap_cons. done.
Qed.

Lemma Inv_task_step w xs i t p kv' xs' :
  Inv w xs -> w_tasks w !! i = Some t ->
  (forall x, x_id x <> i -> x ∈ xs' <-> x ∈ xs) ->
  (forall x, x ∈ xs' -> x_id x = i -> x_ret x = None) ->
  timed (w_now w + 1) xs' ->
  filter (fun x => is_Some (x_ret x)) xs' ≡ₚ filter (fun x => is_Some (x_ret x)) xs ->
  explains xs' kv' ->
  (forall cl, (forall ck, is_write t -> w_clerks w !! t_clerk t = Some ck -> cl <> client ck) ->
     lookupInt (lastSeq kv') cl = lookupInt (lastSeq (w_kv w)) cl /\
     lookupStr (record_ kv') cl = lookupStr (record_ (w_kv w)) cl) ->
  let w' := tick (set_kv kv' (set_tasks (<[i := set_phase p t]> (w_tasks w)) w)) in
  task_ok w' xs' i (set_phase p t) -> Inv w' xs'.
Proof.
  intros HI Hi Hxs Hpend (Ht1 & Ht2 & Ht3) Hdone He Hkv w' Hok.
  pose proof HI as [H1 H2 H3 H4 H5 H6 H7 H8 H9 H10 H11].
  (* another write belongs to another client *)
  assert (Hother : forall ck c, w_clerks w !! c = Some ck ->
    (is_write t -> c <> t_clerk t) ->
    lookupInt (lastSeq kv') (client ck) = lookupInt (lastSeq (w_kv w)) (client ck) /\
    lookupStr (record_ kv') (client ck) = lookupStr (record_ (w_kv w)) (client ck)).
  { intros ck c Hc Hne. apply Hkv. intros ck0 Hw Hck0 Heq. apply (Hne Hw). by eapply clerk_inj. }
  split; cbn; try done.
  - lia.
  - by rewrite Hdone.
  - intros j t' [[<- <-]|[Hne Hj]]%lookup_insert_Some; [split; [|done]; by destruct (H8 _ _ Hi); lia|].
    destruct (H8 j t' Hj) as [Hlt Hok']. split; [lia|]. apply (task_ok_frame w _ xs); [done| |].
    + intros x <-. by apply Hxs.
    + intros ck Hck. exists ck. split; [done|]. intros Hw'. split; [done|]. apply (Hother ck (t_clerk t')); [done|].
      intros Hw Heq. apply Hne. by eapply H11.
  - intros x Hx. destruct (decide (x_id x = i)) as [Hid|Hid].
    + rewrite Hid, lookup_insert_eq. split; [|by eexists]. intros _. by apply Hpend.
    + rewrite lookup_insert_ne by done. apply H9. by apply Hxs.
  - intros c ck Hc. destruct (H10 c ck Hc) as [Hs Hun]. split; [lia|]. intros Hlk. destruct (Hun Hlk) as [Hls Hnt].
    destruct (Hother ck c Hc) as [-> _]; [intros Hw ->; by apply (Hnt i t Hi Hw)|]. split; [done|].
    intros j t' [[<- <-]|[Hne Hj]]%lookup_insert_Some Hw; [by apply (Hnt _ _ Hi)|by apply (Hnt j t')].
  - intros j j' t1 t2 [[<- <-]|[Hne Hj]]%lookup_insert_Some [[<- <-]|[Hne' Hj']]%lookup_insert_Some Hw1 Hw2 Heq.
    + done.
    + by eapply (H11 i j' t t2).
    + by eapply (H11 j i t1 t).
    + by eapply H11.
Qed.

(** No stored value is one of the error strings [Clerk.Get] looks for. *)
Definition clean (kv : KVServer) : Prop :=
  forall k v, value kv !! k = Some v -> v <> ErrNoKey /\ v <> ErrVersion.

Lemma getResult_clean kv args : clean kv -> getResult (Get args kv) = Get args kv.
Proof.
  intros Hc. unfold getResult, Get. destruct (value kv !! ga_Key args) as [v|] eqn:E; [|done].
  destruct (Hc _ _ E). by rewrite !bool_decide_eq_false_2.
Qed.

(** A write that the server has not seen changes the value as the specification says and
    records its reply; one that it has executed is answered from the record. *)
Lemma serve_new op args kv c i now :
  lookupInt (lastSeq kv) (pa_ClientID args) = pa_Seq args - 1 -> is_int64 (pa_Seq args) -> 1 <= pa_Seq args ->
  let '(kv', v) := serve (RWrite op args) kv in
  let x := mkEffect c (RWrite op args) i now None v in
  lastSeq kv' = <[pa_ClientID args := pa_Seq args]> (lastSeq kv) /\
  record_ kv' = <[pa_ClientID args := v]> (record_ kv) /\
  exists new, KvStep (lookupStr (value kv) (keyX x)) (op_Input (opOf 0 x)) (op_Output (opOf 0 x)) = (true, new) /\
    value kv' = <[keyX x := new]> (value kv).
Proof.
  intros Hl H64 H1. destruct op; cbn [serve]; unfold Put, Append; rewrite Hl.
  - destruct (Z.geb_spec (pa_Seq args - 1) (pa_Seq args)); [lia|]. rewrite Z.sub_add, swrap64_small by done.
    rewrite Z.eqb_refl. cbn. split_and!; [done..|]. by eexists.
  - destruct (Z.geb_spec (pa_Seq args - 1) (pa_Seq args)); [lia|]. rewrite Z.sub_add, swrap64_small by done.
    rewrite Z.eqb_refl. cbn [negb]. unfold lookupStr, keyX. cbn.
    destruct (value kv !! pa_Key args) as [v|] eqn:E; cbn; split_and!; try done; eexists;
      (split; [by rewrite bool_decide_eq_true_2|done]).
Qed.

Lemma serve_old op args kv :
  lookupInt (lastSeq kv) (pa_ClientID args) = pa_Seq args ->
  serve (RWrite op args) kv = (kv, lookupStr (record_ kv) (pa_ClientID args)).
Proof.
  intros Hl. destruct op; cbn [serve]; unfold Put, Append; rewrite Hl;
    (destruct (Z.geb_spec (pa_Seq args) (pa_Seq args)); [done|lia]).
Qed.

Lemma add_other xs i x0 : x_id x0 = i -> forall x, x_id x <> i -> x ∈ xs ++ [x0] <-> x ∈ xs.
Proof. intros <- x Hx. rewrite elem_of_app, list_elem_of_singleton. naive_solver. Qed.

Lemma add_pending xs i x0 :
  no_effect xs i -> x_ret x0 = None -> forall x, x ∈ xs ++ [x0] -> x_id x = i -> x_ret x = None.
Proof. intros Hno H0 x [Hx|Hx%list_elem_of_singleton]%elem_of_app Hid; [by destruct (Hno x)|by subst]. Qed.

Lemma filter_add xs x0 :
  x_ret x0 = None -> filter (fun x => is_Some (x_ret x)) (xs ++ [x0]) ≡ₚ filter (fun x => is_Some (x_ret x)) xs.
Proof. intros H0. rewrite filter_app, filter_cons_False, filter_nil, app_nil_r; [done|]. rewrite H0. by intros [? ?]. Qed.

Lemma Inv_execute_get w xs i t args :
  Inv w xs -> clean (w_kv w) -> w_tasks w !! i = Some t -> t_req t = RGet args -> t_phase t = Sending ->
  exists xs', Inv (tick (set_kv (w_kv w) (set_tasks (<[i := set_phase (Answered (Get args (w_kv w))) t]> (w_tasks w)) w))) xs'.
Proof.
  intros HI Hcl Hi Hreq Hph. destruct (inv_task _ _ HI i t Hi) as (Hlt & ck & Hck & Hok).
  rewrite Hreq, Hph in Hok. set (v := Get args (w_kv w)).
  set (x0 := mkEffect (t_clerk t) (t_req t) i (w_now w) None v). exists (xs ++ [x0]).
  apply (Inv_task_step w xs i t _ (w_kv w) (xs ++ [x0]) HI Hi).
  - by apply add_other.
  - by apply add_pending.
  - by apply timed_add.
  - by apply filter_add.
  - apply (explains_add xs (w_kv w) x0 v (inv_explains _ _ HI)); [done| |].
    + unfold keyX, keyOf, opOf, logged, x0. cbn. rewrite Hreq. cbn. rewrite (getResult_clean _ args Hcl : getResult v = v).
      change (lookupStr (value (w_kv w)) (ga_Key args)) with v. unfold KvStep. cbn.
      rewrite bool_decide_eq_true_2; done.
    + right. split; [done|]. unfold keyX, keyOf, opOf, logged, x0. cbn. by rewrite Hreq.
  - done.
  - exists ck. cbn. split; [done|]. rewrite Hreq. exists x0. split; [set_solver|]. done.
Qed.

Lemma Inv_execute_write w xs i t op args :
  Inv w xs -> w_now w < 2 ^ 63 - 1 -> w_tasks w !! i = Some t -> t_req t = RWrite op args -> t_phase t = Sending ->
  let '(kv', v) := serve (RWrite op args) (w_kv w) in
  exists xs', Inv (tick (set_kv kv' (set_tasks (<[i := set_phase (Answered v) t]> (w_tasks w)) w))) xs'.
Proof.
  intros HI Hnow Hi Hreq Hph. destruct (inv_task _ _ HI i t Hi) as (Hlt & ck & Hck & Hok).
  rewrite Hreq in Hok. unfold write_ok in Hok. rewrite Hph in Hok.
  destruct Hok as (Hlk & Hcl & Hseq & H1 & [[Hls Hno]|[Hls Hef]]).
  - destruct (inv_clerk _ _ HI _ _ Hck) as [Hs _].
    pose proof (serve_new op args (w_kv w) (t_clerk t) i (w_now w)) as Hsv.
    destruct (serve (RWrite op args) (w_kv w)) as [kv' v]. rewrite Hcl, Hseq in Hsv.
    destruct Hsv as (Hls' & Hrec' & new & Hstep & Hval); [done|unfold is_int64; lia|done|].
    set (x0 := mkEffect (t_clerk t) (RWrite op args) i (w_now w) None v) in *. exists (xs ++ [x0]).
    apply (Inv_task_step w xs i t _ kv' (xs ++ [x0]) HI Hi).
    + by apply add_other.
    + by apply add_pending.
    + by apply timed_add.
    + by apply filter_add.
    + eapply (explains_add xs (w_kv w) x0 new (inv_explains _ _ HI)); [done|done|by left].
    + intros cl Hne. assert (cl <> client ck) by (apply Hne; [unfold is_write; by rewrite Hreq|done]).
      unfold lookupInt, lookupStr. by rewrite Hls', Hrec', !lookup_insert_ne.
    + exists ck. cbn. split; [done|]. rewrite Hreq. unfold write_ok. cbn [t_phase set_phase w_kv tick set_kv].
      unfold lookupInt, lookupStr. rewrite Hls', Hrec', !lookup_insert_eq. cbn. split_and!; [done..| |done].
      exists x0. split; [set_solver|]. cbn. by rewrite Hreq.
  - rewrite serve_old by congruence. exists xs.
    destruct Hef as (x & Hx & Hid & Hrest).
    apply (Inv_task_step w xs i t _ (w_kv w) xs HI Hi); [done| |by apply timed_same|done|apply HI|done|].
    + intros y Hy Hidy. apply (inv_pending _ _ HI y Hy). rewrite Hidy. by exists t.
    + exists ck. cbn. split; [done|]. rewrite Hreq. unfold write_ok. cbn. rewrite Hcl. split_and!; [done..| |done].
      by exists x.
Qed.

Lemma Inv_execute_delete w xs i t op args v :
  Inv w xs -> w_tasks w !! i = Some t -> t_req t = RWrite op args -> t_phase t = Deleting v false ->
  exists xs', Inv (tick (set_kv (Delete (pa_ClientID args) (w_kv w))
                     (set_tasks (<[i := set_phase (Deleting v true) t]> (w_tasks w)) w))) xs'.
Proof.
  intros HI Hi Hreq Hph. destruct (inv_task _ _ HI i t Hi) as (Hlt & ck & Hck & Hok).
  rewrite Hreq in Hok. unfold write_ok in Hok. rewrite Hph in Hok.
  destruct Hok as (Hlk & Hcl & Hseq & H1 & Hls & Hef). exists xs.
  apply (Inv_task_step w xs i t _ _ xs HI Hi); [done| |by apply timed_same|done|apply HI| |].
  - intros y Hy Hidy. apply (inv_pending _ _ HI y Hy). rewrite Hidy. by exists t.
  - intros cl Hne. assert (cl <> client ck) by (apply Hne; [unfold is_write; by rewrite Hreq|done]).
    unfold lookupStr. cbn. rewrite lookup_delete_ne by congruence. done.
  - exists ck. cbn. split; [done|]. rewrite Hreq. by repeat split.
Qed.

(** A failed call is repeated.  A read that had been executed has had no effect; a write that
    had been executed stays executed. *)
Lemma Inv_fail w xs i t :
  Inv w xs -> w_tasks w !! i = Some t -> (forall v b, t_phase t <> Deleting v b) ->
  exists xs', Inv (tick (set_kv (w_kv w) (set_tasks (<[i := set_phase Sending t]> (w_tasks w)) w))) xs'.
Proof.
  intros HI Hi Hph. destruct (inv_task _ _ HI i t Hi) as (Hlt & ck & Hck & Hok).
  assert (Hpend : forall y, y ∈ xs -> x_id y = i -> x_ret y = None).
  { intros y Hy Hidy. apply (inv_pending _ _ HI y Hy). rewrite Hidy. by exists t. }
  destruct (t_req t) as [args|op args] eqn:Hreq.
  - destruct (t_phase t) as [|v|v b] eqn:Ep; [| |done].
    + exists xs. apply (Inv_task_step w xs i t _ _ xs HI Hi); [done|done|by apply timed_same|done|apply HI|done|].
      exists ck. cbn. split; [done|]. by rewrite Hreq.
    + destruct Hok as (x & Hx & Hid & Hxr & _ & Hret & _). apply list_elem_of_split in Hx as (l1 & l2 & ->).
      assert (Hout : forall y, y ∈ l1 ++ l2 -> x_id y <> i).
      { pose proof (inv_nodup _ _ HI) as Hnd. rewrite fmap_app, fmap_cons, NoDup_app, NoDup_cons in Hnd.
        intros y [Hy|Hy]%elem_of_app Heq.
        - destruct Hnd as (_ & Hd & _). apply (Hd (x_id y)); [by apply list_elem_of_fmap_2|]. rewrite Heq, <- Hid. by left.
        - destruct Hnd as (_ & _ & [Hn _]). apply Hn. rewrite Hid, <- Heq. by apply list_elem_of_fmap_2. }
      exists (l1 ++ l2). apply (Inv_task_step w (l1 ++ x :: l2) i t _ _ (l1 ++ l2) HI Hi).
      * intros y Hy. split; [set_solver|]. intros [?|[->|?]%elem_of_cons]%elem_of_app; set_solver.
      * intros y Hy Heq. by destruct (Hout y Hy).
      * by eapply timed_drop.
      * rewrite !filter_app, filter_cons_False; [done|]. rewrite Hret. by intros [? ?].
      * eapply explains_drop_get; [apply HI|by rewrite Hxr, Hreq].
      * done.
      * exists ck. cbn. split; [done|]. rewrite Hreq. exact Hout.
  - exists xs. apply (Inv_task_step w xs i t _ _ xs HI Hi); [done|done|by apply timed_same|done|apply HI|done|].
    exists ck. cbn. split; [done|]. rewrite Hreq. destruct Hok as (H1 & H2 & H3 & H4 & Hok). unfold write_ok. cbn.
    split_and!; [done..|]. destruct (t_phase t) as [|v|v b] eqn:Ep; [done| |by destruct (Hph v b)].
    destruct Hok as (Hls & Hef & Hrec). right. split; [done|]. by rewrite Hrec.
Qed.

Lemma unlock_lookup (l : list Clerk) c c' ck :
  alter unlock c l !! c' = Some ck ->
  exists ck0, l !! c' = Some ck0 /\ ck = if decide (c = c') then unlock ck0 else ck0.
Proof.
  destruct (decide (c = c')) as [->|Hne].
  - rewrite list_lookup_alter_eq. intros (ck0 & H1 & ->)%fmap_Some. eauto.
  - rewrite list_lookup_alter_ne by done. eauto.
Qed.

Lemma unlock_ids (l : list Clerk) c : client <$> alter unlock c l = client <$> l.
Proof.
  apply list_eq. intros c'. rewrite !list_lookup_fmap. destruct (decide (c = c')) as [->|Hne].
  - rewrite list_lookup_alter_eq. by destruct (l !! c').
  - by rewrite list_lookup_alter_ne.
Qed.

(** Returning from a method changes at most the lock of its own clerk. *)
Lemma clerk_before_finish w i t v c ck :
  w_clerks (finish i t v w) !! c = Some ck ->
  exists ck0, w_clerks w !! c = Some ck0 /\ (ck = ck0 \/ c = t_clerk t /\ is_write t /\ ck = unlock ck0).
Proof.
  unfold finish, is_write. cbn. destruct (t_req t); [eauto|].
  intros (ck0 & H0 & ->)%unlock_lookup. exists ck0. split; [done|]. case_decide; subst; auto.
Qed.

Lemma clerk_survives_finish w i t v c ck :
  w_clerks w !! c = Some ck ->
  exists ck', w_clerks (finish i t v w) !! c = Some ck' /\
    (is_write t -> c <> t_clerk t -> ck' = ck) /\ (~ is_write t -> ck' = ck).
Proof.
  intros Hc. unfold finish, is_write. cbn. destruct (t_req t); [by exists ck|].
  destruct (decide (c = t_clerk t)) as [->|Hne].
  - exists (unlock ck). rewrite list_lookup_alter_eq, Hc. split_and!; [done|done|tauto].
  - exists ck. rewrite list_lookup_alter_ne by done. done.
Qed.

(** The operation with the number of the one that returns is that one. *)
Lemma returned_unique l1 x l2 now y :
  NoDup (x_id <$> l1 ++ returned now x :: l2) -> y ∈ l1 ++ returned now x :: l2 -> x_id y = x_id x ->
  y = returned now x.
Proof.
  intros Hnd (a & Ha)%list_elem_of_lookup Heq.
  assert ((l1 ++ returned now x :: l2) !! length l1 = Some (returned now x)) as Hb by by apply list_lookup_middle.
  assert (a = length l1) as ->; [|congruence].
  eapply (NoDup_lookup _ a (length l1) (x_id y) Hnd); rewrite list_lookup_fmap; [by rewrite Ha|].
  rewrite Hb. cbn. congruence.
Qed.

(** A method returns. *)
Lemma Inv_finish w xs i t v :
  Inv w xs -> w_tasks w !! i = Some t -> effect_of xs i t v ->
  (is_write t -> forall ck, w_clerks w !! t_clerk t = Some ck -> lookupInt (lastSeq (w_kv w)) (client ck) = seq_ ck) ->
  exists xs', Inv (tick (finish i t v w)) xs'.
Proof.
  intros HI Hi (x & Hx & Hid & Hxr & Hxc & Hret & Hxv) Hls.
  apply list_elem_of_split in Hx as (l1 & l2 & ->). exists (l1 ++ returned (w_now w) x :: l2).
  destruct (timed_returned w l1 x l2 HI) as (Ht1 & Ht2 & Ht3).
  pose proof HI as [H1 H2 H3 H4 H5 H6 H7 H8 H9 H10 H11]. split; cbn; try done.
  - destruct (t_req t); [done|]. by rewrite unlock_ids.
  - lia.
  - rewrite H6, !filter_app, filter_cons_False, filter_cons_True by (try (rewrite Hret; by intros [? ?]); by eexists).
    rewrite !fmap_app, fmap_cons. etrans; [apply Permutation_app_comm|].
    assert (logged (t_clerk t) (t_req t) i (w_now w) v = opOf 0 (returned (w_now w) x)) as ->
      by (unfold opOf, returned; cbn; by rewrite Hid, Hxr, Hxc, Hxv).
    by apply Permutation_cons_app.
  - by apply explains_returned.
  - intros j t' [Hne Hj]%lookup_delete_Some. destruct (H8 j t' Hj) as [Hlt Hok]. split; [lia|].
    apply (task_ok_frame w _ (l1 ++ x :: l2)); [done| |].
    + intros y Hy. assert (y <> x /\ y <> returned (w_now w) x) as [??] by (split; intros ->; cbn in *; congruence).
      rewrite !elem_of_app, !elem_of_cons. tauto.
    + intros ck Hck. destruct (clerk_survives_finish w i t v _ _ Hck) as (ck' & Hck' & Hs1 & Hs2). exists ck'. split; [done|]. intros Hw'.
      split; [|done]. destruct (decide (t_clerk t' = t_clerk t)) as [Heq|Hne'].
      * apply Hs2. intros Hw. apply Hne. symmetry. by eapply H11.
      * unfold is_write in Hs1, Hs2. destruct (t_req t); [apply Hs2; tauto|by apply Hs1].
  - intros y Hy. destruct (decide (x_id y = i)) as [Heq|Hne].
    + rewrite Heq, lookup_delete_eq. split; [by intros [? ?]|]. intros Hn. exfalso.
      assert (y = returned (w_now w) x) as ->; [|done]. eapply returned_unique; [done..|congruence].
    + rewrite lookup_delete_ne by done. apply H9.
      apply elem_of_app in Hy as [?|[->|?]%elem_of_cons]; [set_solver|by cbn in Hne|set_solver].
  - intros c ck Hc. destruct (clerk_before_finish w i t v c ck Hc) as (ck0 & Hck0 & Hcase). destruct (H10 c ck0 Hck0) as [Hs Hun].
    destruct Hcase as [->|(-> & Hw & ->)].
    + split; [lia|]. intros Hlk. destruct (Hun Hlk) as [? Hnt]. split; [done|].
      intros j t' [_ Hj]%lookup_delete_Some. by apply (Hnt j t').
    + cbn. split; [lia|]. intros _. split; [by apply Hls|].
      intros j t' [Hne Hj]%lookup_delete_Some Hw' Heq. apply Hne. symmetry. by eapply H11.
  - intros j j' t1 t2 [_ Hj]%lookup_delete_Some [_ Hj']%lookup_delete_Some. by eapply H11.
Qed.

Lemma Inv_finish_deleting w xs i t v b :
  Inv w xs -> w_tasks w !! i = Some t -> t_phase t = Deleting v b -> exists xs', Inv (tick (finish i t v w)) xs'.
Proof.
  intros HI Hi Hph. destruct (inv_task _ _ HI i t Hi) as (_ & ck & Hck & Hok). rewrite Hph in Hok.
  destruct (t_req t) as [args|op args] eqn:Hreq; [done|]. unfold write_ok in Hok. rewrite Hph in Hok.
  destruct Hok as (_ & _ & _ & _ & Hls & Hef). apply (Inv_finish w xs i t v HI Hi Hef).
  intros _ ck0 Hck0. by simplify_eq.
Qed.

(** The reply of a write arrives: [Delete] is called. *)
Lemma Inv_received w xs i t op args v :
  Inv w xs -> w_tasks w !! i = Some t -> t_req t = RWrite op args -> t_phase t = Answered v ->
  exists xs', Inv (tick (set_tasks (<[i := set_phase (Deleting v false) t]> (w_tasks w)) w)) xs'.
Proof.
  intros HI Hi Hreq Hph. destruct (inv_task _ _ HI i t Hi) as (Hlt & ck & Hck & Hok).
  rewrite Hreq in Hok. unfold write_ok in Hok. rewrite Hph in Hok. destruct Hok as (? & ? & ? & ? & ? & Hef & _).
  exists xs. apply (Inv_task_step w xs i t _ (w_kv w) xs HI Hi); [done| |by apply timed_same|done|apply HI|done|].
  - intros y Hy Hidy. apply (inv_pending _ _ HI y Hy). rewrite Hidy. by exists t.
  - exists ck. cbn. split; [done|]. rewrite Hreq. by repeat split.
Qed.

(** *** Every event *)

Lemma step_Inv_get w xs c key w' : Inv w xs -> step (EvGet c key) w = Some w' -> Inv w' xs.
Proof.
  intros HI Hs. unfold step, happen in Hs. destruct (w_clerks w !! c) as [ck|] eqn:Hc; [|done].
  cbn in Hs. injection Hs as <-.
  apply (Inv_new_task w xs (w_clerks w) (mkTask c (RGet (mkGetArgs key)) Sending) HI).
  - apply HI.
  - eauto.
  - eauto.
  - by intros [].
  - by intros [].
  - exists ck. split; [done|]. by apply fresh_id.
Qed.

Lemma step_Inv_write w xs c op key val w' :
  Inv w xs -> w_now w < 2 ^ 63 - 1 -> step (EvWrite c op key val) w = Some w' -> Inv w' xs.
Proof.
  intros HI Hnow Hs. unfold step, happen in Hs. destruct (w_clerks w !! c) as [ck|] eqn:Hc; [|done].
  cbn in Hs. destruct (locked ck) eqn:Hlk; [done|]. cbn in Hs. injection Hs as <-.
  destruct (inv_clerk _ _ HI c ck Hc) as [Hseq Hun]. destruct (Hun Hlk) as [Hls Hnt].
  assert (swrap 64 (seq_ ck + 1) = seq_ ck + 1) as Hsw by (apply swrap64_small; unfold is_int64; lia).
  rewrite Hsw. set (ck' := mkClerk (client ck) (seq_ ck + 1) true).
  set (t := mkTask c (RWrite op (mkPutAppendArgs key val (seq_ ck + 1) (client ck))) Sending).
  assert (Hc' : <[c := ck']> (w_clerks w) !! c = Some ck') by (apply list_lookup_insert_eq; by eapply lookup_lt_Some).
  apply (Inv_new_task w xs _ t HI).
  - rewrite list_fmap_insert. cbn. rewrite (inv_ids _ _ HI). apply list_insert_id.
    by rewrite <- (inv_ids _ _ HI), list_lookup_fmap, Hc.
  - intros d k Hd. apply list_lookup_insert_Some in Hd as [(-> & <- & _)|[Hne Hd]]; [|eauto].
    exists ck. split; [done|]. right. cbn. repeat split; try done; lia.
  - intros d k Hd. destruct (decide (d = c)) as [->|Hne]; [by exists ck'|].
    exists k. by rewrite list_lookup_insert_ne.
  - intros _ i t' Hi Hw. by apply (Hnt i t').
  - intros _ k Hk. cbn in Hk. rewrite Hc' in Hk. by injection Hk as <-.
  - exists ck'. split; [done|]. cbn. unfold write_ok. cbn. split_and!; [done..|lia|]. left.
    split; [lia|by apply fresh_id].
Qed.

Lemma kv_step_Inv w xs ev w' :
  Inv w xs -> clean (w_kv w) -> w_now w < 2 ^ 63 - 1 -> step ev w = Some w' -> exists xs', Inv w' xs'.
Proof.
  intros HI Hcl Hnow Hs. destruct ev as [c key|c op key val|i|i|i|].
  - eauto using step_Inv_get.
  - eauto using step_Inv_write.
  - unfold step, happen in Hs. destruct (w_tasks w !! i) as [t|] eqn:Hi; [|done]. cbn in Hs.
    destruct (t_phase t) as [|v|v []] eqn:Hph; [| |done|].
    + destruct (t_req t) as [args|op args] eqn:Hreq.
      * injection Hs as <-. by apply (Inv_execute_get w xs i t args).
      * pose proof (Inv_execute_write w xs i t op args HI Hnow Hi Hreq Hph) as He.
        cbn in Hs. destruct op; cbn in He, Hs;
          [destruct (Put args (w_kv w))|destruct (Append args (w_kv w))]; by injection Hs as <-.
    + by destruct (t_req t).
    + destruct (t_req t) as [args|op args] eqn:Hreq; [done|]. injection Hs as <-.
      by apply (Inv_execute_delete w xs i t op args).
  - unfold step, happen in Hs. destruct (w_tasks w !! i) as [t|] eqn:Hi; [|done]. cbn in Hs.
    destruct (t_phase t) as [|v|v b] eqn:Hph; injection Hs as <-.
    + apply (Inv_fail w xs i t HI Hi). by rewrite Hph.
    + apply (Inv_fail w xs i t HI Hi). by rewrite Hph.
    + by apply (Inv_finish_deleting w xs i t v b).
  - unfold step, happen in Hs. destruct (w_tasks w !! i) as [t|] eqn:Hi; [|done]. cbn in Hs.
    destruct (t_phase t) as [|v|v []] eqn:Hph; [done| | |done].
    + destruct (t_req t) as [args|op args] eqn:Hreq; injection Hs as <-.
      * destruct (inv_task _ _ HI i t Hi) as (_ & ck & _ & Hok). rewrite Hreq, Hph in Hok.
        apply (Inv_finish w xs i t v HI Hi Hok). unfold is_write. by rewrite Hreq.
      * by apply (Inv_received w xs i t op args v).
    + injection Hs as <-. by apply (Inv_finish_deleting w xs i t v true).
  - injection Hs as <-. exists xs. by apply kv_Inv_tick.
Qed.
End Invariant.
