(* ===== verification/KvSrvProps.v ===== *)
(** * KvSrvProps: what the single-server key/value service guarantees

    Linearizability of every run over a network that loses requests and replies, exactly-once
    appends, idempotent handlers, progress of a method in progress, and the values that
    [Clerk.Get] cannot return. *)

From S2P Require Import Prelude Porcupine CheckerSpec KvModel KvModelProps KvSrv KvSrvFacts.
Local Open Scope Z_scope.

(** No value the server holds during the run is one of the error strings. *)
Definition cleanb (kv : KVServer) : bool :=
  bool_decide (map_Forall (fun _ v => v <> ErrNoKey /\ v <> ErrVersion) (value kv)).

Fixpoint always (p : World -> bool) (evs : list Event) (w : World) : bool :=
  p w && match evs with
         | [] => true
         | ev :: evs => match step ev w with Some w' => always p evs w' | None => true end
         end.

Lemma step_now ev w w' : step ev w = Some w' -> w_now w' = w_now w + 1.
Proof.
  unfold step. intros (w1 & Hh & ->)%fmap_Some. cbn. f_equal.
  destruct ev; cbn in Hh; repeat (case_match || apply bind_Some in Hh as (? & ? & Hh)); by simplify_eq.
Qed.

Lemma always_run ids evs w :
  NoDup ids -> always (fun w => cleanb (w_kv w)) evs w = true ->
  forall xs w', Inv ids w xs -> w_now w + zlen evs < 2 ^ 63 - 1 -> run evs w = Some w' -> exists xs', Inv ids w' xs'.
Proof.
  intros Hids. revert w. induction evs as [|ev evs IH]; intros w Hal xs w' HI Hnow Hrun.
  - injection Hrun as <-. by exists xs.
  - cbn in Hrun. apply bind_Some in Hrun as (w1 & Hs & Hrun). cbn [always] in Hal. rewrite Hs in Hal.
    apply andb_true_iff in Hal as [Hc%bool_decide_eq_true Hal]. unfold zlen in Hnow. cbn [length] in Hnow.
    destruct (kv_step_Inv ids Hids w xs ev w1 HI) as (xs1 & HI1); [|lia|done|].
    + intros k v Hk. by apply (Hc k v).
    + apply (IH w1 Hal xs1 w' HI1); [|done]. rewrite (step_now _ _ _ Hs). unfold zlen. lia.
Qed.

Lemma reached ids evs w :
  NoDup ids -> always (fun w => cleanb (w_kv w)) evs (start ids) = true -> zlen evs < 2 ^ 63 - 1 ->
  run evs (start ids) = Some w -> exists xs, Inv ids w xs.
Proof. intros Hids Hal Hn Hrun. eapply always_run; eauto using kv_Inv_start. Qed.

(** The order of execution is a linearization. *)
Lemma legal_times (n n' : Z) k xs s :
  legal_ops KvModel s (withKey k (opOf n <$> xs)) <-> legal_ops KvModel s (withKey k (opOf n' <$> xs)).
Proof.
  revert s. induction xs as [|x xs IH]; intros s; [done|]. cbn [fmap list_fmap]. rewrite !withKey_cons.
  unfold keyOf. rewrite (opOf_input n n' x). case_decide; [|apply IH].
  cbn [app legal_ops]. rewrite (opOf_input n n' x), (opOf_output n n' x), IH. done.
Qed.

Lemma Inv_linearizable ids w xs : Inv ids w xs -> linearizable KvStore (opOf (w_now w) <$> xs).
Proof.
  intros HI. apply linearizable_ops. exists (opOf (w_now w) <$> xs). split_and!; [done| |].
  - cbn [Init KvStore]. apply legal_store. intros k. rewrite lookup_empty. cbn [default].
    apply (legal_times 0). by destruct (inv_explains _ _ _ HI k).
  - pose proof (inv_sorted _ _ _ HI) as Hs. pose proof (inv_time _ _ _ HI) as Ht. clear HI.
    induction Hs as [|x xs Hs IH Hx]; [constructor|]. cbn. constructor; [apply IH; intros y Hy; apply Ht; by right|].
    apply Forall_forall. intros op (y & -> & Hy)%list_elem_of_fmap. unfold in_time.
    rewrite opOf_call, opOf_return. rewrite Forall_forall in Hx. specialize (Hx y Hy).
    destruct (Ht x) as [[? ?] _]; [by left|]. destruct (Ht y) as [[? ?] Hr]; [by right|].
    destruct (x_ret y) as [r|] eqn:E; cbn; [|lia]. specialize (Hr r eq_refl). lia.
Qed.

Lemma linearizable_perm ops ops' : ops ≡ₚ ops' -> linearizable KvStore ops -> linearizable KvStore ops'.
Proof. intros Hp. rewrite !linearizable_ops. intros (l & Hl & H). exists l. split; [by rewrite Hl|done]. Qed.

(** A completed operation has its own times. *)
Lemma done_times n (xs : list Effect) :
  opOf 0 <$> filter (fun x => is_Some (x_ret x)) xs = opOf n <$> filter (fun x => is_Some (x_ret x)) xs.
Proof.
  induction xs as [|x xs IH]; [done|]. destruct (x_ret x) as [r|] eqn:E.
  - rewrite filter_cons_True by (by eexists). cbn. rewrite IH. f_equal. unfold opOf. by rewrite E.
  - rewrite filter_cons_False; [done|]. rewrite E. by intros [? ?].
Qed.

(** An operation in progress that has taken effect, as if it returned now. *)
Definition in_progress (w : World) (op : kvOp) : Prop :=
  exists t v, w_tasks w !! op_Call op = Some t /\ op = logged (t_clerk t) (t_req t) (op_Call op) (w_now w) v.

Lemma filter_split {A} (P : A -> Prop) `{!forall x, Decision (P x)} (l : list A) :
  filter P l ++ filter (fun x => ~ P x) l ≡ₚ l.
Proof.
  induction l as [|x l IH]; [done|]. destruct (decide (P x)).
  - rewrite filter_cons_True, filter_cons_False by tauto. cbn. by rewrite IH.
  - rewrite filter_cons_False, filter_cons_True by done. by rewrite <- Permutation_middle, IH.
Qed.

Lemma same_effect ids w xs x y : Inv ids w xs -> x ∈ xs -> y ∈ xs -> x_id x = x_id y -> x = y.
Proof.
  intros HI (a & Ha)%list_elem_of_lookup (b & Hb)%list_elem_of_lookup Heq.
  assert (a = b) as ->; [|congruence].
  eapply (NoDup_lookup (x_id <$> xs)); [apply HI|by rewrite list_lookup_fmap, Ha|].
  rewrite list_lookup_fmap, Hb. cbn. congruence.
Qed.

Lemma pending_in_progress ids w xs x :
  Inv ids w xs -> x ∈ xs -> x_ret x = None -> in_progress w (opOf (w_now w) x).
Proof.
  intros HI Hx Hret. apply (inv_pending _ _ _ HI x Hx) in Hret as Ht. destruct Ht as [t Ht].
  assert (exists v, effect_of xs (x_id x) t v) as (v & y & Hy & Hid & Hreq & Hc & _ & Hv).
  { destruct (inv_task _ _ _ HI _ _ Ht) as (_ & ck & _ & Hok). unfold write_ok, no_effect in Hok.
    destruct (t_req t); [|destruct Hok as (_ & _ & _ & _ & Hok)]; destruct (t_phase t); try naive_solver. }
  assert (y = x) as -> by (by eapply same_effect).
  exists t, v. rewrite opOf_call. split; [done|]. unfold opOf. by rewrite Hret, Hreq, Hc, Hv.
Qed.

(** C4: the key/value server is linearizable as long as no value is an error string.  Take any run of clerks with distinct ids, over
    a network that may lose requests before and replies after execution, in which no value held
    by the server is one of the two error strings, of fewer than [2^63 - 1] events.  The completed operations, together with
    some of the operations in progress (each at most once, as if returning now), are a
    linearizable history of one map. *)
Theorem kvsrv_linearizable ids evs w :
  NoDup ids -> always (fun w => cleanb (w_kv w)) evs (start ids) = true -> zlen evs < 2 ^ 63 - 1 ->
  run evs (start ids) = Some w ->
  exists pend, linearizable KvStore (w_done w ++ pend) /\ Forall (in_progress w) pend /\ NoDup (op_Call <$> pend).
Proof.
  intros Hids Hal Hn Hrun. destruct (reached ids evs w Hids Hal Hn Hrun) as (xs & HI).
  exists (opOf (w_now w) <$> filter (fun x => ~ is_Some (x_ret x)) xs). split_and!.
  - eapply linearizable_perm; [|exact (Inv_linearizable _ _ _ HI)].
    rewrite (inv_done _ _ _ HI), (done_times (w_now w)), <- fmap_app. by rewrite filter_split.
  - apply Forall_forall. intros op (x & -> & [Hret Hx]%list_elem_of_filter)%list_elem_of_fmap.
    eapply pending_in_progress; [done..|]. by apply eq_None_not_Some.
  - rewrite <- list_fmap_compose. rewrite (list_fmap_ext _ x_id _ (fun _ x _ => opOf_call (w_now w) x)).
    eapply sublist_NoDup; [apply (inv_nodup _ _ _ HI)|]. by apply fmap_sublist, sublist_filter.
Qed.

(** ** Appends *)

(** The values appended to [k] by completed operations. *)
Definition appended (k : string) (h : list kvOp) : list string :=
  (fun op => ki_Value (op_Input op)) <$> filter (fun op => ki_Op (op_Input op) = 3) (withKey k h).

Definition joined (vals : list string) : string := foldr String.append ""%string vals.

(** An operation that [logged] makes, other than a put. *)
Definition reads_or_appends (op : kvOp) : Prop := ki_Op (op_Input op) = 0 \/ ki_Op (op_Input op) = 3.

Lemma app_str_nil s : (s +:+ "")%string = s.
Proof. induction s as [|a s IH]; [done|]. change (String a (s +:+ "") = String a s). by rewrite IH. Qed.

Lemma app_str_assoc (a b c : string) : ((a +:+ b) +:+ c = a +:+ (b +:+ c))%string.
Proof.
  induction a as [|x a IH]; [done|]. change (String x ((a +:+ b) +:+ c) = String x (a +:+ (b +:+ c))). by rewrite IH.
Qed.

Lemma final_appends l s :
  Forall reads_or_appends l ->
  final s l = (s +:+ joined ((fun op => ki_Value (op_Input op)) <$> filter (fun op => ki_Op (op_Input op) = 3) l))%string.
Proof.
  intros HF. revert s. induction HF as [|op l Hop HF IH]; intros s; [by rewrite app_str_nil|].
  cbn [final]. rewrite IH. destruct Hop as [Hop|Hop].
  - rewrite filter_cons_False by (by rewrite Hop). unfold KvStep. by rewrite Hop.
  - rewrite filter_cons_True by done. unfold KvStep. rewrite Hop. cbn. by rewrite app_str_assoc.
Qed.

Lemma logged_kind c req i r v :
  ki_Op (op_Input (logged c req i r v)) = 1 \/ reads_or_appends (logged c req i r v).
Proof. unfold reads_or_appends. destruct req as [|[] ?]; cbn; auto. Qed.

Lemma quiet_done ids w xs : Inv ids w xs -> w_tasks w = ∅ -> w_done w ≡ₚ opOf 0 <$> xs.
Proof.
  intros HI Hq. rewrite (inv_done _ _ _ HI). rewrite filter_all; [done|]. intros x Hx.
  destruct (x_ret x) as [r|] eqn:E; [by eexists|].
  apply (inv_pending _ _ _ HI x Hx) in E as [t Ht]. by rewrite Hq, lookup_empty in Ht.
Qed.

(** Every append takes effect exactly once, however often its call is repeated.  When no
    method is in progress, the value of a key that was never put is the values of the completed
    appends to it, each once, joined in some order. *)
Theorem kvsrv_appends_once ids evs w k :
  NoDup ids -> always (fun w => cleanb (w_kv w)) evs (start ids) = true -> zlen evs < 2 ^ 63 - 1 ->
  run evs (start ids) = Some w -> w_tasks w = ∅ ->
  Forall (fun op => ki_Op (op_Input op) <> 1) (withKey k (w_done w)) ->
  exists vals, vals ≡ₚ appended k (w_done w) /\ lookupStr (value (w_kv w)) k = joined vals.
Proof.
  intros Hids Hal Hn Hrun Hq Hnp. destruct (reached ids evs w Hids Hal Hn Hrun) as (xs & HI).
  pose proof (quiet_done _ _ _ HI Hq) as Hd. exists (appended k (opOf 0 <$> xs)). split.
  - unfold appended, withKey. by rewrite Hd.
  - destruct (inv_explains _ _ _ HI k) as [_ <-]. unfold runOf. rewrite final_appends; [done|].
    unfold withKey in Hnp. rewrite Hd in Hnp. rewrite Forall_forall in Hnp |- *. intros op Hop.
    pose proof (Hnp op Hop) as Hop'. apply list_elem_of_filter in Hop as [_ (x & -> & _)%list_elem_of_fmap].
    by destruct (logged_kind (x_clerk x) (x_req x) (x_id x) (default 0 (x_ret x)) (x_v x)).
Qed.

(** ** Handlers and progress *)

(** Repeating a request is harmless.  Executing a request a second time leaves the server
    as it is and gives the same reply. *)
Theorem serve_idempotent req kv :
  serve req (serve req kv).1 = serve req kv.
Proof.
  destruct req as [args|[] args]; [done|..]; cbn [serve]; unfold Put, Append.
  all: destruct (lookupInt (lastSeq kv) (pa_ClientID args) >=? pa_Seq args) eqn:E1; cbn [fst]; [by rewrite E1|].
  all: destruct (negb (swrap 64 (lookupInt (lastSeq kv) (pa_ClientID args) + 1) =? pa_Seq args)) eqn:E2; cbn [fst];
    [by rewrite E1, E2|].
  - unfold lookupInt, lookupStr. cbn. rewrite !lookup_insert_eq. cbn. by rewrite Z.geb_leb, Z.leb_refl.
  - destruct (value kv !! pa_Key args); cbn; unfold lookupInt, lookupStr; cbn; rewrite !lookup_insert_eq; cbn;
      by rewrite Z.geb_leb, Z.leb_refl.
Qed.

(** Of these events only the call of the method at [i] is concerned. *)
Definition concerns (i : Z) (ev : Event) : Prop := ev = EvExecute i \/ ev = EvReturn i \/ ev = EvFail i.


(** [n] such events complete the method: it is recorded, and no other method is touched. *)
Definition completes (n : nat) (i : Z) (w : World) : Prop :=
  exists evs w', run evs w = Some w' /\ Forall (concerns i) evs /\ (length evs <= n)%nat /\
    w_tasks w' = delete i (w_tasks w) /\ exists op, w_done w' = w_done w ++ [op] /\ op_Call op = i.

Lemma completes_finish i t v w ev :
  step ev w = Some (tick (finish i t v w)) -> concerns i ev -> completes 1 i w.
Proof.
  intros Hs Hc. exists [ev], (tick (finish i t v w)). cbn [run]. rewrite Hs. split_and!; [done|by constructor|done|done|].
  eexists. split; [done|]. by destruct (t_req t) as [|[] ?].
Qed.

Lemma completes_step i w w1 ev t n :
  step ev w = Some w1 -> concerns i ev -> w_tasks w1 = <[i := t]> (w_tasks w) -> w_done w1 = w_done w ->
  completes n i w1 -> completes (S n) i w.
Proof.
  intros Hs Hc Ht Hd (evs & w' & Hr & HF & Hl & Htk & Hop). exists (ev :: evs), w'. cbn [run length]. rewrite Hs.
  split_and!; [done|by constructor|lia| |by rewrite <- Hd]. rewrite Htk, Ht. apply delete_insert_eq.
Qed.

Lemma completes_deleting i t v b w :
  w_tasks w !! i = Some t -> t_phase t = Deleting v b -> completes 1 i w.
Proof.
  intros Hi Hp. eapply (completes_finish i t v w (EvFail i)); [|unfold concerns; auto].
  unfold step, happen. rewrite Hi. cbn. by rewrite Hp.
Qed.

Lemma completes_answered i t v w :
  w_tasks w !! i = Some t -> t_phase t = Answered v -> completes 2 i w.
Proof.
  intros Hi Hp. destruct (t_req t) as [args|op args] eqn:Hr.
  - destruct (completes_finish i t v w (EvReturn i)) as (evs & w' & H1 & H2 & H3 & H4); [|unfold concerns; auto|].
    + unfold step, happen. rewrite Hi. cbn. by rewrite Hp, Hr.
    + exists evs, w'. split_and!; [done..|lia|apply H4|apply H4].
  - eapply (completes_step i w _ (EvReturn i)).
    + unfold step, happen. rewrite Hi. cbn. by rewrite Hp, Hr.
    + unfold concerns; auto.
    + done.
    + done.
    + eapply completes_deleting; [apply lookup_insert_eq|done].
Qed.

(** A method in progress completes as soon as the network lets one call through.  Wherever
    it is, at most three events of that method alone make it return, whatever the other
    methods are doing. *)
Theorem method_completes i t w : w_tasks w !! i = Some t -> completes 3 i w.
Proof.
  intros Hi. destruct (t_phase t) as [|v|v b] eqn:Hp.
  - destruct (serve (t_req t) (w_kv w)) as [kv v] eqn:Hs. eapply (completes_step i w _ (EvExecute i)).
    + unfold step, happen. rewrite Hi. cbn. rewrite Hp, Hs. done.
    + unfold concerns; auto.
    + done.
    + done.
    + eapply completes_answered; [apply lookup_insert_eq|done].
  - destruct (completes_answered i t v w Hi Hp) as (evs & w' & H1 & H2 & H3 & H4).
    exists evs, w'. split_and!; [done..|lia|apply H4|apply H4].
  - destruct (completes_deleting i t v b w Hi Hp) as (evs & w' & H1 & H2 & H3 & H4).
    exists evs, w'. split_and!; [done..|lia|apply H4|apply H4].
Qed.

(** ** Values that cannot be read back *)

(** One clerk stores [v] under "k" and reads it. *)
Definition store_and_read (v : string) : list Event :=
  [EvWrite 0 OpPut "k" v; EvExecute 0; EvReturn 0; EvExecute 0; EvReturn 0; EvGet 0 "k"; EvExecute 5; EvReturn 5].

(** [Clerk.Get] cannot return the strings it uses for errors.  A clerk that stores one of
    them and reads it back, with no failure at all, gets the empty string, and the history is
    not linearizable: the restriction on the values in the linearizability theorem is needed. *)
Theorem error_strings_unreadable v :
  v = ErrNoKey \/ v = ErrVersion ->
  exists w, run (store_and_read v) (start [1]) = Some w /\
    lookupStr (value (w_kv w)) "k" = v /\ (ko_Value <$> (op_Output <$> w_done w)) = [""; ""]%string /\
    ~ linearizable KvStore (w_done w).
Proof.
  intros Hv.
  assert (forall a b, [a; b] ≡ₚ [mkOperation 0 (mkKvInput 1 "k" v) 0 (mkKvOutput "") 4;
                       mkOperation 0 (mkKvInput 0 "k" "") 5 (mkKvOutput "") 7] ->
    StronglySorted in_time [a; b] -> ~ legal_ops KvStore ∅ [a; b]) as Hno.
  { intros a b Hp Hs Hl. symmetry in Hp. apply Permutation_length_2_inv in Hp as [[= -> ->]|[= -> ->]].
    - destruct Hv as [-> | ->]; vm_compute in Hl; by destruct Hl as (_ & ? & _).
    - apply StronglySorted_inv in Hs as [_ Hs]. inversion_clear Hs as [|? ? Hab _]. unfold in_time in Hab. cbn in Hab. lia. }
  assert (forall w, w_done w = [mkOperation 0 (mkKvInput 1 "k" v) 0 (mkKvOutput "") 4;
                       mkOperation 0 (mkKvInput 0 "k" "") 5 (mkKvOutput "") 7] -> ~ linearizable KvStore (w_done w)) as Hnl.
  { intros w -> (l & Hp & Hl & Hs)%linearizable_ops. assert (length l = 2%nat) as Hlen by by rewrite Hp.
    destruct l as [|a [|b [|]]]; try done. by apply (Hno a b). }
  destruct Hv as [-> | ->].
  - eexists. split; [vm_compute; reflexivity|]. split_and!; [vm_compute; reflexivity..|]. apply Hnl. vm_compute. reflexivity.
  - eexists. split; [vm_compute; reflexivity|]. split_and!; [vm_compute; reflexivity..|]. apply Hnl. vm_compute. reflexivity.
Qed.

(** ** The theorems at work *)

(** Two clerks append to "k" at the same time; the first loses its reply once. *)
Definition two_appends : list Event :=
  [EvWrite 0 OpAppend "k" "x"; EvWrite 1 OpAppend "k" "y"; EvExecute 0; EvFail 0; EvExecute 1; EvExecute 0;
   EvReturn 1; EvReturn 0; EvFail 1; EvExecute 0; EvReturn 0].

Definition two_appends_end : World := default (start []) (run two_appends (start [7; 9])).

Lemma kvsrv_linearizable_witness :
  exists pend, linearizable KvStore (w_done two_appends_end ++ pend) /\ Forall (in_progress two_appends_end) pend /\
    NoDup (op_Call <$> pend).
Proof.
  apply (kvsrv_linearizable [7; 9] two_appends); [|by vm_compute..].
  repeat constructor; set_solver.
Defined.

Lemma kvsrv_appends_once_witness :
  exists vals, vals ≡ₚ ["y"; "x"]%string /\ "xy"%string = joined vals.
Proof.
  apply (kvsrv_appends_once [7; 9] two_appends two_appends_end "k"); [|by vm_compute..|].
  - repeat constructor; set_solver.
  - vm_compute. repeat constructor; done.
Defined.

Lemma method_completes_witness : completes 3 0 (default (start []) (run (take 4 two_appends) (start [7; 9]))).
Proof. eapply method_completes. vm_compute. reflexivity. Defined.

Lemma error_strings_unreadable_witness :
  exists w, run (store_and_read "Error NoKey") (start [1]) = Some w /\
    lookupStr (value (w_kv w)) "k" = "Error NoKey"%string /\ (ko_Value <$> (op_Output <$> w_done w)) = [""; ""]%string /\
    ~ linearizable KvStore (w_done w).
Proof. apply (error_strings_unreadable "Error NoKey"). by left. Defined.
