(* ===== verification/Text.v ===== *)
(** * Text: UTF-8 and the string functions of Go that the programs use

    Text is decoded from UTF-8 as Go's range loop and [utf8.DecodeRuneInString] do. *)

From S2P Require Import Prelude.
Local Open Scope Z_scope.

(** ** Runes *)

Abbreviation bytes := (list Ascii.ascii).
Definition byteOf (a : Ascii.ascii) : Z := Z.of_N (Ascii.N_of_ascii a).
Definition within (lo hi : Z) (a : Ascii.ascii) : bool := (lo <=? byteOf a) && (byteOf a <=? hi).

(** The second byte of a sequence of three or four that starts with [a]. *)
Definition second (a a1 : Ascii.ascii) : bool :=
  if byteOf a =? 0xE0 then within 0xA0 0xBF a1
  else if byteOf a =? 0xED then within 0x80 0x9F a1
  else if byteOf a =? 0xF0 then within 0x90 0xBF a1
  else if byteOf a =? 0xF4 then within 0x80 0x8F a1
  else within 0x80 0xBF a1.

Definition bits6 (a : Ascii.ascii) : Z := Z.land (byteOf a) 0x3F.

(** The runes of a text with the bytes they come from; a byte that starts no valid sequence is
    a rune error of its own. *)
Fixpoint runes (l : bytes) : list (Z * bytes) :=
  match l with
  | [] => []
  | a :: l1 =>
      let invalid := (0xFFFD, [a]) :: runes l1 in
      if byteOf a <? 0x80 then (byteOf a, [a]) :: runes l1
      else match l1 with
           | [] => invalid
           | a1 :: l2 =>
               if within 0xC2 0xDF a && within 0x80 0xBF a1
               then (Z.lor (Z.shiftl (Z.land (byteOf a) 0x1F) 6) (bits6 a1), [a; a1]) :: runes l2
               else match l2 with
                    | [] => invalid
                    | a2 :: l3 =>
                        if within 0xE0 0xEF a && second a a1 && within 0x80 0xBF a2
                        then (Z.lor (Z.shiftl (Z.land (byteOf a) 0x0F) 12) (Z.lor (Z.shiftl (bits6 a1) 6) (bits6 a2)),
                              [a; a1; a2]) :: runes l3
                        else match l3 with
                             | [] => invalid
                             | a3 :: l4 =>
                                 if within 0xF0 0xF4 a && second a a1 && within 0x80 0xBF a2 && within 0x80 0xBF a3
                                 then (Z.lor (Z.shiftl (Z.land (byteOf a) 0x07) 18)
                                         (Z.lor (Z.shiftl (bits6 a1) 12) (Z.lor (Z.shiftl (bits6 a2) 6) (bits6 a3))),
                                       [a; a1; a2; a3]) :: runes l4
                                 else invalid
                             end
                    end
           end
  end.

(** [utf8.DecodeRuneInString]: the first rune. *)
Definition firstRune (s : string) : Z :=
  match runes (String.list_ascii_of_string s) with
  | (r, _) :: _ => r
  | [] => 0xFFFD
  end.

(** [strings.FieldsFunc]: [cur] is the field being read. *)
Fixpoint fieldsFrom (sep : Z -> bool) (rs : list (Z * bytes)) (cur : option bytes) : list bytes :=
  match rs with
  | [] => match cur with Some w => [w] | None => [] end
  | (r, bs) :: rs =>
      if sep r
      then match cur with Some w => w :: fieldsFrom sep rs None | None => fieldsFrom sep rs None end
      else fieldsFrom sep rs (Some (default [] cur ++ bs))
  end.
Definition FieldsFunc (sep : Z -> bool) (s : string) : list string :=
  String.string_of_list_ascii <$> fieldsFrom sep (runes (String.list_ascii_of_string s)) None.

(** [strings.Join] *)
Fixpoint Join (l : list string) (sep : string) : string :=
  match l with
  | [] => ""%string
  | [s] => s
  | s :: l => (s +:+ sep +:+ Join l sep)%string
  end.

(** ** Valid text *)

(** A byte that belongs to no valid sequence. *)
Definition badRune (rb : Z * bytes) : bool := (rb.1 =? 0xFFFD) && (length rb.2 =? 1)%nat.

(** [utf8.ValidString] *)
Definition ValidString (s : string) : bool := forallb (fun rb => negb (badRune rb)) (runes (String.list_ascii_of_string s)).

(** What [encoding/json] writes for a string and reads back: every invalid byte becomes U+FFFD. *)
Definition replacement : bytes := Ascii.ascii_of_nat <$> [0xEF; 0xBF; 0xBD]%nat.
Definition coerceUTF8 (s : string) : string :=
  String.string_of_list_ascii (concat ((fun rb => if badRune rb then replacement else rb.2) <$> runes (String.list_ascii_of_string s))).

(** The bytes of a rune, wherever they stand, are decoded as that rune. *)
Definition encodes (rb : Z * bytes) : Prop := badRune rb = false /\ forall rest, runes (rb.2 ++ rest) = rb :: runes rest.

Lemma runes_first a l : exists rb rest, a :: l = rb.2 ++ rest /\ (0 < length rb.2)%nat /\ runes (a :: l) = rb :: runes rest /\
  (badRune rb = false -> encodes rb).
Proof.
  assert (forall rb rest, a :: l = rb.2 ++ rest -> (0 < length rb.2)%nat -> runes (a :: l) = rb :: runes rest ->
    (badRune rb = false -> forall rest', runes (rb.2 ++ rest') = rb :: runes rest') ->
    exists rb rest, a :: l = rb.2 ++ rest /\ (0 < length rb.2)%nat /\ runes (a :: l) = rb :: runes rest /\ (badRune rb = false -> encodes rb)) as Hgo.
  { intros rb rest H1 H2 H3 H4. exists rb, rest. split_and!; [done..|]. intros Hb. split; [done|by apply H4]. }
  assert (runes (a :: l) = (0xFFFD, [a]) :: runes l -> exists rb rest, a :: l = rb.2 ++ rest /\ (0 < length rb.2)%nat /\ runes (a :: l) = rb :: runes rest /\
    (badRune rb = false -> encodes rb)) as Hbad.
  { intros H. apply (Hgo (0xFFFD, [a]) l); [done|cbn; lia|done|done]. }
  destruct (byteOf a <? 0x80) eqn:E0.
  { apply (Hgo (byteOf a, [a]) l); [done|cbn; lia|cbn; by rewrite E0|]. intros _ rest. cbn. by rewrite E0. }
  destruct l as [|a1 l]; [apply Hbad; cbn; by rewrite E0|].
  destruct (within 0xC2 0xDF a && within 0x80 0xBF a1) eqn:E1.
  { eapply (Hgo (_, [a; a1]) l); [done|cbn; lia|cbn; by rewrite E0, E1|]. intros _ rest. cbn. by rewrite E0, E1. }
  destruct l as [|a2 l]; [apply Hbad; cbn; by rewrite E0, E1|].
  destruct (within 0xE0 0xEF a && second a a1 && within 0x80 0xBF a2) eqn:E2.
  { eapply (Hgo (_, [a; a1; a2]) l); [done|cbn; lia|cbn; by rewrite E0, E1, E2|]. intros _ rest. cbn. by rewrite E0, E1, E2. }
  destruct l as [|a3 l]; [apply Hbad; cbn; by rewrite E0, E1, E2|].
  destruct (within 0xF0 0xF4 a && second a a1 && within 0x80 0xBF a2 && within 0x80 0xBF a3) eqn:E3.
  { eapply (Hgo (_, [a; a1; a2; a3]) l); [done|cbn; lia|cbn; by rewrite E0, E1, E2, E3|]. intros _ rest. cbn. by rewrite E0, E1, E2, E3. }
  apply Hbad. cbn. by rewrite E0, E1, E2, E3.
Qed.

(** Decoding loses no byte. *)
Lemma runes_bytes l : concat (snd <$> runes l) = l /\ Forall (fun rb => badRune rb = false -> encodes rb) (runes l).
Proof.
  remember (length l) as k eqn:Hk. revert l Hk. induction k as [k IH] using lt_wf_ind. intros [|a l] Hk; [by split|].
  destruct (runes_first a l) as (rb & rest & El & Hpos & Hr & He).
  assert (length (a :: l) = (length rb.2 + length rest)%nat) as Hlen by (by rewrite El, length_app).
  destruct (IH (length rest) ltac:(lia) rest eq_refl) as [Hc HF]. rewrite Hr. split; [|by constructor]. cbn. by rewrite Hc, El.
Qed.

Lemma runes_concat rbs : Forall encodes rbs -> runes (concat (snd <$> rbs)) = rbs.
Proof. induction 1 as [|rb rbs [_ He] _ IH]; [done|]. cbn. by rewrite He, IH. Qed.

Lemma coerceUTF8_valid s : ValidString s = true -> coerceUTF8 s = s.
Proof.
  unfold ValidString, coerceUTF8. intros Hv. rewrite (list_fmap_ext _ snd).
  - rewrite (proj1 (runes_bytes _)). apply String.string_of_list_ascii_of_string.
  - intros i rb Hrb. rewrite forallb_forall in Hv. apply list_elem_of_lookup_2, list_elem_of_In in Hrb. apply Hv, negb_true_iff in Hrb. by rewrite Hrb.
Qed.

Lemma valid_encoded rbs : Forall encodes rbs -> ValidString (String.string_of_list_ascii (concat (snd <$> rbs))) = true.
Proof.
  intros HF. unfold ValidString. rewrite String.list_ascii_of_string_of_list_ascii, runes_concat by done. apply forallb_forall.
  intros rb Hin%list_elem_of_In. rewrite Forall_forall in HF. apply negb_true_iff. by apply HF.
Qed.

Lemma fieldsFrom_encoded sep rs cur w :
  Forall (fun rb => sep rb.1 = false -> encodes rb) rs ->
  match cur with Some c => exists rbs, c = concat (snd <$> rbs) /\ Forall encodes rbs | None => True end ->
  w ∈ fieldsFrom sep rs cur -> exists rbs, w = concat (snd <$> rbs) /\ Forall encodes rbs.
Proof.
  intros HF. revert cur. induction HF as [|[r bs] rs Hr HF IH]; intros cur Hcur Hw; cbn in Hw.
  { destruct cur; [apply list_elem_of_singleton in Hw; by subst|by apply not_elem_of_nil in Hw]. }
  destruct (sep r) eqn:Es.
  - destruct cur; [apply elem_of_cons in Hw as [->|Hw]; [done|]|]; by apply (IH None).
  - apply (IH _) in Hw; [done|]. cbn in Hr. specialize (Hr Es). destruct cur as [c|]; cbn.
    + destruct Hcur as (rbs & -> & Hrbs). exists (rbs ++ [(r, bs)]). split; [by rewrite fmap_app, concat_app; cbn; rewrite app_nil_r|].
      apply Forall_app. by split; [|constructor].
    + exists [(r, bs)]. split; [cbn; by rewrite app_nil_r|by constructor].
Qed.

(** The fields of a text are valid when U+FFFD separates them. *)
Lemma FieldsFunc_valid sep s w : sep 0xFFFD = true -> w ∈ FieldsFunc sep s -> ValidString w = true.
Proof.
  intros Hsep (bs & -> & Hin)%list_elem_of_fmap.
  destruct (fieldsFrom_encoded sep (runes (String.list_ascii_of_string s)) None bs) as (rbs & -> & HF); [|done|done|by apply valid_encoded].
  eapply Forall_impl; [apply (runes_bytes _)|]. intros rb He Hs. apply He. unfold badRune. destruct (Z.eqb_spec rb.1 0xFFFD) as [E|]; [|done]. congruence.
Qed.
