(* ===== verification/Random.v ===== *)
(** * Random: random names and numbers
      (randstring of src/6.5840-golabs-2024/src/kvsrv/config.go and nrand of kvsrv/client.go)

    The random bytes are arguments.  [randstring] encodes them in base 64, [nrand] makes a number below 2^62 of
    them.  The random strings that name the ends of the clients are read back byte by byte: two of them are equal only
    when the first fifteen bytes are. *)

From S2P Require Import Prelude.
Local Open Scope Z_scope.

(** ** base64.URLEncoding *)

Definition alphabet : list Ascii.ascii :=
  String.list_ascii_of_string "ABCDEFGHIJKLMNOPQRSTUVWXYZabcdefghijklmnopqrstuvwxyz0123456789-_".
Definition padding : Ascii.ascii := Ascii.ascii_of_nat 61.

Definition digit (v : Z) : Ascii.ascii := default padding (alphabet !! Z.to_nat (Z.land v 0x3F)).

(** [EncodeToString] *)
Fixpoint encode64 (b : list Z) : list Ascii.ascii :=
  match b with
  | [] => []
  | [x] =>
      let val := Z.shiftl x 16 in
      [digit (Z.shiftr val 18); digit (Z.shiftr val 12); padding; padding]
  | [x; y] =>
      let val := Z.lor (Z.shiftl x 16) (Z.shiftl y 8) in
      [digit (Z.shiftr val 18); digit (Z.shiftr val 12); digit (Z.shiftr val 6); padding]
  | x :: y :: z :: b =>
      let val := Z.lor (Z.lor (Z.shiftl x 16) (Z.shiftl y 8)) z in
      digit (Z.shiftr val 18) :: digit (Z.shiftr val 12) :: digit (Z.shiftr val 6) :: digit val :: encode64 b
  end.

(** [b]: what [crand.Read] gives. *)
Definition randstring (n : nat) (b : list Z) : string := String.string_of_list_ascii (take n (encode64 b)).

(** [rand.Int] with the bound 2^62 reads eight bytes, of which the two highest bits are cleared. *)
Definition nrand (b : list Z) : Z :=
  match b with
  | [] => 0
  | x :: b => foldl (fun acc x => acc * 256 + x) (Z.land x 0x3F) b
  end.

(** ** Facts *)

Definition is_byte (x : Z) : Prop := 0 <= x < 256.

Lemma nrand_bounds b : length b = 8%nat -> Forall is_byte b -> 0 <= nrand b < 2 ^ 62.
Proof.
  intros Hl Hb. do 9 (destruct b as [|? b]; try done). clear Hl.
  repeat match goal with H : Forall _ (_ :: _) |- _ => apply Forall_cons in H as [? H] end. unfold is_byte in *.
  unfold nrand. cbn [foldl]. change 0x3F with (Z.ones 6). rewrite Z.land_ones by lia.
  match goal with |- context [?x mod 2 ^ 6] => pose proof (Z.mod_pos_bound x (2 ^ 6)) end. lia.
Qed.

(** Three bytes at a time. *)
Lemma list_ind3 {A} (P : list A -> Prop) :
  P [] -> (forall x, P [x]) -> (forall x y, P [x; y]) -> (forall x y z l, P l -> P (x :: y :: z :: l)) -> forall l, P l.
Proof. intros H0 H1 H2 H3. fix IH 1. intros [|x [|y [|z l]]]; [done..|]. apply H3, IH. Qed.

Lemma encode64_length b : length (encode64 b) = (4 * ((length b + 2) / 3))%nat.
Proof.
  induction b as [|x|x y|x y z b IH] using list_ind3; [done..|]. cbn [encode64 length]. rewrite IH.
  replace (S (S (S (length b))) + 2)%nat with (length b + 2 + 1 * 3)%nat by lia. rewrite Nat.div_add by done. lia.
Qed.

Lemma encode64_take k b : (3 * k <= length b)%nat -> take (4 * k) (encode64 b) = encode64 (take (3 * k) b).
Proof.
  revert b. induction k as [|k IH]; intros b Hk; [by rewrite !Nat.mul_0_r|].
  destruct b as [|x [|y [|z b]]]; cbn [length] in Hk; [lia..|].
  replace (4 * S k)%nat with (S (S (S (S (4 * k))))) by lia. replace (3 * S k)%nat with (S (S (S (3 * k)))) by lia.
  cbn [take encode64]. rewrite IH by lia. done.
Qed.

(** A digit is read back. *)
Lemma digit_inj u v : 0 <= u < 64 -> 0 <= v < 64 -> digit u = digit v -> u = v.
Proof.
  intros Hu Hv. unfold digit. change 0x3F with (Z.ones 6). rewrite !Z.land_ones, !Z.mod_small by lia.
  assert (forall w, 0 <= w < 64 -> is_Some (alphabet !! Z.to_nat w)) as Hin.
  { intros w Hw. apply lookup_lt_is_Some_2. change (length alphabet) with 64%nat. lia. }
  destruct (Hin u Hu) as [a Ha], (Hin v Hv) as [a' Ha']. rewrite Ha, Ha'. cbn. intros ->.
  assert (NoDup alphabet) as Hnd by (apply (bool_decide_unpack (NoDup alphabet)); by vm_compute).
  pose proof (NoDup_lookup _ _ _ _ Hnd Ha Ha'). lia.
Qed.

Lemma digit_land v : digit v = digit (v mod 64).
Proof.
  unfold digit. change 0x3F with (Z.ones 6). rewrite !Z.land_ones by lia. change (2 ^ 6) with 64. by rewrite Zmod_mod.
Qed.

Lemma digits_inj u v : digit u = digit v -> u mod 64 = v mod 64.
Proof. rewrite (digit_land u), (digit_land v). apply digit_inj; apply Z.mod_pos_bound; lia. Qed.

Lemma lor_shiftl a k b : 0 <= k -> 0 <= b < 2 ^ k -> Z.lor (Z.shiftl a k) b = a * 2 ^ k + b.
Proof.
  intros Hk Hb. assert (Z.land (Z.shiftl a k) b = 0) as Hz.
  { apply Z.bits_inj'. intros i Hi. rewrite Z.land_spec, Z.bits_0. destruct (Z.ltb_spec i k).
    - by rewrite Z.shiftl_spec_low by lia.
    - replace b with (b mod 2 ^ k) by (apply Z.mod_small; lia). by rewrite Z.mod_pow2_bits_high, andb_false_r by lia. }
  rewrite <- Z.lxor_lor, <- Z.add_nocarry_lxor by done. by rewrite Z.shiftl_mul_pow2.
Qed.

(** The four digits of a group of three bytes are 24 bits. *)
Lemma group_val x y z : is_byte x -> is_byte y -> is_byte z ->
  Z.lor (Z.lor (Z.shiftl x 16) (Z.shiftl y 8)) z = x * 2 ^ 16 + y * 2 ^ 8 + z.
Proof.
  unfold is_byte. intros Hx Hy Hz. rewrite lor_shiftl by (rewrite ?Z.shiftl_mul_pow2 by lia; lia).
  replace (x * 2 ^ 16 + Z.shiftl y 8) with (Z.shiftl (x * 2 ^ 8 + y) 8) by (rewrite !Z.shiftl_mul_pow2 by lia; lia).
  rewrite lor_shiftl by lia. lia.
Qed.

Lemma group_inj x y z x' y' z' :
  is_byte x -> is_byte y -> is_byte z -> is_byte x' -> is_byte y' -> is_byte z' ->
  encode64 [x; y; z] = encode64 [x'; y'; z'] -> x = x' /\ y = y' /\ z = z'.
Proof.
  intros. cbn [encode64] in *. rewrite !group_val, !Z.shiftr_div_pow2 in * by (done || lia).
  unfold is_byte in *.
  match goal with H : _ = _ |- _ => injection H as E1%digits_inj E2%digits_inj E3%digits_inj E4%digits_inj end.
  set (u := x * 2 ^ 16 + y * 2 ^ 8 + z) in *. set (v := x' * 2 ^ 16 + y' * 2 ^ 8 + z') in *.
  assert (u = v); [|unfold u, v in *; lia].
  assert (forall w, 0 <= w < 2 ^ 24 -> w = (w / 2 ^ 18) mod 64 * 2 ^ 18 + (w / 2 ^ 12) mod 64 * 2 ^ 12 + (w / 2 ^ 6) mod 64 * 2 ^ 6 + w mod 64)
    as Hw.
  { intros w Hw. change (2 ^ 12) with (64 * 64). change (2 ^ 18) with (64 * 64 * 64). change (2 ^ 6) with 64.
    rewrite <- !Z.div_div by lia. Z.to_euclidean_division_equations. lia. }
  rewrite (Hw u), (Hw v) by (unfold u, v; lia). congruence.
Qed.

Lemma encode64_inj k b b' :
  Forall is_byte b -> Forall is_byte b' -> length b = (3 * k)%nat -> length b' = (3 * k)%nat ->
  encode64 b = encode64 b' -> b = b'.
Proof.
  revert b b'. induction k as [|k IH]; intros b b' Hb Hb' Hl Hl' He.
  { destruct b, b'; try done; cbn in *; lia. }
  destruct b as [|x [|y [|z b]]], b' as [|x' [|y' [|z' b']]]; cbn [length] in *; try lia.
  repeat match goal with H : Forall _ (_ :: _) |- _ => apply Forall_cons in H as [? H] end.
  change (encode64 (x :: y :: z :: b)) with (encode64 [x; y; z] ++ encode64 b) in He.
  change (encode64 (x' :: y' :: z' :: b')) with (encode64 [x'; y'; z'] ++ encode64 b') in He.
  apply app_inj_1 in He as [Hg He]; [|done]. apply group_inj in Hg as (-> & -> & ->); [|done..].
  f_equal. f_equal. f_equal. apply IH; (done || lia).
Qed.

Lemma string_of_list_inj l l' : String.string_of_list_ascii l = String.string_of_list_ascii l' -> l = l'.
Proof.
  intros H. by rewrite <- (String.list_ascii_of_string_of_list_ascii l), H, String.list_ascii_of_string_of_list_ascii.
Qed.

(** A random string has the length asked for. *)
Lemma randstring_length n b : length b = (2 * n)%nat -> String.length (randstring n b) = n.
Proof.
  intros Hb. unfold randstring.
  assert (forall l, String.length (String.string_of_list_ascii l) = length l) as -> by (induction l; cbn; congruence).
  rewrite length_take, encode64_length, Hb. pose proof (Nat.div_mod_eq (2 * n + 2) 3).
  pose proof (Nat.mod_upper_bound (2 * n + 2) 3). lia.
Qed.

(** The names of two ends are equal only when the first fifteen of the forty bytes are. *)
Lemma randstring_eq b b' :
  length b = 40%nat -> length b' = 40%nat -> Forall is_byte b -> Forall is_byte b' ->
  randstring 20 b = randstring 20 b' <-> take 15 b = take 15 b'.
Proof.
  intros Hl Hl' Hb Hb'. unfold randstring. change 20%nat with (4 * 5)%nat. rewrite !encode64_take by lia.
  change (3 * 5)%nat with 15%nat. split; [|by intros ->]. intros He%string_of_list_inj.
  apply (encode64_inj 5); [by apply Forall_take..|rewrite length_take; lia|rewrite length_take; lia|done].
Qed.
