(* ===== verification/Decimal.v ===== *)
(** * Decimal: numbers in names

    [strconv.Itoa] and what the names of files and servers rely on: decimal numbers are digits
    and different for different numbers, so that a name with numbers between dashes can be read
    back. *)

From stdpp Require Import pretty.
From S2P Require Import Prelude.
Local Open Scope Z_scope.

Definition Itoa (z : Z) : string := pretty z.
Definition isDigit (a : Ascii.ascii) : bool :=
  let n := Z.of_N (Ascii.N_of_ascii a) in (48 <=? n) && (n <=? 57).

Abbreviation chars := String.list_ascii_of_string.
Abbreviation dash := (Ascii.ascii_of_nat 45).

Lemma chars_app s s' : chars (s +:+ s') = chars s ++ chars s'.
Proof. induction s as [|a s IH]; [done|]. change (a :: chars (s +:+ s') = a :: chars s ++ chars s'). by rewrite IH. Qed.

Lemma chars_inj s s' : chars s = chars s' -> s = s'.
Proof. intros H. by rewrite <- (String.string_of_list_ascii_of_string s), H, String.string_of_list_ascii_of_string. Qed.

Lemma pretty_go_digits (x : N) s :
  Forall (fun a => isDigit a = true) (chars s) -> Forall (fun a => isDigit a = true) (chars (pretty_N_go x s)).
Proof.
  revert s. induction (N.lt_wf_0 x) as [x _ IH]; intros s Hs. destruct (decide (x = 0)%N) as [->|Hx]; [by rewrite pretty_N_go_0|].
  rewrite pretty_N_go_step by lia. apply IH; [apply N.div_lt; lia|]. cbn. constructor; [|done].
  assert (x mod 10 < 10)%N as Hm by (apply N.mod_lt; lia). revert Hm. generalize (x mod 10)%N. intros d Hd.
  assert (d = 0 \/ d = 1 \/ d = 2 \/ d = 3 \/ d = 4 \/ d = 5 \/ d = 6 \/ d = 7 \/ d = 8 \/ d = 9)%N as Hc by lia.
  repeat destruct Hc as [->|Hc]; try done. by subst.
Qed.

Lemma Itoa_digits z : 0 <= z -> Forall (fun a => isDigit a = true) (chars (Itoa z)).
Proof.
  intros Hz. destruct z as [|p|p]; [by repeat constructor| |lia].
  change (Itoa (Zpos p)) with (pretty (Npos p)). unfold pretty, pretty_N. case_decide; [done|].
  by apply pretty_go_digits.
Qed.

Lemma Itoa_nonempty z : chars (Itoa z) <> [].
Proof.
  intros H. assert (Itoa z = "")%string as E by (by apply chars_inj).
  destruct z as [|p|p]; [done| |done]. change (Itoa (Zpos p)) with (pretty (Npos p)) in E.
  unfold pretty, pretty_N in E. case_decide; [done|]. rewrite pretty_N_go_step in E by lia.
  assert (forall x s, pretty_N_go x s = ""%string -> s = ""%string) as Hgo; [|by apply Hgo in E].
  intros x. induction (N.lt_wf_0 x) as [x _ IH]; intros s. destruct (decide (x = 0)%N) as [->|Hx]; [by rewrite pretty_N_go_0|].
  rewrite pretty_N_go_step by lia. intros He. apply IH in He; [done|apply N.div_lt; lia].
Qed.

Lemma Itoa_inj z z' : Itoa z = Itoa z' -> z = z'.
Proof. apply (inj pretty). Qed.

(** The text after the last dash is determined. *)
Lemma last_dash (a b x y : list Ascii.ascii) :
  Forall (fun a => isDigit a = true) x -> Forall (fun a => isDigit a = true) y ->
  a ++ dash :: x = b ++ dash :: y -> a = b /\ x = y.
Proof.
  intros Hx Hy Heq. assert (Hnd : forall l, Forall (fun a => isDigit a = true) l -> dash ∉ l).
  { intros l Hl Hin. rewrite Forall_forall in Hl. by specialize (Hl _ Hin). }
  assert (forall (l1 l2 : list Ascii.ascii) p q, dash ∉ l1 -> dash ∉ l2 -> l1 ++ dash :: p = l2 ++ dash :: q -> l1 = l2 /\ p = q)
    as Hfirst.
  { intros l1. induction l1 as [|c l1 IH]; intros [|d l2] p q H1 H2 E; cbn in E; simplify_eq.
    - done.
    - set_solver.
    - set_solver.
    - destruct (IH l2 p q) as [-> ->]; [set_solver..|done|done]. }
  apply (f_equal reverse) in Heq. rewrite !reverse_app, !reverse_cons, <- !app_assoc in Heq. cbn in Heq.
  destruct (Hfirst (reverse x) (reverse y) (reverse a) (reverse b)) as [Hr1 Hr2];
    [by rewrite elem_of_reverse; apply Hnd..|done|].
  by apply (inj reverse) in Hr1, Hr2.
Qed.

(** ** Reading a number *)

Definition digitVal (a : Ascii.ascii) : Z := Z.of_N (Ascii.N_of_ascii a) - 48.
Definition decimal (n : Z) (d : list Ascii.ascii) : Z := foldl (fun n a => 10 * n + digitVal a) n d.

(** The digits that a text starts with, and the rest. *)
Fixpoint spanDigits (s : list Ascii.ascii) : list Ascii.ascii * list Ascii.ascii :=
  match s with
  | a :: rest => if isDigit a then let '(d, r) := spanDigits rest in (a :: d, r) else ([], s)
  | [] => ([], [])
  end.

Lemma spanDigits_digits s : Forall (fun a => isDigit a = true) (spanDigits s).1.
Proof. induction s as [|a s IH]; cbn; [constructor|]. destruct (isDigit a) eqn:E; [|constructor]. destruct (spanDigits s). by constructor. Qed.

Lemma spanDigits_all s : Forall (fun a => isDigit a = true) s -> spanDigits s = (s, []).
Proof. induction 1 as [|a s Ha Hs IH]; [done|]. cbn. by rewrite Ha, IH. Qed.

Lemma pretty_go_value (x : N) s : decimal 0 (chars (pretty_N_go x s)) = decimal (Z.of_N x) (chars s).
Proof.
  revert s. induction (N.lt_wf_0 x) as [x _ IH]; intros s. destruct (decide (x = 0)%N) as [->|Hx]; [by rewrite pretty_N_go_0|].
  rewrite pretty_N_go_step by lia. rewrite IH by (apply N.div_lt; lia). cbn [chars decimal foldl]. unfold decimal. cbn [foldl]. f_equal.
  assert (digitVal (pretty_N_char (x mod 10)) = Z.of_N (x mod 10)) as ->.
  { assert (x mod 10 < 10)%N as Hm by (apply N.mod_lt; lia). revert Hm. generalize (x mod 10)%N. intros d Hd.
    assert (d = 0 \/ d = 1 \/ d = 2 \/ d = 3 \/ d = 4 \/ d = 5 \/ d = 6 \/ d = 7 \/ d = 8 \/ d = 9)%N as Hc by lia. repeat destruct Hc as [->|Hc]; try done. by subst. }
  rewrite N2Z.inj_div, N2Z.inj_mod. pose proof (Z.div_mod (Z.of_N x) 10 ltac:(lia)). lia.
Qed.

(** A number is read back from its digits. *)
Lemma decimal_Itoa z : 0 <= z -> decimal 0 (chars (Itoa z)) = z.
Proof.
  intros Hz. destruct z as [|p|p]; [done| |lia]. change (Itoa (Zpos p)) with (pretty (Npos p)). unfold pretty, pretty_N. case_decide; [done|].
  by rewrite pretty_go_value.
Qed.
