(* ===== verification/MapReduce.v ===== *)
(** * MapReduce: coordinator, worker and the sequential program
      (src/6.5840-golabs-2024/src/mr: coordinator.go, worker.go, rpc.go; main/mrsequential.go)

    The coordinator's handlers are functions on [Coordinator]; [None] is a panic, which ends
    the process.  A worker is a state machine: it asks for a task ([Check] and the assignment
    are two critical sections), computes into temporary files that only it knows, renames
    them one by one, and reports.  [System] puts a coordinator, a directory and any number of
    workers together; their steps interleave freely, and a worker may crash anywhere.
    The clock is read once in a handler.  A file is the sequence of what was written to it:
    text, or values written by a JSON encoder, which replaces the bytes of a string that are not UTF-8. *)

From S2P Require Import Prelude Text Decimal.
Local Open Scope Z_scope.

(** ** rpc.go *)

Inductive TaskStatus := Completed | Doing | Pending | Error | NoStatus.
Inductive TaskType := MapTask | ReduceTask | WaitTask | Finished | NoType.
Inductive SchedulePahse := MapPhase | ReducePhase | FinishPhase.

#[export] Instance TaskStatus_dec : EqDecision TaskStatus.
Proof. solve_decision. Defined.
#[export] Instance SchedulePahse_dec : EqDecision SchedulePahse.
Proof. solve_decision. Defined.

Record Task := mkTask {
  FileName : string;
  TaskID : Z;
  StartTime : Z;      (* nanoseconds *)
  Status : TaskStatus
}.

Record TaskAssingnemnt := mkAssignment {
  Tas : Task;
  NReduce : Z;
  Tasktype : TaskType
}.

Definition noTask : Task := mkTask "" 0 0 NoStatus.

(** ** coordinator.go *)

Record Coordinator := mkCoordinator {
  File : list string;
  nReduce : Z;
  nCurrentAssignedReduceTask : Z;
  nCurrentAssignedMapTask : Z;
  phase : SchedulePahse;
  tasks : list Task;
  rePendingTask : list Task
}.

Definition set_tasks (ts : list Task) (c : Coordinator) : Coordinator :=
  mkCoordinator (File c) (nReduce c) (nCurrentAssignedReduceTask c) (nCurrentAssignedMapTask c) (phase c) ts (rePendingTask c).
Definition set_pending (ts : list Task) (c : Coordinator) : Coordinator :=
  mkCoordinator (File c) (nReduce c) (nCurrentAssignedReduceTask c) (nCurrentAssignedMapTask c) (phase c) (tasks c) ts.
Definition set_phase (p : SchedulePahse) (c : Coordinator) : Coordinator :=
  mkCoordinator (File c) (nReduce c) (nCurrentAssignedReduceTask c) (nCurrentAssignedMapTask c) p (tasks c) (rePendingTask c).

Definition MakeCoordinator (files : list string) (nReduce : Z) : Coordinator :=
  mkCoordinator files nReduce 0 0 MapPhase [] [].

Definition outTime : Z := 10 * 10 ^ 9.

(** The loop works on a copy of each task: the list [tasks] is not changed. *)
Fixpoint firstOverdue (now : Z) (ts : list Task) : option Task :=
  match ts with
  | [] => None
  | task :: ts =>
      if bool_decide (Status task = Doing) && (now - StartTime task >? outTime)
      then Some (mkTask (FileName task) (TaskID task) now Pending)
      else firstOverdue now ts
  end.

Definition HandleTimeOutTask (now : Z) (c : Coordinator) : Coordinator :=
  if bool_decide (phase c = FinishPhase) then c
  else match firstOverdue now (tasks c) with
       | Some task => set_pending (rePendingTask c ++ [task]) c
       | None => c
       end.

Definition AllTaskDone (c : Coordinator) : bool :=
  if bool_decide (length (tasks c) = 0%nat) then false
  else forallb (fun task => bool_decide (Status task = Completed)) (tasks c).

Definition Check_ (c : Coordinator) : Coordinator :=
  match phase c with
  | MapPhase =>
      if AllTaskDone c && bool_decide (length (File c) = 0%nat)
      then if bool_decide (length (rePendingTask c) = 0%nat)
           then set_tasks [] (set_phase ReducePhase c) else c
      else c
  | ReducePhase =>
      if AllTaskDone c && (nCurrentAssignedReduceTask c =? nReduce c)
      then if bool_decide (length (rePendingTask c) = 0%nat)
           then set_phase FinishPhase c else c
      else c
  | FinishPhase => c
  end.

(** A task waiting in [rePendingTask] is handed out again. *)
Definition assignPending (now : Z) (c : Coordinator) (task : Task) (rest : list Task) (nR : Z) (ty : TaskType)
  : option (Coordinator * TaskAssingnemnt) :=
  old ← go_index (tasks c) (TaskID task);
  ts ← go_store (tasks c) (TaskID task) (mkTask (FileName old) (TaskID old) now (Status old));
  Some (set_pending rest (set_tasks ts c),
        mkAssignment (mkTask (FileName task) (TaskID task) now Doing) nR ty).

(** [AssignedTask] after its call of [Check]. *)
Definition AssignedTask (now : Z) (c : Coordinator) : option (Coordinator * TaskAssingnemnt) :=
  match phase c with
  | MapPhase =>
      match File c, rePendingTask c with
      | f :: files, _ =>
          let task := mkTask f (nCurrentAssignedMapTask c) now Doing in
          Some (mkCoordinator files (nReduce c) (nCurrentAssignedReduceTask c) (nCurrentAssignedMapTask c + 1)
                  (phase c) (tasks c ++ [task]) (rePendingTask c),
                mkAssignment task (nReduce c) MapTask)
      | [], task :: rest => assignPending now c task rest (nReduce c) MapTask
      | [], [] => Some (HandleTimeOutTask now c, mkAssignment noTask 0 WaitTask)
      end
  | ReducePhase =>
      if negb (nCurrentAssignedReduceTask c =? nReduce c) then
        let task := mkTask "" (nCurrentAssignedReduceTask c) now Doing in
        Some (mkCoordinator (File c) (nReduce c) (nCurrentAssignedReduceTask c + 1) (nCurrentAssignedMapTask c)
                (phase c) (tasks c ++ [task]) (rePendingTask c),
              mkAssignment task 0 ReduceTask)
      else match rePendingTask c with
           | task :: rest => assignPending now c task rest 0 ReduceTask
           | [] => Some (HandleTimeOutTask now c, mkAssignment noTask 0 WaitTask)
           end
  | FinishPhase => Some (c, mkAssignment noTask 0 Finished)
  end.

Definition MarkTaskDone (id : Z) (c : Coordinator) : option Coordinator :=
  old ← go_index (tasks c) id;
  ts ← go_store (tasks c) id (mkTask (FileName old) (TaskID old) (StartTime old) Completed);
  Some (set_tasks ts c).

Definition Done (c : Coordinator) : bool := bool_decide (phase c = FinishPhase).

(** ** worker.go *)

Record KeyValue := mkKeyValue { Key : string; Value : string }.
Record IntermediateFormat := mkIntermediate { if_Key : string; if_Value : list string }.

(** [ihash]: 32-bit FNV-1a without its top bit. *)
Definition fnv32a (key : string) : Z :=
  foldl (fun h b => uwrap 32 (Z.lxor h (Z.of_N (Ascii.N_of_ascii b)) * 16777619)) 2166136261
        (String.list_ascii_of_string key).
Definition ihash (key : string) : Z := Z.land (fnv32a key) 0x7fffffff.

(** What is written to a file. *)
Inductive Chunk := Bytes (s : string) | Json (v : IntermediateFormat).
Abbreviation FileSystem := (gmap string (list Chunk)).

Definition mapName (task part : Z) : string := ("mr-" +:+ Itoa task +:+ "-" +:+ Itoa part)%string.
Definition outName (task : Z) : string := ("mr-out-" +:+ Itoa task)%string.
Definition newline : string := String (Ascii.ascii_of_nat 10) EmptyString.

Section Worker.
Context (mapf : string -> string -> list KeyValue) (reducef : string -> list string -> string).
(* the text [json.Encoder] writes *)
Context (marshal : IntermediateFormat -> string).

Definition chunkText (ch : Chunk) : string := match ch with Bytes s => s | Json v => marshal v end.
Definition ReadFile (fs : FileSystem) (name : string) : option string :=
  (fun f => foldr String.append ""%string (chunkText <$> f)) <$> fs !! name.

(** [finalStorage[kv.Key] = append(finalStorage[kv.Key], vs...)] *)
Definition storeAppend (st : gmap string (list string)) (k : string) (vs : list string) : gmap string (list string) :=
  <[k := default [] (st !! k) ++ vs]> st.
Definition groupValues (kva : list KeyValue) : gmap string (list string) :=
  foldl (fun st kv => storeAppend st (Key kv) [Value kv]) ∅ kva.
Definition sortedKeys (st : gmap string (list string)) : list string := sortStrings (map_to_list st).*1.

(** What [json.Encoder] writes for a value: the value that is read back. *)
Definition jsonValue (v : IntermediateFormat) : IntermediateFormat := mkIntermediate (coerceUTF8 (if_Key v)) (coerceUTF8 <$> if_Value v).

(** The loop over the sorted keys; an index out of range and [% 0] panic. *)
Fixpoint encodeKeys (st : gmap string (list string)) (n : Z) (keys : list string) (bufs : list (list Chunk))
  : option (list (list Chunk)) :=
  match keys with
  | [] => Some bufs
  | k :: keys =>
      if n =? 0 then None
      else
        let index := Z.rem (ihash k) n in
        buf ← go_index bufs index;
        bufs ← go_store bufs index (buf ++ [Json (jsonValue (mkIntermediate k (default [] (st !! k))))]);
        encodeKeys st n keys bufs
  end.

(** The temporary files of [DoMapTask], before they are renamed. *)
Definition mapTemps (r : TaskAssingnemnt) (content : string) : option (list (list Chunk)) :=
  let st := groupValues (mapf (FileName (Tas r)) content) in
  encodeKeys st (NReduce r) (sortedKeys st) (replicate (Z.to_nat (NReduce r)) []).

(** The regular expression [mr-\d+-ID$], unanchored on the left. *)
Fixpoint dropDigits (l : list Ascii.ascii) : nat * list Ascii.ascii :=
  match l with
  | [] => (0%nat, [])
  | a :: l' => if isDigit a then let '(n, rest) := dropDigits l' in (S n, rest) else (0%nat, l)
  end.
Definition matchHere (id : Z) (l : list Ascii.ascii) : bool :=
  let '(n, rest) := dropDigits (drop 3 l) in
  bool_decide (take 3 l = String.list_ascii_of_string "mr-") && bool_decide (n <> 0%nat) &&
  bool_decide (rest = String.list_ascii_of_string ("-" +:+ Itoa id)).
Fixpoint matchFrom (id : Z) (l : list Ascii.ascii) : bool :=
  matchHere id l || match l with [] => false | _ :: l => matchFrom id l end.
Definition MatchString (id : Z) (name : string) : bool := matchFrom id (String.list_ascii_of_string name).

(** [os.ReadDir]: the names in order. *)
Definition ReadDir (fs : FileSystem) : list string := sortStrings (map_to_list fs).*1.

(** The decoding loop.  A file that is not a sequence of JSON values gives an error again and
    again: the loop does not end, [None]. *)
Fixpoint decodeFile (f : list Chunk) (st : gmap string (list string)) : option (gmap string (list string)) :=
  match f with
  | [] => Some st
  | Json v :: f => decodeFile f (storeAppend st (if_Key v) (if_Value v))
  | Bytes _ :: _ => None
  end.
Fixpoint readParts (id : Z) (fs : FileSystem) (names : list string) (st : gmap string (list string))
  : option (gmap string (list string)) :=
  match names with
  | [] => Some st
  | name :: names =>
      if MatchString id name
      then st ← decodeFile (default [] (fs !! name)) st; readParts id fs names st
      else readParts id fs names st
  end.
Definition outputLine (k : string) (vs : list string) : Chunk := Bytes (k +:+ " " +:+ reducef k vs +:+ newline)%string.

(** The temporary file of [DoReduceTask], before it is renamed. *)
Definition reduceTemp (id : Z) (fs : FileSystem) : option (list Chunk) :=
  st ← readParts id fs (ReadDir fs) ∅;
  Some ((fun k => outputLine k (default [] (st !! k))) <$> sortedKeys st).

(** ** The system *)

(** Where a worker's loop is. *)
Inductive Worker :=
| Idle
| Requested
| Mapping (r : TaskAssingnemnt)
| MapRenaming (r : TaskAssingnemnt) (i : Z) (temps : list (list Chunk))
| Reducing (r : TaskAssingnemnt)
| ReduceRenaming (r : TaskAssingnemnt) (temp : list Chunk)
| Reporting (r : TaskAssingnemnt)
| Exited.

Record System := mkSystem {
  sy_coord : option Coordinator;
  sy_fs : FileSystem;
  sy_workers : list Worker
}.

Inductive Event :=
| EvCheck (w : nat)
| EvAssign (w : nat) (now : Z)
| EvCompute (w : nat)
| EvTempFails (w : nat)
| EvRename (w : nat)
| EvReport (w : nat)
| EvCrash (w : nat).

(** What the worker does with the answer of [AssignedTask]. *)
Definition accept (r : TaskAssingnemnt) : Worker :=
  match Tasktype r with
  | MapTask => Mapping r
  | ReduceTask => Reducing r
  | WaitTask | NoType => Idle
  | Finished => Exited
  end.

Definition renaming (r : TaskAssingnemnt) (i : Z) (temps : list (list Chunk)) : Worker :=
  match temps with [] => Reporting r | _ => MapRenaming r i temps end.

Definition set_worker (w : nat) (st : Worker) (s : System) : System :=
  mkSystem (sy_coord s) (sy_fs s) (<[w := st]> (sy_workers s)).
Definition set_coord (c : option Coordinator) (s : System) : System := mkSystem c (sy_fs s) (sy_workers s).
Definition set_fs (fs : FileSystem) (s : System) : System := mkSystem (sy_coord s) fs (sy_workers s).

(** One step of worker [w]; [None] when it cannot take that step.  A worker that cannot reach
    the coordinator exits. *)
Definition happen (ev : Event) (s : System) : option System :=
  match ev with
  | EvCheck w =>
      st ← sy_workers s !! w;
      match st, sy_coord s with
      | Idle, Some c => Some (set_worker w Requested (set_coord (Some (Check_ c)) s))
      | Idle, None => Some (set_worker w Exited s)
      | _, _ => None
      end
  | EvAssign w now =>
      st ← sy_workers s !! w;
      match st, sy_coord s with
      | Requested, Some c =>
          match AssignedTask now c with
          | Some (c', r) => Some (set_worker w (accept r) (set_coord (Some c') s))
          | None => Some (set_worker w Idle (set_coord None s))
          end
      | Requested, None => Some (set_worker w Idle s)
      | _, _ => None
      end
  | EvCompute w =>
      st ← sy_workers s !! w;
      match st with
      | Mapping r =>
          match ReadFile (sy_fs s) (FileName (Tas r)) with
          | None => Some (set_worker w Exited s)
          | Some content =>
              match mapTemps r content with
              | None => Some (set_worker w Exited s)
              | Some temps => Some (set_worker w (renaming r 0 temps) s)
              end
          end
      | Reducing r =>
          temp ← reduceTemp (TaskID (Tas r)) (sy_fs s);
          Some (set_worker w (ReduceRenaming r temp) s)
      | _ => None
      end
  | EvTempFails w =>
      st ← sy_workers s !! w;
      match st with
      | Mapping r => Some (set_worker w (Reporting r) s)
      | Reducing r => Some (set_worker w Exited s)
      | _ => None
      end
  | EvRename w =>
      st ← sy_workers s !! w;
      match st with
      | MapRenaming r i (temp :: temps) =>
          Some (set_worker w (renaming r (i + 1) temps) (set_fs (<[mapName (TaskID (Tas r)) i := temp]> (sy_fs s)) s))
      | ReduceRenaming r temp =>
          Some (set_worker w (Reporting r) (set_fs (<[outName (TaskID (Tas r)) := temp]> (sy_fs s)) s))
      | _ => None
      end
  | EvReport w =>
      st ← sy_workers s !! w;
      match st, sy_coord s with
      | Reporting r, Some c =>
          match MarkTaskDone (TaskID (Tas r)) c with
          | Some c' => Some (set_worker w Idle (set_coord (Some c') s))
          | None => Some (set_worker w Idle (set_coord None s))
          end
      | Reporting r, None => Some (set_worker w Exited s)
      | _, _ => None
      end
  | EvCrash w =>
      _ ← sy_workers s !! w;
      Some (set_worker w Exited s)
  end.

Fixpoint run (evs : list Event) (s : System) : option System :=
  match evs with
  | [] => Some s
  | ev :: evs => s' ← happen ev s; run evs s'
  end.

(** A coordinator, the directory and [n] workers. *)
Definition boot (files : list string) (nRed : Z) (fs : FileSystem) (n : nat) : System :=
  mkSystem (Some (MakeCoordinator files nRed)) fs (replicate n Idle).

(** ** main/mrsequential.go *)

Fixpoint seqMap (fs : FileSystem) (files : list string) : option (list KeyValue) :=
  match files with
  | [] => Some []
  | f :: files => content ← ReadFile fs f; rest ← seqMap fs files; Some (mapf f content ++ rest)
  end.

(** [a[i].Key < a[j].Key] *)
Definition ByKey_Less (a b : KeyValue) : bool := String.ltb (Key a) (Key b).

(** The pairs at the front of the list with key [k]: the loop that advances [j]. *)
Fixpoint sameKey (k : string) (l : list KeyValue) : list KeyValue * list KeyValue :=
  match l with
  | [] => ([], [])
  | kv :: l' => if bool_decide (Key kv = k) then let '(a, b) := sameKey k l' in (kv :: a, b) else ([], l)
  end.

(** The outer loop; each round takes at least one pair, so the length is enough fuel. *)
Fixpoint seqReduce (fuel : nat) (l : list KeyValue) : list Chunk :=
  match fuel, l with
  | S fuel, kv :: l' =>
      let '(same, rest) := sameKey (Key kv) l' in
      outputLine (Key kv) (Value <$> kv :: same) :: seqReduce fuel rest
  | _, _ => []
  end.

(** The program, with [sort.Sort(ByKey(intermediate))] as the function [sort]. *)
Definition mrsequential (sort : list KeyValue -> list KeyValue) (fs : FileSystem) (files : list string)
  : option FileSystem :=
  intermediate ← seqMap fs files;
  Some (<["mr-out-0"%string := seqReduce (length intermediate) (sort intermediate)]> fs).
End Worker.
