(* ===== verification/MapReduceFacts.v ===== *)
(** * MapReduceFacts: what map, reduce and the sequential program compute

    [groupValues], the parts a map task writes, the lines a reduce task writes from all parts
    of its number, and the lines of the sequential program, each in terms of the values that
    the map function emits for a key.  Names of intermediate and output files are told apart
    by the pattern of [DoReduceTask]. *)

From S2P Require Import Prelude Text Decimal MapReduce.
Local Open Scope Z_scope.

(** ** Grouping *)

(** The values emitted for a key, in order. *)
Definition valuesOf (k : string) (kva : list KeyValue) : list string := Value <$> filter (fun kv => Key kv = k) kva.

Definition storeAll (st : gmap string (list string)) (recs : list IntermediateFormat) : gmap string (list string) :=
  foldl (fun st v => storeAppend st (if_Key v) (if_Value v)) st recs.

Definition recValues (k : string) (recs : list IntermediateFormat) : list string :=
  concat (if_Value <$> filter (fun v => if_Key v = k) recs).

Lemma storeAll_lookup st recs k :
  storeAll st recs !! k =
  if decide (k ∈ if_Key <$> recs) then Some (default [] (st !! k) ++ recValues k recs) else st !! k.
Proof.
  unfold storeAll, recValues. revert st. induction recs as [|v recs IH]; intros st; [done|].
  cbn [foldl fmap list_fmap]. rewrite IH. unfold storeAppend. destruct (decide (if_Key v = k)) as [Hk|Hk].
  - rewrite filter_cons_True, Hk, lookup_insert_eq by done. rewrite (decide_True (P := k ∈ k :: _)) by set_solver.
    cbn. case_decide; [by rewrite <- app_assoc|]. f_equal. f_equal.
    rewrite filter_all_not; [by rewrite app_nil_r|]. intros x Hx Heq. apply H. rewrite <- Heq. by apply list_elem_of_fmap_2.
  - rewrite filter_cons_False, lookup_insert_ne by done. do 2 case_decide; set_solver.
Qed.

Lemma groupValues_recs kva :
  groupValues kva = storeAll ∅ ((fun kv => mkIntermediate (Key kv) [Value kv]) <$> kva).
Proof. unfold groupValues, storeAll. by rewrite foldl_fmap. Qed.

Lemma groupValues_lookup kva k :
  groupValues kva !! k = if decide (valuesOf k kva = []) then None else Some (valuesOf k kva).
Proof.
  rewrite groupValues_recs, storeAll_lookup, lookup_empty. cbn [default].
  assert (recValues k ((fun kv => mkIntermediate (Key kv) [Value kv]) <$> kva) = valuesOf k kva) as ->.
  { unfold recValues, valuesOf. induction kva as [|kv kva IH]; [done|]. cbn [fmap list_fmap].
    destruct (decide (Key kv = k)).
    - rewrite !filter_cons_True by done. cbn. by f_equal.
    - by rewrite !filter_cons_False. }
  rewrite <- list_fmap_compose. do 2 case_decide; try done.
  - exfalso. apply list_elem_of_fmap in H as (kv & -> & Hkv). unfold valuesOf in H0.
    apply fmap_nil_inv in H0. apply (filter_nil_not_elem_of _ _ kv) in H0; done.
  - exfalso. apply H0. unfold valuesOf. rewrite filter_all_not; [done|].
    intros kv Hkv <-. apply H. apply list_elem_of_fmap. by exists kv.
Qed.

Lemma groupValues_default kva k : default [] (groupValues kva !! k) = valuesOf k kva.
Proof. rewrite groupValues_lookup. by case_decide as E; [rewrite E|]. Qed.

Lemma groupValues_key kva k : is_Some (groupValues kva !! k) <-> k ∈ Key <$> kva.
Proof.
  rewrite groupValues_lookup. unfold valuesOf. case_decide as E; split; try done.
  - intros (kv & -> & Hkv)%list_elem_of_fmap. apply fmap_nil_inv in E.
    apply (filter_nil_not_elem_of _ _ kv) in E; done.
  - intros _. destruct (filter (fun kv => Key kv = k) kva) as [|kv l] eqn:F; [done|].
    assert (kv ∈ filter (fun kv => Key kv = k) kva) as [<- Hkv]%list_elem_of_filter by (rewrite F; by left).
    by apply list_elem_of_fmap_2.
Qed.

Lemma valuesOf_app k l l' : valuesOf k (l ++ l') = valuesOf k l ++ valuesOf k l'.
Proof. unfold valuesOf. by rewrite filter_app, fmap_app. Qed.

Lemma valuesOf_concat k ls : valuesOf k (concat ls) = concat (valuesOf k <$> ls).
Proof. induction ls as [|l ls IH]; [done|]. cbn [concat fmap list_fmap]. by rewrite valuesOf_app, IH. Qed.

Lemma valuesOf_perm k l l' : l ≡ₚ l' -> valuesOf k l ≡ₚ valuesOf k l'.
Proof. unfold valuesOf. by intros ->. Qed.

(** *** The sorted keys *)

Lemma sortedKeys_NoDup st : NoDup (sortedKeys st).
Proof. unfold sortedKeys. rewrite sortStrings_perm. apply NoDup_fst_map_to_list. Qed.

Lemma sortedKeys_elem st k : k ∈ sortedKeys st <-> is_Some (st !! k).
Proof.
  unfold sortedKeys. rewrite sortStrings_perm, list_elem_of_fmap. split.
  - intros ([k' l] & -> & Hin%elem_of_map_to_list). by eexists.
  - intros [l Hl]. exists (k, l). split; [done|]. by apply elem_of_map_to_list.
Qed.

(** Sorted keys are determined by which keys there are. *)
Lemma sortedKeys_unique l st :
  StronglySorted String.le l -> NoDup l -> (forall k, k ∈ l <-> is_Some (st !! k)) -> l = sortedKeys st.
Proof.
  intros Hs Hnd Hk. apply (StronglySorted_unique String.le); [done|apply sortStrings_sorted|].
  apply NoDup_Permutation; [done|apply sortedKeys_NoDup|]. intros k. by rewrite Hk, sortedKeys_elem.
Qed.

Lemma sortedKeys_filter (P : string -> Prop) `{!forall x, Decision (P x)} st st' :
  (forall k, is_Some (st !! k) <-> P k /\ is_Some (st' !! k)) -> sortedKeys st = filter P (sortedKeys st').
Proof.
  intros Hst. symmetry. apply sortedKeys_unique.
  - unfold sortedKeys. rewrite sortStrings_filter. apply sortStrings_sorted.
  - apply NoDup_filter, sortedKeys_NoDup.
  - intros k. by rewrite list_elem_of_filter, sortedKeys_elem, Hst.
Qed.

(** ** The parts of a map task *)

Lemma ihash_range k : 0 <= ihash k < 2 ^ 31.
Proof.
  unfold ihash. change 0x7fffffff with (Z.ones 31). rewrite Z.land_ones by lia. apply Z.mod_pos_bound. lia.
Qed.

Definition inPart (n j : Z) (k : string) : Prop := Z.rem (ihash k) n = j.
#[export] Instance inPart_dec n j k : Decision (inPart n j k).
Proof. unfold inPart. apply _. Defined.

Lemma part_range n k : 0 < n -> 0 <= Z.rem (ihash k) n < n.
Proof. intros Hn. pose proof (ihash_range k). rewrite Z.rem_mod_nonneg by lia. apply Z.mod_pos_bound. lia. Qed.

Definition record_of (st : gmap string (list string)) (k : string) : IntermediateFormat :=
  mkIntermediate k (default [] (st !! k)).

Definition partRecords (n j : Z) (kva : list KeyValue) : list IntermediateFormat :=
  record_of (groupValues kva) <$> filter (inPart n j) (sortedKeys (groupValues kva)).

Lemma encodeKeys_spec st n keys bufs :
  0 < n -> length bufs = Z.to_nat n ->
  exists bufs', encodeKeys st n keys bufs = Some bufs' /\ length bufs' = length bufs /\
    forall j buf, bufs !! j = Some buf ->
      bufs' !! j = Some (buf ++ (Json <$> (jsonValue <$> (record_of st <$> filter (inPart n (Z.of_nat j)) keys)))).
Proof.
  intros Hn. revert bufs. induction keys as [|k keys IH]; intros bufs Hlen.
  - exists bufs. split_and!; [done..|]. intros j buf Hj. by rewrite Hj, filter_nil, app_nil_r.
  - cbn [encodeKeys]. destruct (Z.eqb_spec n 0) as [|_]; [lia|]. pose proof (part_range n k Hn) as Hr.
    set (index := Z.rem (ihash k) n) in *.
    destruct (lookup_lt_is_Some_2 bufs (Z.to_nat index)) as [buf Hbuf]; [lia|].
    assert (go_index bufs index = Some buf) as -> by (apply go_index_Some; unfold zlen; split_and!; [lia|lia|done]).
    cbn [mbind option_bind]. rewrite go_store_in_range by (unfold zlen; lia). cbn [mbind option_bind].
    destruct (IH (<[Z.to_nat index := buf ++ [Json (jsonValue (record_of st k))]]> bufs)) as (bufs' & He & Hl & Hb);
      [by rewrite length_insert|].
    exists bufs'. split_and!; [done|by rewrite Hl, length_insert|]. intros j buf' Hj.
    destruct (decide (inPart n (Z.of_nat j) k)) as [Hp|Hp].
    + rewrite filter_cons_True by done. unfold inPart in Hp. fold index in Hp.
      assert (j = Z.to_nat index) as -> by lia. simplify_eq.
      rewrite (Hb _ (buf ++ [Json (jsonValue (record_of st k))])) by (apply list_lookup_insert_eq; lia). cbn. by rewrite <- app_assoc.
    + rewrite filter_cons_False by done. apply Hb. rewrite list_lookup_insert_ne; [done|].
      intros <-. apply Hp. unfold inPart. lia.
Qed.

(** JSON keeps these pairs as they are. *)
Definition valid_pair (kv : KeyValue) : Prop := ValidString (Key kv) = true /\ ValidString (Value kv) = true.

Lemma groupValues_elem kva k vs v : groupValues kva !! k = Some vs -> v ∈ vs -> exists kv, kv ∈ kva /\ Key kv = k /\ Value kv = v.
Proof.
  unfold groupValues. revert vs. induction kva as [|kv kva IH] using rev_ind; intros vs; [cbn; by rewrite lookup_empty|].
  rewrite foldl_app. cbn. unfold storeAppend. intros [(Hk & <-)|(Hne & Hk)]%lookup_insert_Some Hv.
  - apply elem_of_app in Hv as [Hv| ->%list_elem_of_singleton]; [|exists kv; split; [apply elem_of_app; right; by left|done]].
    destruct (foldl _ _ kva !! Key kv) as [vs'|] eqn:E; [|by apply not_elem_of_nil in Hv].
    rewrite Hk in E. destruct (IH vs' E Hv) as (kv' & ? & ?). exists kv'. split; [apply elem_of_app; by left|done].
  - destruct (IH vs Hk Hv) as (kv' & ? & ?). exists kv'. split; [apply elem_of_app; by left|done].
Qed.

Lemma partRecords_json n j kva : Forall valid_pair kva -> jsonValue <$> partRecords n j kva = partRecords n j kva.
Proof.
  intros HF. rewrite Forall_forall in HF. unfold partRecords. rewrite <- list_fmap_compose. apply list_fmap_ext.
  intros i k [_ Hk%sortedKeys_elem]%list_elem_of_lookup_2%list_elem_of_filter. destruct Hk as [vs Hk].
  unfold compose, jsonValue, record_of. cbn. rewrite Hk. cbn. f_equal.
  - assert (k ∈ Key <$> kva) as (kv & -> & Hin)%list_elem_of_fmap by (apply groupValues_key; by eexists). by apply coerceUTF8_valid, HF.
  - rewrite <- (list_fmap_id vs) at 2. apply list_fmap_ext. intros i' v Hv%list_elem_of_lookup_2.
    destruct (groupValues_elem kva k vs v Hk Hv) as (kv & Hin & _ & <-). by apply coerceUTF8_valid, HF.
Qed.

Lemma mapTemps_spec mapf r content :
  0 < NReduce r -> Forall valid_pair (mapf (FileName (Tas r)) content) ->
  exists temps, mapTemps mapf r content = Some temps /\ zlen temps = NReduce r /\
    forall j, 0 <= j < NReduce r ->
      temps !! Z.to_nat j = Some (Json <$> partRecords (NReduce r) j (mapf (FileName (Tas r)) content)).
Proof.
  intros Hn HF. unfold mapTemps. set (st := groupValues (mapf (FileName (Tas r)) content)).
  destruct (encodeKeys_spec st (NReduce r) (sortedKeys st) (replicate (Z.to_nat (NReduce r)) [])) as (temps & He & Hl & Ht);
    [done|by rewrite length_replicate|].
  rewrite length_replicate in Hl. exists temps. split_and!; [done|unfold zlen; lia|]. intros j Hj.
  rewrite (Ht (Z.to_nat j) []) by (apply lookup_replicate_2; lia). rewrite Z2Nat.id by lia.
  pose proof (partRecords_json (NReduce r) j _ HF) as E. unfold partRecords in E |- *. fold st in E |- *. by rewrite E.
Qed.

(** ** Reading the parts *)

Lemma decodeFile_json recs st : decodeFile (Json <$> recs) st = Some (storeAll st recs).
Proof. revert st. induction recs as [|v recs IH]; intros st; [done|]. cbn. by rewrite IH. Qed.

Lemma readParts_spec id fs names st (recs : string -> list IntermediateFormat) :
  (forall name, name ∈ names -> MatchString id name = true -> default [] (fs !! name) = Json <$> recs name) ->
  readParts id fs names st = Some (storeAll st (concat (recs <$> filter (fun name => MatchString id name = true) names))).
Proof.
  intros Hr. revert st. induction names as [|name names IH]; intros st; [done|]. cbn [readParts].
  destruct (MatchString id name) eqn:E.
  - rewrite filter_cons_True by done. cbn. rewrite Hr by (done || by left). rewrite decodeFile_json.
    cbn [mbind option_bind]. rewrite IH by (intros n Hn; apply Hr; by right). unfold storeAll. by rewrite foldl_app.
  - rewrite filter_cons_False by (by rewrite E). apply IH. intros n Hn. apply Hr. by right.
Qed.

Lemma partRecords_key n j kva k :
  k ∈ if_Key <$> partRecords n j kva <-> inPart n j k /\ k ∈ Key <$> kva.
Proof.
  unfold partRecords. rewrite <- list_fmap_compose, list_elem_of_fmap. setoid_rewrite list_elem_of_filter.
  setoid_rewrite sortedKeys_elem. rewrite <- groupValues_key. cbn. split.
  - by intros (k' & -> & ?).
  - intros H. by exists k.
Qed.

Lemma recValues_app k l l' : recValues k (l ++ l') = recValues k l ++ recValues k l'.
Proof. unfold recValues. by rewrite filter_app, fmap_app, concat_app. Qed.

Lemma recValues_none k recs : k ∉ if_Key <$> recs -> recValues k recs = [].
Proof.
  intros Hk. unfold recValues. rewrite filter_all_not; [done|]. intros v Hv <-. apply Hk. by apply list_elem_of_fmap_2.
Qed.

Lemma recValues_part n j kva k : inPart n j k -> recValues k (partRecords n j kva) = valuesOf k kva.
Proof.
  intros Hp. destruct (decide (k ∈ Key <$> kva)) as [Hk|Hk].
  - unfold partRecords. set (st := groupValues kva).
    assert (k ∈ filter (inPart n j) (sortedKeys st)) as Hin
      by (apply list_elem_of_filter; split; [done|]; by apply sortedKeys_elem, groupValues_key).
    pose proof (NoDup_filter (inPart n j) _ (sortedKeys_NoDup st)) as Hnd.
    apply list_elem_of_split in Hin as (l1 & l2 & Hl). rewrite Hl in Hnd |- *.
    rewrite fmap_app, fmap_cons. change (?a :: ?b) with ([a] ++ b). rewrite !recValues_app.
    apply NoDup_app in Hnd as (_ & Hd & [Hn _]%NoDup_cons).
    rewrite (recValues_none k (record_of st <$> l1)), (recValues_none k (record_of st <$> l2)).
    + unfold recValues. rewrite filter_cons_True by done. cbn. rewrite !app_nil_r. apply groupValues_default.
    + rewrite <- list_fmap_compose, list_elem_of_fmap. intros (x & -> & Hx). by apply Hn.
    + rewrite <- list_fmap_compose, list_elem_of_fmap. intros (x & -> & Hx). apply (Hd _ Hx). by left.
  - rewrite recValues_none by (rewrite partRecords_key; tauto). symmetry. unfold valuesOf.
    rewrite filter_all_not; [done|]. intros kv Hkv <-. apply Hk. by apply list_elem_of_fmap_2.
Qed.

(** ** File names *)

Lemma dropDigits_spec l n rest :
  dropDigits l = (n, rest) -> exists d, l = d ++ rest /\ length d = n /\ Forall (fun a => isDigit a = true) d.
Proof.
  revert n rest. induction l as [|a l IH]; intros n rest; cbn.
  - intros [= <- <-]. by exists [].
  - destruct (isDigit a) eqn:E.
    + destruct (dropDigits l) as [m r]. intros [= <- <-]. destruct (IH m r eq_refl) as (d & -> & <- & Hd).
      exists (a :: d). split_and!; [done..|by constructor].
    + intros [= <- <-]. by exists [].
Qed.

Lemma dropDigits_take d rest :
  Forall (fun a => isDigit a = true) d -> dropDigits (d ++ dash :: rest) = (length d, dash :: rest).
Proof. induction 1 as [|a d Ha Hd IH]; [done|]. cbn. rewrite Ha. cbn in IH. by rewrite IH. Qed.

Lemma MatchString_spec id name :
  MatchString id name = true <->
  exists p d, chars name = p ++ chars "mr-" ++ d ++ dash :: chars (Itoa id) /\ d <> [] /\
              Forall (fun a => isDigit a = true) d.
Proof.
  unfold MatchString. generalize (chars name). intros l.
  assert (forall l, matchHere id l = true <-> exists d, l = chars "mr-" ++ d ++ dash :: chars (Itoa id) /\ d <> [] /\
              Forall (fun a => isDigit a = true) d) as Hhere.
  { clear l. intros l. unfold matchHere. split.
    - destruct (dropDigits (drop 3 l)) as [n rest] eqn:E. rewrite !andb_true_iff, !bool_decide_eq_true.
      intros [[Ht Hn] Hrest]. apply dropDigits_spec in E as (d & Hd & <- & Hf). exists d.
      split_and!; [|by intros ->|done]. rewrite <- (take_drop 3 l), Ht, Hd, Hrest. by rewrite chars_app.
    - intros (d & -> & Hd & Hf). change (drop 3 (chars "mr-" ++ ?a)) with a. rewrite dropDigits_take by done.
      rewrite !andb_true_iff, !bool_decide_eq_true. split_and!; [done|by destruct d|by rewrite chars_app]. }
  induction l as [|a l IH].
  - cbn [matchFrom]. rewrite orb_false_r, Hhere. split; [intros (d & E & _); done|].
    intros (p & d & E & _). by destruct p.
  - cbn [matchFrom]. rewrite orb_true_iff, Hhere, IH. split.
    + intros [(d & -> & H)|(p & d & -> & H)]; [by exists [], d|by exists (a :: p), d].
    + intros ([|b p] & d & E & H); [left; by exists d|right]. cbn in E. injection E as -> ->. by exists p, d.
Qed.

Lemma mapName_chars i j : chars (mapName i j) = (chars "mr-" ++ chars (Itoa i)) ++ dash :: chars (Itoa j).
Proof. unfold mapName. by rewrite !chars_app, <- app_assoc. Qed.

Lemma mapName_match i j id : 0 <= i -> 0 <= j -> 0 <= id -> MatchString id (mapName i j) = true <-> id = j.
Proof.
  intros Hi Hj Hid. rewrite MatchString_spec, mapName_chars. split.
  - intros (p & d & E & Hd & Hf). replace (p ++ chars "mr-" ++ d ++ dash :: chars (Itoa id))
      with ((p ++ chars "mr-" ++ d) ++ dash :: chars (Itoa id)) in E by (by rewrite <- !app_assoc).
    apply last_dash in E as [_ E]; [|by apply Itoa_digits..]. by apply Itoa_inj, chars_inj.
  - intros ->. exists [], (chars (Itoa i)). split_and!; [by rewrite <- app_assoc|apply Itoa_nonempty|by apply Itoa_digits].
Qed.

(** A name whose text before the last dash does not end in a digit is not matched. *)
Lemma no_match id name a c x :
  0 <= id -> chars name = (a ++ [c]) ++ dash :: x -> isDigit c = false -> Forall (fun a => isDigit a = true) x ->
  MatchString id name = false.
Proof.
  intros Hid Hn Hc Hx. apply not_true_iff_false. rewrite MatchString_spec. intros (p & d & E & Hd & Hf).
  rewrite Hn in E. replace (p ++ chars "mr-" ++ d ++ dash :: chars (Itoa id))
    with ((p ++ chars "mr-" ++ d) ++ dash :: chars (Itoa id)) in E by (by rewrite <- !app_assoc).
  apply last_dash in E as [E _]; [|done|by apply Itoa_digits].
  destruct d as [|b d' _] using rev_ind; [done|].
  rewrite !app_assoc in E. apply app_inj_tail in E as [_ ->].
  apply Forall_app in Hf as [_ Hf]. inversion Hf. congruence.
Qed.

Lemma outName_no_match id t : 0 <= id -> 0 <= t -> MatchString id (outName t) = false.
Proof.
  intros Hid Ht. apply (no_match id _ (chars "mr-ou") (Ascii.ascii_of_nat 116) (chars (Itoa t))); [done| |done|by apply Itoa_digits].
  unfold outName. rewrite chars_app. done.
Qed.

(** The temporary files are not matched, whatever digits [os.CreateTemp] chooses. *)
Lemma tempName_no_match id name digits :
  0 <= id -> Forall (fun a => isDigit a = true) (chars digits) ->
  MatchString id (name +:+ "-tmp-" +:+ digits)%string = false.
Proof.
  intros Hid Hd. apply (no_match id _ (chars name ++ chars "-tm") (Ascii.ascii_of_nat 112) (chars digits)); [done| |done|done].
  rewrite !chars_app, <- !app_assoc. done.
Qed.

Lemma mapName_inj i j i' j' :
  0 <= i -> 0 <= j -> 0 <= i' -> 0 <= j' -> mapName i j = mapName i' j' -> i = i' /\ j = j'.
Proof.
  intros. apply (f_equal chars) in H3. rewrite !mapName_chars in H3.
  apply last_dash in H3 as [E1 E2]; [|by apply Itoa_digits..].
  apply app_inv_head in E1. split; by apply Itoa_inj, chars_inj.
Qed.

Lemma outName_inj t t' : outName t = outName t' -> t = t'.
Proof.
  intros E. apply (f_equal chars) in E. unfold outName in E. rewrite !chars_app in E.
  apply app_inv_head in E. by apply Itoa_inj, chars_inj.
Qed.

Lemma mapName_outName i j t : 0 <= i -> 0 <= j -> 0 <= t -> mapName i j <> outName t.
Proof.
  intros Hi Hj Ht E. pose proof (outName_no_match j t Hj Ht) as Hno. rewrite <- E in Hno.
  assert (MatchString j (mapName i j) = true) as Hm by (by apply mapName_match). congruence.
Qed.

(** ** What the programs compute *)

Section Output.
Context (reducef : string -> list string -> string).
Context (Hperm : forall k vs vs', vs ≡ₚ vs' -> reducef k vs = reducef k vs').

(** The line for a key. *)
Definition lineOf (kva : list KeyValue) (k : string) : Chunk := outputLine reducef k (valuesOf k kva).
Definition outLines (kva : list KeyValue) : list Chunk := lineOf kva <$> sortedKeys (groupValues kva).
Definition partLines (n t : Z) (kva : list KeyValue) : list Chunk :=
  lineOf kva <$> filter (inPart n t) (sortedKeys (groupValues kva)).

Definition jsonValues (f : list Chunk) : list IntermediateFormat :=
  omap (fun ch => match ch with Json v => Some v | Bytes _ => None end) f.

Lemma jsonValues_json l : jsonValues (Json <$> l) = l.
Proof. induction l as [|v l IH]; [done|]. cbn. f_equal. exact IH. Qed.

(** A reduce task that finds the parts of all map tasks, in whatever order, writes the lines of
    its keys. *)
Lemma reduceTemp_spec id n fs (names : list string) (kvas : list (list KeyValue)) :
  filter (fun name => MatchString id name = true) (ReadDir fs) ≡ₚ names ->
  Forall2 (fun name kva => fs !! name = Some (Json <$> partRecords n id kva)) names kvas ->
  reduceTemp reducef id fs = Some (partLines n id (concat kvas)).
Proof.
  intros Hm HF. unfold reduceTemp.
  set (recs := fun name => jsonValues (default [] (fs !! name))).
  rewrite (readParts_spec id fs _ _ recs).
  2: { intros name Hn Hma. assert (name ∈ names) as (x & Hx)%list_elem_of_lookup by (rewrite <- Hm; by apply list_elem_of_filter).
       destruct (Forall2_lookup_l _ _ _ _ _ HF Hx) as (kva & _ & E). unfold recs. rewrite E. cbn. by rewrite jsonValues_json. }
  cbn [mbind option_bind]. f_equal. set (found := concat (recs <$> _)).
  assert (Hfound : found ≡ₚ concat (partRecords n id <$> kvas)).
  { unfold found. rewrite Hm. apply reflexive_eq. f_equal. clear Hm found. induction HF as [|name kva names kvas E HF IH]; [done|].
    cbn [fmap list_fmap]. rewrite IH. f_equal. unfold recs. rewrite E. cbn. by rewrite jsonValues_json. }
  assert (Hkey : forall k, k ∈ if_Key <$> found <-> inPart n id k /\ k ∈ Key <$> concat kvas).
  { intros k. rewrite Hfound. clear -k. induction kvas as [|kva kvas IH]; cbn [concat fmap list_fmap]; [set_solver|].
    rewrite !fmap_app, !elem_of_app, IH, partRecords_key. tauto. }
  assert (Hval : forall k, inPart n id k -> recValues k found ≡ₚ valuesOf k (concat kvas)).
  { intros k Hk. unfold recValues. rewrite Hfound. fold (recValues k (concat (partRecords n id <$> kvas))).
    rewrite valuesOf_concat. clear -Hk. induction kvas as [|kva kvas IH]; cbn [concat fmap list_fmap]; [done|].
    by rewrite recValues_app, recValues_part, IH. }
  assert (Hst : forall k, storeAll ∅ found !! k = if decide (k ∈ if_Key <$> found) then Some (recValues k found) else None).
  { intros k. by rewrite storeAll_lookup, lookup_empty. }
  unfold partLines.
  rewrite (sortedKeys_filter (inPart n id) (storeAll ∅ found) (groupValues (concat kvas))).
  - apply list_fmap_ext. intros i k [Hp Hk]%list_elem_of_lookup_2%list_elem_of_filter. unfold lineOf, outputLine.
    apply sortedKeys_elem, groupValues_key in Hk. rewrite Hst, decide_True by (by apply Hkey).
    change (default [] (Some ?x)) with x. by rewrite (Hperm k _ _ (Hval k Hp)).
  - intros k. rewrite Hst, groupValues_key, <- Hkey. by case_decide; split.
Qed.

(** *** The sequential program *)

Lemma sameKey_spec k l :
  StronglySorted (fun a b => ByKey_Less b a = false) l -> (forall kv, kv ∈ l -> String.le k (Key kv)) ->
  sameKey k l = (filter (fun kv => Key kv = k) l, filter (fun kv => Key kv <> k) l).
Proof.
  induction 1 as [|kv l Hs IH Hx]; intros Hle; [done|]. cbn [sameKey].
  destruct (decide (Key kv = k)) as [Hk|Hk].
  - rewrite bool_decide_eq_true_2, IH by (done || (intros ? ?; apply Hle; by right)).
    by rewrite filter_cons_True, filter_cons_False by tauto.
  - rewrite bool_decide_eq_false_2 by done. rewrite filter_cons_False, filter_cons_True by done.
    assert (Hgt : forall x, x ∈ l -> Key x <> k).
    { intros x Hin <-. rewrite Forall_forall in Hx. specialize (Hx x Hin). apply Hk.
      specialize (Hle kv ltac:(by left)). unfold ByKey_Less, String.ltb in Hx. unfold String.le, String.leb in Hle.
      destruct (Key x ?= Key kv)%string eqn:E; [by apply String.compare_eq_iff in E|done|done]. }
    rewrite filter_all_not by done. by rewrite filter_all.
Qed.

Lemma sorted_filter_keys (P : KeyValue -> Prop) `{!forall x, Decision (P x)} l :
  StronglySorted (fun a b => ByKey_Less b a = false) l -> StronglySorted (fun a b => ByKey_Less b a = false) (filter P l).
Proof.
  induction 1 as [|kv l Hs IH Hx]; [constructor|]. destruct (decide (P kv)).
  - rewrite filter_cons_True by done. constructor; [done|]. rewrite Forall_forall in Hx |- *.
    intros y [_ Hy]%list_elem_of_filter. by apply Hx.
  - by rewrite filter_cons_False.
Qed.

Lemma not_less_le a b : ByKey_Less b a = false -> String.le (Key a) (Key b).
Proof.
  unfold ByKey_Less, String.ltb, String.le, String.leb. rewrite String.compare_antisym.
  by destruct (Key a ?= Key b)%string.
Qed.

Lemma valuesOf_other k k' l : k <> k' -> valuesOf k (filter (fun kv => Key kv <> k') l) = valuesOf k l.
Proof.
  intros Hne. unfold valuesOf. f_equal. rewrite list_filter_filter. apply list_filter_iff. intros kv. naive_solver.
Qed.

(** The smallest key comes first. *)
Lemma sortedKeys_cons kv l :
  (forall x, x ∈ l -> String.le (Key kv) (Key x)) ->
  sortedKeys (groupValues (kv :: l)) = Key kv :: sortedKeys (groupValues (filter (fun x => Key x <> Key kv) l)).
Proof.
  intros Hle. symmetry. apply sortedKeys_unique.
  - constructor; [apply sortStrings_sorted|]. apply Forall_forall. intros k Hk.
    apply sortedKeys_elem, groupValues_key, list_elem_of_fmap in Hk as (x & -> & [_ Hx]%list_elem_of_filter). by apply Hle.
  - constructor; [|apply sortedKeys_NoDup]. intros Hk.
    apply sortedKeys_elem, groupValues_key, list_elem_of_fmap in Hk as (x & E & [Hn _]%list_elem_of_filter). congruence.
  - intros k. rewrite elem_of_cons, sortedKeys_elem, !groupValues_key. cbn. rewrite elem_of_cons, !list_elem_of_fmap.
    setoid_rewrite list_elem_of_filter. split.
    + intros [->|(x & -> & _ & Hx)]; [by left|right; eauto].
    + intros [->|(x & -> & Hx)]; [by left|]. destruct (decide (Key x = Key kv)) as [->|]; [by left|right; eauto].
Qed.

Lemma seqReduce_sorted fuel l :
  (length l <= fuel)%nat -> StronglySorted (fun a b => ByKey_Less b a = false) l -> seqReduce reducef fuel l = outLines l.
Proof using Type.
  revert l. induction fuel as [|fuel IH]; intros [|kv l] Hf Hs; cbn in Hf; try done; [lia|].
  apply StronglySorted_inv in Hs as [Hs Hx]. rewrite Forall_forall in Hx.
  assert (Hle : forall x, x ∈ l -> String.le (Key kv) (Key x)) by (intros x Hin; by apply not_less_le, Hx).
  cbn [seqReduce]. rewrite sameKey_spec by done. unfold outLines. rewrite sortedKeys_cons by done. cbn [fmap list_fmap].
  f_equal.
  - unfold lineOf, valuesOf. by rewrite filter_cons_True.
  - rewrite IH; [|etrans; [apply length_filter|lia]|by apply sorted_filter_keys]. unfold outLines.
    apply list_fmap_ext. intros i k Hk%list_elem_of_lookup_2.
    apply sortedKeys_elem, groupValues_key, list_elem_of_fmap in Hk as (x & -> & [Hn _]%list_elem_of_filter).
    unfold lineOf. rewrite valuesOf_other by done. f_equal. unfold valuesOf. by rewrite filter_cons_False.
Qed.

Lemma outLines_perm l l' : l ≡ₚ l' -> outLines l = outLines l'.
Proof.
  intros Hp. unfold outLines.
  assert (sortedKeys (groupValues l) = sortedKeys (groupValues l')) as ->.
  { apply sortedKeys_unique; [apply sortStrings_sorted|apply sortedKeys_NoDup|].
    intros k. by rewrite sortedKeys_elem, !groupValues_key, Hp. }
  apply list_fmap_ext. intros i k _. unfold lineOf, outputLine. by rewrite (Hperm k _ _ (valuesOf_perm k _ _ Hp)).
Qed.

(** The lines of the parts together are the lines of the whole. *)
Lemma partLines_all n kva :
  0 < n -> concat ((fun t => partLines n (Z.of_nat t) kva) <$> seq 0 (Z.to_nat n)) ≡ₚ outLines kva.
Proof.
  intros Hn. unfold partLines, outLines. generalize (sortedKeys (groupValues kva)). intros keys.
  induction keys as [|k keys IH].
  - induction (seq 0 (Z.to_nat n)); [done|]. cbn. done.
  - pose proof (part_range n k Hn) as Hr. set (t := Z.to_nat (Z.rem (ihash k) n)).
    assert (Hsplit : seq 0 (Z.to_nat n) = seq 0 t ++ t :: seq (S t) (Z.to_nat n - S t)).
    { replace (Z.to_nat n) with (t + S (Z.to_nat n - S t))%nat at 1 by (unfold t; lia).
      by rewrite seq_app. }
    rewrite Hsplit in IH |- *. rewrite !fmap_app, !fmap_cons, !concat_app in *. cbn [concat] in *.
    rewrite filter_cons_True by (unfold inPart, t; lia). cbn [fmap list_fmap app].
    rewrite <- Permutation_middle, <- IH. apply Permutation_skip, Permutation_app; [|apply Permutation_app_head].
    + apply reflexive_eq. f_equal. apply list_fmap_ext. intros i j Hj%list_elem_of_lookup_2%elem_of_seq.
      rewrite filter_cons_False; [done|]. unfold inPart, t in *. lia.
    + apply reflexive_eq. f_equal. apply list_fmap_ext. intros i j Hj%list_elem_of_lookup_2%elem_of_seq.
      rewrite filter_cons_False; [done|]. unfold inPart, t in *. lia.
Qed.
End Output.
