(* ===== verification/MapReduceInv.v ===== *)
(** * MapReduceInv: the invariant of the MapReduce system

    Whatever the workers do and wherever they crash, every intermediate or output file in the
    directory has its final contents as soon as it has its final name, the coordinator marks a
    task completed only when its files are there, and a reduce task starts when all parts are
    there.  This holds as long as no worker reports a map task after the map phase and no
    creation of a temporary file fails. *)

From S2P Require Import Prelude Decimal MapReduce MapReduceFacts.
Local Open Scope Z_scope.

Section Invariant.
Context (mapf : string -> string -> list KeyValue) (reducef : string -> list string -> string).
Context (marshal : IntermediateFormat -> string).
Context (Hperm : forall k vs vs', vs ≡ₚ vs' -> reducef k vs = reducef k vs').
Context (files : list string) (nRed : Z) (fs0 : FileSystem).
Context (Hred : 0 < nRed).

(** A name that is neither an intermediate nor an output file. *)
Definition plain (name : string) : Prop :=
  (forall t, 0 <= t -> MatchString t name = false) /\ (forall t, 0 <= t -> name <> outName t).

Context (Hfresh : forall name t, is_Some (fs0 !! name) -> 0 <= t -> MatchString t name = false).
Context (Hinput : forall f, f ∈ files -> is_Some (fs0 !! f) /\ plain f).

Definition kvaOf (f : string) : list KeyValue := mapf f (default ""%string (ReadFile marshal fs0 f)).
Definition kvas : list (list KeyValue) := kvaOf <$> files.
Context (Hutf : forall f, f ∈ files -> Forall valid_pair (kvaOf f)).

Definition partOf (f : string) (j : Z) : list Chunk := Json <$> partRecords nRed j (kvaOf f).
Definition redOf (t : Z) : list Chunk := partLines reducef nRed t (concat kvas).

(** The final contents of the files the system makes. *)
Inductive good : string -> list Chunk -> Prop :=
| good_part i f j : files !! i = Some f -> 0 <= j < nRed -> good (mapName (Z.of_nat i) j) (partOf f j)
| good_out t : 0 <= t < nRed -> good (outName t) (redOf t).

Lemma good_inv name v :
  good name v ->
  (exists i f j, files !! i = Some f /\ 0 <= j < nRed /\ name = mapName (Z.of_nat i) j /\ v = partOf f j) \/
  (exists t, 0 <= t < nRed /\ name = outName t /\ v = redOf t).
Proof. destruct 1; [left|right]; eauto 10. Qed.

Lemma good_unique name v v' : good name v -> good name v' -> v = v'.
Proof.
  intros [(i & f & j & Hf & Hj & -> & ->)|(t & Ht & -> & ->)]%good_inv
    [(i' & f' & j' & Hf' & Hj' & E & ->)|(t' & Ht' & E & ->)]%good_inv.
  - apply mapName_inj in E as [E1 E2]; [|lia..]. assert (i' = i) as -> by lia. by simplify_eq.
  - by apply mapName_outName in E; [|lia..].
  - by apply symmetry, mapName_outName in E; [|lia..].
  - apply outName_inj in E. by subst.
Qed.

(** [v] is there under its name. *)
Definition stored (fs : FileSystem) (name : string) (v : list Chunk) : Prop := good name v /\ fs !! name = Some v.

Lemma stored_insert fs name v name' v' : stored fs name v -> good name' v' -> stored (<[name' := v']> fs) name v.
Proof.
  intros [Hg Hl] Hg'. split; [done|]. destruct (decide (name' = name)) as [->|Hne].
  - rewrite lookup_insert_eq. f_equal. by eapply good_unique.
  - by rewrite lookup_insert_ne.
Qed.

Definition mapped (fs : FileSystem) (i : nat) : Prop :=
  forall f j, files !! i = Some f -> 0 <= j < nRed -> stored fs (mapName (Z.of_nat i) j) (partOf f j).
Definition reduced (fs : FileSystem) (t : Z) : Prop := stored fs (outName t) (redOf t).

(** The directory: the inputs as they were; what the pattern finds are parts. *)
Record dir_ok (fs : FileSystem) : Prop := {
  dir_plain name : plain name -> fs !! name = fs0 !! name;
  dir_parts name t : is_Some (fs !! name) -> 0 <= t -> MatchString t name = true ->
    exists i f, files !! i = Some f /\ name = mapName (Z.of_nat i) t /\ fs !! name = Some (partOf f t)
}.

Lemma dir_insert fs name v : dir_ok fs -> good name v -> dir_ok (<[name := v]> fs).
Proof.
  intros [Hpl Hpa] Hg. split.
  - intros n [Hn1 Hn2]. rewrite lookup_insert_ne; [by apply Hpl|]. intros ->. destruct Hg as [i f j Hf Hj|t Ht].
    + specialize (Hn1 j ltac:(lia)). assert (MatchString j (mapName (Z.of_nat i) j) = true) by (apply mapName_match; lia). congruence.
    + by apply (Hn2 t); [lia|].
  - intros n t Hs Ht Hm. destruct (decide (name = n)) as [->|Hne].
    + rewrite lookup_insert_eq. destruct Hg as [i f j Hf Hj|t' Ht'].
      * apply mapName_match in Hm as ->; [|lia..]. by exists i, f.
      * rewrite outName_no_match in Hm by lia. done.
    + rewrite lookup_insert_ne in Hs |- * by done. by apply Hpa.
Qed.

(** ** The coordinator *)

(** The task with number [i] of the current phase. *)
Definition task_ok (c : Coordinator) (fs : FileSystem) (i : nat) (task : Task) : Prop :=
  TaskID task = Z.of_nat i /\
  match phase c with
  | MapPhase => files !! i = Some (FileName task) /\ (Status task = Completed -> mapped fs i)
  | _ => Status task = Completed -> reduced fs (Z.of_nat i)
  end.

Record coord_ok (c : Coordinator) (fs : FileSystem) : Prop := {
  co_red : nReduce c = nRed;
  co_map : phase c = MapPhase ->
    files = (FileName <$> tasks c) ++ File c /\ nCurrentAssignedMapTask c = zlen (tasks c) /\ nCurrentAssignedReduceTask c = 0;
  co_reduce : phase c <> MapPhase ->
    File c = [] /\ nCurrentAssignedReduceTask c = zlen (tasks c) /\ zlen (tasks c) <= nRed /\
    forall i, (i < length files)%nat -> mapped fs i;
  co_finish : phase c = FinishPhase -> forall t, 0 <= t < nRed -> reduced fs t;
  co_task i task : tasks c !! i = Some task -> task_ok c fs i task;
  co_pending p : p ∈ rePendingTask c -> exists i task, tasks c !! i = Some task /\
    TaskID p = Z.of_nat i /\ FileName p = FileName task
}.

(** ** The workers *)

(** [r] is map task [i]; in the map phase the coordinator knows it. *)
Definition map_job (c : Coordinator) (i : nat) (f : string) (r : TaskAssingnemnt) : Prop :=
  Tasktype r = MapTask /\ files !! i = Some f /\ FileName (Tas r) = f /\ TaskID (Tas r) = Z.of_nat i /\
  NReduce r = nRed /\ (phase c = MapPhase -> (i < length (tasks c))%nat).

Definition reduce_job (c : Coordinator) (r : TaskAssingnemnt) : Prop :=
  Tasktype r = ReduceTask /\ 0 <= TaskID (Tas r) < nRed /\ phase c <> MapPhase /\ TaskID (Tas r) < zlen (tasks c).

Definition worker_ok (c : Coordinator) (fs : FileSystem) (st : Worker) : Prop :=
  match st with
  | Idle | Requested | Exited => True
  | Mapping r => exists i f, map_job c i f r
  | MapRenaming r j temps => exists i f, map_job c i f r /\ 0 <= j /\ j + zlen temps = nRed /\
      (forall k temp, temps !! k = Some temp -> temp = partOf f (j + Z.of_nat k)) /\
      (forall j', 0 <= j' < j -> stored fs (mapName (Z.of_nat i) j') (partOf f j'))
  | Reducing r => reduce_job c r
  | ReduceRenaming r temp => reduce_job c r /\ temp = redOf (TaskID (Tas r))
  | Reporting r => (exists i f, map_job c i f r /\ mapped fs i) \/ reduce_job c r /\ reduced fs (TaskID (Tas r))
  end.

Record Inv (s : System) (c : Coordinator) : Prop := {
  inv_coord : sy_coord s = Some c;
  inv_dir : dir_ok (sy_fs s);
  inv_co : coord_ok c (sy_fs s);
  inv_worker w st : sy_workers s !! w = Some st -> worker_ok c (sy_fs s) st
}.

(** ** Files are only added *)

Definition fs_le (fs fs' : FileSystem) : Prop := forall name v, stored fs name v -> stored fs' name v.

Lemma fs_le_insert fs name v : good name v -> fs_le fs (<[name := v]> fs).
Proof. intros Hg n v' Hs. by apply stored_insert. Qed.

Lemma mapped_le fs fs' i : fs_le fs fs' -> mapped fs i -> mapped fs' i.
Proof. intros Hle Hm f j Hf Hj. by apply Hle, Hm. Qed.

Lemma coord_ok_le c fs fs' : fs_le fs fs' -> coord_ok c fs -> coord_ok c fs'.
Proof.
  intros Hle [H1 H2 H3 H4 H5 H6]. split; try done.
  - intros Hp. destruct (H3 Hp) as (? & ? & ? & Hm). split_and!; [done..|]. intros i Hi. eapply mapped_le; eauto.
  - intros Hp t Ht. apply Hle. by apply H4.
  - intros i task Hi. destruct (H5 i task Hi) as [Hid Ht]. split; [done|].
    destruct (phase c); [destruct Ht as [? Ht]; split; [done|]|..]; intros Hc; [by eapply mapped_le; eauto|by apply Hle, Ht..].
Qed.

Lemma worker_ok_le c fs fs' st : fs_le fs fs' -> worker_ok c fs st -> worker_ok c fs' st.
Proof.
  intros Hle. destruct st; cbn; try done.
  - intros (i' & f & Hj & H0 & Hn & Ht & Hs). exists i', f. split_and!; [done..|]. intros j' Hj'. by apply Hle, Hs.
  - intros [(i & f & Hj & Hm)|[Hj Hm]]; [left|right]; [exists i, f; split; [done|by eapply mapped_le]|].
    split; [done|by apply Hle].
Qed.

(** The coordinator moves on: phases and tasks only grow. *)
Definition co_le (c c' : Coordinator) : Prop :=
  (phase c' = MapPhase -> phase c = MapPhase /\ (length (tasks c) <= length (tasks c'))%nat) /\
  (phase c <> MapPhase -> phase c' <> MapPhase /\ (length (tasks c) <= length (tasks c'))%nat).

Lemma worker_ok_co c c' fs st : co_le c c' -> worker_ok c fs st -> worker_ok c' fs st.
Proof.
  intros [Hm Hr]. assert (forall i f r, map_job c i f r -> map_job c' i f r) as Hmj.
  { intros i f r (? & ? & ? & ? & ? & Hlt). unfold map_job. split_and!; [done..|]. intros Hp. destruct (Hm Hp) as [Hp' ?].
    specialize (Hlt Hp'). lia. }
  assert (forall r, reduce_job c r -> reduce_job c' r) as Hrj.
  { intros r (? & ? & Hp & Hlt). destruct (Hr Hp). unfold reduce_job, zlen in *. split_and!; [done|lia|lia|done|lia]. }
  destruct st; cbn; try done; naive_solver.
Qed.

(** ** The handlers *)

Lemma firstOverdue_spec now ts p :
  firstOverdue now ts = Some p -> exists i task, ts !! i = Some task /\ TaskID p = TaskID task /\ FileName p = FileName task.
Proof.
  induction ts as [|task ts IH]; [done|]. cbn. case_match.
  - intros [= <-]. by exists 0%nat, task.
  - intros Hf. destruct (IH Hf) as (i & t & Hi & Ht). by exists (S i), t.
Qed.

Lemma AllTaskDone_spec c : AllTaskDone c = true -> forall i task, tasks c !! i = Some task -> Status task = Completed.
Proof.
  unfold AllTaskDone. case_match; [done|]. intros Hall i task Hi. rewrite forallb_forall in Hall.
  apply (bool_decide_eq_true_1 (Status task = Completed)), Hall. apply list_elem_of_In. by eapply list_elem_of_lookup_2.
Qed.

Lemma co_le_refl c : co_le c c.
Proof. split; done. Qed.

Lemma Check_ok c fs : coord_ok c fs -> coord_ok (Check_ c) fs /\ co_le c (Check_ c).
Proof.
  intros Hc. pose proof Hc as [H1 H2 H3 H4 H5 H6]. unfold Check_. destruct (phase c) eqn:Hp.
  - destruct (AllTaskDone c) eqn:Hall; cbn [andb]; [|by split; [|apply co_le_refl]].
    case_bool_decide as Hf; [|by split; [|apply co_le_refl]].
    case_bool_decide as Hq; [|by split; [|apply co_le_refl]].
    apply nil_length_inv in Hf, Hq. destruct (H2 eq_refl) as (Hfs & Hn & Hz). rewrite Hf, app_nil_r in Hfs.
    split; [|split; cbn; [done|congruence]]. split; cbn; try done.
    + intros _. split_and!; [done|done|unfold zlen; cbn; lia|]. intros i Hi. rewrite Hfs, length_fmap in Hi.
      destruct (lookup_lt_is_Some_2 _ _ Hi) as [task Ht]. destruct (H5 i task Ht) as [_ Hok]. rewrite Hp in Hok.
      apply Hok. by eapply AllTaskDone_spec.
    + intros p. rewrite Hq. by intros ?%not_elem_of_nil.
  - destruct (AllTaskDone c) eqn:Hall; cbn [andb]; [|by split; [|apply co_le_refl]].
    destruct (Z.eqb_spec (nCurrentAssignedReduceTask c) (nReduce c)) as [Hn|_]; [|by split; [|apply co_le_refl]].
    case_bool_decide as Hq; [|by split; [|apply co_le_refl]]. destruct (H3 ltac:(done)) as (Hf & Hc' & Hle & Hm).
    assert (Htask : forall i task, tasks c !! i = Some task -> TaskID task = Z.of_nat i /\ reduced fs (Z.of_nat i)).
    { intros i task Hi. destruct (H5 i task Hi) as [Hid Hok]. rewrite Hp in Hok. split; [done|].
      apply Hok. by eapply AllTaskDone_spec. }
    split; [|split; cbn; [done|by intros _]]. split; cbn; try done.
    + intros _ t Ht. assert (Z.to_nat t < length (tasks c))%nat as Hlt by (unfold zlen in *; lia).
      destruct (lookup_lt_is_Some_2 _ _ Hlt) as [task Htk]. destruct (Htask _ _ Htk) as [_ Hr]. by rewrite Z2Nat.id in Hr by lia.
    + intros i task Hi. destruct (Htask i task Hi). split; [done|]. by cbn.
  - by split; [|apply co_le_refl].
Qed.

(** A handler that changes neither the phase nor what the tasks stand for. *)
Lemma coord_ok_tasks c fs ts pend :
  coord_ok c fs ->
  length ts = length (tasks c) ->
  (forall i task', ts !! i = Some task' -> exists task, tasks c !! i = Some task /\ TaskID task' = TaskID task /\
     FileName task' = FileName task /\ (Status task' = Completed -> Status task = Completed \/ task_ok c fs i task')) ->
  (forall p, p ∈ pend -> exists i task, tasks c !! i = Some task /\ TaskID p = Z.of_nat i /\ FileName p = FileName task) ->
  coord_ok (set_pending pend (set_tasks ts c)) fs /\ co_le c (set_pending pend (set_tasks ts c)).
Proof.
  intros [H1 H2 H3 H4 H5 H6] Hlen Hts Hpend.
  assert (Hnames : FileName <$> ts = FileName <$> tasks c).
  { apply list_eq_same_length with (length ts); [by rewrite length_fmap|by rewrite length_fmap|].
    intros i f f' Hi (task' & -> & Ht')%list_lookup_fmap_Some (task & -> & Ht)%list_lookup_fmap_Some.
    destruct (Hts i task' Ht') as (task0 & Ht0 & _ & Hf & _). by simplify_eq. }
  split; [|by split; cbn; rewrite Hlen]. split; cbn; try done.
  - intros Hp. unfold zlen. rewrite Hnames, Hlen. by apply H2.
  - intros Hp. unfold zlen. rewrite Hlen. by apply H3.
  - intros i task' Ht'. destruct (Hts i task' Ht') as (task & Ht & Hid & Hf & Hst). destruct (H5 i task Ht) as [Hid' Hok].
    split; [congruence|]. cbn [phase set_pending set_tasks]. unfold task_ok in Hst.
    destruct (phase c); [destruct Hok as [? Hok]; split; [congruence|]|..]; intros Hc; destruct (Hst Hc) as [?|[_ Ho]];
      [auto|by apply Ho|auto|by apply Ho|auto|by apply Ho].
  - intros p Hin. destruct (Hpend p Hin) as (i & task & Ht & Hid & Hf).
    destruct (lookup_lt_is_Some_2 ts i) as [task' Ht']; [rewrite Hlen; by eapply lookup_lt_Some|].
    destruct (Hts i task' Ht') as (task0 & Ht0 & _ & Hf' & _). simplify_eq. exists i, task'. split_and!; [done..|congruence].
Qed.

Lemma HandleTimeOutTask_ok now c fs :
  coord_ok c fs -> coord_ok (HandleTimeOutTask now c) fs /\ co_le c (HandleTimeOutTask now c).
Proof.
  intros Hc. unfold HandleTimeOutTask. case_bool_decide; [by split; [|apply co_le_refl]|].
  destruct (firstOverdue now (tasks c)) as [p|] eqn:E; [|by split; [|apply co_le_refl]].
  apply firstOverdue_spec in E as (i & task & Hi & Hid & Hf).
  change (set_pending (rePendingTask c ++ [p]) c) with (set_pending (rePendingTask c ++ [p]) (set_tasks (tasks c) c)).
  apply coord_ok_tasks; [done|done| |].
  - intros j t Hj. exists t. auto.
  - intros q [Hq|Hq%list_elem_of_singleton]%elem_of_app; [by apply (co_pending _ _ Hc)|]. subst q.
    exists i, task. destruct (co_task _ _ Hc i task Hi) as [Hid' _]. split_and!; [done|congruence|done].
Qed.

Lemma task_index c fs i task : coord_ok c fs -> tasks c !! i = Some task ->
  go_index (tasks c) (Z.of_nat i) = Some task /\
  forall t', go_store (tasks c) (Z.of_nat i) t' = Some (<[i := t']> (tasks c)).
Proof.
  intros Hc Hi. pose proof (lookup_lt_Some _ _ _ Hi) as Hlt. split.
  - apply go_index_Some. unfold zlen. rewrite Nat2Z.id. split_and!; [lia|lia|done].
  - intros t'. rewrite go_store_in_range by (unfold zlen; lia). by rewrite Nat2Z.id.
Qed.

(** A waiting task is handed out again. *)
Lemma assignPending_ok now c fs p rest nR ty :
  coord_ok c fs -> rePendingTask c = p :: rest ->
  exists c', assignPending now c p rest nR ty =
      Some (c', mkAssignment (mkTask (FileName p) (TaskID p) now Doing) nR ty) /\
    coord_ok c' fs /\ co_le c c' /\ phase c' = phase c /\
    exists i task, tasks c' !! i = Some task /\ TaskID p = Z.of_nat i /\ FileName p = FileName task.
Proof.
  intros Hc Hpd. destruct (co_pending _ _ Hc p) as (i & task & Hi & Hid & Hf); [rewrite Hpd; by left|].
  destruct (task_index c fs i task Hc Hi) as [Hgi Hgs]. unfold assignPending. rewrite Hid, Hgi. cbn [mbind option_bind].
  rewrite Hgs. cbn [mbind option_bind]. set (task' := mkTask (FileName task) (TaskID task) now (Status task)).
  set (ts := <[i := task']> (tasks c)).
  destruct (coord_ok_tasks c fs ts rest Hc) as [Hc' Hle].
  - by apply length_insert.
  - intros j t Hj. apply list_lookup_insert_Some in Hj as [(-> & <- & _)|[_ Hj]]; [exists task; auto|exists t; auto].
  - intros q Hq. apply (co_pending _ _ Hc). rewrite Hpd. by right.
  - eexists. split_and!; [done|done|done..|]. exists i, task'. cbn.
    split_and!; [|done|done]. apply list_lookup_insert_eq. by eapply lookup_lt_Some.
Qed.

Lemma assign_new_map now c fs f rest :
  coord_ok c fs -> phase c = MapPhase -> File c = f :: rest ->
  let task := mkTask f (nCurrentAssignedMapTask c) now Doing in
  let c' := mkCoordinator rest (nReduce c) (nCurrentAssignedReduceTask c) (nCurrentAssignedMapTask c + 1)
              (phase c) (tasks c ++ [task]) (rePendingTask c) in
  coord_ok c' fs /\ co_le c c' /\ map_job c' (length (tasks c)) f (mkAssignment task (nReduce c) MapTask).
Proof.
  intros Hc Hp Hf task c'. subst task c'. pose proof Hc as [H1 H2 H3 H4 H5 H6]. destruct (H2 Hp) as (Hfs & Hn & Hz). rewrite Hf in Hfs.
  assert (Hfi : files !! length (tasks c) = Some f).
  { rewrite Hfs, lookup_app_r by (by rewrite length_fmap). by rewrite length_fmap, Nat.sub_diag. }
  split_and!.
  - split; cbn; try done.
    + intros _. rewrite fmap_app, <- app_assoc, zlen_app, Hn. split_and!; [done|done|done].
    + intros i t [Hi|[Hi Ht]]%lookup_app_Some.
      * destruct (H5 i t Hi) as [Hid Hok]. split; [done|]. cbn. rewrite Hp in Hok |- *. done.
      * destruct (i - length (tasks c))%nat as [|k] eqn:E; [|done]. cbn in Ht. injection Ht as <-.
        assert (i = length (tasks c)) as -> by lia. split; cbn; [unfold zlen in Hn; lia|]. by rewrite Hp.
    + intros p Hin. destruct (H6 p Hin) as (i & t & Hi & Hrest). exists i, t. split; [by apply lookup_app_l_Some|done].
  - split; cbn; rewrite length_app; intros ?; (split; [done|lia]).
  - unfold map_job. cbn. rewrite length_app. cbn. unfold zlen in Hn. split_and!; [done..|lia].
Qed.

Lemma assign_new_reduce now c fs :
  coord_ok c fs -> phase c = ReducePhase -> nCurrentAssignedReduceTask c <> nReduce c ->
  let task := mkTask "" (nCurrentAssignedReduceTask c) now Doing in
  let c' := mkCoordinator (File c) (nReduce c) (nCurrentAssignedReduceTask c + 1) (nCurrentAssignedMapTask c)
              (phase c) (tasks c ++ [task]) (rePendingTask c) in
  coord_ok c' fs /\ co_le c c' /\ reduce_job c' (mkAssignment task 0 ReduceTask).
Proof.
  intros Hc Hp Hn task c'. subst task c'. pose proof Hc as [H1 H2 H3 H4 H5 H6].
  destruct (H3 ltac:(congruence)) as (Hf & Hcur & Hle & Hm). assert (zlen (tasks c) < nRed) as Hlt by lia.
  split_and!.
  - rewrite Hp. split; cbn; try done.
    + intros _. rewrite zlen_app, Hcur. unfold zlen in *. cbn. split_and!; [done|lia|lia|done].
    + intros i t [Hi|[Hi Ht]]%lookup_app_Some.
      * destruct (H5 i t Hi) as [Hid Hok]. split; [done|]. cbn. by rewrite Hp in Hok.
      * destruct (i - length (tasks c))%nat as [|k] eqn:E; [|done]. cbn in Ht. injection Ht as <-.
        assert (i = length (tasks c)) as -> by lia. split; cbn; [unfold zlen in Hcur; lia|done].
    + intros p Hin. destruct (H6 p Hin) as (i & t & Hi & Hrest). exists i, t. split; [by apply lookup_app_l_Some|done].
  - split; cbn; rewrite ?length_app, Hp; [done|]. intros _; split; [done|lia].
  - unfold reduce_job. cbn. rewrite zlen_app, Hp. unfold zlen in *. cbn. split_and!; [done|lia|lia|done|lia].
Qed.

Lemma AssignedTask_ok now c fs :
  coord_ok c fs -> exists c' r, AssignedTask now c = Some (c', r) /\ coord_ok c' fs /\ co_le c c' /\ worker_ok c' fs (accept r).
Proof.
  intros Hc. destruct (HandleTimeOutTask_ok now c fs Hc) as [Ht1 Ht2].
  unfold AssignedTask. destruct (phase c) eqn:Hp; [| |by exists c, (mkAssignment noTask 0 Finished)].
  - destruct (File c) as [|f rest] eqn:Hf; [destruct (rePendingTask c) as [|p rest] eqn:Hpd|].
    + by eexists _, _.
    + destruct (assignPending_ok now c fs p rest (nReduce c) MapTask Hc Hpd) as (c' & -> & Hc' & Hle & Hp' & i & task & Hi & Hid & Hfn).
      eexists _, _. split_and!; [done|done..|]. exists i, (FileName task). rewrite Hp in Hp'.
      destruct (co_task _ _ Hc' i task Hi) as [_ Hok]. rewrite Hp' in Hok. destruct Hok as [Hfi _].
      unfold map_job. cbn. split_and!; [done..|by apply Hc|]. intros _. by eapply lookup_lt_Some.
    + destruct (assign_new_map now c fs f rest Hc Hp Hf) as (Hc' & Hle & Hj). rewrite Hp in Hc', Hle, Hj.
      eexists _, _. split_and!; [done|done..|]. by exists (length (tasks c)), f.
  - destruct (Z.eqb_spec (nCurrentAssignedReduceTask c) (nReduce c)) as [Hn|Hn]; cbn [negb].
    + destruct (rePendingTask c) as [|p rest] eqn:Hpd; [by eexists _, _|].
      destruct (assignPending_ok now c fs p rest 0 ReduceTask Hc Hpd) as (c' & -> & Hc' & Hle & Hp' & i & task & Hi & Hid & Hfn).
      eexists _, _. split_and!; [done|done..|]. rewrite Hp in Hp'. unfold worker_ok, accept, reduce_job. cbn.
      apply lookup_lt_Some in Hi. destruct (co_reduce _ _ Hc' ltac:(congruence)) as (_ & _ & Hz & _). unfold zlen in *.
      split_and!; [done|lia|lia|congruence|lia].
    + destruct (assign_new_reduce now c fs Hc Hp Hn) as (Hc' & Hle & Hj). rewrite Hp in Hc', Hle, Hj.
      by eexists _, _.
Qed.

(** A report of a task of the current phase. *)
Lemma MarkTaskDone_ok c fs i task :
  coord_ok c fs -> tasks c !! i = Some task ->
  match phase c with MapPhase => mapped fs i | _ => reduced fs (Z.of_nat i) end ->
  exists c', MarkTaskDone (Z.of_nat i) c = Some c' /\ coord_ok c' fs /\ co_le c c'.
Proof.
  intros Hc Hi Hdone. destruct (task_index c fs i task Hc Hi) as [Hgi Hgs]. unfold MarkTaskDone. rewrite Hgi.
  cbn [mbind option_bind]. rewrite Hgs. cbn [mbind option_bind]. eexists. split; [done|].
  set (ts := <[i := _]> (tasks c)).
  change (set_tasks ts c) with (set_pending (rePendingTask c) (set_tasks ts c)).
  apply coord_ok_tasks; [done|by apply length_insert| |apply Hc].
  intros j t Hj. apply list_lookup_insert_Some in Hj as [(-> & <- & _)|[_ Hj]]; [|exists t; auto].
  exists task. split_and!; [done..|]. intros _. right. destruct (co_task _ _ Hc j task Hi) as [Hid Hok]. split; [done|]. cbn.
  destruct (phase c); [by destruct Hok|done..].
Qed.

(** ** The workers' computations *)

Lemma reduce_ready fs t :
  dir_ok fs -> (forall i, (i < length files)%nat -> mapped fs i) -> 0 <= t < nRed ->
  reduceTemp reducef t fs = Some (redOf t).
Proof.
  intros Hdir Hm Ht. unfold redOf, kvas.
  apply (reduceTemp_spec reducef Hperm t nRed fs ((fun i => mapName (Z.of_nat i) t) <$> seq 0 (length files))).
  - apply NoDup_Permutation.
    + apply NoDup_filter. unfold ReadDir. rewrite sortStrings_perm. apply NoDup_fst_map_to_list.
    + apply NoDup_fmap_2_strong; [|apply NoDup_seq]. intros i i' _ _ E. apply mapName_inj in E as [E _]; lia.
    + intros name. rewrite list_elem_of_filter, list_elem_of_fmap. unfold ReadDir. rewrite sortStrings_perm, list_elem_of_fmap. split.
      * intros [Hma ([n v] & -> & Hin%elem_of_map_to_list)]. cbn in Hma |- *.
        destruct (dir_parts _ Hdir n t ltac:(by eexists) ltac:(lia) Hma) as (i & f & Hf & -> & _).
        exists i. split; [done|]. apply lookup_lt_Some in Hf. apply elem_of_seq. lia.
      * intros (i & -> & Hi%elem_of_seq). split; [apply mapName_match; lia|].
        destruct (lookup_lt_is_Some_2 files i) as [f Hf]; [lia|].
        destruct (Hm i ltac:(lia) f t Hf Ht) as [_ Hl]. eexists (_, _). split; [done|]. by apply elem_of_map_to_list.
  - apply Forall2_same_length_lookup_2; [by rewrite !length_fmap, length_seq|].
    intros i name kva (k & -> & [-> Hk]%lookup_seq)%list_lookup_fmap_Some (f & -> & Hf)%list_lookup_fmap_Some.
    by destruct (Hm i Hk f t Hf Ht).
Qed.

Lemma input_unchanged fs f : dir_ok fs -> f ∈ files -> ReadFile marshal fs f = ReadFile marshal fs0 f.
Proof. intros Hdir Hf. unfold ReadFile. destruct (Hinput f Hf) as [_ Hpl]. by rewrite (dir_plain _ Hdir f Hpl). Qed.

Lemma map_ready c fs i f r :
  dir_ok fs -> map_job c i f r ->
  exists content temps, ReadFile marshal fs (FileName (Tas r)) = Some content /\ mapTemps mapf r content = Some temps /\
    zlen temps = nRed /\ forall k temp, temps !! k = Some temp -> temp = partOf f (Z.of_nat k).
Proof.
  intros Hdir (_ & Hf & Hfn & _ & Hn & _). pose proof (list_elem_of_lookup_2 _ _ _ Hf) as Hin.
  destruct (Hinput f Hin) as [[v Hv] _]. rewrite Hfn, (input_unchanged fs f Hdir Hin).
  destruct (ReadFile marshal fs0 f) as [content|] eqn:Hc; [|unfold ReadFile in Hc; by rewrite Hv in Hc].
  destruct (mapTemps_spec mapf r content) as (temps & Ht & Hlen & Hk); [lia|specialize (Hutf f Hin); unfold kvaOf in Hutf; by rewrite Hc, <- Hfn in Hutf|]. rewrite Hn in Hlen, Hk.
  exists content, temps. split_and!; [done..|]. intros k temp Htemp.
  pose proof (lookup_lt_Some _ _ _ Htemp) as Hlt. unfold zlen in Hlen. specialize (Hk (Z.of_nat k) ltac:(lia)).
  rewrite Nat2Z.id, Htemp in Hk. injection Hk as ->. unfold partOf, kvaOf. by rewrite Hc, Hfn.
Qed.

(** ** Every step *)

(** The event is not one of those excluded: a failure to create temporary files in a map task,
    and a report of a map task when the map phase is over. *)
Definition punctual (ev : Event) (s : System) : bool :=
  match ev with
  | EvTempFails w => match sy_workers s !! w with Some (Mapping _) => false | _ => true end
  | EvReport w =>
      match sy_workers s !! w, sy_coord s with
      | Some (Reporting r), Some c =>
          match Tasktype r with MapTask => bool_decide (phase c = MapPhase) | _ => true end
      | _, _ => true
      end
  | _ => true
  end.

Lemma Inv_update s c s' c' w st :
  Inv s c -> sy_coord s' = Some c' -> sy_workers s' = <[w := st]> (sy_workers s) ->
  dir_ok (sy_fs s') -> fs_le (sy_fs s) (sy_fs s') -> coord_ok c' (sy_fs s') -> co_le c c' ->
  worker_ok c' (sy_fs s') st -> Inv s' c'.
Proof.
  intros HI Hc Hw Hd Hle Hco Hcle Hst. split; [done..|]. intros w' st'. rewrite Hw.
  intros [(-> & <- & _)|[_ Hw']]%list_lookup_insert_Some; [done|].
  eapply worker_ok_le; [done|]. eapply worker_ok_co; [done|]. by eapply inv_worker.
Qed.

Lemma fs_le_refl fs : fs_le fs fs.
Proof. by intros name v. Qed.

(** Only the worker changes. *)
Lemma Inv_worker s c w st : Inv s c -> worker_ok c (sy_fs s) st -> Inv (set_worker w st s) c.
Proof.
  intros HI Hst. eapply (Inv_update s c _ c w st HI); cbn;
    solve [done | apply HI | apply fs_le_refl | apply co_le_refl].
Qed.

(** The worker and the coordinator change. *)
Lemma Inv_call s c w st c' :
  Inv s c -> coord_ok c' (sy_fs s) -> co_le c c' -> worker_ok c' (sy_fs s) st ->
  Inv (set_worker w st (set_coord (Some c') s)) c'.
Proof.
  intros HI Hco Hle Hst. eapply (Inv_update s c _ c' w st HI); cbn;
    solve [done | apply HI | apply fs_le_refl].
Qed.

(** A file gets its name. *)
Lemma Inv_rename s c w st name v :
  Inv s c -> good name v -> worker_ok c (<[name := v]> (sy_fs s)) st ->
  Inv (set_worker w st (set_fs (<[name := v]> (sy_fs s)) s)) c.
Proof.
  intros HI Hg Hst. eapply (Inv_update s c _ c w st HI); cbn;
    try solve [done | apply HI | by apply fs_le_insert | apply co_le_refl].
  - apply dir_insert; [apply HI|done].
  - eapply coord_ok_le; [by apply fs_le_insert|apply HI].
Qed.

Lemma renaming_ok c fs r i f j temps :
  map_job c i f r -> 0 <= j -> j + zlen temps = nRed ->
  (forall k temp, temps !! k = Some temp -> temp = partOf f (j + Z.of_nat k)) ->
  (forall j', 0 <= j' < j -> stored fs (mapName (Z.of_nat i) j') (partOf f j')) ->
  worker_ok c fs (renaming r j temps).
Proof.
  intros Hj H0 Hn Ht Hs. destruct temps as [|temp temps]; cbn; [|by exists i, f].
  left. exists i, f. split; [done|]. intros f' j' Hf' Hj'. destruct Hj as (_ & Hf & _). simplify_eq. apply Hs.
  unfold zlen in Hn. cbn in Hn. lia.
Qed.

Lemma step_Inv_compute s c w s' : Inv s c -> happen mapf reducef marshal (EvCompute w) s = Some s' -> Inv s' c.
Proof.
  intros HI Hs. cbn in Hs. destruct (sy_workers s !! w) as [st|] eqn:Hw; [|done]. cbn in Hs.
  pose proof (inv_worker _ _ HI w st Hw) as Hok. destruct st as [| |r|r j temps|r|r temp|r|]; try done.
  - destruct Hok as (i & f & Hj). destruct (map_ready c (sy_fs s) i f r (inv_dir _ _ HI) Hj) as (content & temps & Hr & Hm & Hz & Ht).
    rewrite Hr, Hm in Hs. injection Hs as <-. apply Inv_worker; [done|]. eapply renaming_ok; [done|lia|lia| |lia].
    intros k temp Hk. by apply Ht.
  - destruct Hok as (Hty & Hid & Hp & Hlt). destruct (co_reduce _ _ (inv_co _ _ HI) Hp) as (_ & _ & _ & Hm).
    rewrite (reduce_ready (sy_fs s) _ (inv_dir _ _ HI) Hm Hid) in Hs. cbn in Hs. injection Hs as <-.
    apply Inv_worker; [done|]. by split.
Qed.

Lemma step_Inv_rename s c w s' : Inv s c -> happen mapf reducef marshal (EvRename w) s = Some s' -> Inv s' c.
Proof.
  intros HI Hs. cbn in Hs. destruct (sy_workers s !! w) as [st|] eqn:Hw; [|done]. cbn in Hs.
  pose proof (inv_worker _ _ HI w st Hw) as Hok. destruct st as [| |r|r j temps|r|r temp|r|]; try done.
  - destruct temps as [|temp temps]; [done|]. injection Hs as <-.
    destruct Hok as (i & f & Hj & H0 & Hn & Ht & Hst). pose proof Hj as (_ & Hf & _ & Hid & _).
    unfold zlen in Hn. cbn [length] in Hn.
    assert (temp = partOf f j) as -> by (rewrite (Ht 0%nat temp) by done; f_equal; lia).
    assert (good (mapName (TaskID (Tas r)) j) (partOf f j)) as Hg by (rewrite Hid; constructor; [done|lia]).
    apply Inv_rename; [done|done|]. eapply renaming_ok; [done|lia|unfold zlen; lia| |].
    + intros k temp Hk. rewrite (Ht (S k) temp) by done. f_equal. lia.
    + intros j' Hj'. destruct (decide (j' = j)) as [->|Hne]; [|apply fs_le_insert; [done|apply Hst; lia]].
      rewrite Hid in Hg |- *. split; [done|]. by rewrite lookup_insert_eq.
  - injection Hs as <-. destruct Hok as [Hj ->]. pose proof Hj as (_ & Hid & _).
    assert (good (outName (TaskID (Tas r))) (redOf (TaskID (Tas r)))) as Hg by by constructor.
    apply Inv_rename; [done|done|]. right. split; [done|]. split; [done|]. by rewrite lookup_insert_eq.
Qed.

Lemma step_Inv_report s c w s' :
  Inv s c -> punctual (EvReport w) s = true -> happen mapf reducef marshal (EvReport w) s = Some s' -> exists c', Inv s' c'.
Proof.
  intros HI Hpu Hs. cbn in Hs, Hpu. destruct (sy_workers s !! w) as [st|] eqn:Hw; [|done]. cbn in Hs.
  pose proof (inv_worker _ _ HI w st Hw) as Hok. destruct st as [| |r|r j temps|r|r temp|r|]; try done.
  rewrite (inv_coord _ _ HI) in Hs, Hpu. pose proof (inv_co _ _ HI) as Hco.
  assert (exists i task, tasks c !! i = Some task /\ TaskID (Tas r) = Z.of_nat i /\
    match phase c with MapPhase => mapped (sy_fs s) i | _ => reduced (sy_fs s) (Z.of_nat i) end) as (i & task & Hi & Hid & Hdone).
  { destruct Hok as [(i & f & (Hty & Hf & _ & Hid & _ & Hlt) & Hm)|[(Hty & Hid & Hp & Hlt) Hr]].
    - rewrite Hty in Hpu. apply bool_decide_eq_true in Hpu. specialize (Hlt Hpu).
      destruct (lookup_lt_is_Some_2 _ _ Hlt) as [task Ht]. exists i, task. by rewrite Hpu.
    - unfold zlen in Hlt. destruct (lookup_lt_is_Some_2 (tasks c) (Z.to_nat (TaskID (Tas r)))) as [task Ht]; [lia|].
      exists (Z.to_nat (TaskID (Tas r))), task. rewrite Z2Nat.id by lia. split_and!; [done..|]. by destruct (phase c). }
  destruct (MarkTaskDone_ok c (sy_fs s) i task Hco Hi Hdone) as (c' & Hm & Hc' & Hle). rewrite Hid, Hm in Hs.
  injection Hs as <-. exists c'. by eapply Inv_call.
Qed.

Lemma job_step_Inv s c ev s' :
  Inv s c -> punctual ev s = true -> happen mapf reducef marshal ev s = Some s' -> exists c', Inv s' c'.
Proof.
  intros HI Hpu Hs. destruct ev as [w|w now|w|w|w|w|w].
  - cbn in Hs. destruct (sy_workers s !! w) as [[]|]; try done. cbn in Hs. rewrite (inv_coord _ _ HI) in Hs.
    injection Hs as <-. destruct (Check_ok c (sy_fs s) (inv_co _ _ HI)) as [Hc Hle]. exists (Check_ c). by eapply Inv_call.
  - cbn in Hs. destruct (sy_workers s !! w) as [[]|]; try done. cbn in Hs. rewrite (inv_coord _ _ HI) in Hs.
    destruct (AssignedTask_ok now c (sy_fs s) (inv_co _ _ HI)) as (c' & r & Ha & Hc & Hle & Hw). rewrite Ha in Hs.
    injection Hs as <-. exists c'. by eapply Inv_call.
  - eauto using step_Inv_compute.
  - cbn in Hs, Hpu. destruct (sy_workers s !! w) as [[]|]; try done. cbn in Hs. injection Hs as <-.
    exists c. by apply Inv_worker.
  - eauto using step_Inv_rename.
  - eauto using step_Inv_report.
  - cbn in Hs. destruct (sy_workers s !! w) as [st|]; [|done]. injection Hs as <-. exists c. by apply Inv_worker.
Qed.

Lemma Inv_boot n : Inv (boot files nRed fs0 n) (MakeCoordinator files nRed).
Proof.
  split; cbn; try done.
  - split; [done|]. intros name t Hs Ht Hm. rewrite Hfresh in Hm; done.
  - split; cbn; try done. by intros p ?%not_elem_of_nil.
  - intros w st [-> _]%lookup_replicate. done.
Qed.
End Invariant.
