(* ===== verification/MrApps.v ===== *)
(** * MrApps: the applications that run on MapReduce
      (src/6.5840-golabs-2024/src/mrapps: wc.go, indexer.go, crash.go, nocrash.go, early_exit.go,
      jobcount.go)

    The map and reduce functions of the plugins.  [isLetter] stands for the table
    [unicode.IsLetter].  Random numbers, the order in
    which a Go map is traversed and process ids are arguments. *)

From S2P Require Import Prelude Text Decimal MapReduce MapReduceFacts.
Local Open Scope Z_scope.

(** ** wc.go *)
Module Wc.
Section Wc.
Context (isLetter : Z -> bool).
Definition words (contents : string) : list string := FieldsFunc (fun r => negb (isLetter r)) contents.
Definition Map (filename contents : string) : list KeyValue := (fun w => mkKeyValue w "1") <$> words contents.
End Wc.
Definition Reduce (key : string) (values : list string) : string := Itoa (zlen values).
End Wc.

(** ** indexer.go *)
Module Indexer.
Section Indexer.
Context (isLetter : Z -> bool) (order : list string -> list string).
Definition Map (document value : string) : list KeyValue :=
  let m : gset string := list_to_set (FieldsFunc (fun x => negb (isLetter x)) value) in
  (fun w => mkKeyValue w document) <$> order (elements m).
End Indexer.
Definition Reduce (key : string) (values : list string) : string :=
  let values := sortStrings values in
  (Itoa (zlen values) +:+ " " +:+ Join values ",")%string.
End Indexer.

(** ** crash.go and nocrash.go *)
Module Crash.
(** [None]: the process exits; otherwise it sleeps that many milliseconds. *)
Definition maybeCrash (rr ms : Z) : option Z :=
  if rr <? 330 then None else if rr <? 660 then Some ms else Some 0.
Definition Map (rr ms : Z) (filename contents : string) : option (list KeyValue) :=
  _ ← maybeCrash rr ms;
  Some [mkKeyValue "a" filename; mkKeyValue "b" (Itoa (Z.of_nat (String.length filename)));
        mkKeyValue "c" (Itoa (Z.of_nat (String.length contents))); mkKeyValue "d" "xyzzy"].
Definition Reduce (rr ms : Z) (key : string) (values : list string) : option string :=
  _ ← maybeCrash rr ms;
  Some (Join (sortStrings values) " ").
End Crash.

Module NoCrash.
Definition Map (filename contents : string) : list KeyValue :=
  [mkKeyValue "a" filename; mkKeyValue "b" (Itoa (Z.of_nat (String.length filename)));
   mkKeyValue "c" (Itoa (Z.of_nat (String.length contents))); mkKeyValue "d" "xyzzy"].
Definition Reduce (key : string) (values : list string) : string := Join (sortStrings values) " ".
End NoCrash.

(** ** early_exit.go *)
Module EarlyExit.
Definition Map (filename contents : string) : list KeyValue := [mkKeyValue filename "1"].
Definition Reduce (key : string) (values : list string) : string := Itoa (zlen values).
End EarlyExit.

(** ** jobcount.go: every call of [Map] leaves a file, [Reduce] counts them *)
Module JobCount.
Definition Map (me count : Z) (fs : FileSystem) : FileSystem * Z * list KeyValue :=
  (<[("mr-worker-jobcount-" +:+ Itoa me +:+ "-" +:+ Itoa count)%string := [Bytes "x"]]> fs, count + 1, [mkKeyValue "a" "x"]).
Definition Reduce (fs : FileSystem) : string :=
  Itoa (zlen (filter (fun name => String.prefix "mr-worker-jobcount" name = true) (ReadDir fs))).
End JobCount.

(** ** The pairs are UTF-8 *)

(** U+FFFD is not a letter, so the words of any text are valid. *)
Lemma wc_valid isLetter f contents kv : isLetter 0xFFFD = false -> kv ∈ Wc.Map isLetter f contents -> valid_pair kv.
Proof.
  intros Hl (w & -> & Hw)%list_elem_of_fmap. split; [|done]. apply (FieldsFunc_valid (fun r => negb (isLetter r)) contents); [by rewrite Hl|done].
Qed.

Lemma indexer_valid isLetter order f contents kv :
  isLetter 0xFFFD = false -> (forall l, order l ≡ₚ l) -> ValidString f = true -> kv ∈ Indexer.Map isLetter order f contents -> valid_pair kv.
Proof.
  intros Hl Ho Hf (w & -> & Hw)%list_elem_of_fmap. split; [|done]. rewrite Ho in Hw. apply elem_of_elements, elem_of_list_to_set in Hw.
  apply (FieldsFunc_valid (fun r => negb (isLetter r)) contents); [by rewrite Hl|done].
Qed.

(** ** The order of the values does not matter *)

(** The reduce functions of the word count, the indexer, the crash tests and early_exit do not
    depend on the order of the values, which MapReduce does not fix. *)
Theorem apps_order_free key vs vs' :
  vs ≡ₚ vs' ->
  Wc.Reduce key vs = Wc.Reduce key vs' /\ Indexer.Reduce key vs = Indexer.Reduce key vs' /\
  NoCrash.Reduce key vs = NoCrash.Reduce key vs' /\ EarlyExit.Reduce key vs = EarlyExit.Reduce key vs' /\
  forall rr ms, Crash.Reduce rr ms key vs = Crash.Reduce rr ms key vs'.
Proof.
  intros Hp. unfold Wc.Reduce, Indexer.Reduce, NoCrash.Reduce, EarlyExit.Reduce, Crash.Reduce, zlen.
  by rewrite (Permutation_length Hp), (sortStrings_eq _ _ Hp).
Qed.

Lemma apps_order_free_witness :
  Indexer.Reduce "k" ["b"; "a"]%string = Indexer.Reduce "k" ["a"; "b"]%string.
Proof. apply (apps_order_free "k" ["b"; "a"]%string ["a"; "b"]%string). apply Permutation_swap. Defined.
