(* ===== verification/MrTiming.v ===== *)
(** * MrTiming: the applications that measure parallel workers
      (src/6.5840-golabs-2024/src/mrapps: mtiming.go, rtiming.go)

    [nparallel] leaves a file with the number of its process in the shared directory, counts
    the files of processes that are alive, sleeps, and removes its file.  Workers run it at the same
    time, can be killed in it, and other files come and go. *)

From S2P Require Import Prelude Text Decimal MapReduce.
Local Open Scope Z_scope.

(** ** nparallel *)

Section Nparallel.
Context (phase : string).

Definition workerPrefix : string := ("mr-worker-" +:+ phase +:+ "-")%string.
Definition myfilename (pid : Z) : string := (workerPrefix +:+ Itoa pid)%string.

(** [fmt.Sscanf] with a pattern of literal characters and a final [%d]: the literals, spaces, a sign and
    digits; what follows is not looked at.  A number that does not fit is an error. *)
Fixpoint stripPrefix (p s : list Ascii.ascii) : option (list Ascii.ascii) :=
  match p, s with
  | [], _ => Some s
  | a :: p, b :: s => if decide (a = b) then stripPrefix p s else None
  | _ :: _, [] => None
  end.
Definition isSpace (a : Ascii.ascii) : bool :=
  let n := Z.of_N (Ascii.N_of_ascii a) in (n =? 32) || (n =? 9) || ((11 <=? n) && (n <=? 13)).
Fixpoint skipSpace (s : list Ascii.ascii) : list Ascii.ascii :=
  match s with a :: rest => if isSpace a then skipSpace rest else s | [] => [] end.
Definition sign (s : list Ascii.ascii) : bool * list Ascii.ascii :=
  match s with
  | a :: rest => if decide (a = Ascii.ascii_of_nat 45) then (true, rest) else if decide (a = Ascii.ascii_of_nat 43) then (false, rest) else (false, s)
  | [] => (false, [])
  end.
Definition scanInt (s : list Ascii.ascii) : option Z :=
  let '(neg, s) := sign (skipSpace s) in
  match (spanDigits s).1 with
  | [] => None
  | d => let v := if neg then - decimal 0 d else decimal 0 d in
         if (- 2 ^ 63 <=? v) && (v <? 2 ^ 63) then Some v else None
  end.
Definition Sscanf (name : string) : option Z := s ← stripPrefix (chars workerPrefix) (chars name); scanInt s.

(** [syscall.Kill(xpid, 0)]: a process that is alive; [group] answers for process groups. *)
Definition kill (group : Z -> bool) (alive : gset Z) (xpid : Z) : bool :=
  if 0 <? xpid then bool_decide (xpid ∈ alive) else group xpid.

(** The file is written, the names are scanned, and the file is removed; [None] is a panic. *)
Definition writeMine (pid : Z) (fs : FileSystem) : FileSystem := <[myfilename pid := [Bytes "x"]]> fs.
Fixpoint countAlive (group : Z -> bool) (alive : gset Z) (names : list string) (ret : Z) : Z :=
  match names with
  | [] => ret
  | name :: names =>
      let ret := match Sscanf name with Some xpid => if kill group alive xpid then ret + 1 else ret | None => ret end in
      countAlive group alive names ret
  end.
Definition removeMine (pid : Z) (fs : FileSystem) : option FileSystem :=
  match fs !! myfilename pid with Some _ => Some (delete (myfilename pid) fs) | None => None end.
End Nparallel.

(** ** The applications *)

Module Mtiming.
(** [ts] is the time with one decimal, [n] what [nparallel] returns. *)
Definition Map (pid : Z) (ts : string) (n : Z) : list KeyValue :=
  [mkKeyValue ("times-" +:+ Itoa pid)%string ts; mkKeyValue ("parallel-" +:+ Itoa pid)%string (Itoa n)].
Definition Reduce (key : string) (values : list string) : string := Join (sortStrings values) " ".
End Mtiming.

Module Rtiming.
Definition Map (filename contents : string) : list KeyValue :=
  (fun k => mkKeyValue k "1") <$> ["a"; "b"; "c"; "d"; "e"; "f"; "g"; "h"; "i"; "j"]%string.
Definition Reduce (n : Z) (key : string) (values : list string) : string := Itoa n.
(** The copy of [nparallel], in the reduce phase. *)
Definition nparallelWrite : Z -> FileSystem -> FileSystem := writeMine "reduce".
Definition nparallelCount (group : Z -> bool) (alive : gset Z) (names : list string) : Z := countAlive "reduce" group alive names 0.
Definition nparallelRemove : Z -> FileSystem -> option FileSystem := removeMine "reduce".
End Rtiming.

(** ** Workers that run nparallel at the same time *)

(** Where a worker is: not in [nparallel], before the scan, or after it with the count. *)
Inductive Worker := Outside | Written | Counted (n : Z).

Record Machine := mkMachine { files : FileSystem; alive : gset Z; used : gset Z; workers : gmap Z Worker }.

Section Machine.
Context (phase : string) (group : Z -> bool).

(** Process numbers are positive and not used twice. *)
Inductive step : Machine -> Machine -> Prop :=
| Starts m pid : 0 < pid < 2 ^ 63 -> pid ∉ used m ->
    step m (mkMachine (files m) (alive m ∪ {[pid]}) (used m ∪ {[pid]}) (<[pid := Outside]> (workers m)))
| Writes m pid : pid ∈ alive m -> workers m !! pid = Some Outside ->
    step m (mkMachine (writeMine phase pid (files m)) (alive m) (used m) (<[pid := Written]> (workers m)))
| Scans m pid names : pid ∈ alive m -> workers m !! pid = Some Written -> (names ≡ₚ (map_to_list (files m)).*1) ->
    step m (mkMachine (files m) (alive m) (used m) (<[pid := Counted (countAlive phase group (alive m) names 0)]> (workers m)))
| Removes m pid n fs : pid ∈ alive m -> workers m !! pid = Some (Counted n) -> removeMine phase pid (files m) = Some fs ->
    step m (mkMachine fs (alive m) (used m) (<[pid := Outside]> (workers m)))
| Dies m pid : step m (mkMachine (files m) (alive m ∖ {[pid]}) (used m) (workers m))
| Creates m name c : Sscanf phase name = None -> step m (mkMachine (<[name := c]> (files m)) (alive m) (used m) (workers m))
| Deletes m name : Sscanf phase name = None -> step m (mkMachine (delete name (files m)) (alive m) (used m) (workers m)).

(** A directory without files of workers. *)
Definition initial (m : Machine) : Prop :=
  (forall name, is_Some (files m !! name) -> Sscanf phase name = None) /\ alive m = ∅ /\ used m = ∅ /\ workers m = ∅.
Definition reachable (m : Machine) : Prop := exists m0, initial m0 /\ rtc step m0 m.

(** The workers that are alive and in [nparallel]. *)
Definition inside (w : Worker) : bool := match w with Outside => false | _ => true end.
Definition working (m : Machine) : list Z :=
  filter (fun pid => from_option inside false (workers m !! pid) = true) (elements (alive m)).
End Machine.

(** ** Names *)

Section Names.
Context (phase : string).

Lemma stripPrefix_app p s : stripPrefix p (p ++ s) = Some s.
Proof using Type. induction p as [|a p IH]; [done|]. cbn. by rewrite decide_True. Qed.

(** A file of a worker is recognized, with its number. *)
Lemma Sscanf_myfilename pid : 0 < pid < 2 ^ 63 -> Sscanf phase (myfilename phase pid) = Some pid.
Proof using Type.
  intros Hpid. unfold Sscanf, myfilename. rewrite chars_app, stripPrefix_app. cbn [mbind option_bind]. unfold scanInt.
  pose proof (Itoa_digits pid ltac:(lia)) as HF. pose proof (Itoa_nonempty pid) as Hne. pose proof (decimal_Itoa pid ltac:(lia)) as Hv.
  destruct (chars (Itoa pid)) as [|a s]; [done|]. pose proof HF as HF'. apply Forall_cons in HF' as [Ha _].
  assert (isSpace a = false /\ a <> Ascii.ascii_of_nat 45 /\ a <> Ascii.ascii_of_nat 43) as (Hs & H45 & H43).
  { split_and!; [unfold isDigit in Ha; unfold isSpace; lia|intros ->; done..]. }
  cbn [skipSpace]. rewrite Hs. cbn [sign]. rewrite !decide_False by done. rewrite (spanDigits_all _ HF). cbn [fst]. rewrite Hv.
  destruct (Z.leb_spec (- 2 ^ 63) pid), (Z.ltb_spec pid (2 ^ 63)); [done|lia..].
Qed.

Lemma myfilename_inj pid pid' : 0 < pid < 2 ^ 63 -> 0 < pid' < 2 ^ 63 -> myfilename phase pid = myfilename phase pid' -> pid = pid'.
Proof using Type. intros H H' E. apply Sscanf_myfilename in H, H'. rewrite E in H. congruence. Qed.
End Names.

(** ** What the directory shows *)

Section Invariant.
Context (phase : string) (group : Z -> bool).

Record ok (m : Machine) : Prop := {
  ok_used pid : pid ∈ used m -> 0 < pid < 2 ^ 63;
  ok_alive : alive m ⊆ used m;
  ok_workers pid w : workers m !! pid = Some w -> pid ∈ used m;
  ok_known pid : pid ∈ used m -> is_Some (workers m !! pid);
  ok_file name x : is_Some (files m !! name) -> Sscanf phase name = Some x ->
    name = myfilename phase x /\ exists w, workers m !! x = Some w /\ inside w = true;
  ok_inside pid w : workers m !! pid = Some w -> inside w = true -> is_Some (files m !! myfilename phase pid)
}.

Lemma ok_initial m : initial phase m -> ok m.
Proof using Type.
  clear group. intros (Hf & Ha & Hu & Hw). split; rewrite ?Ha, ?Hu, ?Hw; set_solver.
Qed.

(** The worker [pid] moves, its file stays or is written. *)
Lemma ok_worker m pid w w' fs : ok m -> workers m !! pid = Some w ->
  (inside w' = true -> fs = writeMine phase pid (files m) \/ (inside w = true /\ fs = files m)) ->
  (inside w' = false -> fs = delete (myfilename phase pid) (files m)) ->
  ok (mkMachine fs (alive m) (used m) (<[pid := w']> (workers m))).
Proof using Type.
  intros [H1 H2 H3 H4 H5 H6] Hw Hin Hout. pose proof (H1 pid (H3 _ _ Hw)) as Hpid. split; cbn; [done|done| | | |].
  - intros p x. rewrite lookup_insert_Some. intros [[<- _]|[_ ?]]; [by eapply H3|by eapply H3].
  - intros p Hp. destruct (decide (p = pid)) as [->|Hn]; [rewrite lookup_insert_eq; by eexists|rewrite lookup_insert_ne by done; by apply H4].
  - intros name x Hf Hs. destruct (decide (x = pid)) as [->|Hn].
    + rewrite lookup_insert_eq. destruct (inside w') eqn:E.
      * split; [|by exists w']. destruct (Hin eq_refl) as [->|[Hi ->]]; [|by apply H5].
        unfold writeMine in Hf. destruct (decide (name = myfilename phase pid)) as [|Hne]; [done|]. rewrite lookup_insert_ne in Hf by done. by apply H5.
      * exfalso. rewrite (Hout eq_refl) in Hf. destruct (decide (name = myfilename phase pid)) as [->|Hne]; [rewrite lookup_delete_eq in Hf; by destruct Hf|].
        rewrite lookup_delete_ne in Hf by done. by apply (H5 name pid) in Hf as [? _].
    + rewrite lookup_insert_ne by done. apply (H5 name x); [|done]. assert (name <> myfilename phase pid) as Hne by (intros ->; rewrite (Sscanf_myfilename phase pid Hpid) in Hs; congruence).
      destruct (inside w') eqn:E; [destruct (Hin eq_refl) as [->|[_ ->]]; [unfold writeMine in Hf; by rewrite lookup_insert_ne in Hf|done]|].
      rewrite (Hout eq_refl) in Hf. by rewrite lookup_delete_ne in Hf.
  - intros p x. rewrite lookup_insert_Some. intros [[<- <-]|[Hn Hp]] Hi.
    + destruct (Hin Hi) as [->|[Hi' ->]]; [unfold writeMine; rewrite lookup_insert_eq; by eexists|by eapply H6].
    + assert (myfilename phase pid <> myfilename phase p) as Hne by (intros E; apply Hn; eapply myfilename_inj; [|by apply H1; eapply H3|exact E]; done).
      pose proof (H6 p x Hp Hi) as Hf. destruct (inside w') eqn:E; [destruct (Hin eq_refl) as [->|[_ ->]]; [unfold writeMine; by rewrite lookup_insert_ne|done]|].
      rewrite (Hout eq_refl). by rewrite lookup_delete_ne.
Qed.

(** Files that are not of workers do not matter. *)
Lemma ok_other m fs : ok m -> (forall name x, Sscanf phase name = Some x -> fs !! name = files m !! name) ->
  ok (mkMachine fs (alive m) (used m) (workers m)).
Proof using Type.
  intros [H1 H2 H3 H4 H5 H6] Hfs. split; cbn; [done..| |].
  - intros name x Hf Hs. rewrite (Hfs name x Hs) in Hf. by apply H5.
  - intros pid w Hw Hi. rewrite (Hfs _ pid); [by eapply H6|]. by apply Sscanf_myfilename, H1, (H3 pid w).
Qed.

Lemma ok_step m m' : ok m -> step phase group m m' -> ok m'.
Proof using Type.
  intros Hok Hs. pose proof Hok as [H1 H2 H3 H4 H5 H6]. destruct Hs as [m pid Hpid Hnew|m pid Hal Hw|m pid names Hal Hw Hn|m pid n fs Hal Hw Hr|m pid|m name c Hn|m name Hn].
  - assert (workers m !! pid = None) as Hnone by (destruct (workers m !! pid) as [w|] eqn:E; [by apply H3 in E|done]). split; cbn; [set_solver|set_solver| | | |].
    + intros p w. rewrite lookup_insert_Some. intros [[<- _]|[_ ?%H3]]; set_solver.
    + intros p Hp. destruct (decide (p = pid)) as [->|Hne]; [rewrite lookup_insert_eq; by eexists|]. rewrite lookup_insert_ne by done. apply H4. set_solver.
    + intros name x Hf Hsc. destruct (H5 name x Hf Hsc) as (-> & w & Hw & Hi). split; [done|]. exists w. rewrite lookup_insert_ne by congruence. done.
    + intros p w. rewrite lookup_insert_Some. intros [[<- <-]|[_ Hp]] Hi; [done|by eapply H6].
  - eapply ok_worker; [done..| |done]. by left.
  - eapply ok_worker; [done..| |done]. by right.
  - unfold removeMine in Hr. destruct (files m !! myfilename phase pid) eqn:E; [|done]. injection Hr as <-. by eapply ok_worker.
  - split; cbn; [done|set_solver|done..].
  - apply ok_other; [done|]. intros name' x Hx. rewrite lookup_insert_ne; [done|congruence].
  - apply ok_other; [done|]. intros name' x Hx. rewrite lookup_delete_ne; [done|congruence].
Qed.

Lemma reachable_ok m : reachable phase group m -> ok m.
Proof using Type.
  intros (m0 & Hi & Hr). apply ok_initial in Hi. induction Hr as [|m0 m1 m Hs Hr IH]; [done|]. apply IH. by eapply ok_step.
Qed.

(** ** The count *)

Definition counts (live : gset Z) (name : string) : bool := match Sscanf phase name with Some x => kill group live x | None => false end.

Lemma countAlive_filter live names ret : countAlive phase group live names ret = ret + zlen (filter (fun name => counts live name = true) names).
Proof using Type.
  revert ret. induction names as [|name names IH]; intros ret; cbn [countAlive]; [unfold zlen; cbn; lia|]. rewrite IH, filter_cons.
  assert ((match Sscanf phase name with Some xpid => if kill group live xpid then ret + 1 else ret | None => ret end) = if counts live name then ret + 1 else ret) as ->.
  { unfold counts. by destruct (Sscanf phase name). }
  destruct (counts live name); [rewrite decide_True by done|by rewrite decide_False]. unfold zlen. cbn [length]. lia.
Qed.

Lemma count_working m names : ok m -> (names ≡ₚ (map_to_list (files m)).*1) -> countAlive phase group (alive m) names 0 = zlen (working m).
Proof using Type.
  intros [H1 H2 H3 H4 H5 H6] Hn. rewrite countAlive_filter, Z.add_0_l.
  assert (forall name, name ∈ names <-> is_Some (files m !! name)) as Hnames.
  { intros name. rewrite Hn, list_elem_of_fmap. split.
    - intros ([n c] & -> & Hin%elem_of_map_to_list). by exists c.
    - intros [c Hc]. exists (name, c). split; [done|by apply elem_of_map_to_list]. }
  assert (filter (fun name => counts (alive m) name = true) names ≡ₚ myfilename phase <$> working m) as Hp; [|unfold zlen; by rewrite Hp, length_fmap].
  apply NoDup_Permutation.
  - apply NoDup_filter. rewrite Hn. apply NoDup_fst_map_to_list.
  - apply NoDup_fmap_2_strong; [|apply NoDup_filter, NoDup_elements]. intros x y [_ Hx%elem_of_elements]%list_elem_of_filter [_ Hy%elem_of_elements]%list_elem_of_filter.
    apply myfilename_inj; apply H1, H2; done.
  - intros name. rewrite list_elem_of_filter, Hnames, list_elem_of_fmap. unfold counts, working. split.
    + intros [Hc Hf]. destruct (Sscanf phase name) as [x|] eqn:Es; [|done]. destruct (H5 name x Hf Es) as (-> & w & Hw & Hi). exists x. split; [done|].
      apply list_elem_of_filter. rewrite Hw. split; [done|]. apply elem_of_elements. pose proof (H1 x (H3 x w Hw)) as Hx. unfold kill in Hc. destruct (Z.ltb_spec 0 x); [|lia].
      by apply bool_decide_eq_true in Hc.
    + intros (x & -> & [Hi Hx%elem_of_elements]%list_elem_of_filter). destruct (workers m !! x) as [w|] eqn:Hw; [|done]. pose proof (H1 x (H3 x w Hw)) as Hpos.
      rewrite (Sscanf_myfilename phase x Hpos). split; [|by eapply H6]. unfold kill. destruct (Z.ltb_spec 0 x); [|lia]. by apply bool_decide_eq_true.
Qed.
End Invariant.

(** [nparallel] counts the workers that run it.  However workers start, run, die and other files
    come and go, a worker that scans the directory gets the number of the workers that are alive and between
    writing and removing their file, itself included, and removing the file never panics. *)
Theorem nparallel_counts phase group m pid names :
  reachable phase group m -> pid ∈ alive m -> (names ≡ₚ (map_to_list (files m)).*1) ->
  (workers m !! pid = Some Written -> countAlive phase group (alive m) names 0 = zlen (working m) /\ pid ∈ working m) /\
  (forall n, workers m !! pid = Some (Counted n) -> is_Some (removeMine phase pid (files m))).
Proof.
  intros Hr%reachable_ok Hal Hn. split.
  - intros Hw. split; [by apply count_working|]. unfold working. apply list_elem_of_filter. rewrite Hw. split; [done|]. by apply elem_of_elements.
  - intros n Hw. destruct (ok_inside phase m Hr pid _ Hw eq_refl) as [c Hc]. unfold removeMine. rewrite Hc. by eexists.
Qed.

(** ** Two workers at the same time *)

Definition two_files : FileSystem := writeMine "map" 8 (writeMine "map" 7 ∅).
Definition two_workers : Machine := mkMachine two_files {[7; 8]} {[7; 8]} {[7 := Written; 8 := Written]}.

Lemma two_workers_reachable : reachable "map" (fun _ => false) two_workers.
Proof.
  exists (mkMachine ∅ ∅ ∅ ∅). split; [split_and!; [intros name [c H]; done|done..]|].
  eapply rtc_l; [apply (Starts _ _ _ 7); [lia|set_solver]|]. eapply rtc_l; [apply (Starts _ _ _ 8); [lia|set_solver]|]. cbn.
  eapply rtc_l; [apply (Writes _ _ _ 7); [set_solver|done]|]. eapply rtc_l; [apply (Writes _ _ _ 8); [set_solver|done]|]. cbn.
  unfold two_workers. match goal with |- rtc _ ?a ?b => assert (a = b) as ->; [|done] end. done.
Qed.

Lemma nparallel_counts_witness : countAlive "map" (fun _ => false) {[7; 8]} (map_to_list two_files).*1 0 = 2.
Proof.
  destruct (nparallel_counts "map" (fun _ => false) two_workers 7 (map_to_list two_files).*1 two_workers_reachable) as [H _]; [set_solver|done|].
  destruct (H eq_refl) as [E _]. etrans; [exact E|]. by vm_compute.
Defined.
