(* ===== verification/MapReduceProps.v ===== *)
(** * MapReduceProps: what a MapReduce job guarantees

    The distributed job computes what the sequential program computes, and its coordinator
    does not panic, in every interleaving and with any number of crashes, as long as no map
    task is reported after the map phase.  Without that condition neither holds.  What the job needs is [job_ok]. *)

From S2P Require Import Prelude Text Decimal MapReduce MapReduceFacts MapReduceInv MrApps.
Local Open Scope Z_scope.

(** Every event of the run is punctual. *)
Fixpoint punctualRun (mapf : string -> string -> list KeyValue) (reducef : string -> list string -> string)
    (marshal : IntermediateFormat -> string) (evs : list Event) (s : System) : bool :=
  match evs with
  | [] => true
  | ev :: evs =>
      punctual ev s && match happen mapf reducef marshal ev s with
                       | Some s' => punctualRun mapf reducef marshal evs s'
                       | None => true
                       end
  end.

(** What a job needs: a reduce function that does not depend on the order of the values, at
    least one reduce task, readable inputs, a directory without files that look like
    intermediate files, and keys and values in UTF-8, since the intermediate files are JSON. *)
Record job_ok (mapf : string -> string -> list KeyValue) (reducef : string -> list string -> string) (marshal : IntermediateFormat -> string)
    (files : list string) (nRed : Z) (fs0 : FileSystem) : Prop := {
  job_perm k vs vs' : vs ≡ₚ vs' -> reducef k vs = reducef k vs';
  job_red : 0 < nRed;
  job_fresh name t : is_Some (fs0 !! name) -> 0 <= t -> MatchString t name = false;
  job_input f : f ∈ files -> is_Some (fs0 !! f) /\ plain f;
  job_utf8 f : f ∈ files -> Forall valid_pair (kvaOf mapf marshal fs0 f)
}.

(** What [sort.Sort(ByKey(_))] promises. *)
Definition sorts (sort : list KeyValue -> list KeyValue) : Prop :=
  forall l, sort l ≡ₚ l /\ StronglySorted (fun a b => ByKey_Less b a = false) (sort l).

Section Job.
Context (mapf : string -> string -> list KeyValue) (reducef : string -> list string -> string).
Context (marshal : IntermediateFormat -> string) (files : list string) (nRed : Z) (fs0 : FileSystem).
Context (Hjob : job_ok mapf reducef marshal files nRed fs0).

Abbreviation Inv_ := (Inv mapf reducef marshal files nRed fs0).

Lemma run_Inv evs s c s' :
  Inv_ s c -> punctualRun mapf reducef marshal evs s = true -> run mapf reducef marshal evs s = Some s' ->
  exists c', Inv_ s' c'.
Proof.
  revert s c. induction evs as [|ev evs IH]; intros s c HI Hp Hr; [injection Hr as <-; by exists c|].
  cbn in Hp, Hr. apply andb_true_iff in Hp as [Hev Hp]. apply bind_Some in Hr as (s1 & Hs & Hr). rewrite Hs in Hp.
  destruct Hjob as [J1 J2 J3 J4 J5].
  destruct (job_step_Inv mapf reducef marshal J1 files nRed fs0 J2 J4 J5 s c ev s1 HI Hev Hs) as (c1 & HI1). by eapply IH.
Qed.

Lemma boot_run_Inv n evs s :
  punctualRun mapf reducef marshal evs (boot files nRed fs0 n) = true ->
  run mapf reducef marshal evs (boot files nRed fs0 n) = Some s -> exists c, Inv_ s c.
Proof. apply run_Inv with (MakeCoordinator files nRed). apply Inv_boot. apply Hjob. Qed.

Lemma seqMap_all : seqMap mapf marshal fs0 files = Some (concat (kvas mapf marshal files fs0)).
Proof.
  assert (forall f, f ∈ files -> is_Some (fs0 !! f)) as Hin by (intros f Hf; apply (job_input _ _ _ _ _ _ Hjob f Hf)).
  clear Hjob. unfold kvas. induction files as [|f fl IH]; [done|]. cbn. destruct (Hin f) as [v Hv]; [by left|].
  unfold kvaOf at 1. unfold ReadFile at 1 2. rewrite Hv. cbn. rewrite IH; [done|]. intros g Hg. apply Hin. by right.
Qed.

Lemma seq_output sort fs :
  sorts sort -> mrsequential mapf reducef marshal sort fs0 files = Some fs ->
  fs !! "mr-out-0"%string = Some (outLines reducef (concat (kvas mapf marshal files fs0))).
Proof.
  intros Hs Hm. unfold mrsequential in Hm. rewrite seqMap_all in Hm. cbn in Hm. injection Hm as <-. rewrite lookup_insert_eq.
  set (l := concat (kvas mapf marshal files fs0)). destruct (Hs l) as [Hp Hst]. f_equal.
  rewrite (seqReduce_sorted reducef _ (sort l)); [|by apply Nat.eq_le_incl, Permutation_length|done].
  apply outLines_perm; [apply Hjob|done].
Qed.

(** When the job is done, the output files together have the lines of the whole. *)
Lemma finished_outputs n evs s c :
  punctualRun mapf reducef marshal evs (boot files nRed fs0 n) = true ->
  run mapf reducef marshal evs (boot files nRed fs0 n) = Some s -> sy_coord s = Some c -> Done c = true ->
  exists outs, Forall2 (fun t out => sy_fs s !! outName (Z.of_nat t) = Some out) (seq 0 (Z.to_nat nRed)) outs /\
    concat outs ≡ₚ outLines reducef (concat (kvas mapf marshal files fs0)).
Proof.
  intros Hp Hr Hc Hd%bool_decide_eq_true. destruct (boot_run_Inv _ _ _ Hp Hr) as (c' & HI).
  pose proof (inv_coord _ _ _ _ _ _ _ _ HI) as Hc'. simplify_eq.
  exists ((fun t => partLines reducef nRed (Z.of_nat t) (concat (kvas mapf marshal files fs0))) <$> seq 0 (Z.to_nat nRed)).
  split; [|apply partLines_all, Hjob]. apply Forall2_fmap_r, Forall_Forall2_diag, Forall_forall. intros t Ht%elem_of_seq.
  by destruct (co_finish _ _ _ _ _ _ _ _ (inv_co _ _ _ _ _ _ _ _ HI) Hd (Z.of_nat t) ltac:(lia)).
Qed.
End Job.


(** In such a run the coordinator does not panic: no report or assignment indexes outside
    its task list. *)
Theorem coordinator_never_panics mapf reducef marshal files nRed fs0 n evs s :
  job_ok mapf reducef marshal files nRed fs0 -> punctualRun mapf reducef marshal evs (boot files nRed fs0 n) = true ->
  run mapf reducef marshal evs (boot files nRed fs0 n) = Some s -> is_Some (sy_coord s).
Proof.
  intros Hjob Hp Hr. destruct (boot_run_Inv _ _ _ _ _ _ Hjob _ _ _ Hp Hr) as (c & HI).
  rewrite (inv_coord _ _ _ _ _ _ _ _ HI). by eexists.
Qed.

(** ** Counting words *)

Section WordCount.
Context (isLetter : Z -> bool) (marshal : IntermediateFormat -> string).

(** All words of the inputs. *)
Definition allWords (fs0 : FileSystem) (files : list string) : list string :=
  concat ((fun f => Wc.words isLetter (default ""%string (ReadFile marshal fs0 f))) <$> files).

Definition countLine (ws : list string) (w : string) : Chunk :=
  Bytes (w +:+ " " +:+ Itoa (zlen (filter (fun x => x = w) ws)) +:+ newline)%string.

Lemma wc_kvas fs0 files :
  concat (kvas (Wc.Map isLetter) marshal files fs0) = (fun w => mkKeyValue w "1") <$> allWords fs0 files.
Proof. unfold kvas, allWords. induction files as [|f files IH]; [done|]. cbn. by rewrite fmap_app, IH. Qed.

Lemma wc_values k ws : zlen (valuesOf k ((fun w => mkKeyValue w "1") <$> ws)) = zlen (filter (fun x => x = k) ws).
Proof.
  unfold valuesOf, zlen. rewrite length_fmap. f_equal. induction ws as [|w ws IH]; [done|]. cbn [fmap list_fmap].
  destruct (decide (w = k)).
  - rewrite !filter_cons_True by done. cbn. by f_equal.
  - by rewrite !filter_cons_False.
Qed.

Lemma wc_outLines ws : outLines Wc.Reduce ((fun w => mkKeyValue w "1") <$> ws) ≡ₚ countLine ws <$> remove_dups ws.
Proof.
  unfold outLines. rewrite (list_fmap_ext _ (countLine ws)).
  - apply Permutation_map, NoDup_Permutation; [apply sortedKeys_NoDup|apply NoDup_remove_dups|].
    intros k. rewrite sortedKeys_elem, groupValues_key, elem_of_remove_dups, <- list_fmap_compose. cbn. by rewrite list_fmap_id.
  - intros _ k _. unfold lineOf, outputLine, countLine, Wc.Reduce. by rewrite wc_values.
Qed.
End WordCount.

(** A word count counts the words.  When a punctual run of the word-count job is done, the
    output files together have one line for every word of the inputs, with the number of its
    occurrences. *)
Theorem wc_counts isLetter marshal files nRed fs0 n evs s c :
  job_ok (Wc.Map isLetter) Wc.Reduce marshal files nRed fs0 ->
  punctualRun (Wc.Map isLetter) Wc.Reduce marshal evs (boot files nRed fs0 n) = true ->
  run (Wc.Map isLetter) Wc.Reduce marshal evs (boot files nRed fs0 n) = Some s ->
  sy_coord s = Some c -> Done c = true ->
  exists outs, Forall2 (fun t out => sy_fs s !! outName (Z.of_nat t) = Some out) (seq 0 (Z.to_nat nRed)) outs /\
    concat outs ≡ₚ countLine (allWords isLetter marshal fs0 files) <$> remove_dups (allWords isLetter marshal fs0 files).
Proof.
  intros Hjob Hp Hr Hc Hd. destruct (finished_outputs _ _ _ _ _ _ Hjob _ _ _ _ Hp Hr Hc Hd) as (outs & Ho & Hl).
  exists outs. split; [done|]. by rewrite Hl, wc_kvas, wc_outLines.
Qed.

(** ** Late reports *)

Definition letters (r : Z) : bool := (97 <=? r) && (r <=? 122).
Definition no_json (v : IntermediateFormat) : string := "".
Definition one_file : FileSystem := {["f" := [Bytes "b a b"]]}.
Definition two_files : FileSystem := {["f" := [Bytes "b a b"]; "g" := [Bytes "a"]]}.
Abbreviation wcRun := (run (Wc.Map letters) Wc.Reduce no_json).

(** A worker asks for a task; does it; asks, does and reports. *)
Definition ask (w : nat) (now : Z) : list Event := [EvCheck w; EvAssign w now].
Definition work (w : nat) (now : Z) : list Event := ask w now ++ [EvCompute w; EvRename w; EvReport w].
Definition late : Z := outTime + 1.

(** Worker 0 takes the map task and is slow; worker 1 gets it again and reports it, starts the
    reduce task and crashes; then worker 0 reports its map task. *)
Definition lost_output : list Event :=
  ask 0 0 ++ ask 1 late ++ work 1 late ++ ask 1 late ++ [EvCrash 1; EvCompute 0; EvRename 0; EvReport 0; EvCheck 2].
(** The same with two inputs: the map task of the second is reported when there is no reduce
    task yet. *)
Definition lost_coordinator : list Event :=
  work 1 0 ++ ask 0 0 ++ ask 1 late ++ work 1 late ++ [EvCompute 0; EvCheck 1; EvRename 0; EvReport 0].

(** A map task that is reported after the map phase is taken for a reduce task.  In one run the
    job is done although no worker has finished the reduce task and its output file does not
    exist; in another the coordinator panics.  In both the only fault is a worker that is
    slower than the timeout, and in the first a crash. *)
Theorem late_report_breaks_job :
  (exists s c, wcRun lost_output (boot ["f"]%string 1 one_file 3) = Some s /\ sy_coord s = Some c /\ Done c = true /\
     sy_fs s !! outName 0 = None) /\
  (exists s, wcRun lost_coordinator (boot ["f"; "g"]%string 1 two_files 2) = Some s /\ sy_coord s = None).
Proof.
  split.
  - eexists _, _. split; [vm_compute; reflexivity|]. split; [vm_compute; reflexivity|]. by split; vm_compute.
  - eexists. split; [vm_compute; reflexivity|]. by vm_compute.
Qed.

(** A map task whose temporary files cannot be created is reported as done.  The job ends with
    an empty output file although the input has words. *)
Theorem failed_temp_counts_as_done :
  exists s c, wcRun (ask 0 0 ++ [EvTempFails 0; EvReport 0] ++ work 0 0 ++ [EvCheck 0]) (boot ["f"]%string 1 one_file 1) = Some s /\
    sy_coord s = Some c /\ Done c = true /\ sy_fs s !! outName 0 = Some [] /\
    allWords letters no_json one_file ["f"]%string = ["b"; "a"; "b"]%string.
Proof.
  eexists _, _. split; [vm_compute; reflexivity|]. split; [vm_compute; reflexivity|]. by split_and!; vm_compute.
Qed.

(** ** Bytes that are not UTF-8 *)

(** A file whose name is the byte 0xFF. *)
Definition odd_name : string := String (Ascii.ascii_of_nat 255) EmptyString.
Definition odd_file : FileSystem := {[odd_name := [Bytes "x"]]}.

(** JSON changes what is not UTF-8.  The crash test emits the name of its input as a value.  For a name that is not UTF-8 the
    distributed job writes another output than the sequential program. *)
Theorem invalid_bytes_replaced :
  exists s c fs out lines, run NoCrash.Map NoCrash.Reduce no_json (work 0 0 ++ work 0 0 ++ [EvCheck 0]) (boot [odd_name] 1 odd_file 1) = Some s /\
    sy_coord s = Some c /\ Done c = true /\ mrsequential NoCrash.Map NoCrash.Reduce no_json (fun l => l) odd_file [odd_name] = Some fs /\
    sy_fs s !! outName 0 = Some out /\ fs !! "mr-out-0"%string = Some lines /\ take 1 out <> take 1 lines /\ drop 1 out = drop 1 lines.
Proof.
  eexists _, _, _, _, _. split_and!; [vm_compute; reflexivity..|vm_compute; discriminate|vm_compute; reflexivity].
Qed.

(** ** The list of tasks to hand out again *)

Lemma Check_pending c : rePendingTask (Check_ c) = rePendingTask c.
Proof. unfold Check_. by repeat case_match. Qed.

Lemma MarkTaskDone_pending id c c' : MarkTaskDone id c = Some c' -> rePendingTask c' = rePendingTask c.
Proof. unfold MarkTaskDone. intros (? & _ & (? & _ & [= <-])%bind_Some)%bind_Some. done. Qed.

Lemma HandleTimeOutTask_pending now c :
  rePendingTask c = [] -> (length (rePendingTask (HandleTimeOutTask now c)) <= 1)%nat.
Proof. intros Hq. unfold HandleTimeOutTask. repeat case_match; cbn; rewrite Hq; cbn; lia. Qed.

Lemma AssignedTask_pending now c c' r :
  AssignedTask now c = Some (c', r) -> (length (rePendingTask c) <= 1)%nat -> (length (rePendingTask c') <= 1)%nat.
Proof.
  intros Ha Hle. pose proof (HandleTimeOutTask_pending now c) as Ht. unfold AssignedTask, assignPending in Ha.
  repeat (case_match || (apply bind_Some in Ha as (? & _ & Ha))); simplify_eq; cbn in *; rewrite ?H0, ?H1 in *; cbn in *;
    solve [lia | auto].
Qed.

(** At most one task waits to be handed out again, in every run, late reports and crashes
    included: [HandleTimeOutTask], which leaves the overdue task in [tasks] as it is and would
    find it again and again, is called only when no task is waiting. *)
Theorem pending_at_most_one mapf reducef marshal files nRed fs0 n evs s c :
  run mapf reducef marshal evs (boot files nRed fs0 n) = Some s -> sy_coord s = Some c ->
  (length (rePendingTask c) <= 1)%nat.
Proof.
  assert (forall s0, (forall c0, sy_coord s0 = Some c0 -> (length (rePendingTask c0) <= 1)%nat) ->
    run mapf reducef marshal evs s0 = Some s -> sy_coord s = Some c -> (length (rePendingTask c) <= 1)%nat) as Hgen.
  { induction evs as [|ev evs IH]; intros s0 H0 Hr Hc; [injection Hr as ->; auto|].
    cbn in Hr. apply bind_Some in Hr as (s1 & Hs & Hr). apply (IH s1); [|done..]. clear IH Hr. intros c1 Hc1.
    destruct ev; cbn in Hs; apply bind_Some in Hs as (st & _ & Hs);
      repeat (case_match || (apply bind_Some in Hs as (? & _ & Hs))); simplify_eq; cbn in *; simplify_eq; auto.
    - rewrite Check_pending. auto.
    - eauto using AssignedTask_pending.
    - erewrite MarkTaskDone_pending; eauto. }
  apply Hgen. cbn. intros c0 [= <-]. cbn. lia.
Qed.

(** ** The theorems at work *)

Definition key_le (a b : KeyValue) : Prop := String.le (Key a) (Key b).
#[export] Instance key_le_dec a b : Decision (key_le a b).
Proof. unfold key_le. apply _. Defined.
#[export] Instance key_le_total : Total key_le.
Proof. intros a b. apply (total String.le). Qed.
#[export] Instance key_le_trans : Transitive key_le.
Proof. intros a b c. unfold key_le. apply transitivity. Qed.

Definition sortByKey (l : list KeyValue) : list KeyValue := merge_sort key_le l.

Lemma sortByKey_sorts : sorts sortByKey.
Proof.
  intros l. split; [apply merge_sort_Permutation|]. pose proof (StronglySorted_merge_sort key_le l) as Hs.
  unfold sortByKey. induction Hs as [|a k Hs IH Ha]; constructor; [done|]. eapply Forall_impl; [exact Ha|].
  intros b Hab. unfold key_le, String.le, String.leb in Hab. unfold ByKey_Less, String.ltb. rewrite String.compare_antisym.
  by destruct (Key a ?= Key b)%string.
Qed.

Lemma one_file_ok : job_ok (Wc.Map letters) Wc.Reduce no_json ["f"]%string 1 one_file.
Proof.
  assert (Hm : forall t, MatchString t "f" = false).
  { intros t. apply not_true_iff_false. rewrite MatchString_spec. intros (p & d & E & _).
    apply (f_equal length) in E. rewrite !length_app in E. cbn in E. lia. }
  split.
  - intros k vs vs' Hp. unfold Wc.Reduce, zlen. by rewrite Hp.
  - done.
  - intros name t Hs _. destruct (decide (name = "f"%string)) as [->|Hne]; [done|].
    destruct Hs as [v Hv]. unfold one_file in Hv. by rewrite lookup_singleton_ne in Hv.
  - intros f Hf%list_elem_of_singleton. subst f. split; [by eexists|]. split; [done|].
    intros t _ E. apply (f_equal String.length) in E. cbn in E. discriminate E.
  - intros f _. apply Forall_forall. intros kv. by apply wc_valid.
Qed.

(** The worker that takes the map task crashes; another one finishes the job. *)
Definition crash_run : list Event := ask 0 0 ++ [EvCrash 0] ++ ask 1 late ++ work 1 late ++ work 1 late ++ [EvCheck 1].
Definition crash_end : System := default (boot [] 0 ∅ 0) (wcRun crash_run (boot ["f"]%string 1 one_file 2)).
Definition crash_coord : Coordinator := default (MakeCoordinator [] 0) (sy_coord crash_end).
Definition seq_fs : FileSystem := default ∅ (mrsequential (Wc.Map letters) Wc.Reduce no_json sortByKey one_file ["f"]%string).


Lemma coordinator_never_panics_witness : is_Some (sy_coord crash_end).
Proof.
  apply (coordinator_never_panics (Wc.Map letters) Wc.Reduce no_json ["f"]%string 1 one_file 2 crash_run);
    [apply one_file_ok|by vm_compute..].
Defined.

Lemma wc_counts_witness :
  exists outs, Forall2 (fun t out => sy_fs crash_end !! outName (Z.of_nat t) = Some out) [0%nat] outs /\
    concat outs ≡ₚ countLine (allWords letters no_json one_file ["f"]%string) <$> ["a"; "b"]%string.
Proof.
  apply (wc_counts letters no_json ["f"]%string 1 one_file 2 crash_run crash_end crash_coord);
    [apply one_file_ok|by vm_compute..].
Defined.

Lemma pending_at_most_one_witness : (length (rePendingTask crash_coord) <= 1)%nat.
Proof.
  apply (pending_at_most_one (Wc.Map letters) Wc.Reduce no_json ["f"]%string 1 one_file 2 crash_run crash_end); by vm_compute.
Defined.
