(* ===== verification/MrMain.v ===== *)
(** * MrMain: the commands of MapReduce
      (src/6.5840-golabs-2024/src/main: mrcoordinator.go, mrworker.go, the plugins of mrsequential.go)

    The commands check their arguments, load the application and run the coordinator, a worker or
    the sequential program.  Plugins are parameters: a file has symbols of some type. *)

From S2P Require Import Prelude Text Decimal MapReduce MapReduceFacts MapReduceInv MapReduceProps.
Local Open Scope Z_scope.

(** How a command ends: with its usage, with [log.Fatalf], with a failed type assertion, or normally. *)
Inductive Outcome (A : Type) := Usage | Fatalf (msg : string) | BadType | Runs (a : A).
Arguments Usage {A}.
Arguments Fatalf {A}.
Arguments BadType {A}.
Arguments Runs {A}.

(** The symbols of a plugin. *)
Inductive Symbol := SymMap (f : string -> string -> list KeyValue) | SymReduce (f : string -> list string -> string) | SymOther.
Abbreviation Plugin := (gmap string Symbol).
Abbreviation App := ((string -> string -> list KeyValue) * (string -> list string -> string))%type.

(** [plugins] are the files that can be opened. *)
Section Commands.
Context (plugins : gmap string Plugin).

Definition loadPlugin (filename : string) : Outcome App :=
  match plugins !! filename with
  | None => Fatalf ("cannot load plugin " +:+ filename)
  | Some p =>
      match p !! "Map"%string with
      | None => Fatalf ("cannot find Map in " +:+ filename)
      | Some (SymMap mapf) =>
          match p !! "Reduce"%string with
          | None => Fatalf ("cannot find Reduce in " +:+ filename)
          | Some (SymReduce reducef) => Runs (mapf, reducef)
          | Some _ => BadType
          end
      | Some _ => BadType
      end
  end.

(** ** mrworker.go: [args] are the arguments with the name of the command *)
Definition mrworker (args : list string) : Outcome App :=
  match args with [_; filename] => loadPlugin filename | _ => Usage end.

(** ** mrsequential.go: the application and the input files *)
Definition mrsequentialArgs (args : list string) : Outcome (App * list string) :=
  match args with
  | _ :: filename :: (_ :: _) as files =>
      match loadPlugin filename with Runs app => Runs (app, files) | Usage => Usage | Fatalf msg => Fatalf msg | BadType => BadType end
  | _ => Usage
  end.
End Commands.

(** ** mrcoordinator.go *)

Section Coordinator.
Context (mapf : string -> string -> list KeyValue) (reducef : string -> list string -> string) (marshal : IntermediateFormat -> string).

(** The loop: while the command sleeps for a second the events of one round happen.  It ends with the
    number of sleeps; [None] when the coordinator is gone or the rounds do not suffice. *)
Fixpoint waitDone (rounds : list (list Event)) (s : System) (sleeps : nat) : option (System * nat) :=
  c ← sy_coord s;
  if Done c then Some (s, S sleeps)
  else match rounds with
  | [] => None
  | evs :: rounds => s ← run mapf reducef marshal evs s; waitDone rounds s (S sleeps)
  end.

(** [n] workers, ten reduce tasks. *)
Definition mrcoordinator (args : list string) (fs : FileSystem) (n : nat) (rounds : list (list Event)) : Outcome (option (System * nat)) :=
  match args with
  | _ :: (_ :: _) as files => Runs (waitDone rounds (boot files 10 fs n) 0)
  | _ => Usage
  end.

Lemma run_app evs evs' s : run mapf reducef marshal (evs ++ evs') s = run mapf reducef marshal evs s ≫= run mapf reducef marshal evs'.
Proof using Type. revert s. induction evs as [|ev evs IH]; intros s; [done|]. cbn. destruct (happen _ _ _ ev s); [apply IH|done]. Qed.

(** The loop ends after some of the rounds, in a state where the job is done. *)
Lemma waitDone_run rounds s sleeps s' k : waitDone rounds s sleeps = Some (s', k) ->
  exists done_, done_ `prefix_of` rounds /\ run mapf reducef marshal (concat done_) s = Some s' /\ k = S (sleeps + length done_) /\
    exists c, sy_coord s' = Some c /\ Done c = true.
Proof using Type.
  revert s sleeps. induction rounds as [|evs rounds IH]; intros s sleeps; cbn [waitDone]; intros (c & Hc & H)%bind_Some; destruct (Done c) eqn:Hd.
  - injection H as <- <-. exists []. split_and!; [apply prefix_nil|done|cbn; lia|by exists c].
  - done.
  - injection H as <- <-. exists []. split_and!; [apply prefix_nil|done|cbn; lia|by exists c].
  - apply bind_Some in H as (s1 & Hr & H). destruct (IH s1 (S sleeps) H) as (d & Hp & Hrun & -> & Hdone). exists (evs :: d).
    split_and!; [by apply prefix_cons|cbn [concat]; by rewrite run_app, Hr|cbn; lia|done].
Qed.
End Coordinator.

(** The commands agree: a coordinator that ends, over any rounds of its workers' events in which no map task is
    reported late, leaves the ten output files, whose lines together are those that mrsequential
    writes for the same plugin and files. *)
Theorem commands_agree plugins plugin app marshal cmd files fs0 n rounds s k sort fs :
  mrworker plugins [cmd; plugin] = Runs app -> mrsequentialArgs plugins (cmd :: plugin :: files) = Runs (app, files) ->
  job_ok app.1 app.2 marshal files 10 fs0 -> (forall evs, evs `prefix_of` rounds -> punctualRun app.1 app.2 marshal (concat evs) (boot files 10 fs0 n) = true) ->
  mrcoordinator app.1 app.2 marshal (cmd :: files) fs0 n rounds = Runs (Some (s, k)) ->
  sorts sort -> mrsequential app.1 app.2 marshal sort fs0 files = Some fs ->
  exists outs lines, Forall2 (fun t out => sy_fs s !! outName (Z.of_nat t) = Some out) (seq 0 10) outs /\
    fs !! "mr-out-0"%string = Some lines /\ concat outs ≡ₚ lines.
Proof.
  intros _ _ Hjob Hp Hc Hs Hm. unfold mrcoordinator in Hc. destruct files as [|f files]; [done|]. injection Hc as Hc.
  destruct (waitDone_run _ _ _ _ _ _ _ _ Hc) as (d & Hpre & Hrun & _ & c & Hcoord & Hdone).
  destruct (finished_outputs _ _ _ _ _ _ Hjob _ _ _ _ (Hp d Hpre) Hrun Hcoord Hdone) as (outs & Ho & Hl). exists outs. eexists. split_and!; [done|by eapply seq_output|done].
Qed.
