(* ===== verification/OldCommands.v ===== *)
(** * OldCommands: the commands of the older labs
      (src/6.5840-golabs-2024/src/main: diskvd.go, lockc.go, lockd.go, pbc.go, pbd.go, viewd.go)

    The commands look at their arguments and call the packages diskv, lockservice, pbservice and viewservice, which are not
    part of the repository: what they answer is a parameter, what they are asked is an [Action].  [None] is the usage
    message and [os.Exit(1)].  [strconv.ParseInt] and [strconv.ParseBool] are modelled as the commands use them, without the error. *)

From stdpp Require Import pretty.
From S2P Require Import Prelude Decimal.
Local Open Scope Z_scope.

(** ** strconv *)

Definition maxUint64 : Z := 2 ^ 64 - 1.

(** The loop of [ParseUint] in base ten; [None] is a syntax error, a number that is too large is cut off. *)
Fixpoint uintLoop (n : Z) (s : list Ascii.ascii) : option Z :=
  match s with
  | [] => Some n
  | c :: s =>
      if isDigit c then
        if n >=? maxUint64 / 10 + 1 then Some maxUint64
        else if 10 * n + digitVal c >? maxUint64 then Some maxUint64 else uintLoop (10 * n + digitVal c) s
      else None
  end.
Definition ParseUint (s : list Ascii.ascii) : option Z := match s with [] => None | _ => uintLoop 0 s end.

(** The number that [ParseInt(s, 10, 64)] and [Atoi] return, whatever the error. *)
Definition signed (neg : bool) (un : option Z) : Z :=
  match un with
  | None => 0
  | Some un =>
      if negb neg && (un >=? 2 ^ 63) then 2 ^ 63 - 1
      else if neg && (un >? 2 ^ 63) then - 2 ^ 63
      else if neg then - un else un
  end.
Definition plus : Ascii.ascii := Ascii.ascii_of_nat 43.
Definition ParseInt (s : string) : Z :=
  match chars s with
  | c :: rest => if bool_decide (c = plus) then signed false (ParseUint rest)
                 else if bool_decide (c = dash) then signed true (ParseUint rest) else signed false (ParseUint (c :: rest))
  | [] => 0
  end.

Definition ParseBool (s : string) : bool := bool_decide (s ∈ ["1"; "t"; "T"; "true"; "TRUE"; "True"]%string).

(** ** diskvd.go *)

Record Options := mkOptions {
  gid : Z;
  masters : list string;
  replicas : list string;
  me : Z;
  unreliable : bool;
  dir : string;
  restart : bool
}.

Definition noOptions : Options := mkOptions (-1) [] [] (-1) false "" false.

(** One round of the loop. *)
Definition setOption (a0 a1 : string) (o : Options) : option Options :=
  let '(mkOptions g ms rs i u d r) := o in
  if bool_decide (a0 = "-g"%string) then Some (mkOptions (ParseInt a1) ms rs i u d r)
  else if bool_decide (a0 = "-m"%string) then Some (mkOptions g (ms ++ [a1]) rs i u d r)
  else if bool_decide (a0 = "-s"%string) then Some (mkOptions g ms (rs ++ [a1]) i u d r)
  else if bool_decide (a0 = "-i"%string) then Some (mkOptions g ms rs (ParseInt a1) u d r)
  else if bool_decide (a0 = "-u"%string) then Some (mkOptions g ms rs i (ParseBool a1) d r)
  else if bool_decide (a0 = "-d"%string) then Some (mkOptions g ms rs i u a1 r)
  else if bool_decide (a0 = "-r"%string) then Some (mkOptions g ms rs i u d (ParseBool a1))
  else None.

(** An argument without a partner at the end is not looked at. *)
Fixpoint parseArgs (args : list string) (o : Options) : option Options :=
  match args with
  | a0 :: a1 :: args => o ← setOption a0 a1 o; parseArgs args o
  | _ => Some o
  end.

Inductive Action :=
| StartDiskv (gid : Z) (masters replicas : list string) (me : Z) (dir : string) (restart : bool)
| Setunreliable (b : bool)
| StartLock (primary backup : string) (am_primary : bool)
| StartPb (viewport myport : string)
| StartView (port : string)
| PbPut (viewport key value : string)
| Print (s : string)
| Sleep (seconds : Z)
| Kill.

Definition diskvd (args : list string) : option (list Action) :=
  o ← parseArgs (drop 1 args) noOptions;
  if (gid o <? 0) || (me o <? 0) || (zlen (masters o) <? 1) || (me o >=? zlen (replicas o)) || bool_decide (dir o = ""%string) then None
  else Some [StartDiskv (gid o) (masters o) (replicas o) (me o) (dir o) (restart o); Setunreliable (unreliable o); Sleep (10 * 60); Kill].

(** ** The lock service and the primary/backup service *)

Section Services.
Context (Lock Unlock : string -> string -> string -> bool) (PbGet : string -> string -> string).

Definition showBool (b : bool) : string := if b then "true" else "false".

Definition lockc (args : list string) : option (list Action) :=
  match args with
  | [_; flag; primary; backup; lockname] =>
      if bool_decide (flag = "-l"%string) then Some [Print ("reply: " +:+ showBool (Lock primary backup lockname))]
      else if bool_decide (flag = "-u"%string) then Some [Print ("reply: " +:+ showBool (Unlock primary backup lockname))]
      else None
  | _ => None
  end.

Definition pbc (args : list string) : option (list Action) :=
  match args with
  | [_; viewport; key] => Some [Print (PbGet viewport key)]
  | [_; viewport; key; value] => Some [PbPut viewport key value]
  | _ => None
  end.
End Services.

(** The servers then sleep for ever. *)
Definition lockd (args : list string) : option (list Action) :=
  match args with
  | [_; flag; primary; backup] =>
      if bool_decide (flag = "-p"%string) then Some [StartLock primary backup true]
      else if bool_decide (flag = "-b"%string) then Some [StartLock primary backup false]
      else None
  | _ => None
  end.
Definition pbd (args : list string) : option (list Action) :=
  match args with [_; viewport; myport] => Some [StartPb viewport myport] | _ => None end.
Definition viewd (args : list string) : option (list Action) :=
  match args with [_; port] => Some [StartView port] | _ => None end.

(** ** Numbers are read back *)

Lemma digitVal_bounds c : isDigit c = true -> 0 <= digitVal c <= 9.
Proof. unfold isDigit, digitVal. intros [H1%Z.leb_le H2%Z.leb_le]%andb_true_iff. lia. Qed.

Lemma decimal_mono n d : 0 <= n -> Forall (fun a => isDigit a = true) d -> n <= decimal n d.
Proof.
  intros Hn Hd. revert n Hn. induction Hd as [|c d Hc Hd IH]; intros n Hn; [done|]. cbn.
  pose proof (digitVal_bounds c Hc). pose proof (IH (10 * n + digitVal c) ltac:(lia)). unfold decimal in *. lia.
Qed.

Lemma uintLoop_decimal n d :
  0 <= n -> Forall (fun a => isDigit a = true) d -> decimal n d <= maxUint64 -> uintLoop n d = Some (decimal n d).
Proof.
  intros Hn Hd. revert n Hn. induction Hd as [|c d Hc Hd IH]; intros n Hn Hle; [done|]. cbn [uintLoop]. rewrite Hc.
  pose proof (digitVal_bounds c Hc). change (decimal n (c :: d)) with (decimal (10 * n + digitVal c) d) in *.
  pose proof (decimal_mono (10 * n + digitVal c) d ltac:(lia) Hd). unfold maxUint64 in *.
  change ((2 ^ 64 - 1) / 10 + 1) with 1844674407370955162.
  destruct (Z.geb_spec n 1844674407370955162); [lia|]. destruct (Z.gtb_spec (10 * n + digitVal c) (2 ^ 64 - 1)); [lia|]. apply IH; lia.
Qed.

Lemma ParseUint_Itoa z : 0 <= z <= maxUint64 -> ParseUint (chars (Itoa z)) = Some z.
Proof.
  intros Hz. pose proof (Itoa_nonempty z) as Hne. unfold ParseUint. destruct (chars (Itoa z)) as [|c d] eqn:E; [done|].
  rewrite <- E. rewrite uintLoop_decimal; [by rewrite decimal_Itoa by lia|lia|apply Itoa_digits; lia|rewrite decimal_Itoa by lia; lia].
Qed.

(** [strconv.ParseInt] reads back every 64-bit number that [strconv.Itoa] writes. *)
Theorem ParseInt_Itoa z : is_int64 z -> ParseInt (Itoa z) = z.
Proof.
  unfold is_int64. intros Hz. unfold ParseInt. destruct (decide (0 <= z)) as [Hp|Hn].
  - pose proof (Itoa_digits z Hp) as Hd. pose proof (ParseUint_Itoa z ltac:(unfold maxUint64; lia)) as Hu.
    destruct (chars (Itoa z)) as [|c d] eqn:E; [done|]. apply Forall_cons in Hd as [Hc _].
    rewrite !bool_decide_eq_false_2 by (intros ->; done). rewrite Hu. cbn.
    destruct (Z.geb_spec z (2 ^ 63)); [lia|done].
  - destruct z as [|p|p]; [lia..|]. change (Itoa (Z.neg p)) with (String.append "-" (Itoa (Z.pos p))). rewrite chars_app.
    change (chars "-" ++ ?l) with (dash :: l). cbv beta iota. rewrite bool_decide_eq_false_2 by done. rewrite bool_decide_eq_true_2 by done.
    rewrite ParseUint_Itoa by (unfold maxUint64; lia). cbn [signed negb andb]. destruct (Z.gtb_spec (Z.pos p) (2 ^ 63)); lia.
Qed.

(** ** What the options of diskvd mean *)

Definition known : list string := ["-g"; "-m"; "-s"; "-i"; "-u"; "-d"; "-r"]%string.

(** The values given for an option, in order. *)
Definition valuesOf (flag : string) (opts : list (string * string)) : list string := (filter (fun p => p.1 = flag) opts).*2.
Definition lastValue {A} (d : A) (read : string -> A) (flag : string) (opts : list (string * string)) : A :=
  default d (read <$> last (valuesOf flag opts)).

Definition meant (opts : list (string * string)) : Options :=
  mkOptions (lastValue (-1) ParseInt "-g" opts) (valuesOf "-m" opts) (valuesOf "-s" opts) (lastValue (-1) ParseInt "-i" opts)
    (lastValue false ParseBool "-u" opts) (lastValue ""%string id "-d" opts) (lastValue false ParseBool "-r" opts).

Definition flat (opts : list (string * string)) : list string := concat ((fun p => [p.1; p.2]) <$> opts).

Lemma valuesOf_snoc flag opts f v : valuesOf flag (opts ++ [(f, v)]) = valuesOf flag opts ++ (if decide (f = flag) then [v] else []).
Proof. unfold valuesOf. rewrite filter_app, fmap_app, filter_cons, filter_nil. cbn. by case_decide. Qed.

Lemma lastValue_snoc {A} (d : A) read flag opts f v :
  lastValue d read flag (opts ++ [(f, v)]) = if decide (f = flag) then read v else lastValue d read flag opts.
Proof. unfold lastValue. rewrite valuesOf_snoc. case_decide; [by rewrite last_snoc|by rewrite app_nil_r]. Qed.

Lemma setOption_meant opts f v :
  setOption f v (meant opts) = if decide (f ∈ known) then Some (meant (opts ++ [(f, v)])) else None.
Proof.
  unfold meant at 2. rewrite !valuesOf_snoc, !lastValue_snoc. unfold setOption, meant.
  destruct (decide (f ∈ known)) as [Hk|Hk].
  - repeat (apply elem_of_cons in Hk as [->|Hk]; [cbn; by rewrite ?app_nil_r|]). by apply not_elem_of_nil in Hk.
  - unfold known in Hk. rewrite !not_elem_of_cons in Hk. destruct_and! Hk. by rewrite !bool_decide_eq_false_2.
Qed.

Lemma parseArgs_app opts rest o : parseArgs (flat opts ++ rest) o = parseArgs (flat opts) o ≫= parseArgs rest.
Proof.
  revert o. induction opts as [|[f v] opts IH]; intros o; [done|]. cbn. destruct (setOption f v o); [apply IH|done].
Qed.

Lemma parseArgs_spec opts : parseArgs (flat opts) noOptions = if decide (Forall (fun p => p.1 ∈ known) opts) then Some (meant opts) else None.
Proof.
  induction opts as [|[f v] opts IH] using rev_ind; [done|].
  assert (flat (opts ++ [(f, v)]) = flat opts ++ [f; v]) as -> by (unfold flat; by rewrite fmap_app, concat_app).
  rewrite parseArgs_app, IH. destruct (decide (Forall _ opts)) as [HF|HF]; cbn [mbind option_bind parseArgs].
  - rewrite setOption_meant. destruct (decide (f ∈ known)) as [Hk|Hk]; cbn [mbind option_bind parseArgs]; destruct (decide (Forall _ (opts ++ _))) as [HF'|HF'];
      rewrite Forall_app, Forall_singleton in HF'; naive_solver.
  - destruct (decide (Forall _ (opts ++ _))) as [HF'|HF']; [|done]. apply Forall_app in HF' as [? _]. done.
Qed.

(** diskvd starts its server exactly when every option is known, a group and an index are given that are not negative, there is a
    shard master, the index is one of the replicas and there is a directory; the last value of an option counts, masters and
    replicas are kept in order, and an argument left over at the end is ignored. *)
Theorem diskvd_spec name opts rest :
  (length rest <= 1)%nat ->
  diskvd (name :: flat opts ++ rest) =
    let o := meant opts in
    if decide (Forall (fun p => p.1 ∈ known) opts /\ 0 <= gid o /\ 0 <= me o < zlen (replicas o) /\ masters o <> [] /\ dir o <> ""%string)
    then Some [StartDiskv (gid o) (masters o) (replicas o) (me o) (dir o) (restart o); Setunreliable (unreliable o); Sleep (10 * 60); Kill]
    else None.
Proof.
  intros Hr. unfold diskvd. change (drop 1 (name :: flat opts ++ rest)) with (flat opts ++ rest). rewrite parseArgs_app, parseArgs_spec.
  destruct (decide (Forall _ opts)) as [HF|HF]; cbn [mbind option_bind]; [|by case_decide; naive_solver].
  assert (forall o, parseArgs rest o = Some o) as -> by (by destruct rest as [|? [|]]; cbn in *; try lia).
  cbn [mbind option_bind]. set (o := meant opts). cbv zeta.
  destruct (decide (_ /\ _)) as [(_ & Hg & Hm & Hms & Hd)|Hno].
  - rewrite bool_decide_eq_false_2 by done. assert (1 <= zlen (masters o)) by (destruct (masters o); [done|unfold zlen; cbn; lia]).
    destruct (Z.ltb_spec (gid o) 0), (Z.ltb_spec (me o) 0), (Z.ltb_spec (zlen (masters o)) 1), (Z.geb_spec (me o) (zlen (replicas o))); (lia || done).
  - assert (((gid o <? 0) || (me o <? 0) || (zlen (masters o) <? 1) || (me o >=? zlen (replicas o)) || bool_decide (dir o = ""%string)) = true) as ->; [|done].
    apply not_false_iff_true. intros E. apply Hno. rewrite !orb_false_iff in E. destruct E as [[[[E1 E2] E3] E4] E5].
    apply bool_decide_eq_false in E5. split_and!; [done|lia|lia|lia| |done]. intros En. by rewrite En in E3.
Qed.

(** A group or an index that is not a number counts as 0: the command starts a server of group 0. *)
Theorem diskvd_ignores_bad_numbers :
  diskvd ["diskvd"; "-g"; "one"; "-i"; "two"; "-m"; "m0"; "-s"; "s0"; "-d"; "data"]%string =
    Some [StartDiskv 0 ["m0"%string] ["s0"%string] 0 "data" false; Setunreliable false; Sleep 600; Kill].
Proof. reflexivity. Qed.

Lemma ParseInt_Itoa_witness : ParseInt (Itoa (- 2 ^ 63)) = - 2 ^ 63.
Proof. apply ParseInt_Itoa. unfold is_int64. lia. Defined.
Lemma diskvd_spec_witness :
  diskvd ["diskvd"; "-g"; "4"; "-g"; "5"; "-d"]%string = None /\
  diskvd ("diskvd" :: flat [("-g", "4"); ("-g", "5")] ++ ["-d"])%string = None.
Proof. split; [reflexivity|]. rewrite diskvd_spec by (cbn; lia). reflexivity. Defined.
