(* ===== verification/LabRPC.v ===== *)
(** * LabRPC: the simulated network
      (src/6.5840-golabs-2024/src/labrpc/labrpc.go)

    A [Network] maps client ends to servers; a [Server] is a collection of services, kept on a
    heap because [isServerDead] compares pointers.  [Call], [processReq] and the goroutine that
    runs the handler are steps of the call they belong to; operations on the network may happen
    between any two of them.  Random numbers and the passing of time are events.  Values are
    sent as bytes through the [Gob] interface.  [log.Fatalf] ends the whole process ([alive]).
    [history] records the handlers that ran, with what they were given and what they returned. *)

From S2P Require Import Prelude Persister.
Local Open Scope Z_scope.

Section LabRPC.
Context {Name : Type} `{Countable Name}.
Context {byte Val Obj : Type} `{!Gob byte Val}.
(* the value [reflect.New] allocates *)
Context (zero : Val).

(** ** Messages *)

Record reqMsg := mkReqMsg { endname : Name; svcMeth : string; args : list byte }.
Record replyMsg := mkReplyMsg { ok : bool; reply : list byte }.
Definition noReply : replyMsg := mkReplyMsg false [].

(** ** Services and servers *)

(** A method as reflection shows it. *)
Record Method := mkMethod {
  m_name : string;
  m_PkgPath : string;
  m_NumIn : Z;
  m_In2IsPtr : bool;
  m_NumOut : Z;
  m_Func : Obj -> Val -> Obj * Val
}.

Record Service := mkService {
  sv_name : string;
  sv_rcvr : Obj;
  sv_methods : gmap string (Obj -> Val -> Obj * Val)
}.

(** Is the method suitable for a handler? *)
Definition isHandler (m : Method) : bool :=
  negb (negb (bool_decide (m_PkgPath m = ""%string)) || negb (m_NumIn m =? 3) || negb (m_In2IsPtr m) || negb (m_NumOut m =? 0)).

Definition MakeService (name : string) (rcvr : Obj) (methods : list Method) : Service :=
  mkService name rcvr
    (foldl (fun ms m => if isHandler m then <[m_name m := m_Func m]> ms else ms) ∅ methods).

(** [Service.dispatch]: the new state of the object, the arguments, the result and the reply;
    [None] is [log.Fatalf].  A decoding error is ignored: the argument keeps its zero value. *)
Definition Service_dispatch (methname : string) (req : reqMsg) (svc : Service) : option (Service * Val * Val * replyMsg) :=
  f ← sv_methods svc !! methname;
  let a := default zero (fst <$> gob_decode (args req)) in
  let '(rcvr, replyv) := f (sv_rcvr svc) a in
  Some (mkService (sv_name svc) rcvr (sv_methods svc), a, replyv, mkReplyMsg true (gob_encode replyv)).

Record Server := mkServer { services : gmap string Service; sv_count : Z }.

Definition MakeServer : Server := mkServer ∅ 0.
Definition AddService (svc : Service) (rs : Server) : Server :=
  mkServer (<[sv_name svc := svc]> (services rs)) (sv_count rs).

(** [strings.LastIndex(s, ".")] *)
Definition dot : Ascii.ascii := Ascii.ascii_of_nat 46.
Fixpoint lastIndexFrom (i : Z) (l : list Ascii.ascii) : Z :=
  match l with
  | [] => -1
  | a :: l => let j := lastIndexFrom (i + 1) l in
              if j =? -1 then (if bool_decide (a = dot) then i else -1) else j
  end.

(** [svcMeth[:dot]] and [svcMeth[dot+1:]]; without a dot the slice panics. *)
Definition splitMethod (s : string) : option (string * string) :=
  let l := String.list_ascii_of_string s in
  let d := lastIndexFrom 0 l in
  serviceName ← go_take l d;
  methodName ← go_drop l (d + 1);
  Some (String.string_of_list_ascii serviceName, String.string_of_list_ascii methodName).

Definition Server_dispatch (req : reqMsg) (rs : Server) : option (Server * Val * Val * replyMsg) :=
  '(serviceName, methodName) ← splitMethod (svcMeth req);
  service ← services rs !! serviceName;
  '(service', a, v, rep) ← Service_dispatch methodName req service;
  Some (mkServer (<[serviceName := service']> (services rs)) (sv_count rs + 1), a, v, rep).

(** ** The network *)

Record Network := mkNetwork {
  reliable : bool;
  longDelays : bool;
  longReordering : bool;
  ends : gset Name;
  enabled : gmap Name bool;
  servers : gmap Name (option nat);      (* addresses; nil *)
  connections : gmap Name (option Name);
  count : Z;
  bytes : Z;
  done : bool                            (* is the channel closed? *)
}.

Definition MakeNetwork : Network := mkNetwork true false false ∅ ∅ ∅ ∅ 0 0 false.

(** Closing the channel [done] a second time panics. *)
Definition Cleanup (rn : Network) : option Network :=
  if done rn then None
  else Some (mkNetwork (reliable rn) (longDelays rn) (longReordering rn) (ends rn) (enabled rn) (servers rn) (connections rn)
               (count rn) (bytes rn) true).

Definition Reliable (yes : bool) (rn : Network) : Network :=
  mkNetwork yes (longDelays rn) (longReordering rn) (ends rn) (enabled rn) (servers rn) (connections rn) (count rn) (bytes rn) (done rn).
Definition LongReordering (yes : bool) (rn : Network) : Network :=
  mkNetwork (reliable rn) (longDelays rn) yes (ends rn) (enabled rn) (servers rn) (connections rn) (count rn) (bytes rn) (done rn).
Definition LongDelays (yes : bool) (rn : Network) : Network :=
  mkNetwork (reliable rn) yes (longReordering rn) (ends rn) (enabled rn) (servers rn) (connections rn) (count rn) (bytes rn) (done rn).

(** [None]: the end exists already, [log.Fatalf]. *)
Definition MakeEnd (e : Name) (rn : Network) : option Network :=
  if bool_decide (e ∈ ends rn) then None
  else Some (mkNetwork (reliable rn) (longDelays rn) (longReordering rn) ({[e]} ∪ ends rn)
               (<[e := false]> (enabled rn)) (servers rn) (<[e := None]> (connections rn)) (count rn) (bytes rn) (done rn)).
Definition DeleteEnd (e : Name) (rn : Network) : option Network :=
  if bool_decide (e ∈ ends rn)
  then Some (mkNetwork (reliable rn) (longDelays rn) (longReordering rn) (ends rn ∖ {[e]})
               (delete e (enabled rn)) (servers rn) (delete e (connections rn)) (count rn) (bytes rn) (done rn))
  else None.

Definition set_servers (sv : gmap Name (option nat)) (rn : Network) : Network :=
  mkNetwork (reliable rn) (longDelays rn) (longReordering rn) (ends rn) (enabled rn) sv (connections rn) (count rn) (bytes rn) (done rn).
Definition AddServer (n : Name) (rs : nat) (rn : Network) : Network := set_servers (<[n := Some rs]> (servers rn)) rn.
Definition DeleteServer (n : Name) (rn : Network) : Network := set_servers (<[n := None]> (servers rn)) rn.

Definition Connect (e n : Name) (rn : Network) : Network :=
  mkNetwork (reliable rn) (longDelays rn) (longReordering rn) (ends rn) (enabled rn) (servers rn)
    (<[e := Some n]> (connections rn)) (count rn) (bytes rn) (done rn).
Definition Enable (e : Name) (b : bool) (rn : Network) : Network :=
  mkNetwork (reliable rn) (longDelays rn) (longReordering rn) (ends rn) (<[e := b]> (enabled rn)) (servers rn)
    (connections rn) (count rn) (bytes rn) (done rn).

(** The statistics: a 32-bit and a 64-bit counter. *)
Definition countRequest (n : Z) (rn : Network) : Network :=
  mkNetwork (reliable rn) (longDelays rn) (longReordering rn) (ends rn) (enabled rn) (servers rn) (connections rn)
    (swrap 32 (count rn + 1)) (swrap 64 (bytes rn + n)) (done rn).
Definition countReply (n : Z) (rn : Network) : Network :=
  mkNetwork (reliable rn) (longDelays rn) (longReordering rn) (ends rn) (enabled rn) (servers rn) (connections rn)
    (count rn) (swrap 64 (bytes rn + n)) (done rn).

Definition GetTotalCount (rn : Network) : Z := count rn.
Definition GetTotalBytes (rn : Network) : Z := bytes rn.

(** Go's maps: an absent key is false, nil. *)
Definition isEnabled (e : Name) (rn : Network) : bool := default false (enabled rn !! e).
Definition serverAt (n : Name) (rn : Network) : option nat := default None (servers rn !! n).

(** The count of a server on the heap; a server that is not there is a nil pointer. *)
Definition Server_GetCount (rs : Server) : Z := sv_count rs.
Definition GetCount (n : Name) (heap : list Server) (rn : Network) : option Z :=
  svr ← serverAt n rn; Server_GetCount <$> heap !! svr.

Record endInfo := mkEndInfo {
  i_enabled : bool; i_servername : option Name; i_server : option nat; i_reliable : bool; i_longreordering : bool
}.
Definition readEndnameInfo (e : Name) (rn : Network) : endInfo :=
  let servername := default None (connections rn !! e) in
  mkEndInfo (isEnabled e rn) servername (n ← servername; serverAt n rn) (reliable rn) (longReordering rn).

Definition isServerDead (e n : Name) (server : nat) (rn : Network) : bool :=
  negb (isEnabled e rn) || negb (bool_decide (serverAt n rn = Some server)).

(** ** Calls in progress *)

(** Where [processReq] is.  [Waiting]: the request was not delivered and a timer runs.
    [Handling]: waiting for the handler, whose answer may have come.  [Delayed]: the answer is
    held back by a timer.  [Returned]: [Call] has its answer. *)
Inductive Phase :=
| Sent
| Waiting
| Handling (servername : Name) (server : nat) (reliable longreordering : bool) (answer : option replyMsg)
| Delayed (r : replyMsg)
| Returned (r : replyMsg).

(** [c_handler]: the server whose handler goroutine has not run yet.  It may run after
    [processReq] gave up waiting for it. *)
Record Call := mkCall { c_req : reqMsg; c_phase : Phase; c_handler : option nat }.

Record Sys := mkSys {
  alive : bool;
  net : Network;
  heap : list Server;
  calls : gmap Z Call;
  history : list (Z * Val * Val)
}.

Inductive Event :=
| EvCall (id : Z) (e : Name) (meth : string) (a : Val)
| EvCallDone (id : Z) (e : Name) (meth : string) (a : Val)
| EvProcess (id : Z) (r : Z)
| EvHandler (id : Z)
| EvTick (id : Z)
| EvAnswer (id : Z) (r r' : Z)
| EvTimer (id : Z)
| EvNetwork (op : Network -> option Network)
| EvNewServer (rs : Server).

Definition set_call (id : Z) (c : Call) (s : Sys) : Sys := mkSys (alive s) (net s) (heap s) (<[id := c]> (calls s)) (history s).
Definition set_net (rn : Network) (s : Sys) : Sys := mkSys (alive s) rn (heap s) (calls s) (history s).
Definition fatal (s : Sys) : Sys := mkSys false (net s) (heap s) (calls s) (history s).
Definition set_phase (p : Phase) (c : Call) : Call := mkCall (c_req c) p (c_handler c).

(** The beginning of [processReq], up to the start of the handler; [r] is [rand.Int()]. *)
Definition process (r : Z) (c : Call) (rn : Network) : Call :=
  let info := readEndnameInfo (endname (c_req c)) rn in
  match i_enabled info, i_servername info, i_server info with
  | true, Some servername, Some server =>
      if negb (i_reliable info) && (Z.rem r 1000 <? 100) then set_phase (Returned noReply) c
      else mkCall (c_req c) (Handling servername server (i_reliable info) (i_longreordering info) None) (Some server)
  | _, _, _ => set_phase Waiting c
  end.

(** The end of [processReq], when the answer has come. *)
Definition answerWith (r r' : Z) (e n : Name) (server : nat) (rel longre : bool) (rep : replyMsg) (rn : Network) : Phase * Network :=
  if isServerDead e n server rn then (Returned noReply, rn)
  else if negb rel && (Z.rem r 1000 <? 100) then (Returned noReply, rn)
  else if longre && (Z.rem r' 900 <? 600) then (Delayed rep, rn)
  else (Returned rep, countReply (zlen (reply rep)) rn).

(** The handler has run: its answer reaches [processReq] if that still waits. *)
Definition answered (rep : replyMsg) (p : Phase) : Phase :=
  match p with
  | Handling n server rel longre None => Handling n server rel longre (Some rep)
  | _ => p
  end.

Definition happen (ev : Event) (s : Sys) : option Sys :=
  if negb (alive s) then None
  else match ev with
  | EvCall id e meth a =>
      match calls s !! id with
      | Some _ => None
      | None =>
          let req := mkReqMsg e meth (gob_encode a) in
          Some (set_call id (mkCall req Sent None) (set_net (countRequest (zlen (args req)) (net s)) s))
      end
  | EvCallDone id e meth a =>
      (* the network has been cleaned up: [Call] returns false *)
      match calls s !! id, done (net s) with
      | None, true => Some (set_call id (mkCall (mkReqMsg e meth (gob_encode a)) (Returned noReply) None) s)
      | _, _ => None
      end
  | EvProcess id r =>
      c ← calls s !! id;
      match c_phase c with
      | Sent => Some (set_call id (process r c (net s)) s)
      | _ => None
      end
  | EvHandler id =>
      c ← calls s !! id;
      server ← c_handler c;
      rs ← heap s !! server;
      match Server_dispatch (c_req c) rs with
      | None => Some (fatal s)
      | Some (rs', a, v, rep) =>
          Some (mkSys (alive s) (net s) (<[server := rs']> (heap s))
                  (<[id := mkCall (c_req c) (answered rep (c_phase c)) None]> (calls s)) (history s ++ [(id, a, v)]))
      end
  | EvTick id =>
      c ← calls s !! id;
      match c_phase c with
      | Handling n server _ _ None =>
          if isServerDead (endname (c_req c)) n server (net s)
          then Some (set_call id (set_phase (Returned noReply) c) s) else Some s
      | _ => None
      end
  | EvAnswer id r r' =>
      c ← calls s !! id;
      match c_phase c with
      | Handling n server rel longre (Some rep) =>
          let '(p, rn) := answerWith r r' (endname (c_req c)) n server rel longre rep (net s) in
          Some (set_call id (set_phase p c) (set_net rn s))
      | _ => None
      end
  | EvTimer id =>
      c ← calls s !! id;
      match c_phase c with
      | Waiting => Some (set_call id (set_phase (Returned noReply) c) s)
      | Delayed rep => Some (set_call id (set_phase (Returned rep) c) (set_net (countReply (zlen (reply rep)) (net s)) s))
      | _ => None
      end
  | EvNetwork op => match op (net s) with Some rn => Some (set_net rn s) | None => Some (fatal s) end
  | EvNewServer rs => Some (mkSys (alive s) (net s) (heap s ++ [rs]) (calls s) (history s))
  end.

Fixpoint run (evs : list Event) (s : Sys) : option Sys :=
  match evs with
  | [] => Some s
  | ev :: evs => s' ← happen ev s; run evs s'
  end.

Definition boot : Sys := mkSys true MakeNetwork [] ∅ [].

(** What [Call] returns with the reply: false, or true and the decoded value; a reply that
    cannot be decoded is fatal. *)
Definition callResult (rep : replyMsg) : option (bool * option Val) :=
  if ok rep then '(v, _) ← gob_decode (reply rep); Some (true, Some v) else Some (false, None).

(** ** Facts *)

(** What is known about a call. *)
Definition call_ok (h : list (Z * Val * Val)) (id : Z) (c : Call) : Prop :=
  (exists a, args (c_req c) = gob_encode a /\
     forall a' v, (id, a', v) ∈ h -> a' = a) /\
  (c_handler c <> None -> id ∉ h.*1.*1) /\
  match c_phase c with
  | Sent | Waiting => c_handler c = None /\ id ∉ h.*1.*1
  | Handling _ _ _ _ None => c_handler c <> None
  | Handling _ _ _ _ (Some rep) | Delayed rep =>
      c_handler c = None /\ exists a v, (id, a, v) ∈ h /\ rep = mkReplyMsg true (gob_encode v)
  | Returned rep => ok rep = true -> exists a v, (id, a, v) ∈ h /\ rep = mkReplyMsg true (gob_encode v)
  end.

Record Inv (s : Sys) : Prop := {
  inv_once : NoDup (history s).*1.*1;
  inv_known id : id ∈ (history s).*1.*1 -> is_Some (calls s !! id);
  inv_call id c : calls s !! id = Some c -> call_ok (history s) id c
}.

Lemma dispatch_spec req rs rs' a v rep a0 :
  args req = gob_encode a0 -> Server_dispatch req rs = Some (rs', a, v, rep) -> a = a0 /\ rep = mkReplyMsg true (gob_encode v).
Proof.
  intros Ha Hd. unfold Server_dispatch, Service_dispatch in Hd.
  apply bind_Some in Hd as ([sn mn] & _ & (svc & _ & ([[[svc' a'] v'] rep'] & Hd & [= _ <- <- <-])%bind_Some)%bind_Some).
  apply bind_Some in Hd as (f & _ & Hd).
  assert (gob_decode (args req) = Some (a0, [])) as Hg by (rewrite Ha, <- (app_nil_r (gob_encode a0)); apply gob_decode_encode).
  rewrite Hg in Hd. cbn in Hd. destruct (f (sv_rcvr svc) a0) as [o w]. by injection Hd as <- <- <- <-.
Qed.

(** A call that changes its phase only. *)
Lemma Inv_phase s s' id c p :
  Inv s -> calls s !! id = Some c -> history s' = history s -> calls s' = <[id := set_phase p c]> (calls s) ->
  call_ok (history s) id (set_phase p c) -> Inv s'.
Proof.
  intros [H1 H2 H3] Hc Hh Hcs Hok. split; rewrite ?Hh, ?Hcs; [done|..].
  - intros id' Hin. destruct (decide (id = id')) as [->|Hne]; [rewrite lookup_insert_eq; by eexists|].
    rewrite lookup_insert_ne by done. by apply H2.
  - intros id' c' [[<- <-]|[_ Hl]]%lookup_insert_Some; [done|by apply H3].
Qed.

(** Phases with no answer to justify. *)
Lemma call_ok_noReply h id c : call_ok h id c -> call_ok h id (set_phase (Returned noReply) c).
Proof. intros (Ha & Hh & _). by split_and!. Qed.

(** A call that fails. *)
Lemma Inv_fails s s' id c :
  Inv s -> calls s !! id = Some c -> history s' = history s -> calls s' = <[id := set_phase (Returned noReply) c]> (calls s) -> Inv s'.
Proof. intros HI Hc Hh Hcs. eapply (Inv_phase s s' id c (Returned noReply)); [done..|]. by apply call_ok_noReply, HI. Qed.

Lemma elem_ids (h : list (Z * Val * Val)) id a v : (id, a, v) ∈ h -> id ∈ h.*1.*1.
Proof. intros Hin. by apply (list_elem_of_fmap_2 fst _ (id, a)), (list_elem_of_fmap_2 fst _ (id, a, v)). Qed.

(** Another handler has run. *)
Lemma call_ok_other h id c x : x.1.1 <> id -> call_ok h id c -> call_ok (h ++ [x]) id c.
Proof.
  intros Hne ((a & Ha & Hu) & Hh & Hp).
  assert (Hid : id ∉ h.*1.*1 -> id ∉ (h ++ [x]).*1.*1) by (rewrite !fmap_app; set_solver).
  assert (Hin : forall a v, (id, a, v) ∈ h -> (id, a, v) ∈ h ++ [x]) by set_solver.
  split_and!.
  - exists a. split; [done|]. intros a' v [Hin'|Hin'%list_elem_of_singleton]%elem_of_app; [by eapply Hu|].
    by subst x.
  - auto.
  - destruct (c_phase c) as [| |n sv rel lr [rep|]|rep|rep]; naive_solver.
Qed.

Lemma Inv_handler s id c al server rs rs' a v rep :
  Inv s -> calls s !! id = Some c -> c_handler c = Some server -> Server_dispatch (c_req c) rs = Some (rs', a, v, rep) ->
  Inv (mkSys al (net s) (<[server := rs']> (heap s))
        (<[id := mkCall (c_req c) (answered rep (c_phase c)) None]> (calls s)) (history s ++ [(id, a, v)])).
Proof.
  intros [H1 H2 H3] Hc Hh Hd. destruct (H3 id c Hc) as ((a0 & Ha & Hu) & Hnew & Hp).
  destruct (dispatch_spec _ _ _ _ _ _ a0 Ha Hd) as [-> ->]. specialize (Hnew ltac:(congruence)).
  split; cbn.
  - rewrite !fmap_app. apply NoDup_app. split; [done|]. split; [|apply NoDup_singleton].
    intros x Hx Hx'%list_elem_of_singleton. cbn in Hx'. by subst x.
  - intros id'. rewrite !fmap_app, elem_of_app. cbn. rewrite list_elem_of_singleton. intros [Hin| ->].
    + destruct (decide (id = id')) as [->|Hne]; [rewrite lookup_insert_eq; by eexists|].
      rewrite lookup_insert_ne by done. by apply H2.
    + rewrite lookup_insert_eq. by eexists.
  - intros id' c' [[<- <-]|[Hne Hl]]%lookup_insert_Some; [|by apply call_ok_other, H3].
    assert (Hin : (id, a0, v) ∈ history s ++ [(id, a0, v)]) by set_solver.
    split_and!; cbn; [|done|].
    + exists a0. split; [done|]. intros a' v' [Hin'|Hin'%list_elem_of_singleton]%elem_of_app; [by eapply Hu|congruence].
    + destruct (c_phase c) as [| |n sv rel lr [rep'|]|rep'|rep'] eqn:Ep; cbn; try (destruct Hp as [Hp _]; congruence).
      * split; [done|]. by exists a0, v.
      * intros Hok. destruct (Hp Hok) as (a1 & v1 & Hin1 & _). by destruct Hnew; eapply elem_ids.
Qed.

Lemma Inv_new s s' id c a :
  Inv s -> calls s !! id = None -> calls s' = <[id := c]> (calls s) -> history s' = history s ->
  args (c_req c) = gob_encode a -> c_handler c = None -> c_phase c = Sent \/ c_phase c = Returned noReply -> Inv s'.
Proof.
  intros [H1 H2 H3] Hc Hcalls Hhist Ha Hh Hp.
  assert (Hno : id ∉ (history s).*1.*1) by (intros Hin; destruct (H2 id Hin); congruence).
  split; rewrite ?Hhist, ?Hcalls; [done|..].
  - intros id' Hin. destruct (decide (id = id')) as [->|Hne]; [rewrite lookup_insert_eq; by eexists|].
    rewrite lookup_insert_ne by done. by apply H2.
  - intros id' c' [[<- <-]|[Hne Hl]]%lookup_insert_Some; [|by apply H3]. split_and!; [|by rewrite Hh|].
    + exists a. split; [done|]. intros a' v Hin. by destruct Hno; eapply elem_ids.
    + by destruct Hp as [->| ->].
Qed.

Lemma happen_Inv ev s s' : Inv s -> happen ev s = Some s' -> Inv s'.
Proof.
  intros HI Hs. unfold happen in Hs. destruct (alive s); cbn [negb] in Hs; [|done].
  destruct ev as [id e meth a|id e meth a|id r|id|id|id r r'|id|op|rs].
  - destruct (calls s !! id) eqn:Hc; [done|]. injection Hs as <-. by eapply (Inv_new s _ id _ a HI Hc); [| |..|left].
  - destruct (calls s !! id) eqn:Hc; [done|]. destruct (done (net s)); [|done]. injection Hs as <-.
    by eapply (Inv_new s _ id _ a HI Hc); [| |..|right].
  - destruct (calls s !! id) as [c|] eqn:Hc; [|done]. cbn in Hs. destruct (c_phase c) eqn:Ep; try done. injection Hs as <-.
    pose proof (inv_call _ HI id c Hc) as Hok. pose proof Hok as (Ha & Hh & Hp). rewrite Ep in Hp. destruct Hp as [Hn Hid].
    assert (Inv (set_call id (set_phase Waiting c) s)) as HW by (eapply Inv_phase; try done; by split_and!).
    unfold process. repeat case_match; try done.
    + by apply (Inv_fails s _ id c).
    + destruct HI as [K1 K2 K3]. split; cbn; [done|..].
      * intros id' Hin. rewrite lookup_insert_ne by (intros ->; by apply Hid). by apply K2.
      * intros id' c' [[<- <-]|[Hne Hl]]%lookup_insert_Some; [by split_and!|by apply K3].
  - destruct (calls s !! id) as [c|] eqn:Hc; [|done]. cbn in Hs. destruct (c_handler c) as [server|] eqn:Hh; [|done].
    cbn in Hs. destruct (heap s !! server) as [rs|]; [|done]. cbn in Hs.
    destruct (Server_dispatch (c_req c) rs) as [[[[rs' a] v] rep]|] eqn:Hd; injection Hs as <-.
    + by eapply Inv_handler.
    + by destruct HI.
  - destruct (calls s !! id) as [c|] eqn:Hc; [|done]. cbn in Hs. destruct (c_phase c) as [| |n sv rel lr [rep|]|rep|rep] eqn:Ep; try done.
    destruct (isServerDead (endname (c_req c)) n sv (net s)); injection Hs as <-; [|done].
    by apply (Inv_fails s _ id c).
  - destruct (calls s !! id) as [c|] eqn:Hc; [|done]. cbn in Hs. destruct (c_phase c) as [| |n sv rel lr [rep|]|rep|rep] eqn:Ep; try done.
    pose proof (inv_call _ HI id c Hc) as Hok. pose proof Hok as (Ha & Hh & Hp). rewrite Ep in Hp.
    unfold answerWith in Hs.
    destruct (isServerDead _ _ _ _); [injection Hs as <-; by apply (Inv_fails s _ id c)|].
    destruct (negb rel && _); [injection Hs as <-; by apply (Inv_fails s _ id c)|].
    destruct (lr && _); injection Hs as <-.
    + apply (Inv_phase s _ id c (Delayed rep)); [done..|]. by split_and!.
    + apply (Inv_phase s _ id c (Returned rep)); [done..|]. split_and!; [done..|]. intros _. apply Hp.
  - destruct (calls s !! id) as [c|] eqn:Hc; [|done]. cbn in Hs. destruct (c_phase c) as [| |n sv rel lr [rep|]|rep|rep] eqn:Ep; try done;
      injection Hs as <-; pose proof (inv_call _ HI id c Hc) as Hok.
    + by apply (Inv_fails s _ id c).
    + apply (Inv_phase s _ id c (Returned rep)); [done..|]. destruct Hok as (Ha & Hh & Hp). rewrite Ep in Hp.
      split_and!; [done..|]. intros _. apply Hp.
  - destruct (op (net s)); injection Hs as <-; by destruct HI.
  - injection Hs as <-. by destruct HI.
Qed.

Lemma rpc_run_Inv evs s s' : Inv s -> run evs s = Some s' -> Inv s'.
Proof.
  revert s. induction evs as [|ev evs IH]; intros s HI Hr; [by injection Hr as <-|].
  cbn in Hr. apply bind_Some in Hr as (s1 & Hs & Hr). apply (IH s1); [|done]. by eapply happen_Inv.
Qed.

Lemma Inv_boot_net : Inv boot.
Proof. split; cbn; [constructor|by intros id ?%not_elem_of_nil|done]. Qed.
End LabRPC.
