(* ===== verification/LabRPCProps.v ===== *)
(** * LabRPCProps: what a call over the simulated network guarantees *)

From S2P Require Import Prelude Persister LabRPC.
Local Open Scope Z_scope.

Section Props.
Context {Name : Type} `{Countable Name}.
Context {byte Val Obj : Type} `{!Gob byte Val}.
Context (zero : Val).

(** C12: a call is executed at most once, and a call that returns true returns what its one
    execution computed.  In every run, whatever is lost, delayed, disabled, deleted or
    replaced: no handler runs twice for the same call; when [Call] returns true, the handler
    was given the value that the client sent, and the client decodes the value that the
    handler returned. *)
Theorem rpc_at_most_once evs (s : Sys (Name := Name) (byte := byte) (Val := Val) (Obj := Obj)) id c rep :
  run zero evs boot = Some s -> calls s !! id = Some c -> c_phase c = Returned rep ->
  NoDup (history s).*1.*1 /\
  (ok rep = true -> exists a v, (id, a, v) ∈ history s /\ args (c_req c) = gob_encode a /\
     callResult rep = Some (true, Some v)).
Proof.
  intros Hr Hc Hp. pose proof (rpc_run_Inv zero evs boot s Inv_boot_net Hr) as HI. split; [apply HI|]. intros Hok.
  destruct (inv_call _ HI id c Hc) as ((a0 & Ha & Hu) & _ & Hret). rewrite Hp in Hret.
  destruct (Hret Hok) as (a & v & Hin & ->). exists a, v. split_and!; [done|by rewrite (Hu a v Hin)|].
  unfold callResult. cbn. by rewrite <- (app_nil_r (gob_encode v)), gob_decode_encode.
Qed.

(** On a reliable network a call goes through.  When the client's end is enabled and connected
    to a live server that knows the method, and nothing else happens, the call runs the handler
    and returns its answer, whatever the random numbers are. *)
Theorem rpc_delivered (s : Sys (Name := Name) (byte := byte) (Val := Val) (Obj := Obj)) id c n p rs rs' a v rep r1 r2 r3 :
  alive s = true -> calls s !! id = Some c -> c_phase c = Sent ->
  isEnabled (endname (c_req c)) (net s) = true -> connections (net s) !! endname (c_req c) = Some (Some n) ->
  serverAt n (net s) = Some p -> reliable (net s) = true -> longReordering (net s) = false ->
  heap s !! p = Some rs -> Server_dispatch zero (c_req c) rs = Some (rs', a, v, rep) ->
  exists s' c', run zero [EvProcess id r1; EvHandler id; EvAnswer id r2 r3] s = Some s' /\ calls s' !! id = Some c' /\
    c_phase c' = Returned rep /\ heap s' = <[p := rs']> (heap s) /\ history s' = history s ++ [(id, a, v)].
Proof.
  intros Hal Hc Hph Hen Hcon Hsrv Hrel Hlong Hheap Hd.
  set (c1 := mkCall (c_req c) (Handling n p true false None) (Some p)).
  assert (process r1 c (net s) = c1) as Hproc.
  { unfold process, readEndnameInfo. rewrite Hcon. cbn. rewrite Hen, Hsrv. cbn. by rewrite Hrel, Hlong. }
  set (s1 := set_call id c1 s).
  assert (happen zero (EvProcess id r1) s = Some s1) as H1.
  { unfold happen. rewrite Hal, Hc. cbn. by rewrite Hph, Hproc. }
  set (s2 := mkSys true (net s) (<[p := rs']> (heap s))
               (<[id := mkCall (c_req c) (Handling n p true false (Some rep)) None]> (calls s1)) (history s ++ [(id, a, v)])).
  assert (happen zero (EvHandler id) s1 = Some s2) as H2.
  { unfold happen, s1. cbn. rewrite Hal, lookup_insert_eq. cbn. rewrite Hheap. cbn. by rewrite Hd. }
  assert (exists s3, happen zero (EvAnswer id r2 r3) s2 = Some s3 /\
    s3 = set_call id (mkCall (c_req c) (Returned rep) None) (set_net (countReply (zlen (reply rep)) (net s)) s2)) as (s3 & H3 & ->).
  { eexists. split; [|done]. unfold happen, s2. cbn. rewrite lookup_insert_eq. cbn.
    unfold answerWith, isServerDead. by rewrite Hen, Hsrv, bool_decide_eq_true_2 by done. }
  eexists _, _. cbn [run]. rewrite H1. cbn [mbind option_bind]. rewrite H2. cbn [mbind option_bind]. rewrite H3.
  split; [done|]. cbn. rewrite lookup_insert_eq. by split_and!.
Qed.
End Props.

(** ** The theorems at work *)

(** A counter: [Add] adds its argument and returns the sum. *)
Definition add_method : Method (Val := Z) (Obj := Z) := mkMethod "Add" "" 3 true 0 (fun n a => (n + a, n + a)).
Definition hidden : Method (Val := Z) (Obj := Z) := mkMethod "reset" "main" 3 true 0 (fun n a => (0, 0)).
Definition counter : Server (Val := Z) (Obj := Z) := AddService (MakeService "Counter" 5 [add_method; hidden]) MakeServer.

Abbreviation Ev := (Event (Name := string) (Val := Z) (Obj := Z)).

Definition connect : list Ev :=
  [EvNewServer counter; EvNetwork (fun rn => Some (AddServer "s" 0 rn)); EvNetwork (MakeEnd "e");
   EvNetwork (fun rn => Some (Connect "e" "s" rn)); EvNetwork (fun rn => Some (Enable "e" true rn));
   EvCall 1 "e" "Counter.Add" 3].

(** The server is replaced while the handler runs: the call fails, the handler still runs. *)
Definition replaced : list Ev :=
  connect ++ [EvProcess 1 7; EvNewServer counter; EvNetwork (fun rn => Some (AddServer "s" 1 rn)); EvTick 1; EvHandler 1;
              EvCall 2 "e" "Counter.Add" 4; EvProcess 2 0; EvHandler 2; EvAnswer 2 0 0].

Abbreviation St := (Sys (Name := string) (byte := Z) (Val := Z) (Obj := Z)).
Definition connected : St := default boot (run 0 connect boot).
Definition ended : St := default boot (run 0 replaced boot).

Lemma rpc_at_most_once_witness :
  (history ended).*1.*1 = [1; 2] /\
  exists a v, (2, a, v) ∈ history ended /\ [4] = [a] /\ callResult (byte := Z) (mkReplyMsg true [9]) = Some (true, Some v).
Proof.
  split; [by vm_compute|].
  destruct (rpc_at_most_once 0 replaced ended 2 (mkCall (mkReqMsg "e" "Counter.Add" [4]) (Returned (mkReplyMsg true [9])) None)
             (mkReplyMsg true [9])) as [_ Hok]; [by vm_compute..|].
  exact (Hok eq_refl).
Defined.

Lemma rpc_delivered_witness :
  exists s' c', run 0 [EvProcess 1 1; EvHandler 1; EvAnswer 1 2 3] connected = Some s' /\ calls s' !! 1 = Some c' /\
    c_phase c' = Returned (mkReplyMsg true [8]) /\
    heap s' = <[0%nat := mkServer {["Counter"%string := mkService "Counter" 8 {["Add"%string := m_Func add_method]}]} 1]> (heap connected) /\
    history s' = history connected ++ [(1, 3, 8)].
Proof.
  apply (rpc_delivered 0 connected 1 (mkCall (mkReqMsg "e" "Counter.Add" [3]) Sent None) "s" 0 counter); by vm_compute.
Defined.
