(* ===== verification/LabGob.v ===== *)
(** * LabGob: the checks around Go's encoder
      (src/6.5840-golabs-2024/src/labgob/labgob.go)

    [checkType] walks the graph of types that reflection shows, which may have cycles, and
    counts the fields that do not start with an upper-case letter.  [checkDefault] counts the
    non-default values down to depth three.  [isUpper] stands for the table [unicode.IsUpper].
    The encoding itself is [encoding/gob], the class [Gob] of Persister. *)

From S2P Require Import Prelude Text.
Local Open Scope Z_scope.

(** ** checkType *)

(** Types are compared by identity. *)
Abbreviation typ := nat.

Inductive Kind :=
| Struct (fields : list (string * typ))
| Slice (elem : typ)
| Array (elem : typ)
| Ptr (elem : typ)
| Map (key elem : typ)
| Basic.

(** The variables [checked] and [errorCount]. *)
Record State := mkState { checked : gset typ; errorCount : Z }.

Section CheckType.
Context (isUpper : Z -> bool) (kindOf : typ -> Kind).

Definition complain (name : string) (st : State) : State :=
  if isUpper (firstRune name) then st else mkState (checked st) (errorCount st + 1).

(** The recursion is on the graph: [fuel] bounds its depth, [None] when it is used up. *)
Fixpoint checkType (fuel : nat) (t : typ) (st : State) : option State :=
  match fuel with
  | O => None
  | S fuel =>
      if bool_decide (t ∈ checked st) then Some st
      else
        let st := mkState ({[t]} ∪ checked st) (errorCount st) in
        match kindOf t with
        | Struct fields =>
            foldl (fun acc f => st ← acc; checkType fuel f.2 (complain f.1 st)) (Some st) fields
        | Slice elem | Array elem | Ptr elem => checkType fuel elem st
        | Map key elem => st ← checkType fuel elem st; checkType fuel key st
        | Basic => Some st
        end
  end.

(** ** What it computes *)

(** The types a type is made of. *)
Definition components (t : typ) : list typ :=
  match kindOf t with
  | Struct fields => fields.*2
  | Slice elem | Array elem | Ptr elem => [elem]
  | Map key elem => [elem; key]
  | Basic => []
  end.

(** The number of its fields in lower case. *)
Definition lowerFields (t : typ) : Z :=
  match kindOf t with
  | Struct fields => zlen (filter (fun f => isUpper (firstRune f.1) = false) fields)
  | _ => 0
  end.

Definition lowerSum (X : gset typ) : Z := foldr Z.add 0 (lowerFields <$> elements X).

Lemma sum_perm (l l' : list Z) : l ≡ₚ l' -> foldr Z.add 0 l = foldr Z.add 0 l'.
Proof. induction 1; cbn; lia. Qed.

Lemma lowerSum_add t X : t ∉ X -> lowerSum ({[t]} ∪ X) = lowerFields t + lowerSum X.
Proof. intros Ht. unfold lowerSum. by rewrite (sum_perm _ (lowerFields <$> (t :: elements X))) by (by rewrite elements_union_singleton). Qed.

(** The complaints not explained by the types that are checked. *)
Definition excess (st : State) : Z := errorCount st - lowerSum (checked st).

(** From [st] to [st']: types of [U] are added, and what the new ones are made of. *)
Record walked (U : gset typ) (st st' : State) : Prop := {
  wk_mono : checked st ⊆ checked st';
  wk_within : checked st' ⊆ checked st ∪ U;
  wk_closed t c : t ∈ checked st' -> t ∉ checked st -> c ∈ components t -> c ∈ checked st'
}.

Lemma walked_refl U st st' : checked st = checked st' -> walked U st st'.
Proof. intros E. split; rewrite E; [done|set_solver|done]. Qed.

Lemma walked_trans U st1 st2 st3 : walked U st1 st2 -> walked U st2 st3 -> walked U st1 st3.
Proof.
  intros [M1 W1 C1] [M2 W2 C2]. split; [set_solver..|]. intros t c Ht3 Ht1 Hc.
  destruct (decide (t ∈ checked st2)) as [Ht2|Ht2]; [apply M2; by eapply C1|by eapply C2].
Qed.

Section Graph.
(** A finite set of types that contains what its types are made of. *)
Context (U : gset typ) (HU : forall t c, t ∈ U -> c ∈ components t -> c ∈ U).

(** How many types are left. *)
Definition left_ (st : State) : nat := size (U ∖ checked st).

Lemma left_mono st st' : checked st ⊆ checked st' -> (left_ st' <= left_ st)%nat.
Proof. intros Hs. unfold left_. apply subseteq_size. set_solver. Qed.

Lemma left_add st t : t ∈ U -> t ∉ checked st -> (left_ (mkState ({[t]} ∪ checked st) (errorCount st)) < left_ st)%nat.
Proof. intros Ht Hn. unfold left_. apply subset_size. cbn. set_solver. Qed.

(** What a call of [checkType] on [t] does. *)
Definition visits (fuel : nat) (t : typ) : Prop :=
  forall st, (left_ st < fuel)%nat ->
  exists st', checkType fuel t st = Some st' /\ walked U st st' /\ t ∈ checked st' /\ excess st' = excess st.

Lemma complain_walked name st : walked U st (complain name st) /\
  excess (complain name st) = excess st + (if isUpper (firstRune name) then 0 else 1).
Proof.
  unfold complain, excess. destruct (isUpper (firstRune name)); cbn; (split; [by apply walked_refl|lia]).
Qed.

(** The loop over the fields. *)
Lemma fields_visited fuel fields st :
  (forall f, f ∈ fields -> visits fuel f.2) -> (left_ st < fuel)%nat ->
  exists st', foldl (fun acc f => st ← acc; checkType fuel f.2 (complain f.1 st)) (Some st) fields = Some st' /\
    walked U st st' /\ (forall c, c ∈ fields.*2 -> c ∈ checked st') /\
    excess st' = excess st + zlen (filter (fun f => isUpper (firstRune f.1) = false) fields).
Proof.
  revert st. induction fields as [|f fields IH]; intros st Hv Hlt.
  - exists st. split_and!; [done|by apply walked_refl|by intros c ?%not_elem_of_nil|unfold zlen; cbn; lia].
  - cbn [foldl mbind option_bind]. destruct (complain_walked f.1 st) as [Wc Ec].
    destruct (Hv f ltac:(by left) (complain f.1 st)) as (st1 & -> & W1 & Hin & E1).
    { pose proof (left_mono _ _ (wk_mono _ _ _ Wc)). lia. }
    pose proof (walked_trans _ _ _ _ Wc W1) as W01.
    destruct (IH st1) as (st2 & -> & W2 & Hall & E2).
    { intros g Hg. apply Hv. by right. }
    { pose proof (left_mono _ _ (wk_mono _ _ _ W01)). lia. }
    exists st2. split_and!; [done|by eapply walked_trans| |].
    + intros c [->|Hc]%elem_of_cons; [by apply (wk_mono _ _ _ W2)|by apply Hall].
    + rewrite E2, E1, Ec. destruct (isUpper (firstRune f.1)) eqn:Eu.
      * rewrite filter_cons_False by (by rewrite Eu). lia.
      * rewrite filter_cons_True by done. unfold zlen. cbn [length]. lia.
Qed.

(** The body of [checkType] after [t] was marked. *)
Lemma mark_walked st st' t :
  t ∈ U -> t ∉ checked st -> let st1 := mkState ({[t]} ∪ checked st) (errorCount st) in
  walked U st1 st' -> (forall c, c ∈ components t -> c ∈ checked st') -> excess st' = excess st1 + lowerFields t ->
  walked U st st' /\ t ∈ checked st' /\ excess st' = excess st.
Proof.
  intros Ht Hn st1 [M W C] Hc E. cbn in M, W. split_and!.
  - split; [set_solver..|]. intros t' c Ht' Hn' Hcc. destruct (decide (t' = t)) as [->|Hne]; [by apply Hc|].
    apply (C t'); [done|cbn; set_solver|done].
  - set_solver.
  - rewrite E. unfold excess, st1. cbn. rewrite lowerSum_add by done. lia.
Qed.

Lemma checkType_visits fuel t : t ∈ U -> visits fuel t.
Proof.
  revert t. induction fuel as [|fuel IH]; intros t Ht st Hlt; [lia|]. cbn [checkType].
  case_bool_decide as Hin; [exists st; split_and!; [done|by apply walked_refl|done|done]|].
  pose proof (left_add st t Ht Hin) as Hadd. set (st1 := mkState ({[t]} ∪ checked st) (errorCount st)) in *.
  pose proof (mark_walked st) as Hmark. pose proof (HU t) as HUt. unfold components, lowerFields in Hmark, HUt.
  destruct (kindOf t) as [fields|elem|elem|elem|key elem|] eqn:Ek.
  - destruct (fields_visited fuel fields st1) as (st' & Hr & W & Hall & E); [|lia|].
    + intros f Hf. apply IH, HUt; [done|]. by apply list_elem_of_fmap_2.
    + exists st'. split; [done|]. specialize (Hmark st' t Ht Hin). rewrite Ek in Hmark. by apply Hmark.
  - destruct (IH elem ltac:(apply HUt; set_solver) st1 ltac:(lia)) as (st' & Hr & W & Hi & E).
    exists st'. split; [done|]. specialize (Hmark st' t Ht Hin). rewrite Ek in Hmark. apply Hmark; [done|set_solver|by rewrite E, Z.add_0_r].
  - destruct (IH elem ltac:(apply HUt; set_solver) st1 ltac:(lia)) as (st' & Hr & W & Hi & E).
    exists st'. split; [done|]. specialize (Hmark st' t Ht Hin). rewrite Ek in Hmark. apply Hmark; [done|set_solver|by rewrite E, Z.add_0_r].
  - destruct (IH elem ltac:(apply HUt; set_solver) st1 ltac:(lia)) as (st' & Hr & W & Hi & E).
    exists st'. split; [done|]. specialize (Hmark st' t Ht Hin). rewrite Ek in Hmark. apply Hmark; [done|set_solver|by rewrite E, Z.add_0_r].
  - destruct (IH elem ltac:(apply HUt; set_solver) st1 ltac:(lia)) as (st' & Hr & W & Hi & E). rewrite Hr. cbn [mbind option_bind].
    pose proof (left_mono _ _ (wk_mono _ _ _ W)) as Hl.
    destruct (IH key ltac:(apply HUt; set_solver) st' ltac:(lia)) as (st2 & Hr2 & W2 & Hi2 & E2).
    exists st2. split; [done|]. specialize (Hmark st2 t Ht Hin). rewrite Ek in Hmark.
    pose proof (wk_mono _ _ _ W2) as HM2.
    apply Hmark; [by eapply walked_trans|intros c [->|[->|?%not_elem_of_nil]%elem_of_cons]%elem_of_cons; [by apply HM2|done|done]|by rewrite E2, E, Z.add_0_r].
  - exists st1. split; [done|]. specialize (Hmark st1 t Ht Hin). rewrite Ek in Hmark.
    apply Hmark; [by apply walked_refl|by intros c ?%not_elem_of_nil|by rewrite Z.add_0_r].
Qed.
End Graph.
End CheckType.

(** C40: [checkType] terminates on every finite graph of types, cyclic or not, and complains exactly
    once.  Started on a type of a finite set that contains what its types are made of, it ends
    with all types reachable through unchecked ones checked; the error counter grows by the
    number of lower-case fields of the newly checked types; checking any of them again changes
    nothing. *)
Theorem checkType_complains_once isUpper kindOf (U : gset typ) fuel t st :
  (forall t c, t ∈ U -> c ∈ components kindOf t -> c ∈ U) -> t ∈ U -> (size U < fuel)%nat ->
  exists st', checkType isUpper kindOf fuel t st = Some st' /\ t ∈ checked st' /\ walked kindOf U st st' /\
    errorCount st' - errorCount st = lowerSum isUpper kindOf (checked st') - lowerSum isUpper kindOf (checked st) /\
    forall t', t' ∈ checked st' -> checkType isUpper kindOf fuel t' st' = Some st'.
Proof.
  intros HU Ht Hf. destruct (checkType_visits isUpper kindOf U HU fuel t Ht st) as (st' & Hr & W & Hin & E).
  - unfold left_. assert (size (U ∖ checked st) <= size U)%nat by (apply subseteq_size; set_solver). lia.
  - exists st'. split_and!; [done|done|done|unfold excess in E; lia|]. intros t' Ht'.
    destruct fuel as [|fuel]; [lia|]. cbn. by rewrite bool_decide_eq_true_2.
Qed.

(** ** checkDefault *)

(** A value as reflection shows it. *)
#[warnings="-register-all"]
Inductive Value :=
| VStruct (fields : list Value)
| VNil
| VPtr (v : Value)
| VBasic (isZero : bool)
| VOther.

(** [levels] more may be entered; [depth > 3] is [levels = 0].  The count of the values
    that are not zero, which is what is added to [errorCount]. *)
Fixpoint checkDefault1 (levels : nat) (value : Value) (errorCount : Z) : Z :=
  match levels with
  | O => errorCount
  | S levels =>
      match value with
      | VStruct fields => foldl (fun n f => checkDefault1 levels f n) errorCount fields
      | VNil => errorCount
      | VPtr v => checkDefault1 levels v errorCount
      | VBasic isZero => if isZero then errorCount else errorCount + 1
      | VOther => errorCount
      end
  end.
Definition checkDefault (value : Value) (errorCount : Z) : Z := checkDefault1 3 value errorCount.

(** ** The wrappers *)

Section Wrappers.
Context (isUpper : Z -> bool) (kindOf : typ -> Kind).
(** The encoder, the decoder and the registry of encoding/gob, with the error they return. *)
Context {Enc Dec Reg Err : Type}.
Context (gob_Encode : typ * Value -> Enc -> Enc * option Err) (gob_Decode : typ * Value -> Dec -> Dec * option Err).
Context (gob_Register : typ * Value -> Reg -> Reg) (gob_RegisterName : string -> typ * Value -> Reg -> Reg).

(** A value of interface type: nil, or a value with its type.  The type of nil is nil, and asking for its
    kind panics: [None]. *)
Definition checkValue (fuel : nat) (value : option (typ * Value)) (st : State) : option State :=
  v ← value; checkType isUpper kindOf fuel v.1 st.

Definition Encode (fuel : nat) (e : option (typ * Value)) (enc : Enc) (st : State) : option (State * (Enc * option Err)) :=
  st ← checkValue fuel e st; v ← e; Some (st, gob_Encode v enc).
(** [value.Interface()] is the value itself. *)
Definition EncodeValue (fuel : nat) (value : typ * Value) (enc : Enc) (st : State) : option (State * (Enc * option Err)) :=
  st ← checkValue fuel (Some value) st; Some (st, gob_Encode value enc).
Definition Decode (fuel : nat) (e : option (typ * Value)) (dec : Dec) (st : State) : option (State * (Dec * option Err)) :=
  st ← checkValue fuel e st; v ← e;
  Some (mkState (checked st) (checkDefault v.2 (errorCount st)), gob_Decode v dec).
Definition Register (fuel : nat) (value : option (typ * Value)) (reg : Reg) (st : State) : option (State * Reg) :=
  st ← checkValue fuel value st; v ← value; Some (st, gob_Register v reg).
Definition RegisterName (fuel : nat) (name : string) (value : option (typ * Value)) (reg : Reg) (st : State) : option (State * Reg) :=
  st ← checkValue fuel value st; v ← value; Some (st, gob_RegisterName name v reg).
End Wrappers.

(** ** The theorem at work *)

(** A list node: its pointer leads back to it. *)
Definition nodeTypes (t : typ) : Kind :=
  match t with
  | 0%nat => Struct [("Next"%string, 1%nat); ("val"%string, 2%nat)]
  | 1%nat => Ptr 0
  | _ => Basic
  end.
Definition upperAscii (r : Z) : bool := (65 <=? r) && (r <=? 90).

Lemma checkType_complains_once_witness :
  exists st', checkType upperAscii nodeTypes 4 0 (mkState ∅ 0) = Some st' /\ errorCount st' = 1 /\
    checkType upperAscii nodeTypes 4 0 st' = Some st'.
Proof.
  destruct (checkType_complains_once upperAscii nodeTypes {[0; 1; 2]}%nat 4 0 (mkState ∅ 0)) as (st' & Hr & Hin & _ & _ & Hagain).
  - intros t c. rewrite !elem_of_union, !elem_of_singleton. intros [[->| ->]| ->]; cbn; set_solver.
  - set_solver.
  - vm_compute. lia.
  - exists st'. split_and!; [done| |by apply Hagain]. vm_compute in Hr. by injection Hr as <-.
Defined.
