(* ===== verification/TestNet.v ===== *)
(** * TestNet: the network of the testers
      (shared parts of raft/config.go, kvraft/config.go, shardctrler/config.go and
      shardkv/config.go under src/6.5840-golabs-2024/src/)

    The testers give every client end a random string as its name and make, connect and enable
    ends in loops.  Servers are named by numbers, in shardkv by strings.  [None] is
    [log.Fatalf] of the network. *)

From S2P Require Import Prelude LabRPC.
Local Open Scope Z_scope.

(** Names on the network. *)
Abbreviation NetName := (string + Z)%type.
Abbreviation Net := (Network (Name := NetName)).

Definition enableAll (b : bool) (es : list string) (rn : Net) : Net := foldl (fun rn e => Enable (inl e) b rn) rn es.

(** The loop that makes and connects the ends. *)
Fixpoint makeEnds (names : list string) (j : Z) (rn : Net) : option Net :=
  match names with
  | [] => Some rn
  | e :: names => rn ← MakeEnd (inl e) rn; makeEnds names (j + 1) (Connect (inl e) (inr j) rn)
  end.

(** Settings of the network. *)
Inductive Setting := SetReliable (b : bool) | SetLongReordering (b : bool) | SetLongDelays (b : bool) | SetCleanup.
Definition applySetting (x : Setting) (rn : Net) : option Net :=
  match x with
  | SetReliable b => Some (Reliable b rn)
  | SetLongReordering b => Some (LongReordering b rn)
  | SetLongDelays b => Some (LongDelays b rn)
  | SetCleanup => Cleanup rn
  end.

Lemma mapM_elem {A B} (f : A -> option B) l k y : mapM f l = Some k -> y ∈ k <-> exists x, x ∈ l /\ f x = Some y.
Proof.
  intros Hm%mapM_Some. induction Hm as [|x z l k Hx Hm IH]; [set_solver|]. rewrite elem_of_cons, IH.
  setoid_rewrite elem_of_cons. naive_solver.
Qed.

Lemma isEnabled_enableAll b es rn e :
  isEnabled (inl e) (enableAll b es rn) = if decide (e ∈ es) then b else isEnabled (inl e) rn.
Proof.
  unfold enableAll. revert rn. induction es as [|e' es IH]; intros rn; [done|]. cbn [foldl]. rewrite IH.
  unfold isEnabled, Enable. cbn. destruct (decide (e = e')) as [->|Hne].
  - rewrite lookup_insert_eq, (decide_True (P := e' ∈ e' :: es)) by (by left). by case_decide.
  - rewrite lookup_insert_ne by congruence. do 2 case_decide; set_solver.
Qed.

Lemma ends_enableAll b es rn : ends (enableAll b es rn) = ends rn.
Proof. unfold enableAll. revert rn. induction es as [|e es IH]; intros rn; [done|]. cbn. by rewrite IH. Qed.

Lemma makeEnds_spec (names : list string) (j : Z) (rn rn' : Net) :
  makeEnds names j rn = Some rn' ->
  NoDup names /\ (forall e, e ∈ names -> inl e ∉ ends rn) /\
  (forall x, x ∈ ends rn' <-> x ∈ ends rn \/ exists e, x = inl e /\ e ∈ names) /\
  forall e, isEnabled (inl e) rn' = if decide (e ∈ names) then false else isEnabled (inl e) rn.
Proof.
  revert j rn. induction names as [|e names IH]; intros j rn Hm.
  - injection Hm as <-. split_and!; [constructor|set_solver|set_solver|done].
  - cbn in Hm. unfold MakeEnd in Hm. case_bool_decide as Hnew; [done|]. cbn in Hm.
    destruct (IH _ _ Hm) as (Hnd & Hfr & Hends & Hen). cbn in Hfr, Hends. split_and!.
    + constructor; [|done]. intros Hin. apply (Hfr e Hin). set_solver.
    + intros e' [->|Hin]%elem_of_cons; [done|]. specialize (Hfr e' Hin). set_solver.
    + intros x. rewrite Hends. set_solver.
    + intros e'. rewrite Hen. unfold isEnabled, Connect. cbn. destruct (decide (e' = e)) as [->|Hne].
      * rewrite lookup_insert_eq, (decide_True (P := e ∈ e :: names)) by (by left). by case_decide.
      * rewrite lookup_insert_ne by congruence. do 2 case_decide; set_solver.
Qed.

Lemma enableAll_app b es es' rn : enableAll b (es ++ es') rn = enableAll b es' (enableAll b es rn).
Proof. apply foldl_app. Qed.

(** Enabling changes nothing but [enabled]. *)
Lemma enableAll_frame b es rn :
  let rn' := enableAll b es rn in
  ends rn' = ends rn /\ connections rn' = connections rn /\ servers rn' = servers rn /\
  reliable rn' = reliable rn /\ longReordering rn' = longReordering rn.
Proof.
  unfold enableAll. revert rn. induction es as [|e es IH]; intros rn; [done|]. cbn.
  destruct (IH (Enable (inl e) b rn)) as (-> & -> & -> & -> & ->). done.
Qed.

Lemma makeEnds_frame (names : list string) (j : Z) (rn rn' : Net) :
  makeEnds names j rn = Some rn' ->
  servers rn' = servers rn /\ reliable rn' = reliable rn /\ longReordering rn' = longReordering rn /\
  (forall d e, names !! d = Some e -> connections rn' !! inl e = Some (Some (inr (j + Z.of_nat d)))) /\
  (forall e, e ∉ names -> connections rn' !! inl e = connections rn !! inl e).
Proof.
  revert j rn. induction names as [|e names IH]; intros j rn Hm.
  - injection Hm as <-. by split_and!.
  - pose proof (makeEnds_spec _ _ _ _ Hm) as (Hnd%NoDup_cons & _). destruct Hnd as [Hnin _].
    cbn in Hm. apply bind_Some in Hm as (rn1 & Hme & Hm). destruct (IH _ _ Hm) as (H1 & H2 & H3 & H4 & H5).
    unfold MakeEnd in Hme. case_bool_decide; [done|]. injection Hme as <-. cbn in H1, H2, H3.
    split_and!; [done..| |].
    + intros [|d] e' Hl; cbn in Hl.
      * injection Hl as ->. rewrite H5 by done. cbn. rewrite lookup_insert_eq. do 3 f_equal. lia.
      * rewrite (H4 d e' Hl). do 3 f_equal. lia.
    + intros e' [Hne Hni]%not_elem_of_cons. rewrite H5 by done. cbn. by rewrite !lookup_insert_ne by congruence.
Qed.

(** Fresh names that are all different can be made. *)
Lemma makeEnds_succeeds (names : list string) (j : Z) (rn : Net) :
  NoDup names -> (forall e, e ∈ names -> inl e ∉ ends rn) -> exists rn', makeEnds names j rn = Some rn'.
Proof.
  revert j rn. induction names as [|e names IH]; intros j rn Hnd Hfr; [by eexists|]. apply NoDup_cons in Hnd as [Hni Hnd].
  cbn. unfold MakeEnd. rewrite bool_decide_eq_false_2 by (apply Hfr; by left). cbn. apply IH; [done|].
  intros e' Hin. cbn. specialize (Hfr e'). set_solver.
Qed.
