(* ===== verification/RaftConfig.v ===== *)
(** * RaftConfig: the Raft tester
      (src/6.5840-golabs-2024/src/raft/config.go)

    The tester keeps the servers on the simulated network, partitions it, crashes and restarts
    servers, and checks what they apply.  [None] is [log.Fatalf], [t.Fatal] or a panic.  End
    names are random strings, server names are numbers; a Raft instance is an address.  The
    values of interface type [V] have nil. *)

From S2P Require Import Prelude Persister LabRPC TestNet.
Local Open Scope Z_scope.

Section RaftConfig.
Context {V byte : Type} `{!EqDecision V} (nil_ : V).
Context `{!Gob byte Z} `{!Gob byte (list V)}.

Record ApplyMsg := mkApplyMsg {
  CommandValid : bool;
  Command : V;
  CommandIndex : Z;
  SnapshotValid : bool;
  Snapshot : list byte;
  SnapshotIndex : Z
}.

Record config := mkConfig {
  net : Net;
  n : nat;
  rafts : list (option nat);
  connected : list bool;
  saved : list (option (Persister byte));
  endnames : list (option (list string));
  logs : list (gmap Z V);
  lastApplied : list Z;
  maxIndex : Z
}.

Definition set_net x c := mkConfig x (n c) (rafts c) (connected c) (saved c) (endnames c) (logs c) (lastApplied c) (maxIndex c).
Definition set_rafts x c := mkConfig (net c) (n c) x (connected c) (saved c) (endnames c) (logs c) (lastApplied c) (maxIndex c).
Definition set_connected x c := mkConfig (net c) (n c) (rafts c) x (saved c) (endnames c) (logs c) (lastApplied c) (maxIndex c).
Definition set_saved x c := mkConfig (net c) (n c) (rafts c) (connected c) x (endnames c) (logs c) (lastApplied c) (maxIndex c).
Definition set_endnames x c := mkConfig (net c) (n c) (rafts c) (connected c) (saved c) x (logs c) (lastApplied c) (maxIndex c).
Definition set_logs x c := mkConfig (net c) (n c) (rafts c) (connected c) (saved c) (endnames c) x (lastApplied c) (maxIndex c).
Definition set_lastApplied x c := mkConfig (net c) (n c) (rafts c) (connected c) (saved c) (endnames c) (logs c) x (maxIndex c).
Definition set_maxIndex x c := mkConfig (net c) (n c) (rafts c) (connected c) (saved c) (endnames c) (logs c) (lastApplied c) x.

(** ** The network of the test *)

(** [cfg.endnames[i][j]]; [None] is an index out of range, also for a nil slice. *)
Definition endnameOf (c : config) (i j : nat) : option string := names ← mjoin (endnames c !! i); names !! j.

Definition isConnected (c : config) (i : nat) : bool := default false (connected c !! i).

Definition connect (i : nat) (c : config) : option config :=
  let c := set_connected (<[i := true]> (connected c)) c in
  let js := filter (fun j => isConnected c j = true) (seq 0 (n c)) in
  outgoing ← mapM (fun j => endnameOf c i j) js;
  incoming ← mapM (fun j => endnameOf c j i) js;
  Some (set_net (enableAll true incoming (enableAll true outgoing (net c))) c).

Definition hasEnds (c : config) (i : nat) : bool := match endnames c !! i with Some (Some _) => true | _ => false end.

Definition disconnect (i : nat) (c : config) : option config :=
  let c := set_connected (<[i := false]> (connected c)) c in
  outgoing ← mapM (fun j => endnameOf c i j) (filter (fun j => hasEnds c i = true) (seq 0 (n c)));
  incoming ← mapM (fun j => endnameOf c j i) (filter (fun j => hasEnds c j = true) (seq 0 (n c)));
  Some (set_net (enableAll false incoming (enableAll false outgoing (net c))) c).

(** ** Crash and restart *)

(** The old instance is killed; the new persister holds what the old one held. *)
Definition crash1 (i : nat) (c : config) : option config :=
  c ← disconnect i c;
  let c := set_net (DeleteServer (inr (Z.of_nat i)) (net c)) c in
  let c := set_rafts (<[i := None]> (rafts c)) c in
  match saved c !! i with
  | Some (Some ps) =>
      let ps := Copy ps in
      Some (set_saved (<[i := Some (Save (ReadRaftState ps) (ReadSnapshot ps) (mkPersister [] []))]> (saved c)) c)
  | _ => Some c
  end.

(** [ingestSnap]: the error it returns is [inr]; [None] is fatal. *)
Definition ingestSnap (i : nat) (snapshot : list byte) (index : Z) (c : config) : option (config + unit) :=
  '(lastIncludedIndex, rest) ← gob_decode (T := Z) snapshot;
  '(xlog, _) ← gob_decode (T := list V) rest;
  if negb (index =? -1) && negb (index =? lastIncludedIndex) then Some (inr tt)
  else
    let m := foldl (fun m p => <[Z.of_nat p.1 := p.2]> m) ∅ (imap pair xlog) in
    Some (inl (set_lastApplied (<[i := lastIncludedIndex]> (lastApplied c)) (set_logs (<[i := m]> (logs c)) c))).

(** [names]: the random strings; [rf]: the new Raft instance, [server]: its server. *)
Definition start1 (i : nat) (names : list string) (rf server : nat) (c : config) : option config :=
  c ← crash1 i c;
  if negb (bool_decide (length names = n c)) then None
  else
    let c := set_endnames (<[i := Some names]> (endnames c)) c in
    rn ← makeEnds names 0 (net c);
    let c := set_lastApplied (<[i := 0]> (lastApplied c)) (set_net rn c) in
    c ← match saved c !! i with
        | Some (Some ps) =>
            let ps := Copy ps in
            let c := set_saved (<[i := Some ps]> (saved c)) c in
            if bool_decide (ReadSnapshot ps = []) then Some c
            else r ← ingestSnap i (ReadSnapshot ps) (-1) c;
                 match r with inl c => Some c | inr _ => None end
        | _ => Some (set_saved (<[i := Some MakePersister]> (saved c)) c)
        end;
    Some (set_net (AddServer (inr (Z.of_nat i)) server (net c)) (set_rafts (<[i := Some rf]> (rafts c)) c)).

(** ** What the servers apply *)

(** The error and [prevok]. *)
Definition checkLogs (i : nat) (m : ApplyMsg) (c : config) : option (config * bool * bool) :=
  let v := Command m in
  let err := existsb (fun l => match l !! CommandIndex m with Some old => negb (bool_decide (old = v)) | None => false end) (logs c) in
  li ← logs c !! i;
  let prevok := bool_decide (is_Some (li !! (CommandIndex m - 1))) in
  let c := set_logs (<[i := <[CommandIndex m := v]> li]> (logs c)) c in
  let c := if CommandIndex m >? maxIndex c then set_maxIndex (CommandIndex m) c else c in
  Some (c, err, prevok).

(** One round of [applier]. *)
Definition applier (i : nat) (m : ApplyMsg) (c : config) : option config :=
  if negb (CommandValid m) then Some c
  else
    '(c, err, prevok) ← checkLogs i m c;
    if err || ((CommandIndex m >? 1) && negb prevok) then None else Some c.

Definition SnapShotInterval : Z := 10.

(** One round of [applierSnap]: the new state and the snapshot it hands to [rf.Snapshot]. *)
Definition applierSnap (i : nat) (m : ApplyMsg) (c : config) : option (config * option (Z * list byte)) :=
  if SnapshotValid m then
    r ← ingestSnap i (Snapshot m) (SnapshotIndex m) c;
    match r with inl c => Some (c, None) | inr _ => None end
  else if CommandValid m then
    last ← lastApplied c !! i;
    if negb (CommandIndex m =? last + 1) then None
    else
      '(c, err, prevok) ← checkLogs i m c;
      if err || ((CommandIndex m >? 1) && negb prevok) then None
      else
        let c := set_lastApplied (<[i := CommandIndex m]> (lastApplied c)) c in
        li ← logs c !! i;
        let snap := if Z.rem (CommandIndex m + 1) SnapShotInterval =? 0
                    then Some (CommandIndex m, gob_encode (CommandIndex m) ++
                           gob_encode ((fun j => default nil_ (li !! Z.of_nat j)) <$> seq 0 (Z.to_nat (CommandIndex m + 1))))
                    else None in
        Some (c, snap)
  else Some (c, None).

(** ** Checks on the servers; [state i] is what [GetState] of server [i] answers *)

Section Checks.
Context (state : nat -> Z * bool).

(** One round of [checkOneLeader]: fatal, a leader of the highest term, or none yet. *)
Definition leadersOf (c : config) (term : Z) : list nat :=
  filter (fun i => isConnected c i = true /\ state i = (term, true)) (seq 0 (n c)).
Definition leaderTerms (c : config) : list Z :=
  (fun i => (state i).1) <$> filter (fun i => isConnected c i = true /\ (state i).2 = true) (seq 0 (n c)).
Definition oneLeader (c : config) : option (option nat) :=
  if existsb (fun term => Nat.ltb 1 (length (leadersOf c term))) (leaderTerms c) then None
  else match leaderTerms c with
       | [] => Some None
       | ts => Some (head (leadersOf c (foldl Z.max (-1) ts)))
       end.

Fixpoint checkTermsFrom (c : config) (is_ : list nat) (term : Z) : option Z :=
  match is_ with
  | [] => Some term
  | i :: is_ =>
      if isConnected c i
      then if term =? -1 then checkTermsFrom c is_ (state i).1
           else if term =? (state i).1 then checkTermsFrom c is_ term else None
      else checkTermsFrom c is_ term
  end.
Definition checkTerms (c : config) : option Z := checkTermsFrom c (seq 0 (n c)) (-1).

Definition checkNoLeader (c : config) : bool :=
  negb (existsb (fun i => isConnected c i && (state i).2) (seq 0 (n c))).
End Checks.

(** [checkOneLeader]: the answers of [GetState] in each of the rounds, ten in the code. *)
Fixpoint checkOneLeader (rounds : list (nat -> Z * bool)) (c : config) : option nat :=
  match rounds with
  | [] => None
  | state :: rounds =>
      r ← oneLeader state c;
      match r with
      | Some leader => Some leader
      | None => checkOneLeader rounds c
      end
  end.

(** [nCommitted]: how many servers have the entry, and which. *)
Fixpoint committedFrom (ls : list (gmap Z V)) (index : Z) (count : Z) (cmd : V) : option (Z * V) :=
  match ls with
  | [] => Some (count, cmd)
  | l :: ls =>
      match l !! index with
      | Some cmd1 =>
          if (count >? 0) && negb (bool_decide (cmd = cmd1)) then None
          else committedFrom ls index (count + 1) cmd1
      | None => committedFrom ls index count cmd
      end
  end.
Definition nCommitted (index : Z) (c : config) : option (Z * V) := committedFrom (logs c) index 0 nil_.

(** The initial state of [make_config]; its loops call [start1] and [connect]. *)
Definition initial (n : nat) (unreliable : bool) : config :=
  mkConfig (LongDelays true (Reliable (negb unreliable) MakeNetwork)) n (replicate n None) (replicate n false)
    (replicate n None) (replicate n None) (replicate n ∅) (replicate n 0) 0.

Fixpoint startAll (i : nat) (names : list (list string)) (c : config) : option config :=
  match names with
  | [] => Some c
  | ns :: names => c ← start1 i ns i i c; startAll (S i) names c
  end.
Fixpoint connectAll (is_ : list nat) (c : config) : option config :=
  match is_ with
  | [] => Some c
  | i :: is_ => c ← connect i c; connectAll is_ c
  end.
Definition make_config (n : nat) (unreliable : bool) (names : list (list string)) : option config :=
  c ← startAll 0 names (initial n unreliable);
  connectAll (seq 0 n) c.

(** [LogSize]; a nil persister panics. *)
Definition LogSize (c : config) : option Z :=
  foldl (fun acc ps => m ← acc; ps ← ps; Some (if RaftStateSize ps >? m then RaftStateSize ps else m)) (Some 0) (saved c).
End RaftConfig.
Arguments config : clear implicits.
Arguments ApplyMsg : clear implicits.
