(* ===== verification/RaftConfigProps.v ===== *)
(** * RaftConfigProps: what the Raft tester checks and controls

    The tester's appliers accept exactly the sequences of messages in which all servers apply
    the same command at an index and each server applies in order.  The network between the
    servers is exactly what [connected] says. *)

From S2P Require Import Prelude Persister LabRPC TestNet RaftConfig.
Local Open Scope Z_scope.

(** ** The appliers *)

Section Applier.
Context {V byte : Type} `{!EqDecision V}.
Implicit Types (c : config V byte) (m : ApplyMsg V byte).

(** Messages of all servers in the order in which they are read. *)
Fixpoint readAll (ms : list (nat * ApplyMsg V byte)) c : option (config V byte) :=
  match ms with
  | [] => Some c
  | (i, m) :: ms => c ← applier i m c; readAll ms c
  end.

Lemma readAll_snoc ms i m c : readAll (ms ++ [(i, m)]) c = c' ← readAll ms c; applier i m c'.
Proof.
  revert c. induction ms as [|[j m'] ms IH]; intros c; cbn; [by destruct (applier i m c)|].
  destruct (applier j m' c); [apply IH|done].
Qed.

(** The logs of the tester are what was applied. *)
Definition logged (ms : list (nat * ApplyMsg V byte)) c : Prop :=
  forall i l k v, logs c !! i = Some l -> l !! k = Some v <->
    exists m, (i, m) ∈ ms /\ CommandIndex m = k /\ Command m = v.

(** All servers apply the same command at an index. *)
Definition agree (ms : list (nat * ApplyMsg V byte)) : Prop :=
  forall i j m m', (i, m) ∈ ms -> (j, m') ∈ ms -> CommandIndex m = CommandIndex m' -> Command m = Command m'.

(** A server applies an index above one after the index before it. *)
Definition in_order (ms : list (nat * ApplyMsg V byte)) : Prop :=
  forall ms1 i m ms2, ms = ms1 ++ (i, m) :: ms2 -> 1 < CommandIndex m ->
  exists m', (i, m') ∈ ms1 /\ CommandIndex m' = CommandIndex m - 1.

Lemma agree_snoc ms i m :
  agree (ms ++ [(i, m)]) <->
  agree ms /\ forall j m', (j, m') ∈ ms -> CommandIndex m' = CommandIndex m -> Command m' = Command m.
Proof.
  unfold agree. split.
  - intros Ha. split.
    + intros a b ma mb Hina Hinb. apply (Ha a b); set_solver.
    + intros j m' Hin Hidx. apply (Ha j i); set_solver.
  - intros [Ha Hn] a b ma mb. rewrite !elem_of_app, !list_elem_of_singleton.
    intros [Hina|[= -> ->]] [Hinb|[= -> ->]] Hidx; [by eapply Ha|by eapply Hn|symmetry; by eapply Hn|done].
Qed.

Lemma in_order_snoc ms i m :
  in_order (ms ++ [(i, m)]) <->
  in_order ms /\ (1 < CommandIndex m -> exists m', (i, m') ∈ ms /\ CommandIndex m' = CommandIndex m - 1).
Proof.
  unfold in_order. split.
  - intros Ho. split; [|intros Hlt; by eapply (Ho ms i m [])].
    intros ms1 j m' ms2 -> Hlt. eapply (Ho ms1 j m' (ms2 ++ [(i, m)])); [by rewrite <- app_assoc|done].
  - intros [Ho Hn] ms1 j m' ms2 E Hlt. destruct ms2 as [|x ms2 _] using rev_ind.
    + apply app_inj_tail in E as [-> [= -> ->]]. by apply Hn.
    + change ((j, m') :: ms2 ++ [x]) with (((j, m') :: ms2) ++ [x]) in E. rewrite app_assoc in E.
      apply app_inj_tail in E as [-> _]. by eapply Ho.
Qed.

Lemma applier_step ms c i m n0 :
  length (logs c) = n0 -> logged ms c -> CommandValid m = true -> (i < n0)%nat -> agree ms ->
  (forall j m', (j, m') ∈ ms -> (j < n0)%nat) ->
  let ok := (forall j m', (j, m') ∈ ms -> CommandIndex m' = CommandIndex m -> Command m' = Command m) /\
            (1 < CommandIndex m -> exists m', (i, m') ∈ ms /\ CommandIndex m' = CommandIndex m - 1) in
  match applier i m c with
  | Some c' => ok /\ length (logs c') = n0 /\ logged (ms ++ [(i, m)]) c'
  | None => ~ ok
  end.
Proof.
  intros Hlen Hlog Hval Hi Hag Hsrv ok. destruct (lookup_lt_is_Some_2 (logs c) i) as [li Hli]; [lia|].
  unfold applier. rewrite Hval. cbn [negb]. unfold checkLogs. rewrite Hli. cbn [mbind option_bind].
  set (err := existsb _ _). set (prevok := bool_decide _).
  assert (Herr : err = false <-> forall j m', (j, m') ∈ ms -> CommandIndex m' = CommandIndex m -> Command m' = Command m).
  { unfold err. rewrite <- not_true_iff_false, existsb_exists. setoid_rewrite <- list_elem_of_In. split.
    - intros Hno j m' Hin Hidx. destruct (decide (Command m' = Command m)) as [|Hne]; [done|]. exfalso. apply Hno.
      destruct (lookup_lt_is_Some_2 (logs c) j) as [lj Hlj]; [rewrite Hlen; by eapply Hsrv|].
      exists lj. split; [by eapply list_elem_of_lookup_2|].
      assert (lj !! CommandIndex m = Some (Command m')) as -> by (apply (Hlog j); [done|]; eauto).
      by rewrite bool_decide_eq_false_2.
    - intros Hall (lj & (j & Hlj)%list_elem_of_lookup & Hb). destruct (lj !! CommandIndex m) as [old|] eqn:E; [|done].
      apply (Hlog j) in E as (m' & Hin & Hidx & <-); [|done]. rewrite (Hall j m') in Hb by done.
      by rewrite bool_decide_eq_true_2 in Hb. }
  assert (Hprev : prevok = true <-> exists m', (i, m') ∈ ms /\ CommandIndex m' = CommandIndex m - 1).
  { unfold prevok. rewrite bool_decide_eq_true. split.
    - intros [v Hv]. apply (Hlog i) in Hv as (m' & Hin & Hidx & _); eauto.
    - intros (m' & Hin & Hidx). exists (Command m'). apply (Hlog i); eauto. }
  destruct (err || ((CommandIndex m >? 1) && negb prevok)) eqn:Ebad.
  - intros [Ho1 Ho2]. apply orb_true_iff in Ebad as [Ebad|Ebad]; [apply Herr in Ho1; congruence|].
    apply andb_true_iff in Ebad as [E1%Z.gtb_gt E2%negb_true_iff]. apply Z.gt_lt in E1.
    apply Hprev in Ho2; [congruence|done].
  - apply orb_false_iff in Ebad as [E1 E2]. split_and!.
    + split; [by apply Herr|]. intros Hlt. apply Hprev. apply andb_false_iff in E2 as [E2|E2%negb_false_iff]; [lia|done].
    + rewrite Z.gtb_ltb. destruct (_ <? _); cbn; by rewrite length_insert.
    + intros j l k v Hl. assert (<[i := <[CommandIndex m := Command m]> li]> (logs c) !! j = Some l) as Hl'
        by (rewrite Z.gtb_ltb in Hl; by destruct (_ <? _)).
      clear Hl. setoid_rewrite elem_of_app. setoid_rewrite list_elem_of_singleton.
      apply list_lookup_insert_Some in Hl' as [(-> & <- & _)|[Hne Hl']].
      * destruct (decide (CommandIndex m = k)) as [<-|Hne].
        -- rewrite lookup_insert_eq. split; [intros [= <-]; eauto|]. intros (m' & [Hin|[= ->]] & Hidx & <-); [|done].
           f_equal. symmetry. by apply (proj1 Herr E1 j m').
        -- rewrite lookup_insert_ne by done. rewrite (Hlog j li k v Hli). naive_solver.
      * rewrite (Hlog j l k v Hl'). naive_solver.
Qed.

(** C13: the tester's appliers accept exactly the sequences of messages in which all servers apply
    the same command at every index and every server applies the indexes in order; then the
    tester's logs are what was applied. *)
Theorem appliers_accept_iff (ms : list (nat * ApplyMsg V byte)) c :
  Forall (fun x => CommandValid x.2 = true /\ (x.1 < length (logs c))%nat) ms ->
  Forall (fun l => l = ∅) (logs c) ->
  ((exists c', readAll ms c = Some c') <-> agree ms /\ in_order ms) /\
  forall c', readAll ms c = Some c' -> logged ms c'.
Proof.
  intros Hms Hempty.
  assert (match readAll ms c with
          | Some c' => (agree ms /\ in_order ms) /\ length (logs c') = length (logs c) /\ logged ms c'
          | None => ~ (agree ms /\ in_order ms)
          end) as Hall.
  { induction ms as [|[i m] ms IH] using rev_ind.
    - cbn. split_and!; [intros ? ? ? ? ?%not_elem_of_nil; done|by intros [] ? ? ?|done|].
      intros i l k v Hl. rewrite Forall_lookup in Hempty. rewrite (Hempty i l Hl), lookup_empty. set_solver.
    - apply Forall_app in Hms as [Hms [[Hv Hi] _]%Forall_cons]. specialize (IH Hms). cbn in Hv, Hi.
      rewrite readAll_snoc. pose proof (agree_snoc ms i m) as Has. pose proof (in_order_snoc ms i m) as Hos.
      destruct (readAll ms c) as [c1|]; cbn [mbind option_bind]; [|tauto].
      destruct IH as ([Ha Ho] & Hlen & Hlog).
      pose proof (applier_step ms c1 i m (length (logs c)) Hlen Hlog Hv Hi Ha) as Hstep.
      destruct (applier i m c1) as [c'|].
      + destruct Hstep as ([H1 H2] & H3 & H4); [|tauto]. intros j m' Hin. rewrite Forall_forall in Hms. by apply (Hms _ Hin).
      + intros [[_ H1]%Has [_ H2]%Hos]. apply Hstep; [|done]. intros j m' Hin. rewrite Forall_forall in Hms. by apply (Hms _ Hin). }
  destruct (readAll ms c) as [c'|].
  - destruct Hall as (Hao & _ & Hlog). split; [split; [done|eauto]|]. by intros c'' [= <-].
  - split; [|done]. split; [by intros [? ?]|done].
Qed.
End Applier.

(** ** Partitions *)

Section Partition.
Context {V byte : Type} `{!EqDecision V} `{!Gob byte Z} `{!Gob byte (list V)}.
Implicit Types (c : config V byte).

(** The ends are different and known to the network, and an end is enabled exactly when both
    servers are connected. *)
Record net_ok c : Prop := {
  ok_len : length (connected c) = n c /\ length (endnames c) = n c;
  ok_names i names : endnames c !! i = Some (Some names) -> length names = n c;
  ok_known i j e : endnameOf c i j = Some e -> inl e ∈ ends (net c);
  ok_distinct i j i' j' e : endnameOf c i j = Some e -> endnameOf c i' j' = Some e -> i = i' /\ j = j';
  ok_enabled i j e : endnameOf c i j = Some e -> isEnabled (inl e) (net c) = isConnected c i && isConnected c j
}.

Lemma endnameOf_bound c i j e : net_ok c -> endnameOf c i j = Some e -> (i < n c)%nat /\ (j < n c)%nat.
Proof.
  intros Hok He. unfold endnameOf in He. apply bind_Some in He as (names & Hn & Hj).
  destruct (endnames c !! i) as [[ns|]|] eqn:E; cbn in Hn; simplify_eq.
  apply lookup_lt_Some in Hj as Hj'. rewrite (ok_names _ Hok i names E) in Hj'. apply lookup_lt_Some in E.
  destruct (ok_len _ Hok) as [_ Hl]. by rewrite Hl in E.
Qed.

Lemma isConnected_set c i b j :
  (i < length (connected c))%nat -> isConnected (set_connected (<[i := b]> (connected c)) c) j = if decide (i = j) then b else isConnected c j.
Proof.
  intros Hi. unfold isConnected. cbn. case_decide; [subst; by rewrite list_lookup_insert_eq|by rewrite list_lookup_insert_ne].
Qed.

(** [i] changes to [b]; its ends to and from the servers of [js] and [js'] are switched, which
    are all that need it. *)
Lemma switch_ok c i b js js' out inc :
  net_ok c -> (i < n c)%nat -> let c1 := set_connected (<[i := b]> (connected c)) c in
  mapM (fun j => endnameOf c1 i j) js = Some out -> mapM (fun j => endnameOf c1 j i) js' = Some inc ->
  (forall j e, endnameOf c i j = Some e -> j ∈ js <-> (b = true -> isConnected c1 j = true)) ->
  (forall j e, endnameOf c j i = Some e -> j ∈ js' <-> (b = true -> isConnected c1 j = true)) ->
  net_ok (set_net (enableAll b inc (enableAll b out (net c1))) c1).
Proof.
  intros Hok Hi c1 Hout Hinc Hjs Hjs'. destruct (ok_len _ Hok) as [Hl1 Hl2].
  assert (Hconn : forall j, isConnected c1 j = if decide (i = j) then b else isConnected c j)
    by (intros j; apply isConnected_set; lia).
  split.
  - cbn. by rewrite length_insert.
  - apply Hok.
  - intros a b' e He. cbn. rewrite !ends_enableAll. by apply (ok_known _ Hok a b').
  - apply Hok.
  - intros a d e He. cbn [net set_net]. rewrite !isEnabled_enableAll. change (endnameOf c a d = Some e) in He.
    change (isConnected (set_net _ c1) ?x) with (isConnected c1 x).
    assert (Hio : e ∈ out <-> a = i /\ d ∈ js).
    { rewrite (mapM_elem _ _ _ e Hout). split; [|intros [-> Hd]; eauto].
      intros (j & Hj & Hj'). by destruct (ok_distinct _ Hok _ _ _ _ _ He Hj') as [-> ->]. }
    assert (Hii : e ∈ inc <-> d = i /\ a ∈ js').
    { rewrite (mapM_elem _ _ _ e Hinc). split; [|intros [-> Ha]; eauto].
      intros (j & Hj & Hj'). by destruct (ok_distinct _ Hok _ _ _ _ _ He Hj') as [-> ->]. }
    change (net c1) with (net c). rewrite (ok_enabled _ Hok a d e He). rewrite !Hconn.
    destruct (decide (e ∈ inc)) as [Hin|Hin]; [|destruct (decide (e ∈ out)) as [Ho|Ho]].
    + apply Hii in Hin as [-> Ha]. pose proof (proj1 (Hjs' a e He) Ha) as Ha'. rewrite Hconn in Ha'. rewrite (decide_True (P := i = i)) by done.
      destruct b; [by rewrite (Ha' eq_refl)|by rewrite andb_false_r].
    + apply Hio in Ho as [-> Hd]. pose proof (proj1 (Hjs d e He) Hd) as Hd'. rewrite Hconn in Hd'. rewrite (decide_True (P := i = i)) by done.
      destruct b; [by rewrite (Hd' eq_refl)|done].
    + destruct (decide (i = a)) as [->|Ha]; [|destruct (decide (i = d)) as [->|Hd]; [|done]].
      * assert (d ∉ js) as Hd by tauto. rewrite (Hjs d e He), Hconn in Hd. destruct b; [|by destruct Hd].
        destruct (decide (a = d)) as [->|]; [by destruct Hd|]. destruct (isConnected c d); [by destruct Hd|by rewrite andb_false_r].
      * assert (a ∉ js') as Ha' by tauto. rewrite (Hjs' a e He), Hconn, decide_False in Ha' by done. destruct b; [|by destruct Ha'].
        destruct (isConnected c a); [by destruct Ha'|done].
Qed.

Lemma connect_ok c c' i : net_ok c -> (i < n c)%nat -> connect i c = Some c' -> net_ok c'.
Proof.
  intros Hok Hi Hc. unfold connect in Hc. apply bind_Some in Hc as (out & Hout & (inc & Hinc & [= <-])%bind_Some).
  assert (forall j, (j < n c)%nat -> let c1 := set_connected (<[i := true]> (connected c)) c in
    j ∈ filter (fun j => isConnected c1 j = true) (seq 0 (n c1)) <-> (true = true -> isConnected c1 j = true)) as Hf.
  { intros j Hj c1. rewrite list_elem_of_filter, elem_of_seq. cbn [n set_connected c1]. split; [tauto|]. intros Hc1.
    split; [by apply Hc1|lia]. }
  eapply switch_ok; [done|done|exact Hout|exact Hinc|..]; intros j e He; apply Hf;
    by destruct (endnameOf_bound _ _ _ _ Hok He).
Qed.

Lemma disconnect_ok c c' i : net_ok c -> (i < n c)%nat -> disconnect i c = Some c' -> net_ok c'.
Proof.
  intros Hok Hi Hc. unfold disconnect in Hc. apply bind_Some in Hc as (out & Hout & (inc & Hinc & [= <-])%bind_Some).
  assert (forall a d e, endnameOf c a d = Some e -> hasEnds c a = true) as Hends.
  { intros a d e He. unfold endnameOf in He. apply bind_Some in He as (ns & Hn & _). unfold hasEnds.
    by destruct (endnames c !! a) as [[?|]|]. }
  eapply switch_ok; [done|done|exact Hout|exact Hinc|..]; intros j e He; destruct (endnameOf_bound _ _ _ _ Hok He) as [H1 H2];
    rewrite list_elem_of_filter, elem_of_seq; cbn; (split; [done|]); intros _; (split; [by eapply Hends|lia]).
Qed.

(** Fields the rest of [crash1] and [start1] touches do not matter. *)
Lemma net_ok_frame c c' :
  n c' = n c -> connected c' = connected c -> endnames c' = endnames c ->
  ends (net c') = ends (net c) -> enabled (net c') = enabled (net c) -> net_ok c -> net_ok c'.
Proof.
  intros Hn Hc He Hends Hen [H1 H2 H3 H4 H5].
  assert (forall i j, endnameOf c' i j = endnameOf c i j) as E by (intros; unfold endnameOf; by rewrite He).
  split; rewrite ?Hn, ?Hc, ?He, ?Hends; try done; setoid_rewrite E; try done.
  intros i j e Hij. unfold isEnabled, isConnected. rewrite Hen, Hc. by apply (H5 i j).
Qed.

Lemma crash1_ok c c' i : net_ok c -> (i < n c)%nat -> crash1 i c = Some c' ->
  net_ok c' /\ n c' = n c /\ isConnected c' i = false.
Proof.
  intros Hok Hi Hc. unfold crash1 in Hc. apply bind_Some in Hc as (c1 & Hd & Hc).
  pose proof (disconnect_ok _ _ _ Hok Hi Hd) as Hok1.
  assert (n c1 = n c /\ isConnected c1 i = false) as [Hn Hf].
  { unfold disconnect in Hd. apply bind_Some in Hd as (out & _ & (inc & _ & [= <-])%bind_Some). split; [done|].
    unfold isConnected. cbn. rewrite list_lookup_insert_eq; [done|]. destruct (ok_len _ Hok). lia. }
  clear Hd. repeat case_match; injection Hc as <-; (split_and!; [by apply (net_ok_frame c1)|exact Hn|exact Hf]).
Qed.

Lemma ingestSnap_frame i snap index c c' :
  ingestSnap i snap index c = Some (inl c') -> n c' = n c /\ connected c' = connected c /\ endnames c' = endnames c /\ net c' = net c.
Proof.
  unfold ingestSnap. intros ([li rest] & _ & ([xlog ?] & _ & Hi)%bind_Some)%bind_Some. by case_match; simplify_eq.
Qed.

Lemma start1_ok c c' i names rf server :
  net_ok c -> (i < n c)%nat -> start1 i names rf server c = Some c' -> net_ok c' /\ n c' = n c.
Proof.
  intros Hok Hi Hs. unfold start1 in Hs. apply bind_Some in Hs as (c1 & Hc & Hs).
  destruct (crash1_ok _ _ _ Hok Hi Hc) as (Hok1 & Hn1 & Hf). case_bool_decide as Hlen; [|done]. cbn [negb] in Hs.
  apply bind_Some in Hs as (rn & Hm & (c2 & Hsv & [= <-])%bind_Some).
  destruct (makeEnds_spec _ _ _ _ Hm) as (Hnd & Hfr & Hends & Hen). cbn in Hfr, Hends, Hen.
  set (c3 := set_net rn (set_endnames (<[i := Some names]> (endnames c1)) c1)).
  assert (He3 : forall a d e, endnameOf c3 a d = Some e -> a = i /\ names !! d = Some e \/ a <> i /\ endnameOf c1 a d = Some e).
  { intros a d e He. unfold endnameOf in *. cbn in He. destruct (decide (a = i)) as [->|Hne].
    - left. rewrite list_lookup_insert_eq in He by (destruct (ok_len _ Hok1); lia). done.
    - right. by rewrite list_lookup_insert_ne in He. }
  assert (net_ok c3) as Hok3.
  { destruct (ok_len _ Hok1) as [Hl1 Hl2]. split.
    - cbn. by rewrite length_insert.
    - cbn. intros a ns [(-> & [= <-] & _)|[_ Ha]]%list_lookup_insert_Some; [done|by apply (ok_names _ Hok1 a)].
    - intros a d e [[-> He]|[_ He]]%He3; apply Hends.
      + right. exists e. split; [done|]. by eapply list_elem_of_lookup_2.
      + left. by apply (ok_known _ Hok1 a d).
    - intros a d a' d' e [[-> He]|[Hne He]]%He3 [[-> He']|[Hne' He']]%He3.
      + split; [done|]. by eapply NoDup_lookup.
      + destruct (Hfr e); [by eapply list_elem_of_lookup_2|by apply (ok_known _ Hok1 a' d')].
      + destruct (Hfr e); [by eapply list_elem_of_lookup_2|by apply (ok_known _ Hok1 a d)].
      + by eapply (ok_distinct _ Hok1).
    - intros a d e He. cbn [net set_net c3]. rewrite Hen. change (isConnected c3 ?x) with (isConnected c1 x).
      apply He3 in He as [[-> He]|[Hne He]].
      + rewrite Hf, decide_True by (by eapply list_elem_of_lookup_2). done.
      + rewrite decide_False; [by apply (ok_enabled _ Hok1)|]. intros Hin. apply (Hfr e Hin). by apply (ok_known _ Hok1 a d). }
  assert (n c2 = n c3 /\ connected c2 = connected c3 /\ endnames c2 = endnames c3 /\ net c2 = net c3) as (E1 & E2 & E3 & E4).
  { cbn in Hsv. destruct (saved c1 !! i) as [[ps|]|]; [|injection Hsv as <-; by split_and!..].
    case_bool_decide; [injection Hsv as <-; by split_and!|]. apply bind_Some in Hsv as ([c'|] & Hin & [= <-]).
    apply ingestSnap_frame in Hin as (-> & -> & -> & ->). by split_and!. }
  split; [|by cbn; rewrite E1]. apply (net_ok_frame c3); cbn; rewrite ?E4; done.
Qed.

Lemma initial_ok k unreliable : net_ok (initial (V := V) (byte := byte) k unreliable).
Proof.
  assert (forall i j, endnameOf (initial (V := V) (byte := byte) k unreliable) i j = None) as Hno.
  { intros i j. unfold endnameOf. cbn. destruct (replicate k None !! i) as [x|] eqn:E; [|done].
    by apply lookup_replicate in E as [-> _]. }
  split; try (intros *; by rewrite Hno).
  - cbn. by rewrite !length_replicate.
  - cbn. intros i names [? _]%lookup_replicate. done.
Qed.

(** What a test does to the servers. *)
Inductive Op := OpConnect | OpDisconnect | OpCrash | OpStart (names : list string) (rf server : nat).

Fixpoint runOps (ops : list (nat * Op)) c : option (config V byte) :=
  match ops with
  | [] => Some c
  | (i, op) :: ops =>
      c ← match op with
          | OpConnect => connect i c
          | OpDisconnect => disconnect i c
          | OpCrash => crash1 i c
          | OpStart names rf server => start1 i names rf server c
          end;
      runOps ops c
  end.

(** C30: the network is what [connected] says.  After any sequence of starts, crashes, connects and
    disconnects that the tester gets through, the end from server [i] to server [j] lets
    messages through exactly when both servers are connected. *)
Theorem partition_enforced k unreliable ops c i j e :
  runOps ops (initial k unreliable) = Some c -> Forall (fun x => (x.1 < k)%nat) ops ->
  endnameOf c i j = Some e -> isEnabled (inl e) (net c) = isConnected c i && isConnected c j.
Proof.
  intros Hr Hops. enough (net_ok c /\ n c = k) as [Hok _] by apply (ok_enabled _ Hok).
  assert (net_ok (initial (V := V) (byte := byte) k unreliable) /\ n (initial (V := V) (byte := byte) k unreliable) = k) as Hinit
    by (split; [apply initial_ok|done]).
  revert Hr Hinit. generalize (initial (V := V) (byte := byte) k unreliable).
  induction Hops as [|[a op] ops Ha Hops IH]; intros c0 Hr [Hok Hn]; [injection Hr as <-; done|].
  cbn in Hr, Ha. apply bind_Some in Hr as (c1 & Hop & Hr). apply (IH c1 Hr). rewrite <- Hn in Ha.
  destruct op as [| | |names rf server].
  - split; [by eapply connect_ok|]. unfold connect in Hop. by apply bind_Some in Hop as (? & _ & (? & _ & [= <-])%bind_Some).
  - split; [by eapply disconnect_ok|]. unfold disconnect in Hop. by apply bind_Some in Hop as (? & _ & (? & _ & [= <-])%bind_Some).
  - destruct (crash1_ok _ _ _ Hok Ha Hop) as (? & -> & _). done.
  - destruct (start1_ok _ _ _ _ _ _ Hok Ha Hop) as (? & ->). done.
Qed.
End Partition.

(** ** The theorems at work *)

Abbreviation cfg := (config Z Z).
Definition msg (v index : Z) : ApplyMsg Z Z := mkApplyMsg true v index false [] 0.

(** Two servers apply 7 and 8; the second reads its messages between those of the first. *)
Definition two_servers : list (nat * ApplyMsg Z Z) :=
  [(0%nat, msg 7 1); (1%nat, msg 7 1); (0%nat, msg 8 2); (1%nat, msg 8 2)].

Lemma appliers_accept_iff_witness : agree two_servers /\ in_order two_servers.
Proof.
  apply (appliers_accept_iff two_servers (initial 2 false : cfg)).
  - repeat constructor; cbn; done || lia.
  - by repeat constructor.
  - eexists. by vm_compute.
Defined.

Definition partition_ops : list (nat * Op) :=
  [(0%nat, OpStart ["a"; "b"] 0 0); (1%nat, OpStart ["c"; "d"] 1 1); (0%nat, OpConnect); (1%nat, OpConnect);
   (1%nat, OpDisconnect)]%string.
Definition partitioned : cfg := default (initial 0 false) (runOps partition_ops (initial 2 false)).

Lemma partition_enforced_witness :
  isEnabled (inl "b"%string) (net partitioned) = isConnected partitioned 0 && isConnected partitioned 1 /\
  isConnected partitioned 0 = true.
Proof.
  split; [|by vm_compute].
  apply (partition_enforced 2 false partition_ops partitioned 0 1); [by vm_compute| |by vm_compute].
  repeat constructor; cbn; lia.
Defined.
