(* ===== verification/RaftAgree.v ===== *)
(** * RaftAgree: how the Raft tester waits for agreement
      (src/6.5840-golabs-2024/src/raft/config.go: wait, one and the statistics)

    The loops look at servers that run on their own.  What they see is an argument: the
    configuration and the answers of [GetState] at each look, the answers of [Start] in each
    round.  A list of looks has as many as the time allows.  [None] is [t.Fatalf] or a panic. *)

From S2P Require Import Prelude Persister LabRPC TestNet RaftConfig.
Local Open Scope Z_scope.

Section RaftAgree.
Context {V byte : Type} `{!EqDecision V} (nil_ : V).
Implicit Types (c : config V byte).

(** ** wait *)

(** The loop over [cfg.rafts]: is some server past [startTerm]?  A stopped server is nil, and asking it
    panics. *)
Fixpoint movedOn (state : nat -> Z * bool) (startTerm : Z) (rafts : list (option nat)) (i : nat) : option bool :=
  match rafts with
  | [] => Some false
  | None :: _ => None
  | Some _ :: rafts => if (state i).1 >? startTerm then Some true else movedOn state startTerm rafts (S i)
  end.

(** What [wait] sees in a round: the logs when it counts, and after the sleep the servers. *)
Record Look := mkLook { k_logs : config V byte; k_after : config V byte; k_state : nat -> Z * bool }.

Inductive Waited := Cmd (cmd : V) | MovedOn.

(** The next sleep, in milliseconds. *)
Definition backoff (to : Z) : Z := if to <? 1000 then to * 2 else to.

(** The rounds from the sleep [to] on, [slept] so far; the last look counts once more. *)
Fixpoint waitLoop (index n startTerm to slept : Z) (looks : list Look) (last : config V byte) : option (Waited * Z) :=
  let decide_ := '(nd, cmd) ← nCommitted nil_ index last; if nd <? n then None else Some (Cmd cmd, slept) in
  match looks with
  | [] => decide_
  | k :: looks =>
      '(nd, _) ← nCommitted nil_ index (k_logs k);
      if nd >=? n then decide_
      else
        let slept := slept + to in
        let to := backoff to in
        moved ← (if startTerm >? -1 then movedOn (k_state k) startTerm (rafts (k_after k)) 0 else Some false);
        if moved : bool then Some (MovedOn, slept) else waitLoop index n startTerm to slept looks last
  end.
(** [looks] are the thirty rounds, [last] is what the count after the loop sees; with the
    milliseconds slept. *)
Definition wait (index n startTerm : Z) (looks : list Look) (last : config V byte) : option (Waited * Z) :=
  waitLoop index n startTerm 10 0 looks last.

(** ** one *)

(** A round: the answer of [Start] of each server, the index when it leads; and the looks of two
    seconds. *)
Record Round := mkRound { r_config : config V byte; r_start : nat -> option Z; r_polls : list (config V byte) }.

(** The servers that are asked, from the one after [starts] on: those that answer, with the new [starts],
    the servers on which [Start] was called, and the index. *)
Fixpoint tryStart (c : config V byte) (start : nat -> option Z) (si : nat) (starts : nat) : nat * list nat * option Z :=
  match si with
  | O => (starts, [], None)
  | S si =>
      let starts := ((starts + 1) mod RaftConfig.n c)%nat in
      if isConnected c starts && bool_decide (is_Some (mjoin (rafts c !! starts))) then
        match start starts with
        | Some index1 => (starts, [starts], Some index1)
        | None => let '(starts', called, index) := tryStart c start si starts in (starts', starts :: called, index)
        end
      else tryStart c start si starts
  end.

(** The looks for agreement on [cmd] at [index]; [None] is fatal. *)
Fixpoint poll (index expectedServers : Z) (cmd : V) (polls : list (config V byte)) : option bool :=
  match polls with
  | [] => Some false
  | c :: polls =>
      '(nd, cmd1) ← nCommitted nil_ index c;
      if (nd >? 0) && (nd >=? expectedServers) && bool_decide (cmd1 = cmd) then Some true
      else poll index expectedServers cmd polls
  end.

(** [rounds] are the rounds of ten seconds; [finished] is [checkFinished] after them.  The result comes with
    the servers on which [Start] was called. *)
Fixpoint oneLoop (cmd : V) (expectedServers : Z) (retry finished : bool) (starts : nat) (rounds : list Round) : option (Z * list nat) :=
  match rounds with
  | [] => if finished then Some (-1, []) else None
  | r :: rounds =>
      let '(starts, called, index) := tryStart (r_config r) (r_start r) (RaftConfig.n (r_config r)) starts in
      let again := '(res, more) ← oneLoop cmd expectedServers retry finished starts rounds; Some (res, called ++ more) in
      match index with
      | Some index =>
          if index =? -1 then again
          else
            agreed ← poll index expectedServers cmd (r_polls r);
            if agreed : bool then Some (index, called)
            else if negb retry then None else again
      | None => again
      end
  end.
Definition one (cmd : V) (expectedServers : Z) (retry finished : bool) (rounds : list Round) : option (Z * list nat) :=
  oneLoop cmd expectedServers retry finished 0 rounds.

(** ** The statistics and the end of a test *)

Record Test := mkTest { cfg : config V byte; finished : bool; rpcs0 : Z; bytes0 : Z; cmds0 : Z; maxIndex0 : Z }.

Definition checkTimeout (failed : bool) (elapsed : Z) : bool := negb (negb failed && (elapsed >? 120 * 10 ^ 9)).
Definition checkFinished (t : Test) : bool := finished t.
Definition rpcCount {Val Obj : Type} (server : Z) (heap : list (LabRPC.Server (Val := Val) (Obj := Obj))) c : option Z := GetCount (inr server) heap (net c).
Definition rpcTotal c : Z := GetTotalCount (net c).
Definition bytesTotal c : Z := GetTotalBytes (net c).
Definition setunreliable (unrel : bool) c : config V byte := set_net (Reliable (negb unrel) (net c)) c.
Definition setlongreordering (longrel : bool) c : config V byte := set_net (LongReordering longrel (net c)) c.

(** The instances that [cleanup] kills. *)
Definition killed (t : Test) : list nat := omap (fun r => r) (rafts (cfg t)).
Definition cleanup (failed : bool) (elapsed : Z) (t : Test) : option (Test * list nat) :=
  rn ← Cleanup (net (cfg t));
  if checkTimeout failed elapsed
  then Some (mkTest (set_net rn (cfg t)) true (rpcs0 t) (bytes0 t) (cmds0 t) (maxIndex0 t), killed t)
  else None.

Definition begin (t : Test) : Test := mkTest (cfg t) (finished t) (rpcTotal (cfg t)) (bytesTotal (cfg t)) 0 (maxIndex (cfg t)).
(** The numbers that are printed: peers, RPCs, bytes and agreements. *)
Definition end_ (failed : bool) (elapsed : Z) (t : Test) : option (option (nat * Z * Z * Z)) :=
  if checkTimeout failed elapsed
  then Some (if failed then None
             else Some (RaftConfig.n (cfg t), rpcTotal (cfg t) - rpcs0 t, bytesTotal (cfg t) - bytes0 t, maxIndex (cfg t) - maxIndex0 t))
  else None.

(** ** What a returned agreement means *)

(** At least [k] servers have applied [cmd] at [index], and none has applied another command there. *)
Definition agreed (index k : Z) (cmd : V) c : Prop :=
  k <= zlen (filter (fun l : gmap Z V => l !! index = Some cmd) (logs c)) /\
  forall l cmd', l ∈ logs c -> l !! index = Some cmd' -> cmd' = cmd.

Lemma committedFrom_spec (ls : list (gmap Z V)) index count cmd nd cmd' :
  0 <= count -> committedFrom ls index count cmd = Some (nd, cmd') ->
  count <= nd /\ nd - count <= zlen (filter (fun l : gmap Z V => l !! index = Some cmd') ls) /\
  (0 < count -> cmd' = cmd) /\ forall l x, l ∈ ls -> l !! index = Some x -> x = cmd'.
Proof.
  revert count cmd. induction ls as [|l ls IH]; intros count cmd Hc; cbn [committedFrom].
  { intros [= -> ->]. split_and!; [lia|unfold zlen; cbn; lia|done|set_solver]. }
  destruct (l !! index) as [cmd1|] eqn:El.
  - destruct ((count >? 0) && negb (bool_decide (cmd = cmd1))) eqn:E; [done|]. intros H.
    destruct (IH (count + 1) cmd1 ltac:(lia) H) as (H1 & H2 & H3 & H4). rewrite (H3 ltac:(lia)) in *.
    rewrite filter_cons, decide_True by done. split_and!; [lia|unfold zlen in *; cbn [length]; lia| |].
    + intros Hpos. apply andb_false_iff in E as [E|E]; [lia|]. apply negb_false_iff, bool_decide_eq_true in E. done.
    + intros l' x [-> | Hin]%elem_of_cons Hx; [congruence|by eapply H4].
  - intros H. destruct (IH count cmd Hc H) as (H1 & H2 & H3 & H4). rewrite filter_cons, decide_False by congruence.
    split_and!; [done..|]. intros l' x [-> | Hin]%elem_of_cons Hx; [congruence|by eapply H4].
Qed.

Lemma nCommitted_agreed index k cmd nd c : nCommitted nil_ index c = Some (nd, cmd) -> k <= nd -> agreed index k cmd c.
Proof. intros H Hk. destruct (committedFrom_spec _ _ 0 _ _ _ (Z.le_refl 0) H) as (_ & H2 & _ & H4). split; [lia|exact H4]. Qed.

Lemma tryStart_spec c start si starts starts' called index :
  tryStart c start si starts = (starts', called, index) ->
  match index with
  | Some x => exists i, i ∈ called /\ isConnected c i = true /\ start i = Some x
  | None => True
  end.
Proof.
  revert starts called. induction si as [|si IH]; intros starts called; cbn [tryStart]; [by intros [= <- <- <-]|].
  set (i := ((starts + 1) mod RaftConfig.n c)%nat). destruct (isConnected c i) eqn:Ec; cbn [andb]; [|apply IH].
  case_bool_decide as Hr; [|apply IH]. destruct (start i) as [x|] eqn:Es.
  - intros [= <- <- <-]. exists i. split_and!; [by left|done..].
  - destruct (tryStart c start si i) as [[s2 called2] index2] eqn:E. intros [= <- <- <-]. specialize (IH _ _ E).
    destruct index2 as [x|]; [|done]. destruct IH as (j & Hj & Hc & Hx). exists j. split_and!; [by right|done..].
Qed.

Lemma poll_agreed index k cmd polls :
  poll index k cmd polls = Some true -> exists c, c ∈ polls /\ agreed index (Z.max 1 k) cmd c.
Proof.
  induction polls as [|c polls IH]; [done|]. cbn [poll]. intros H. apply bind_Some in H as ([nd cmd1] & Hn & H).
  destruct ((nd >? 0) && (nd >=? k) && bool_decide (cmd1 = cmd)) eqn:E.
  - apply andb_true_iff in E as [[E1 E2]%andb_true_iff ->%bool_decide_eq_true]. exists c. split; [by left|]. eapply nCommitted_agreed; [done|lia].
  - destruct (IH H) as (c' & ? & ?). exists c'. split; [by right|done].
Qed.

(** No two servers have applied different commands at [index]. *)
Definition consistent (index : Z) c : Prop :=
  forall l l' x x', l ∈ logs c -> l' ∈ logs c -> l !! index = Some x -> l' !! index = Some x' -> x = x'.

Lemma committedFrom_total (ls : list (gmap Z V)) index count cmd :
  0 <= count -> (forall l l' x x', l ∈ ls -> l' ∈ ls -> l !! index = Some x -> l' !! index = Some x' -> x = x') ->
  (0 < count -> forall l x, l ∈ ls -> l !! index = Some x -> x = cmd) ->
  exists cmd', committedFrom ls index count cmd = Some (count + zlen (filter (fun l : gmap Z V => is_Some (l !! index)) ls), cmd').
Proof.
  revert count cmd. induction ls as [|l ls IH]; intros count cmd Hc Hall Hcmd; cbn [committedFrom].
  { exists cmd. unfold zlen. cbn. by rewrite Z.add_0_r. }
  assert (forall l1 l2 x x', l1 ∈ ls -> l2 ∈ ls -> l1 !! index = Some x -> l2 !! index = Some x' -> x = x') as Hall' by (intros l1 l2 x x' ??; apply Hall; by right).
  rewrite filter_cons. destruct (l !! index) as [cmd1|] eqn:El.
  - rewrite decide_True by eauto. assert ((count >? 0) && negb (bool_decide (cmd = cmd1)) = false) as ->.
    { destruct (Z.gtb_spec count 0); [|done]. cbn. apply negb_false_iff, bool_decide_eq_true. symmetry. by apply (Hcmd ltac:(lia) l); [left|]. }
    destruct (IH (count + 1) cmd1) as [cmd' ->]; [lia|done| |].
    { intros _ l' x Hin Hx. by apply (Hall l' l); [right|left|..]. }
    exists cmd'. f_equal. f_equal. unfold zlen. cbn. lia.
  - rewrite decide_False by by intros []. apply IH; [done..|]. intros Hp l' x Hin. apply (Hcmd Hp). by right.
Qed.

(** [nCommitted] counts the servers that have an entry, and is fatal only when two entries differ. *)
Lemma nCommitted_consistent index c : consistent index c -> exists nd cmd, nCommitted nil_ index c = Some (nd, cmd) /\
  forall k cmd', agreed index k cmd' c -> 1 <= k -> k <= nd /\ cmd = cmd'.
Proof.
  intros Hc. destruct (committedFrom_total (logs c) index 0 nil_ (Z.le_refl 0) Hc) as [cmd Hn]; [lia|]. eexists _, cmd. split; [exact Hn|].
  intros k cmd' [Hk _] Hpos. split.
  - assert (zlen (filter (fun l : gmap Z V => l !! index = Some cmd') (logs c)) <= zlen (filter (fun l : gmap Z V => is_Some (l !! index)) (logs c))); [|lia].
    clear. induction (logs c) as [|l ls IH]; [done|]. rewrite !filter_cons. unfold zlen in *. repeat case_decide; cbn [length]; try lia.
    exfalso. eauto.
  - destruct (filter (fun l : gmap Z V => l !! index = Some cmd') (logs c)) as [|l ls] eqn:E; [unfold zlen in Hk; cbn in Hk; lia|].
    assert (l ∈ filter (fun l : gmap Z V => l !! index = Some cmd') (logs c)) as [Hl Hin]%list_elem_of_filter by (rewrite E; by left).
    destruct (committedFrom_spec _ _ 0 _ _ _ (Z.le_refl 0) Hn) as (_ & _ & _ & Hx). symmetry. by eapply Hx.
Qed.

Lemma poll_finds index k cmd polls :
  (forall c, c ∈ polls -> consistent index c) -> (exists c, c ∈ polls /\ agreed index (Z.max 1 k) cmd c) -> poll index k cmd polls = Some true.
Proof.
  induction polls as [|c polls IH]; intros Hc (c0 & Hin & Ha); [by apply not_elem_of_nil in Hin|]. cbn [poll].
  destruct (nCommitted_consistent index c) as (nd & cmd1 & -> & Hnd); [apply Hc; by left|]. cbn [mbind option_bind].
  destruct (_ && _) eqn:E; [done|]. apply IH; [intros; apply Hc; by right|]. exists c0. split; [|done].
  apply elem_of_cons in Hin as [->|]; [|done]. exfalso. destruct (Hnd _ _ Ha ltac:(lia)) as [Hle ->].
  rewrite bool_decide_true, andb_true_r in E by done. apply andb_false_iff in E as [E|E]; lia.
Qed.

(** Every connected and running server is asked until one leads. *)
Lemma tryStart_asks c start si starts i x :
  (exists d, (d < si)%nat /\ i = ((starts + 1 + d) mod RaftConfig.n c)%nat) ->
  isConnected c i = true -> is_Some (mjoin (rafts c !! i)) -> start i = Some x ->
  exists starts' called y, tryStart c start si starts = (starts', called, Some y).
Proof.
  revert starts. induction si as [|si IH]; intros starts (d & Hd & Hi) Hc Hr Hs; [lia|]. cbn [tryStart].
  set (j := ((starts + 1) mod RaftConfig.n c)%nat). destruct (decide (d = 0%nat)) as [->|Hne].
  - assert (i = j) as -> by (rewrite Hi; unfold j; f_equal; lia). rewrite Hc, bool_decide_eq_true_2 by done. cbn [andb]. rewrite Hs. eauto.
  - destruct (IH j) as (s' & called & y & E); [|done..|].
    + exists (d - 1)%nat. split; [lia|]. rewrite Hi.
      replace (j + 1 + (d - 1))%nat with (j + d)%nat by lia. unfold j. by rewrite Nat.Div0.add_mod_idemp_l.
    + rewrite E. destruct (isConnected c j && _); [|eauto]. destruct (start j); eauto.
Qed.

Lemma tryStart_leader c start starts i x :
  (i < RaftConfig.n c)%nat -> isConnected c i = true -> is_Some (mjoin (rafts c !! i)) -> start i = Some x ->
  exists starts' called y, tryStart c start (RaftConfig.n c) starts = (starts', called, Some y).
Proof.
  intros Hi. apply tryStart_asks. set (k := RaftConfig.n c) in *. exists ((i + k * (starts + 1) - (starts + 1)) mod k)%nat.
  split; [apply Nat.mod_upper_bound; lia|]. rewrite Nat.Div0.add_mod_idemp_r.
  replace (starts + 1 + (i + k * (starts + 1) - (starts + 1)))%nat with (i + (starts + 1) * k)%nat by nia.
  by rewrite Nat.Div0.mod_add, Nat.mod_small.
Qed.

(** C31: [one] reports only agreements, and finds them.  When it returns an index, a connected server has
    accepted the command at that index, and at a later look of the same round at least one and
    at least [expectedServers] servers had applied it there, and no server another command;
    it returns -1 only when the test is over.  And let [r] be a round, after rounds in which no server accepted the command, in which some
    connected server that runs accepts it.  If for every index that a server gives out in that round the servers never differ on the
    command they have applied there, and at one of the looks of the round at least one and at least [expectedServers] have applied
    the command there, then [one] returns an index. *)
Theorem one_agreement cmd expectedServers retry finished rounds :
  (forall index called, one cmd expectedServers retry finished rounds = Some (index, called) ->
     index = -1 /\ finished = true \/
     exists r i c, r ∈ rounds /\ i ∈ called /\ isConnected (r_config r) i = true /\ r_start r i = Some index /\
       c ∈ r_polls r /\ agreed index (Z.max 1 expectedServers) cmd c) /\
  (forall pre r rest i x, rounds = pre ++ r :: rest -> (forall r0 j, r0 ∈ pre -> r_start r0 j = None) ->
     (i < RaftConfig.n (r_config r))%nat -> isConnected (r_config r) i = true -> is_Some (mjoin (rafts (r_config r) !! i)) -> r_start r i = Some x ->
     (forall j y, r_start r j = Some y -> y <> -1 /\ (forall c, c ∈ r_polls r -> consistent y c) /\
        exists c, c ∈ r_polls r /\ agreed y (Z.max 1 expectedServers) cmd c) ->
     exists index called, one cmd expectedServers retry finished rounds = Some (index, called) /\ index <> -1).
Proof.
  split.
  - unfold one. generalize 0%nat as starts. induction rounds as [|r rounds IH]; intros starts index called; cbn [oneLoop].
    { destruct finished; [|done]. intros [= <- <-]. by left. }
    destruct (tryStart (r_config r) (r_start r) (RaftConfig.n (r_config r)) starts) as [[starts' called1] index1] eqn:E. apply tryStart_spec in E.
    set (again := mbind _ _). intros H.
    assert (again = Some (index, called) -> index = -1 /\ finished = true \/
      exists r0 i c, r0 ∈ r :: rounds /\ i ∈ called /\ isConnected (r_config r0) i = true /\ r_start r0 i = Some index /\
        c ∈ r_polls r0 /\ agreed index (Z.max 1 expectedServers) cmd c) as Hagain.
    { intros ([res more] & Hloop & [= <- <-])%bind_Some. destruct (IH _ _ _ Hloop) as [?|(r0 & i & c & ? & ? & ?)]; [by left|right].
      exists r0, i, c. split; [by right|]. split; [apply elem_of_app; by right|done]. }
    destruct index1 as [x|]; [|by apply Hagain]. destruct (x =? -1); [by apply Hagain|].
    apply bind_Some in H as (b & Hp & H). destruct b.
    + injection H as <- <-. right. destruct E as (i & Hi & Hc & Hs). destruct (poll_agreed _ _ _ _ Hp) as (c & Hc' & Ha).
      exists r, i, c. split_and!; [by left|done..].
    + destruct (negb retry); [done|by apply Hagain].
  - intros pre r rest i x -> Hpre Hi Hc Hr Hs Hall. unfold one. generalize 0%nat as starts. induction pre as [|r0 pre IH]; intros starts; cbn [app oneLoop].
    + destruct (tryStart_leader (r_config r) (r_start r) starts i x Hi Hc Hr Hs) as (starts' & called & y & E). rewrite E.
      apply tryStart_spec in E as (j & _ & _ & Hj). destruct (Hall j y Hj) as (Hy & Hcon & Hag). rewrite poll_finds by done.
      destruct (Z.eqb_spec y (-1)); [done|]. cbn. exists y, called. done.
    + destruct (tryStart _ _ _ _) as [[starts' called] [y|]] eqn:E.
      { apply tryStart_spec in E as (j & _ & _ & Hj). rewrite (Hpre r0 j) in Hj by by left. done. }
      destruct (IH ltac:(intros; apply Hpre; by right) starts') as (index & more & -> & Hne). cbn. by exists index, (called ++ more).
Qed.

(** The time the sleeps take from [to] on in [k] rounds. *)
Fixpoint sleeps (k : nat) (to : Z) : Z := match k with O => 0 | S k => to + sleeps k (backoff to) end.

Lemma waitLoop_spec index k startTerm to slept looks last res t :
  0 <= to -> waitLoop index k startTerm to slept looks last = Some (res, t) ->
  slept <= t <= slept + sleeps (length looks) to /\
  match res with
  | Cmd cmd => agreed index k cmd last
  | MovedOn => -1 < startTerm /\ exists look i, look ∈ looks /\ is_Some (mjoin (rafts (k_after look) !! i)) /\ startTerm < (k_state look i).1
  end.
Proof.
  revert to slept. induction looks as [|l looks IH]; intros to slept Hto; cbn [waitLoop length sleeps].
  - intros ([nd cmd] & Hn & H)%bind_Some. destruct (Z.ltb_spec nd k); [done|]. injection H as <- <-. split; [lia|]. by eapply nCommitted_agreed.
  - intros ([nd0 cmd0] & Hn0 & H)%bind_Some.
    assert (0 <= backoff to /\ 0 <= sleeps (length looks) (backoff to)) as [Hb Hs].
    { clear - Hto. revert to Hto. induction looks as [|l looks IH]; intros to Hto; cbn [length sleeps]; [unfold backoff; case_match; lia|].
      destruct (IH (backoff to)) as [? ?]; [unfold backoff; case_match; lia|]. unfold backoff in *. repeat case_match; lia. }
    destruct (nd0 >=? k).
    + apply bind_Some in H as ([nd cmd] & Hn & H). destruct (Z.ltb_spec nd k); [done|]. injection H as <- <-. split; [lia|]. by eapply nCommitted_agreed.
    + apply bind_Some in H as (moved & Hm & H). destruct moved.
      * injection H as <- <-. split; [lia|]. destruct (Z.gtb_spec startTerm (-1)) as [Hst|]; [|done]. split; [lia|]. exists l.
        clear - Hm. assert (forall rs i, movedOn (k_state l) startTerm rs i = Some true ->
          exists j, is_Some (mjoin (rs !! j)) /\ startTerm < (k_state l (i + j)%nat).1) as Haux.
        { induction rs as [|[a|] rs IH]; intros i; cbn [movedOn]; [done| |done]. destruct (Z.gtb_spec (k_state l i).1 startTerm) as [Hgt|].
          - intros _. exists 0%nat. rewrite Nat.add_0_r. split; [by eexists|lia].
          - intros (j & Hj & Ht)%IH. exists (S j). rewrite Nat.add_succ_r. done. }
        destruct (Haux _ _ Hm) as (j & Hj & Ht). exists j. split; [by left|done].
      * destruct (IH _ _ Hb H) as [Ht Hres]. split; [lia|]. destruct res as [cmd|]; [done|].
        destruct Hres as (? & l' & i & ? & ?). split; [done|]. exists l', i. split; [by right|done].
Qed.

(** [wait] returns a command only when enough servers have applied it, gives up early only when it was
    given a term and a running server has left it, and never sleeps for more than 31 seconds. *)
Theorem wait_agreement index k startTerm looks last res slept :
  length looks = 30%nat -> wait index k startTerm looks last = Some (res, slept) ->
  0 <= slept <= 30710 /\
  match res with
  | Cmd cmd => agreed index k cmd last
  | MovedOn => -1 < startTerm /\ exists look i, look ∈ looks /\ is_Some (mjoin (rafts (k_after look) !! i)) /\ startTerm < (k_state look i).1
  end.
Proof.
  intros Hl H. apply waitLoop_spec in H as [Ht Hres]; [|lia]. rewrite Hl in Ht. split; [|done].
  replace (sleeps 30 10) with 30710 in Ht by (by vm_compute). lia.
Qed.
End RaftAgree.

(** ** A test that agrees *)

Section Examples.
(** Three servers, of which the second leads; two of them apply the command 7 at index 1. *)
Definition agreeConfig (done_ : bool) : config Z Z :=
  let c := set_connected [true; true; false] (set_rafts [Some 0%nat; Some 1%nat; None] (RaftConfig.initial 3 false)) in
  if done_ then set_logs [{[1 := 7]}; {[1 := 7]}; ∅] c else c.
Definition agreeRound : Round := mkRound (agreeConfig false) (fun i => if Nat.eqb i 1 then Some 1 else None) [agreeConfig false; agreeConfig true].

Lemma one_agreement_witness : exists index called, one 0 7 2 false false [agreeRound] = Some (index, called) /\ index <> -1.
Proof.
  apply (proj2 (one_agreement 0 7 2 false false [agreeRound]) [] agreeRound [] 1%nat 1); [done|by intros ? ? ?%not_elem_of_nil|cbn; lia|by vm_compute|by exists 1%nat|done|].
  intros j y. unfold agreeRound. cbn [r_start r_polls]. destruct (Nat.eqb j 1); [|done]. intros [= <-]. split; [lia|].
  assert (forall c, c ∈ [agreeConfig false; agreeConfig true] -> Forall (fun l : gmap Z Z => l !! 1 = None \/ l !! 1 = Some 7) (logs c)) as Hlogs.
  { intros c [-> | ->%list_elem_of_singleton]%elem_of_cons; repeat constructor; first [by left|by right]. }
  split.
  - intros c Hc l l' x x' Hl Hl' Hx Hx'. specialize (Hlogs c Hc). rewrite Forall_forall in Hlogs.
    destruct (Hlogs l Hl) as [E|E], (Hlogs l' Hl') as [E'|E']; congruence.
  - exists (agreeConfig true). split; [right; by left|]. split; [by vm_compute|]. intros l x Hl Hx.
    specialize (Hlogs (agreeConfig true) ltac:(right; by left)). rewrite Forall_forall in Hlogs. destruct (Hlogs l Hl); congruence.
Defined.

Definition agreeLook (i : nat) : Look := mkLook (agreeConfig (Nat.leb 2 i)) (agreeConfig false) (fun _ => (1, false)).

Lemma wait_agreement_witness : wait 0 1 2 (-1) (agreeLook <$> seq 0 30) (agreeConfig true) = Some (Cmd 7, 30) /\ agreed 1 2 7 (agreeConfig true).
Proof.
  assert (wait 0 1 2 (-1) (agreeLook <$> seq 0 30) (agreeConfig true) = Some (Cmd 7, 30)) as H by (by vm_compute).
  assert (length (agreeLook <$> seq 0 30) = 30%nat) as Hl by done.
  destruct (wait_agreement 0 1 2 (-1) (agreeLook <$> seq 0 30) (agreeConfig true) (Cmd 7) 30 Hl H) as [_ Ha]. exact (conj H Ha).
Defined.
End Examples.
