(* ===== verification/RaftCluster.v ===== *)
(** * RaftCluster: the Raft peers on the simulated network, driven by their tester
      (src/6.5840-golabs-2024/src/raft/raft.go, rpc.go, config.go, labrpc/labrpc.go)

    RaftNet lets messages between the peers get lost, delayed and reordered at will.  Here the peers
    run over the network of LabRPC as the tester of RaftConfig sets it up: a Raft instance is the receiver
    of a service on the heap of the network, its calls leave through the client ends it was given, and its
    handlers are run by the dispatcher of labrpc.  An instance that was crashed is not gone: it stays on
    the heap, goes on running, sending and serving, and only its ends, its server and its persister are taken
    from it.  [cfg.saved[i]] is the persister of the instance [cfg.rafts[i]] as long as there is one.  The
    test is one thread: [doing] says where it is in [crash1] and [start1], and everything else may happen
    between the pieces.  Enabling or disabling all the ends of a server is one piece. *)

From S2P Require Import Prelude Persister Raft RaftNet LabRPC TestNet RaftConfig.
Local Open Scope Z_scope.

(** ** Messages *)

(** What gob sends: it does not tell a nil slice from an empty one and decodes both as nil. *)
Inductive Msg {C : Type} :=
| MVote (a : RequestVoteArgs)
| MVoteReply (r : RequestVoteReply)
| MAppend (term leaderId prevLogIndex prevLogTerm : Z) (entries : list (LogEntries C)) (leaderCommit : Z)
| MAppendReply (r : AppendEntriesReply).
Arguments Msg : clear implicits.

Section Messages.
Context {C : Type}.

Definition toMsg (b : Body C) : Msg C :=
  match b with
  | VoteCall _ a => MVote a
  | AppendCall a => MAppend (ae_Term a) (ae_LeaderId a) (ae_PrevLogIndex a) (ae_PrevLogTerm a) (entriesOf a) (ae_LeaderCommit a)
  end.

Definition replyMsgOf (r : Reply) : Msg C :=
  match r with VoteReply r => MVoteReply r | AppendReply r => MAppendReply r end.

Definition nilIfEmpty {A} (l : list A) : option (list A) := match l with [] => None | _ => Some l end.

(** The first argument of [Call] in [sendRequestVote] and [sendAppendEntries]. *)
Definition methodOf (b : Body C) : string :=
  match b with VoteCall _ _ => "Raft.RequestVote" | AppendCall _ => "Raft.AppendEntries" end.
End Messages.

(** ** Instances *)

(** A Raft instance: its state with the incarnation of its server and its applier, the names of its client ends
    [rf.peers], what the clock and the random numbers say at the moment, and whether it has panicked. *)
Record Node {C byte : Type} := mkNode {
  o_server : RaftNet.Server C byte;
  o_ends : list string;
  o_now : Z;
  o_rand : Z;
  o_panicked : bool
}.
Arguments Node : clear implicits.
Arguments mkNode {C byte}.

Section Node.
Context {C byte : Type} `{!Gob byte Z} `{!Gob byte (list (LogEntries C))}.
Implicit Types (nd : Node C byte).

Definition set_node rf nd : Node C byte := mkNode (set_raft rf (o_server nd)) (o_ends nd) (o_now nd) (o_rand nd) (o_panicked nd).
Definition set_clock now r nd : Node C byte := mkNode (o_server nd) (o_ends nd) now r (o_panicked nd).
Definition panic nd : Node C byte := mkNode (o_server nd) (o_ends nd) (o_now nd) (o_rand nd) true.
Definition raftOf nd : Raft C byte := s_raft (o_server nd).

(** The two handlers as the dispatcher calls them.  A value of another type cannot reach them. *)
Definition serveVote nd (m : Msg C) : Node C byte * Msg C :=
  match m with
  | MVote a => let '(rf, rep) := RequestVote (o_now nd) (o_rand nd) a (raftOf nd) in (set_node rf nd, MVoteReply rep)
  | _ => (nd, m)
  end.
Definition serveAppend nd (m : Msg C) : Node C byte * Msg C :=
  match m with
  | MAppend term leaderId prevLogIndex prevLogTerm entries leaderCommit =>
      match AppendEntries (o_now nd) (o_rand nd)
              (mkAppendEntriesArgs term leaderId prevLogIndex prevLogTerm (nilIfEmpty entries) leaderCommit) (raftOf nd) with
      | Some (rf, rep) => (set_node rf nd, MAppendReply rep)
      | None => (panic nd, m)
      end
  | _ => (nd, m)
  end.

(** The exported methods of [Raft] as reflection lists them; only two have the shape of a handler. *)
Definition raftMethods : list (Method (Val := Msg C) (Obj := Node C byte)) :=
  let other := fun nd m => (nd, m) in
  [mkMethod "AppendEntries" "" 3 true 0 serveAppend; mkMethod "GetState" "" 1 false 2 other; mkMethod "Kill" "" 1 false 0 other;
   mkMethod "RequestVote" "" 3 true 0 serveVote; mkMethod "Snapshot" "" 3 false 0 other; mkMethod "Start" "" 2 false 3 other].

Definition raftServer nd : LabRPC.Server (Val := Msg C) (Obj := Node C byte) :=
  AddService (MakeService "Raft" nd raftMethods) MakeServer.

(** The instance behind a server, shared with its own goroutines. *)
Definition nodeOf (rs : LabRPC.Server (Val := Msg C) (Obj := Node C byte)) : option (Node C byte) :=
  sv_rcvr <$> services rs !! "Raft"%string.
Definition withNode nd (rs : LabRPC.Server (Val := Msg C) (Obj := Node C byte)) : LabRPC.Server (Val := Msg C) (Obj := Node C byte) :=
  LabRPC.mkServer ((fun svc => mkService (sv_name svc) nd (sv_methods svc)) <$> services rs) (sv_count rs).

(** One run of a goroutine: the new state, and the call it makes.  [None] is a panic. *)
Definition goroutine (now r : Z) (g : Goroutine) (rf : Raft C byte) : option (Raft C byte * option (nat * Body C)) :=
  match g with
  | GResetTimer => Some (resetElectionTimer now r rf, None)
  | GHeartbeat => let '(rf, again) := heartbeat rf in Some (if again : bool then spawn GHeartbeat rf else rf, None)
  | GReplicate hb => Some (replicateLogsToFollower hb rf, None)
  | GAppend server hb => args ← makeAppendEntriesArgs server hb rf; Some (rf, Some (server, AppendCall args))
  | GVote server e => '(args, _) ← elections rf !! e; Some (rf, Some (server, VoteCall e args))
  end.
End Node.

(** ** The cluster *)

(** A call of an instance to a peer, and whether the goroutine that made it still waits. *)
Record Pending {C : Type} := mkPending { q_node : nat; q_to : nat; q_body : Body C; q_waiting : bool }.
Arguments Pending : clear implicits.
Arguments mkPending {C}.

(** Where the test is.  [Crashing]: [crash1] has disconnected server [i] and deleted it; [again]: [start1] called it.
    [Naming]: [crash1] is done, the ends are made next.  [Booting]: they are made.  [Adding]: the instance runs and its server is
    not on the network yet. *)
Inductive Doing := Idle | Crashing (i : nat) (again : bool) | Naming (i : nat) | Booting (i : nat) | Adding (i p : nat).

Section Cluster.
Context {C byte : Type} `{!EqDecision C} `{!Gob byte Z} `{!Gob byte (list (LogEntries C))} `{!Gob byte (list C)} `{!Gob byte (Msg C)}.
Context (zero_cmd : C).

Abbreviation NSys := (LabRPC.Sys (Name := NetName) (byte := byte) (Val := Msg C) (Obj := Node C byte)).
Abbreviation NEvent := (LabRPC.Event (Name := NetName) (Val := Msg C) (Obj := Node C byte)).

(** The value [reflect.New] gives the dispatcher to decode into. *)
Definition zeroMsg : Msg C := MVote (mkRequestVoteArgs 0 0 0 0).

(** [starts]: how often each server was made.  The network of [conf] is the one of [sys]. *)
Record Cluster := mkCluster {
  sys : NSys;
  conf : config C byte;
  starts : list nat;
  pend : list (Pending C);
  doing : Doing
}.

Definition set_sys x cl := mkCluster x (conf cl) (starts cl) (pend cl) (doing cl).
Definition set_pend x cl := mkCluster (sys cl) (conf cl) (starts cl) x (doing cl).
Definition set_doing x cl := mkCluster (sys cl) (conf cl) (starts cl) (pend cl) x.
Definition set_starts x cl := mkCluster (sys cl) (conf cl) x (pend cl) (doing cl).

(** What the tester works on, and its result. *)
Definition confOf cl : config C byte := RaftConfig.set_net (LabRPC.net (sys cl)) (conf cl).
Definition set_conf c cl := mkCluster (LabRPC.set_net (RaftConfig.net c) (sys cl)) c (starts cl) (pend cl) (doing cl).

Definition node (p : nat) cl : option (Node C byte) := LabRPC.heap (sys cl) !! p ≫= nodeOf.
Definition set_heap (h : list (LabRPC.Server (Val := Msg C) (Obj := Node C byte))) (s : NSys) : NSys := mkSys (alive s) (LabRPC.net s) h (LabRPC.calls s) (history s).
Definition put_node (p : nat) (nd : Node C byte) cl : Cluster :=
  set_sys (set_heap (alter (withNode nd) p (LabRPC.heap (sys cl))) (sys cl)) cl.

(** An event of the network; [log.Fatalf] ends the process. *)
Definition rpc (ev : NEvent) cl : option Cluster :=
  s ← happen zeroMsg ev (sys cl); if alive s then Some (set_sys s cl) else None.

(** *** The goroutines of the instances *)

Definition tick (p : nat) (now r : Z) cl : option Cluster :=
  nd ← node p cl; Some (put_node p (set_node (ticker now r (raftOf nd)) nd) cl).

(** Call number [length (pend cl)]; [gone]: the network has been cleaned up. *)
Definition call (p j : nat) (b : Body C) (e : string) (gone : bool) cl : option Cluster :=
  let id := Z.of_nat (length (pend cl)) in
  let m := toMsg b in
  cl ← rpc (if gone then EvCallDone id (inl e) (methodOf b) m else EvCall id (inl e) (methodOf b) m) cl;
  Some (set_pend (pend cl ++ [mkPending p j b true]) cl).

Definition runG (p k : nat) (now r : Z) (gone : bool) cl : option Cluster :=
  nd ← node p cl;
  g ← spawned (raftOf nd) !! k;
  '(rf, out) ← goroutine now r g (set_spawned (delete k (spawned (raftOf nd))) (raftOf nd));
  let cl := put_node p (set_node rf nd) cl in
  match out with
  | None => Some cl
  | Some (j, b) => e ← o_ends nd !! j; call p j b e gone cl
  end.

(** [Call] returns to the goroutine that made it, which goes on when it returned true. *)
Definition return_ (id : nat) cl : option Cluster :=
  q ← pend cl !! id;
  c ← LabRPC.calls (sys cl) !! Z.of_nat id;
  nd ← node (q_node q) cl;
  if negb (q_waiting q) then None
  else
    let cl := set_pend (<[id := mkPending (q_node q) (q_to q) (q_body q) false]> (pend cl)) cl in
    match c_phase c with
    | Returned rep =>
        '(ok, v) ← callResult rep;
        match ok, v with
        | true, Some (MVoteReply r) => rf ← handle (q_to q) (q_body q) (VoteReply r) (raftOf nd); Some (put_node (q_node q) (set_node rf nd) cl)
        | true, Some (MAppendReply r) => rf ← handle (q_to q) (q_body q) (AppendReply r) (raftOf nd); Some (put_node (q_node q) (set_node rf nd) cl)
        | _, _ => Some cl
        end
    | _ => None
    end.

(** The handler goroutine of a call runs at the time [now]; a panic ends the process. *)
Definition handler (id : nat) (now r : Z) cl : option Cluster :=
  c ← LabRPC.calls (sys cl) !! Z.of_nat id;
  p ← c_handler c;
  nd ← node p cl;
  cl ← rpc (EvHandler (Z.of_nat id)) (put_node p (set_clock now r nd) cl);
  nd ← node p cl;
  if o_panicked nd then None else Some cl.

Definition start (p : nat) (cmd : C) cl : option Cluster :=
  nd ← node p cl; Some (put_node p (set_node (Start cmd (raftOf nd)).1 nd) cl).

(** The applier of an instance, as in RaftNet. *)
Definition applyBegins (p : nat) cl : option Cluster :=
  nd ← node p cl;
  match o_server nd with
  | RaftNet.mkServer ep rf RaftNet.Waiting msgs =>
      '(start, entries) ← mjoin (applyBegin rf);
      let s := RaftNet.mkServer ep rf (Sending start entries) (msgs ++ applyMsgs start entries) in
      Some (put_node p (mkNode s (o_ends nd) (o_now nd) (o_rand nd) (o_panicked nd)) cl)
  | _ => None
  end.
Definition applyEnds (p : nat) cl : option Cluster :=
  nd ← node p cl;
  match o_server nd with
  | RaftNet.mkServer ep rf (Sending start entries) msgs =>
      let rf := applyEnd_ start entries rf in
      let s := RaftNet.mkServer ep rf (if killed rf then Stopped else RaftNet.Waiting) msgs in
      Some (put_node p (mkNode s (o_ends nd) (o_now nd) (o_rand nd) (o_panicked nd)) cl)
  | _ => None
  end.

(** *** The test *)

Implicit Types (c : config C byte).

(** The two halves of [crash1]. *)
Definition crashNet (i : nat) c : option (config C byte) :=
  c ← disconnect i c; Some (RaftConfig.set_net (DeleteServer (inr (Z.of_nat i)) (RaftConfig.net c)) c).
Definition crashSave (i : nat) c : config C byte :=
  let c := set_rafts (<[i := None]> (rafts c)) c in
  match saved c !! i with
  | Some (Some ps) =>
      let ps := Copy ps in
      set_saved (<[i := Some (Save (ReadRaftState ps) (ReadSnapshot ps) (mkPersister [] []))]> (saved c)) c
  | _ => c
  end.

(** The rest of [start1]: the ends, the persister, the instance and its server. *)
Definition startEnds (i : nat) (names : list string) c : option (config C byte) :=
  if negb (bool_decide (length names = RaftConfig.n c)) then None
  else
    let c := set_endnames (<[i := Some names]> (endnames c)) c in
    rn ← makeEnds names 0 (RaftConfig.net c);
    Some (RaftConfig.set_net rn c).
Definition startSaved (i : nat) c : option (config C byte) :=
  let c := RaftConfig.set_lastApplied (<[i := 0]> (RaftConfig.lastApplied c)) c in
  match saved c !! i with
  | Some (Some ps) =>
      let ps := Copy ps in
      let c := set_saved (<[i := Some ps]> (saved c)) c in
      if bool_decide (ReadSnapshot ps = []) then Some c
      else r ← ingestSnap i (ReadSnapshot ps) (-1) c; match r with inl c => Some c | inr _ => None end
  | _ => Some (set_saved (<[i := Some MakePersister]> (saved c)) c)
  end.
Definition addServer (i p : nat) c : config C byte := RaftConfig.set_net (AddServer (inr (Z.of_nat i)) p (RaftConfig.net c)) c.

Lemma crash1_steps i c : crash1 i c = crashSave i <$> crashNet i c.
Proof.
  unfold crash1, crashNet, crashSave. destruct (disconnect i c) as [c'|]; [|done]. cbn.
  by destruct (saved c' !! i) as [[]|].
Qed.

Lemma start1_steps i names p c :
  start1 i names p p c =
    c ← crash1 i c; c ← startEnds i names c; c ← startSaved i c; Some (addServer i p (set_rafts (<[i := Some p]> (rafts c)) c)).
Proof.
  unfold start1, startEnds, startSaved. destruct (crash1 i c) as [c1|]; [|done]. cbn.
  case_bool_decide; [|done]. cbn. destruct (makeEnds names 0 (RaftConfig.net c1)) as [rn|]; [|done]. cbn.
  destruct (saved c1 !! i) as [[ps|]|]; [|done..]. case_bool_decide; [done|]. cbn.
  by destruct (ingestSnap _ _ _ _) as [[]|].
Qed.

(** [cfg.saved[i]] is the persister of the running instance. *)
Definition derefSaved (i : nat) cl : config C byte :=
  let c := confOf cl in
  match mjoin (rafts c !! i) ≫= fun p => node p cl with
  | Some nd => set_saved (<[i := Some (persister (raftOf nd))]> (saved c)) c
  | None => c
  end.

(** [rf.Kill()] *)
Definition kill (p : nat) cl : Cluster :=
  match node p cl with Some nd => put_node p (set_node (Kill (raftOf nd)) nd) cl | None => cl end.

Definition killOld (i : nat) cl : Cluster :=
  match mjoin (rafts (conf cl) !! i) with Some p => kill p cl | None => cl end.

Definition crashed (i : nat) cl : Cluster := set_conf (crashSave i (derefSaved i cl)) (killOld i cl).

(** The new instance. *)
Definition made (i : nat) (names : list string) (epoch : nat) (ps : Persister byte) (now r : Z) c : Node C byte :=
  mkNode (RaftNet.mkServer epoch (Make zero_cmd (RaftConfig.n c) i ps now r) RaftNet.Waiting []) names now r false.

Definition booted (i : nat) (now r : Z) cl : option Cluster :=
  c ← startSaved i (confOf cl);
  ps ← mjoin (saved c !! i);
  names ← mjoin (endnames c !! i);
  k ← starts cl !! i;
  let p := length (LabRPC.heap (sys cl)) in
  let cl := set_conf (set_rafts (<[i := Some p]> (rafts c)) c) (set_starts (<[i := S k]> (starts cl)) cl) in
  cl ← rpc (EvNewServer (raftServer (made i names (S k) ps now r c))) cl;
  Some (set_doing (Adding i p) cl).

(** A statement of the test.  A test connects only a server that runs. *)
Inductive TestStep :=
| TConnect (i : nat) | TDisconnect (i : nat) | TSet (x : Setting) | TKill (i : nat)
| TCrash (i : nat) (again : bool) | TSave | TEnds (names : list string) | TBoot (now r : Z) | TAdd.

Definition test (t : TestStep) cl : option Cluster :=
  match t, doing cl with
  | TConnect i, Idle =>
      p ← mjoin (rafts (conf cl) !! i);
      c ← connect i (confOf cl); Some (set_conf c cl)
  | TDisconnect i, Idle => c ← disconnect i (confOf cl); Some (set_conf c cl)
  | TSet x, Idle => rn ← applySetting x (LabRPC.net (sys cl)); Some (set_sys (LabRPC.set_net rn (sys cl)) cl)
  | TKill i, Idle => Some (killOld i cl)
  | TCrash i again, Idle =>
      if bool_decide (i < RaftConfig.n (conf cl))%nat
      then c ← crashNet i (confOf cl); Some (set_doing (Crashing i again) (set_conf c cl)) else None
  | TSave, Crashing i again => Some (set_doing (if again then Naming i else Idle) (crashed i cl))
  | TEnds names, Naming i => c ← startEnds i names (confOf cl); Some (set_doing (Booting i) (set_conf c cl))
  | TBoot now r, Booting i => booted i now r cl
  | TAdd, Adding i p => Some (set_doing Idle (set_conf (addServer i p (confOf cl)) cl))
  | _, _ => None
  end.

(** *** Runs *)

Inductive CEvent :=
| CTick (p : nat) (now r : Z)
| CRun (p k : nat) (now r : Z) (gone : bool)
| CStart (p : nat) (cmd : C)
| CApplyBegin (p : nat)
| CApplyEnd (p : nat)
| CProcess (id : nat) (r : Z)
| CHandler (id : nat) (now r : Z)
| CGiveUp (id : nat)
| CAnswer (id : nat) (r r' : Z)
| CTimer (id : nat)
| CReturn (id : nat)
| CTest (t : TestStep).

(** [None]: the event is not possible, or it ends the process. *)
Definition step (ev : CEvent) cl : option Cluster :=
  match ev with
  | CTick p now r => tick p now r cl
  | CRun p k now r gone => runG p k now r gone cl
  | CStart p cmd => start p cmd cl
  | CApplyBegin p => applyBegins p cl
  | CApplyEnd p => applyEnds p cl
  | CProcess id r => rpc (EvProcess (Z.of_nat id) r) cl
  | CHandler id now r => handler id now r cl
  | CGiveUp id => rpc (LabRPC.EvTick (Z.of_nat id)) cl
  | CAnswer id r r' => rpc (EvAnswer (Z.of_nat id) r r') cl
  | CTimer id => rpc (EvTimer (Z.of_nat id)) cl
  | CReturn id => return_ id cl
  | CTest t => test t cl
  end.

Fixpoint steps (evs : list CEvent) cl : option Cluster :=
  match evs with
  | [] => Some cl
  | ev :: evs => cl ← step ev cl; steps evs cl
  end.

(** Before the loops of [make_config]. *)
Definition fresh (n : nat) (unreliable : bool) : Cluster :=
  let c := initial n unreliable in
  mkCluster (mkSys true (RaftConfig.net c) [] ∅ []) c (replicate n 0%nat) [] Idle.

Inductive reaches (n : nat) (unreliable : bool) : Cluster -> Prop :=
| reaches_fresh : reaches n unreliable (fresh n unreliable)
| reaches_step cl ev cl' : reaches n unreliable cl -> step ev cl = Some cl' -> reaches n unreliable cl'.

Lemma reaches_steps n unreliable evs cl cl' : reaches n unreliable cl -> steps evs cl = Some cl' -> reaches n unreliable cl'.
Proof.
  revert cl. induction evs as [|ev evs IH]; intros cl Hr Hs; cbn in Hs; [by simplify_eq|].
  apply bind_Some in Hs as (cl1 & H1 & H2). eapply IH; [|done]. by eapply reaches_step.
Qed.

(** *** A round of [checkOneLeader] *)

(** Everything but the test, which waits for [GetState]. *)
Definition background (ev : CEvent) : bool := match ev with CTest _ => false | _ => true end.

(** [cfg.rafts[i].GetState()]: [before] happens before it reads the term, [between] before it reads the role.
    The instance as it is at the two reads. *)
Definition look (i : nat) (before between : list CEvent) cl : option (Node C byte * Node C byte * Cluster) :=
  if forallb background (before ++ between)
  then
    p ← mjoin (rafts (conf cl) !! i);
    cl ← steps before cl;
    nd ← node p cl;
    cl ← steps between cl;
    nd' ← node p cl;
    Some (nd, nd', cl)
  else None.

(** The loop over the servers from number [i] on: one pair of event lists for every server. *)
Fixpoint looks (i : nat) (sched : list (list CEvent * list CEvent)) cl : option (list (option (Node C byte * Node C byte)) * Cluster) :=
  match sched with
  | [] => Some ([], cl)
  | (before, between) :: sched =>
      if isConnected (conf cl) i
      then '(nd, nd', cl) ← look i before between cl; '(rs, cl) ← looks (S i) sched cl; Some (Some (nd, nd') :: rs, cl)
      else '(rs, cl) ← looks (S i) sched cl; Some (None :: rs, cl)
  end.

(** What [GetState] has answered. *)
Definition seen (rs : list (option (Node C byte * Node C byte))) (i : nat) : Z * bool :=
  match rs !! i with
  | Some (Some (nd, nd')) => GetState_reads (raftOf nd) (raftOf nd')
  | _ => (0, false)
  end.
End Cluster.
Arguments Cluster : clear implicits.
Arguments CEvent : clear implicits.
