(* ===== verification/RaftClusterSim.v ===== *)
(** * RaftClusterSim: the cluster on labrpc does what RaftNet allows

    A forward simulation.  [Wired] is what the tester keeps true of the network: every end leads to the peer it is
    for, a server that is on the network is the running instance, and the ends of an instance that was crashed are
    disabled.  [Sim] relates a cluster to a world of RaftNet: a running instance is the server of its peer, a
    server that is down left its persister, and a call is as far in RaftNet as labrpc lets it have an effect.  A handler
    that runs on a crashed instance has none, because its answer is thrown away; a call whose client gave up may
    still be executed. *)

From S2P Require Import Prelude Persister Raft RaftFacts RaftNet RaftSafety LabRPC TestNet RaftConfig RaftCluster.
Local Open Scope Z_scope.

Section Wire.
Context {C byte : Type} `{!Gob byte Z} `{!Gob byte (list (LogEntries C))} `{!Gob byte (Msg C)}.
Implicit Types (nd : Node C byte) (b : Body C) (rs : LabRPC.Server (Val := Msg C) (Obj := Node C byte)).

(** ** Handlers behind the dispatcher *)

Definition hosts rs nd : Prop := services rs = services (raftServer nd).

Lemma hosts_nodeOf rs nd : hosts rs nd -> nodeOf rs = Some nd.
Proof. intros H. unfold nodeOf. by rewrite H. Qed.

Lemma hosts_withNode rs nd nd' : hosts rs nd -> hosts (withNode nd' rs) nd'.
Proof. intros H. unfold hosts, withNode. cbn. rewrite H. cbn. by rewrite fmap_insert, fmap_empty. Qed.

Lemma hosts_raftServer nd : hosts (raftServer nd) nd.
Proof. done. Qed.

Definition serve b nd : Node C byte * Msg C :=
  match b with VoteCall _ _ => serveVote nd (toMsg b) | AppendCall _ => serveAppend nd (toMsg b) end.

Lemma dispatch_serve rs nd b e :
  hosts rs nd ->
  exists rs', hosts rs' (serve b nd).1 /\
    Server_dispatch zeroMsg (mkReqMsg (Name := NetName) (inl e) (methodOf b) (gob_encode (toMsg b))) rs =
      Some (rs', toMsg b, (serve b nd).2, mkReplyMsg true (gob_encode (serve b nd).2)).
Proof.
  intros H.
  assert (gob_decode (gob_encode (toMsg b)) = Some (toMsg b, [])) as Hg
    by (rewrite <- (app_nil_r (gob_encode (toMsg b))); apply gob_decode_encode).
  eexists (LabRPC.mkServer (services (raftServer (serve b nd).1)) (sv_count rs + 1)). split; [done|].
  unfold Server_dispatch. cbn [svcMeth].
  destruct b as [e' a|a]; cbn [methodOf];
    match goal with |- context [splitMethod ?s] => let v := eval vm_compute in (splitMethod s) in change (splitMethod s) with v end;
    cbn [mbind option_bind]; rewrite H; unfold raftServer, AddService; cbn [services sv_name MakeService]; rewrite lookup_insert_eq;
    cbn [mbind option_bind]; unfold Service_dispatch.
  1: change (sv_methods _ !! _) with (Some (serveVote (C := C) (byte := byte))).
  2: change (sv_methods _ !! _) with (Some (serveAppend (C := C) (byte := byte))).
  all: cbn [mbind option_bind args]; rewrite Hg; cbn [fmap option_fmap option_map fst default serve sv_rcvr MakeService id];
    match goal with |- context [let '(_, _) := ?x in _] => destruct x as [nd' v] end;
    cbn [mbind option_bind fst snd]; rewrite H; unfold raftServer, AddService; cbn [services sv_name MakeService]; by rewrite insert_insert_eq.
Qed.

(** Gob loses the difference between nil and empty entries; the handler does not look at it. *)
Lemma AppendEntries_wire now r (a : AppendEntriesArgs C) (rf : Raft C byte) :
  AppendEntries now r (mkAppendEntriesArgs (ae_Term a) (ae_LeaderId a) (ae_PrevLogIndex a) (ae_PrevLogTerm a) (nilIfEmpty (entriesOf a)) (ae_LeaderCommit a)) rf =
  AppendEntries now r a rf.
Proof. destruct a as [t l p pt [[|x es]|] lc]; done. Qed.

Lemma serve_deliver b nd rf rep :
  deliver (o_now nd) (o_rand nd) b (raftOf nd) = Some (rf, rep) -> serve b nd = (set_node rf nd, replyMsgOf rep).
Proof.
  destruct b as [e a|a]; cbn [deliver serve serveVote serveAppend toMsg].
  - destruct (RequestVote _ _ a _) as [rf' rep']. intros. by simplify_eq.
  - rewrite AppendEntries_wire. destruct (AppendEntries _ _ a _) as [[rf' rep']|]; [|done]. cbn. intros. by simplify_eq.
Qed.

(** What a handler leaves alone. *)
Lemma serve_frame b nd : o_ends (serve b nd).1 = o_ends nd /\ s_epoch (o_server (serve b nd).1) = s_epoch (o_server nd).
Proof.
  destruct b as [e a|a]; cbn [serve serveVote serveAppend toMsg].
  - by destruct (RequestVote _ _ _ _).
  - rewrite AppendEntries_wire. by destruct (AppendEntries _ _ _ _) as [[]|].
Qed.

(** RaftNet runs a goroutine the same way. *)
Lemma run_goroutine_eq i g now r (s : RaftNet.Server C byte) w :
  run_goroutine i g now r s w =
    match goroutine now r g (s_raft s) with
    | None => Panicked
    | Some (rf, None) => Next (upd_server i (set_raft rf s) w)
    | Some (rf, Some (j, b)) => Next (add_call (mkRpcCall i (s_epoch s) j b RaftNet.Sent) (upd_server i (set_raft rf s) w))
    end.
Proof.
  destruct s as [ep rf ap msgs]. destruct g as [| |hb|j hb|j e]; cbn [run_goroutine goroutine s_raft s_epoch]; try done.
  - by destruct (heartbeat rf).
  - by destruct (makeAppendEntriesArgs j hb rf).
  - by destruct (elections rf !! e) as [[]|].
Qed.
End Wire.

(** ** The relation *)

Section Sim.
Context {C byte : Type} `{!EqDecision C} `{!Gob byte Z} `{!Gob byte (list (LogEntries C))} `{!Gob byte (list C)} `{!Gob byte (Msg C)}.
Context (zero_cmd : C) (n : nat) (marks : list (nat * Z)).
Implicit Types (cl : Cluster C byte) (nd : Node C byte) (w : World C byte) (owners : list nat) (q : Pending C).
Implicit Types (rc : RpcCall C) (rn : Net) (c : LabRPC.Call (Name := NetName) (byte := byte)).

Definition server_name (i : nat) : NetName := inr (Z.of_nat i).

(** The instance that runs as server [i]. *)
Definition runs cl (i p : nat) : Prop := rafts (conf cl) !! i = Some (Some p).

(** Ends as an instance uses them: end [j] leads to server [j]. *)
Definition leads rn (es : list string) : Prop :=
  length es = n /\ forall j e, es !! j = Some e -> connections rn !! inl e = Some (Some (server_name j)) /\ inl e ∈ LabRPC.ends rn.

Definition test_ok cl : Prop :=
  let rn := LabRPC.net (sys cl) in
  match doing cl with
  | Idle => True
  | Crashing i _ => (i < n)%nat /\ isConnected (conf cl) i = false /\ serverAt (server_name i) rn = None /\
      forall p nd e, runs cl i p -> node p cl = Some nd -> e ∈ o_ends nd -> isEnabled (inl e) rn = false
  | Naming i => rafts (conf cl) !! i = Some None
  | Booting i => rafts (conf cl) !! i = Some None /\ exists names, endnames (conf cl) !! i = Some (Some names) /\ leads rn names /\
      forall p nd e, node p cl = Some nd -> e ∈ o_ends nd -> e ∉ names
  | Adding i p => runs cl i p
  end.

(** [owners]: the server that each instance was made for. *)
Record Wired cl owners : Prop := {
  w_n : RaftConfig.n (conf cl) = n;
  w_len : length (rafts (conf cl)) = n /\ length (endnames (conf cl)) = n /\ length (saved (conf cl)) = n /\ length (starts cl) = n;
  w_owners : length owners = length (LabRPC.heap (sys cl));
  w_host p rs : LabRPC.heap (sys cl) !! p = Some rs -> exists nd, hosts rs nd;
  w_ends p nd : node p cl = Some nd -> leads (LabRPC.net (sys cl)) (o_ends nd);
  w_distinct p p' nd nd' e : node p cl = Some nd -> node p' cl = Some nd' -> e ∈ o_ends nd -> e ∈ o_ends nd' -> p = p';
  w_runs i p : runs cl i p -> owners !! p = Some i /\ exists nd, node p cl = Some nd /\ endnames (conf cl) !! i = Some (Some (o_ends nd));
  w_reg i p : serverAt (server_name i) (LabRPC.net (sys cl)) = Some p -> runs cl i p;
  w_conn i : isConnected (conf cl) i = true -> exists p, runs cl i p;
  w_cut p nd i e : node p cl = Some nd -> owners !! p = Some i -> ~ runs cl i p -> e ∈ o_ends nd ->
    isEnabled (inl e) (LabRPC.net (sys cl)) = false;
  w_test : test_ok cl
}.

(** The answer of labrpc is the reply of RaftNet. *)
Definition executed (st : Status) (rep : replyMsg (byte := byte)) : Prop :=
  exists r, st = Executed r /\ rep = mkReplyMsg true (gob_encode (replyMsgOf (C := C) r)).

Definition phase_sim cl owners q c (st : Status) : Prop :=
  match c_phase c with
  | LabRPC.Sent => c_handler c = None /\ st = RaftNet.Sent
  | LabRPC.Waiting => True
  | Handling nm h _ _ None => nm = server_name (q_to q) /\ c_handler c = Some h
  | Handling nm h _ _ (Some rep) => nm = server_name (q_to q) /\ c_handler c = None /\ owners !! h = Some (q_to q) /\
      (executed st rep \/ ~ runs cl (q_to q) h)
  | Delayed rep => c_handler c = None /\ executed st rep
  | Returned rep => ok rep = true -> c_handler c = None /\ (q_waiting q = true -> executed st rep)
  end.

(** A call that an instance made while it ran is call [k] of RaftNet; the calls of crashed instances go nowhere. *)
Definition call_sim cl w owners q nd c (oc : option nat) : Prop :=
  match oc with
  | Some k => exists rc, RaftNet.calls w !! k = Some rc /\ owners !! q_node q = Some (RaftNet.c_from rc) /\
      RaftNet.c_epoch rc = s_epoch (o_server nd) /\ RaftNet.c_to rc = q_to q /\ RaftNet.c_body rc = q_body q /\
      (forall h, c_handler c = Some h -> owners !! h = Some (q_to q) /\ RaftNet.c_status rc = RaftNet.Sent) /\
      phase_sim cl owners q c (RaftNet.c_status rc)
  | None => (exists i, owners !! q_node q = Some i /\ ~ runs cl i (q_node q)) /\ c_handler c = None /\
      match c_phase c with LabRPC.Sent | LabRPC.Waiting => True | Returned rep => ok rep = false | _ => False end
  end.

(** [idx]: the number of each call in RaftNet. *)
Record Sim cl w owners (idx : list (option nat)) : Prop := {
  s_cur i p nd : runs cl i p -> node p cl = Some nd -> RaftNet.servers w !! i = Some (o_server nd);
  s_down i : rafts (conf cl) !! i = Some None -> exists s, RaftNet.servers w !! i = Some s /\
    persister (s_raft s) = default MakePersister (mjoin (saved (conf cl) !! i));
  s_starts i s : RaftNet.servers w !! i = Some s -> starts cl !! i = Some (s_epoch s);
  s_len : length idx = length (pend cl);
  s_inj a b k : idx !! a = Some (Some k) -> idx !! b = Some (Some k) -> a = b;
  s_known z c : LabRPC.calls (sys cl) !! z = Some c -> exists id q, z = Z.of_nat id /\ pend cl !! id = Some q;
  s_call id q : pend cl !! id = Some q -> exists c nd e oc, LabRPC.calls (sys cl) !! Z.of_nat id = Some c /\
    node (q_node q) cl = Some nd /\ o_ends nd !! q_to q = Some e /\ idx !! id = Some oc /\
    c_req c = mkReqMsg (inl e) (methodOf (q_body q)) (gob_encode (toMsg (q_body q))) /\ call_sim cl w owners q nd c oc
}.

(** A world that RaftNet reaches and in which the elections of [marks] have been won. *)
Definition follows w : Prop := reachable zero_cmd n w /\ Forall (fun '(i, t) => led w i t) marks.

Lemma follows_step w ev w' : follows w -> RaftNet.exec zero_cmd ev w = Next w' -> follows w'.
Proof.
  intros [Hr Hm] Hex. split; [by eapply reach_step|]. eapply Forall_impl; [exact Hm|]. intros [i t]. by eapply led_exec.
Qed.

Lemma follows_Inv w : follows w -> RaftSafety.Inv zero_cmd w.
Proof. intros [Hr _]. by eapply reachable_Inv. Qed.

Lemma follows_length w : follows w -> length (RaftNet.servers w) = n.
Proof. intros [Hr _]. by eapply reachable_length. Qed.

Definition related cl : Prop := exists w owners idx, follows w /\ Wired cl owners /\ Sim cl w owners idx.

(** ** Frames *)

(** Networks that differ in nothing that matters to the wiring. *)
Definition same_wires rn rn' : Prop :=
  LabRPC.ends rn' = LabRPC.ends rn /\ enabled rn' = enabled rn /\ LabRPC.servers rn' = LabRPC.servers rn /\ connections rn' = connections rn.

(** The instance [p] becomes [nd'], which keeps its ends and its incarnation. *)
Record changes cl cl' (p : nat) nd nd' : Prop := {
  ch_node : node p cl = Some nd;
  ch_nodes p' : node p' cl' = if decide (p' = p) then Some nd' else node p' cl;
  ch_ends : o_ends nd' = o_ends nd;
  ch_epoch : s_epoch (o_server nd') = s_epoch (o_server nd);
  ch_heap : length (LabRPC.heap (sys cl')) = length (LabRPC.heap (sys cl));
  ch_host p' rs : LabRPC.heap (sys cl') !! p' = Some rs -> exists nd, hosts rs nd;
  ch_conf : conf cl' = conf cl;
  ch_starts : starts cl' = starts cl;
  ch_doing : doing cl' = doing cl;
  ch_net : same_wires (LabRPC.net (sys cl)) (LabRPC.net (sys cl'))
}.

Lemma node_ends_back cl cl' p nd nd' p' nd1 :
  changes cl cl' p nd nd' -> node p' cl' = Some nd1 ->
  exists nd0, node p' cl = Some nd0 /\ o_ends nd0 = o_ends nd1 /\ s_epoch (o_server nd0) = s_epoch (o_server nd1).
Proof.
  intros H Hn. rewrite (ch_nodes _ _ _ _ _ H) in Hn. case_decide as E; [|by exists nd1].
  subst. simplify_eq. exists nd. split_and!; [apply H|symmetry; apply H..].
Qed.

Lemma node_ends_forth cl cl' p nd nd' p' nd0 :
  changes cl cl' p nd nd' -> node p' cl = Some nd0 ->
  exists nd1, node p' cl' = Some nd1 /\ o_ends nd1 = o_ends nd0 /\ s_epoch (o_server nd1) = s_epoch (o_server nd0).
Proof.
  intros H Hn. rewrite (ch_nodes _ _ _ _ _ H). case_decide as E; [|by exists nd0].
  subst. rewrite (ch_node _ _ _ _ _ H) in Hn. simplify_eq. exists nd'. split_and!; [done|apply H..].
Qed.

Lemma Wired_changes cl cl' p nd nd' owners : changes cl cl' p nd nd' -> Wired cl owners -> Wired cl' owners.
Proof.
  intros H HW. pose proof (ch_conf _ _ _ _ _ H) as Hc. destruct (ch_net _ _ _ _ _ H) as (He & Hen & Hs & Hco).
  assert (forall es, leads (LabRPC.net (sys cl)) es -> leads (LabRPC.net (sys cl')) es) as Hleads
    by (intros es [Hl Hj]; split; [done|]; by rewrite He, Hco).
  assert (forall e, isEnabled e (LabRPC.net (sys cl')) = isEnabled e (LabRPC.net (sys cl))) as Hena by (intros; unfold isEnabled; by rewrite Hen).
  assert (forall x, serverAt x (LabRPC.net (sys cl')) = serverAt x (LabRPC.net (sys cl))) as Hsrv by (intros; unfold serverAt; by rewrite Hs).
  assert (forall i p', runs cl' i p' <-> runs cl i p') as Hruns by (intros; unfold runs; by rewrite Hc).
  split; rewrite ?Hc, ?(ch_starts _ _ _ _ _ H).
  - apply HW.
  - apply HW.
  - rewrite (ch_heap _ _ _ _ _ H). apply HW.
  - apply H.
  - intros p' nd1 (nd0 & Hn & <- & _)%(node_ends_back _ _ _ _ _ _ _ H). by apply Hleads, (w_ends _ _ HW p').
  - intros p1 p2 nd1 nd2 e (nd3 & Hn1 & <- & _)%(node_ends_back _ _ _ _ _ _ _ H) (nd4 & Hn2 & <- & _)%(node_ends_back _ _ _ _ _ _ _ H).
    by apply (w_distinct _ _ HW).
  - intros i p' Hr%Hruns. destruct (w_runs _ _ HW i p' Hr) as (Ho & nd0 & Hn & Hends). split; [done|].
    destruct (node_ends_forth _ _ _ _ _ _ _ H Hn) as (nd1 & Hn1 & E & _). exists nd1. by rewrite E.
  - intros i p'. rewrite Hsrv, Hruns. apply HW.
  - intros i Hi. destruct (w_conn _ _ HW i Hi) as [p' Hp]. exists p'. by apply Hruns.
  - intros p' nd1 i e (nd0 & Hn & <- & _)%(node_ends_back _ _ _ _ _ _ _ H) Ho Hnr Hin. rewrite Hena.
    apply (w_cut _ _ HW p' nd0 i); [done..| |done]. by rewrite <- Hruns.
  - pose proof (w_test _ _ HW) as Ht. unfold test_ok in *. rewrite (ch_doing _ _ _ _ _ H), Hc. destruct (doing cl) as [|i again|i|i|i p']; try done.
    + destruct Ht as (? & ? & ? & Hcut). rewrite Hsrv. split_and!; [done..|]. intros p' nd1 e Hr%Hruns (nd0 & Hn & <- & _)%(node_ends_back _ _ _ _ _ _ _ H) Hin.
      rewrite Hena. by apply (Hcut p' nd0).
    + destruct Ht as (? & names & ? & ? & Hnew). split; [done|]. exists names. split_and!; [done|by apply Hleads|].
      intros p' nd1 e (nd0 & Hn & <- & _)%(node_ends_back _ _ _ _ _ _ _ H). by apply (Hnew p' nd0).
    + by apply Hruns.
Qed.

(** A call stays related when no instance starts to run again. *)
Lemma call_sim_frame cl cl' w w' owners owners' q nd nd' c oc :
  (forall i p j, owners !! p = Some i -> runs cl' j p -> runs cl j p) -> (forall p i, owners !! p = Some i -> owners' !! p = Some i) ->
  (forall k rc, RaftNet.calls w !! k = Some rc -> RaftNet.calls w' !! k = Some rc) -> s_epoch (o_server nd') = s_epoch (o_server nd) ->
  call_sim cl w owners q nd c oc -> call_sim cl' w' owners' q nd' c oc.
Proof.
  intros Hruns Hown Hcalls Hep. destruct oc as [k|]; cbn.
  - intros (rc & Hk & Ho & He & Hto & Hb & Hh & Hp). exists rc. split_and!; [by apply Hcalls|by apply Hown|congruence|done|done| |].
    { intros h Hc. destruct (Hh h Hc). split; [by apply Hown|done]. }
    unfold phase_sim in *. destruct (c_phase c) as [| |nm h rel lr [rep|]|rep|rep]; try done.
    destruct Hp as (Hnm & Hc & Hoh & Hor). split_and!; [done..|by apply Hown|]. destruct Hor as [|Hnr]; [by left|right]. intros Hr. by eapply Hnr, Hruns.
  - intros ((i & Ho & Hnr) & Hc & Hp). split_and!; [|done..]. exists i. split; [by apply Hown|]. intros Hr. by eapply Hnr, Hruns.
Qed.

(** An instance runs as one server at most, or was crashed. *)
Lemma runs_or_not cl owners p : Wired cl owners -> (exists i, runs cl i p) \/ forall i, ~ runs cl i p.
Proof.
  intros HW. destruct (owners !! p) as [i|] eqn:Ho; [destruct (decide (rafts (conf cl) !! i = Some (Some p))); [by left; exists i|]|];
    right; intros j Hj; destruct (w_runs _ _ HW j p Hj) as [Ho' _]; by simplify_eq.
Qed.

(** An instance changes, and RaftNet's server with it. *)
Lemma Sim_changes cl cl' p nd nd' w w' owners idx extra :
  changes cl cl' p nd nd' -> Wired cl owners -> LabRPC.calls (sys cl') = LabRPC.calls (sys cl) -> pend cl' = pend cl ->
  (forall i, runs cl i p -> RaftNet.servers w' = <[i := o_server nd']> (RaftNet.servers w)) ->
  ((forall i, ~ runs cl i p) -> RaftNet.servers w' = RaftNet.servers w) -> RaftNet.calls w' = RaftNet.calls w ++ extra ->
  Sim cl w owners idx -> Sim cl' w' owners idx.
Proof.
  intros H HW Hcs Hpd Hrun Hnot Hext HS. pose proof (ch_conf _ _ _ _ _ H) as Hc.
  assert (forall i p', runs cl' i p' <-> runs cl i p') as Hruns by (intros; unfold runs; by rewrite Hc).
  assert (forall i, runs cl i p \/ RaftNet.servers w' !! i = RaftNet.servers w !! i) as Hother.
  { intros i. destruct (runs_or_not cl owners p HW) as [(j & Hj)|Hno]; [|right; by rewrite Hnot].
    destruct (decide (i = j)) as [->|Hne]; [by left|right]. rewrite (Hrun j Hj). by rewrite list_lookup_insert_ne. }
  split; rewrite ?Hcs, ?Hpd.
  - intros i p' nd1 Hr%Hruns Hn. rewrite (ch_nodes _ _ _ _ _ H) in Hn. case_decide as E.
    + subst. simplify_eq. rewrite (Hrun i Hr). eapply list_lookup_insert_eq, lookup_lt_Some, (s_cur _ _ _ _ HS i p nd); [done|apply H].
    + destruct (Hother i) as [Hr'| ->]; [unfold runs in *; congruence|]. by eapply HS.
  - intros i Hi. rewrite Hc in Hi |- *. destruct (Hother i) as [Hr'| ->]; [unfold runs in *; congruence|]. by apply (s_down _ _ _ _ HS).
  - intros i s Hs. rewrite (ch_starts _ _ _ _ _ H). destruct (Hother i) as [Hr'|E]; [|apply HS; by rewrite <- E].
    pose proof (s_cur _ _ _ _ HS i p nd Hr' (ch_node _ _ _ _ _ H)) as Hi. rewrite (Hrun i Hr') in Hs.
    rewrite list_lookup_insert_eq in Hs by (by eapply lookup_lt_Some). simplify_eq. rewrite (ch_epoch _ _ _ _ _ H). by apply HS.
  - apply HS.
  - apply HS.
  - apply HS.
  - intros id q Hq. destruct (s_call _ _ _ _ HS id q Hq) as (c & nd0 & e & oc & Hz & Hn & He & Hi & Hreq & Hsim).
    destruct (node_ends_forth _ _ _ _ _ _ _ H Hn) as (nd1 & Hn1 & E1 & E2). exists c, nd1, e, oc. rewrite E1. split_and!; [done..|].
    eapply call_sim_frame; [|done| |exact E2|exact Hsim].
    + intros i p' j _. by apply Hruns.
    + intros k rc Hk. rewrite Hext. by apply lookup_app_l_Some.
Qed.

(** The data of one call changes. *)
Lemma Sim_call cl cl' w w' owners idx id q q' c' oc :
  (forall p, node p cl' = node p cl) -> conf cl' = conf cl -> starts cl' = starts cl ->
  LabRPC.calls (sys cl') = <[Z.of_nat id := c']> (LabRPC.calls (sys cl)) -> pend cl' = <[id := q']> (pend cl) ->
  pend cl !! id = Some q -> idx !! id = Some oc -> q_node q' = q_node q -> q_to q' = q_to q -> q_body q' = q_body q ->
  RaftNet.servers w' = RaftNet.servers w ->
  (forall k, oc <> Some k -> RaftNet.calls w' !! k = RaftNet.calls w !! k) ->
  (forall c nd, LabRPC.calls (sys cl) !! Z.of_nat id = Some c -> node (q_node q) cl = Some nd -> call_sim cl w owners q nd c oc ->
     c_req c' = c_req c /\ call_sim cl w' owners q' nd c' oc) ->
  Sim cl w owners idx -> Sim cl' w' owners idx.
Proof.
  intros Hnode Hc Hst Hcs Hpd Hq Hoc E1 E2 E3 Hsv Hk Hnew HS.
  assert (forall i p', runs cl' i p' <-> runs cl i p') as Hruns by (intros; unfold runs; by rewrite Hc).
  split; rewrite ?Hc, ?Hst, ?Hsv, ?Hpd, ?length_insert; try apply HS.
  - intros i p nd Hr%Hruns. rewrite Hnode. by apply HS.
  - intros z c. rewrite Hcs. intros [[<- <-]|[Hne Hz]]%lookup_insert_Some.
    + exists id, q'. split; [done|]. by eapply list_lookup_insert_eq, lookup_lt_Some.
    + destruct (s_known _ _ _ _ HS z c Hz) as (id0 & q0 & -> & Hq0). exists id0, q0. rewrite list_lookup_insert_ne by congruence. done.
  - intros id0 q0 [(<- & <- & _)|[Hne Hq0]]%list_lookup_insert_Some.
    + destruct (s_call _ _ _ _ HS id q Hq) as (c & nd & e & oc' & Hz & Hn & He & Hi & Hreq & Hsim). simplify_eq.
      destruct (Hnew c nd Hz Hn Hsim) as [Hreq' Hsim']. exists c', nd, e, oc. rewrite Hcs, lookup_insert_eq, Hnode, E1, E2, E3. split_and!; [done..|congruence|].
      eapply call_sim_frame; [| | |done|exact Hsim']; [|done|done]. intros i p j _. by apply Hruns.
    + destruct (s_call _ _ _ _ HS id0 q0 Hq0) as (c & nd & e & oc' & Hz & Hn & He & Hi & Hreq & Hsim). exists c, nd, e, oc'.
      rewrite Hcs, lookup_insert_ne, Hnode by lia. split_and!; [done..|]. destruct oc' as [k|].
      * destruct (decide (oc = Some k)) as [->|Hne']; [by destruct Hne; eapply (s_inj _ _ _ _ HS)|].
        destruct Hsim as (rc & Hrc & Hsim). cbn. exists rc. rewrite Hk by done. split; [done|]. unfold phase_sim, runs in *. by rewrite Hc.
      * unfold call_sim, runs in *. by rewrite Hc.
Qed.

(** A new call. *)
Lemma Sim_new_call cl cl' w owners idx q c nd e oc :
  (forall p, node p cl' = node p cl) -> conf cl' = conf cl -> starts cl' = starts cl ->
  LabRPC.calls (sys cl') = <[Z.of_nat (length (pend cl)) := c]> (LabRPC.calls (sys cl)) -> pend cl' = pend cl ++ [q] ->
  node (q_node q) cl = Some nd -> o_ends nd !! q_to q = Some e ->
  c_req c = mkReqMsg (inl e) (methodOf (q_body q)) (gob_encode (toMsg (q_body q))) -> call_sim cl w owners q nd c oc ->
  (forall id k, oc = Some k -> idx !! id <> Some (Some k)) ->
  Sim cl w owners idx -> Sim cl' w owners (idx ++ [oc]).
Proof.
  intros Hnode Hc Hst Hcs Hpd Hn He Hreq Hsim Hfresh HS.
  assert (forall i p', runs cl' i p' <-> runs cl i p') as Hruns by (intros; unfold runs; by rewrite Hc).
  assert (forall q nd c oc, call_sim cl w owners q nd c oc -> call_sim cl' w owners q nd c oc) as Hframe.
  { intros q0 nd0 c0 oc0. apply call_sim_frame; [|done..]. intros i p j _. by apply Hruns. }
  pose proof (s_len _ _ _ _ HS) as Hlen.
  split; rewrite ?Hc, ?Hst, ?Hpd; try apply HS.
  - intros i p nd' Hr%Hruns. rewrite Hnode. by apply HS.
  - rewrite !length_app. cbn. lia.
  - intros a b k [Ha|[Ha' Ha]]%lookup_app_Some [Hb|[Hb' Hb]]%lookup_app_Some; [by eapply HS| | |];
      repeat match goal with H : [_] !! _ = Some _ |- _ => apply list_lookup_singleton_Some in H as [? ?] end; subst; try (by edestruct Hfresh). lia.
  - intros z c0. rewrite Hcs. intros [[<- <-]|[Hne Hz]]%lookup_insert_Some.
    + exists (length (pend cl)), q. split; [done|]. by apply list_lookup_middle.
    + destruct (s_known _ _ _ _ HS z c0 Hz) as (id0 & q0 & -> & Hq0). exists id0, q0. split; [done|]. by apply lookup_app_l_Some.
  - intros id q0 [Hq0|[Hid Hq0]]%lookup_app_Some.
    + destruct (s_call _ _ _ _ HS id q0 Hq0) as (c0 & nd0 & e0 & oc0 & Hz & Hn0 & He0 & Hi & Hreq0 & Hsim0). exists c0, nd0, e0, oc0.
      pose proof (lookup_lt_Some _ _ _ Hq0). rewrite Hcs, lookup_insert_ne, Hnode by lia. split_and!; [done..|by apply lookup_app_l_Some|done|by apply Hframe].
    + apply list_lookup_singleton_Some in Hq0 as [Hid' <-]. assert (id = length (pend cl)) as -> by lia. exists c, nd, e, oc.
      rewrite Hcs, lookup_insert_eq, Hnode. split_and!; [done..| |done|by apply Hframe]. rewrite <- Hlen. by apply list_lookup_middle.
Qed.
End Sim.
