(* ===== verification/RaftClusterSteps.v ===== *)
(** * RaftClusterSteps: the instances and the network keep the simulation

    Every event that is not a statement of the test: goroutines, clients, appliers, the requests, handlers and
    answers of labrpc, and the goroutines that wait for them. *)

From S2P Require Import Prelude Persister Raft RaftFacts RaftNet RaftSafety LabRPC TestNet RaftConfig RaftCluster RaftClusterSim.
Local Open Scope Z_scope.

Section Steps.
Context {C byte : Type} `{!EqDecision C} `{!Gob byte Z} `{!Gob byte (list (LogEntries C))} `{!Gob byte (list C)} `{!Gob byte (Msg C)}.
Context (zero_cmd : C) (n : nat) (marks : list (nat * Z)).
Implicit Types (cl : Cluster C byte) (nd : Node C byte) (w : World C byte) (owners : list nat) (q : Pending C).
Implicit Types (rc : RpcCall C) (rn : Net) (c : LabRPC.Call (Name := NetName) (byte := byte)).

Abbreviation related := (related zero_cmd n marks).
Abbreviation follows := (follows zero_cmd n marks).
Abbreviation Wired := (Wired n).

(** ** Instances *)

Lemma put_changes cl owners p nd nd' :
  Wired cl owners -> node p cl = Some nd -> o_ends nd' = o_ends nd -> s_epoch (o_server nd') = s_epoch (o_server nd) ->
  changes cl (put_node p nd' cl) p nd nd'.
Proof.
  intros HW Hn He Hep. split; try done; cbn.
  - intros p'. unfold node. cbn. case_decide as E.
    + subst p'. rewrite list_lookup_alter_eq. unfold node in Hn. destruct (LabRPC.heap (sys cl) !! p) as [rs|] eqn:Hp; [|done]. cbn.
      destruct (w_host _ _ _ HW p rs Hp) as [nd0 Hh]. by apply hosts_nodeOf, (hosts_withNode rs nd0).
    + by rewrite list_lookup_alter_ne.
  - by rewrite length_alter.
  - intros p' rs. destruct (decide (p = p')) as [->|Hne].
    + rewrite list_lookup_alter_eq. destruct (LabRPC.heap (sys cl) !! p') as [rs0|] eqn:Hp; [|done]. intros [= <-].
      destruct (w_host _ _ _ HW p' rs0 Hp) as [nd0 Hh]. exists nd'. by eapply hosts_withNode.
    + rewrite list_lookup_alter_ne by done. apply HW.
Qed.

(** RaftNet follows an instance that runs, and does nothing for one that was crashed. *)
Lemma related_local cl w owners idx p nd nd' :
  follows w -> Wired cl owners -> Sim cl w owners idx ->
  node p cl = Some nd -> o_ends nd' = o_ends nd -> s_epoch (o_server nd') = s_epoch (o_server nd) ->
  (forall i, RaftNet.servers w !! i = Some (o_server nd) -> exists ev, exec zero_cmd ev w = Next (upd_server i (o_server nd') w)) ->
  related (put_node p nd' cl).
Proof.
  intros Hr HW HS Hn He Hep Hex. pose proof (put_changes cl owners p nd nd' HW Hn He Hep) as Hch.
  destruct (runs_or_not n cl owners p HW) as [[i Hi]|Hno].
  - destruct (Hex i) as [ev Hev]; [by eapply HS|]. exists (upd_server i (o_server nd') w), owners, idx.
    split; [by eapply follows_step|]. split; [by eapply Wired_changes|].
    eapply (Sim_changes n cl _ p nd nd' w _ owners idx []); try done; [|by intros Hno; destruct (Hno i)|by rewrite app_nil_r].
    intros j Hj. destruct (w_runs _ _ _ HW i p Hi) as [Ho _], (w_runs _ _ _ HW j p Hj) as [Ho' _]. by simplify_eq.
  - exists w, owners, idx. split; [done|]. split; [by eapply Wired_changes|].
    eapply (Sim_changes n cl _ p nd nd' w w owners idx []); try done; [|by rewrite app_nil_r]. intros i Hi. by destruct (Hno i).
Qed.

Lemma related_tick p now r cl cl' : related cl -> tick p now r cl = Some cl' -> related cl'.
Proof.
  intros (w & owners & idx & Hr & HW & HS) (nd & Hn & [= <-])%bind_Some.
  eapply related_local; try done. intros i Hi. exists (RaftNet.EvTick i now r). cbn. by rewrite Hi.
Qed.

Lemma related_start p cmd cl cl' : related cl -> start p cmd cl = Some cl' -> related cl'.
Proof.
  intros (w & owners & idx & Hr & HW & HS) (nd & Hn & [= <-])%bind_Some.
  eapply related_local; try done. intros i Hi. exists (EvStart i cmd). cbn. by rewrite Hi.
Qed.

Lemma related_applyBegins p cl cl' : related cl -> applyBegins p cl = Some cl' -> related cl'.
Proof.
  intros (w & owners & idx & Hr & HW & HS) (nd & Hn & Ha)%bind_Some.
  destruct nd as [[ep rf [] msgs] es now r pan]; try done. cbn in Ha.
  destruct (applyBegin rf) as [[[st entries]|]|] eqn:E; try done. cbn in Ha. injection Ha as <-.
  eapply related_local; try done. intros i Hi. exists (EvApplyBegin i). cbn in Hi |- *. by rewrite Hi, E.
Qed.

Lemma related_applyEnds p cl cl' : related cl -> applyEnds p cl = Some cl' -> related cl'.
Proof.
  intros (w & owners & idx & Hr & HW & HS) (nd & Hn & Ha)%bind_Some.
  destruct nd as [[ep rf [|st entries|] msgs] es now r pan]; try done. cbn in Ha. injection Ha as <-.
  eapply related_local; try done. intros i Hi. exists (EvApplyEnd i). cbn in Hi |- *. by rewrite Hi.
Qed.

Lemma related_kill p cl : related cl -> related (kill p cl).
Proof.
  intros Hrel. unfold kill. destruct (node p cl) as [nd|] eqn:Hn; [|done]. destruct Hrel as (w & owners & idx & Hr & HW & HS).
  eapply related_local; try done. intros i Hi. exists (EvKill i). cbn. by rewrite Hi.
Qed.

(** ** Calls leave *)

(** What an event of the network changes. *)
Definition net_step cl cl' (z : Z) c' : Prop :=
  exists s, cl' = set_sys s cl /\ LabRPC.heap s = LabRPC.heap (sys cl) /\ LabRPC.calls s = <[z := c']> (LabRPC.calls (sys cl)) /\
    same_wires (LabRPC.net (sys cl)) (LabRPC.net s).

Lemma rpc_call (gone : bool) id e meth m cl cl' :
  rpc (if gone then EvCallDone id e meth m else EvCall id e meth m) cl = Some cl' ->
  exists c', net_step cl cl' id c' /\ c_req c' = mkReqMsg e meth (gob_encode m) /\ c_handler c' = None /\
    c_phase c' = if gone then Returned noReply else LabRPC.Sent.
Proof.
  intros (s & Hh & Hs)%bind_Some. unfold happen in Hh. destruct (alive (sys cl)) eqn:Ha; [|done]. cbn [negb] in Hh.
  destruct gone; cbn in Hh; destruct (LabRPC.calls (sys cl) !! id) in Hh; cbn in Hh; try discriminate; [destruct (LabRPC.done _) in Hh; [|discriminate]|];
    injection Hh as <-; cbn in Hs; rewrite Ha in Hs; injection Hs as <-; eexists; (split; [by eexists|done]).
Qed.

Lemma net_step_changes cl cl' z c' p nd owners : Wired cl owners -> net_step cl cl' z c' -> node p cl = Some nd -> changes cl cl' p nd nd.
Proof.
  intros HW (s & -> & Hh & _ & Hw) Hn. split; try done; cbn; rewrite ?Hh; try apply HW; [|done].
  intros p'. unfold node. cbn. rewrite Hh. case_decide as E; [by subst|done].
Qed.

Lemma related_call cl1 w owners idx p j b e nd gone cl' oc :
  follows w -> Wired cl1 owners -> Sim cl1 w owners idx -> node p cl1 = Some nd -> o_ends nd !! j = Some e ->
  (forall id k, oc = Some k -> idx !! id <> Some (Some k)) ->
  (forall k, oc = Some k -> exists rc, RaftNet.calls w !! k = Some rc /\ owners !! p = Some (RaftNet.c_from rc) /\
     RaftNet.c_epoch rc = s_epoch (o_server nd) /\ RaftNet.c_to rc = j /\ RaftNet.c_body rc = b /\ c_status rc = RaftNet.Sent) ->
  (oc = None -> exists i, owners !! p = Some i /\ ~ runs cl1 i p) ->
  call p j b e gone cl1 = Some cl' -> related cl'.
Proof.
  intros Hr HW HS Hn He Hfresh Hk Hz (cl2 & (c' & Hns & Hreq & Hh & Hp)%rpc_call & [= <-])%bind_Some.
  pose proof (net_step_changes _ _ _ _ p nd owners HW Hns Hn) as Hch.
  exists w, owners, (idx ++ [oc]). split; [done|]. split.
  { apply (Wired_changes n cl1 _ p nd nd owners); [|done]. by destruct Hch. }
  destruct Hns as (s & -> & Hheap & Hcs & _).
  eapply (Sim_new_call cl1 _ w owners idx (mkPending p j b true) c' nd e oc); try done; cbn.
  { intros p'. unfold node. cbn. by rewrite Hheap. }
  destruct oc as [k|]; cbn.
  - destruct (Hk k eq_refl) as (rc & H1 & H2 & H3 & H4 & H5 & H6). exists rc. split_and!; [done..|by rewrite Hh|].
    unfold phase_sim. rewrite Hp. by destruct gone.
  - split_and!; [by apply Hz|done|]. rewrite Hp. by destruct gone.
Qed.

Lemma related_runG p k now r gone cl cl' : related cl -> runG p k now r gone cl = Some cl' -> related cl'.
Proof.
  intros (w & owners & idx & Hr & HW & HS) (nd & Hn & (g & Hg & ([rf out] & Hrun & Hout)%bind_Some)%bind_Some)%bind_Some.
  assert (forall i, RaftNet.servers w !! i = Some (o_server nd) -> exec zero_cmd (EvRun i k now r) w =
    match out with
    | None => Next (upd_server i (o_server (set_node rf nd)) w)
    | Some (j, b) => Next (add_call (mkRpcCall i (s_epoch (o_server nd)) j b RaftNet.Sent) (upd_server i (o_server (set_node rf nd)) w))
    end) as Hex.
  { intros i Hi. cbn [exec]. unfold raftOf in *. rewrite Hi, Hg, run_goroutine_eq. cbn [s_raft set_raft]. rewrite Hrun. by destruct out as [[j b]|]. }
  destruct out as [[j b]|].
  - apply bind_Some in Hout as (e & He & Hcall). pose proof (put_changes cl owners p nd (set_node rf nd) HW Hn eq_refl eq_refl) as Hch.
    assert (node p (put_node p (set_node rf nd) cl) = Some (set_node rf nd)) as Hn1 by (rewrite (ch_nodes _ _ _ _ _ Hch); by case_decide).
    destruct (runs_or_not n cl owners p HW) as [[i Hi]|Hno].
    + pose proof (Hex i (s_cur _ _ _ _ HS i p nd Hi Hn)) as Hev. set (w' := add_call _ _) in Hev.
      destruct (w_runs _ _ _ HW i p Hi) as [Ho _].
      eapply (related_call (put_node p (set_node rf nd) cl) w' owners idx p j b e (set_node rf nd) gone cl' (Some (length (RaftNet.calls w)))); try done.
      * by eapply follows_step.
      * by eapply Wired_changes.
      * eapply (Sim_changes n cl _ p nd (set_node rf nd) w w' owners idx); try done; [|by intros Hno; destruct (Hno i)].
        intros i' Hi'. destruct (w_runs _ _ _ HW i' p Hi') as [Ho' _]. by simplify_eq.
      * intros id k' [= <-] Hid. destruct (lookup_lt_is_Some_2 (pend cl) id) as [q Hq]; [rewrite <- (s_len _ _ _ _ HS); by eapply lookup_lt_Some|].
        destruct (s_call _ _ _ _ HS id q Hq) as (c & nd0 & e0 & oc & _ & _ & _ & Hoc & _ & Hsim). simplify_eq.
        destruct Hsim as (rc & Hrc & _). apply lookup_lt_Some in Hrc. lia.
      * intros k' [= <-]. eexists. split; [by apply list_lookup_middle|]. by split_and!.
    + eapply (related_call (put_node p (set_node rf nd) cl) w owners idx p j b e (set_node rf nd) gone cl' None); try done.
      * by eapply Wired_changes.
      * eapply (Sim_changes n cl _ p nd (set_node rf nd) w w owners idx []); try done; [|by rewrite app_nil_r]. intros i Hi. by destruct (Hno i).
      * intros _. destruct (lookup_lt_is_Some_2 owners p) as [i Hi]; [|exists i; split; [done|apply Hno]].
        rewrite (w_owners _ _ _ HW). unfold node in Hn. apply bind_Some in Hn as (rs & Hrs & _). by eapply lookup_lt_Some.
  - injection Hout as <-. eapply related_local; try done. intros i Hi. eexists. by apply Hex.
Qed.

(** ** Requests and answers *)

(** A call moves on in labrpc and not in RaftNet. *)
Lemma related_phase cl cl' w owners idx id c' :
  follows w -> Wired cl owners -> Sim cl w owners idx -> net_step cl cl' (Z.of_nat id) c' ->
  (forall q nd c e oc, pend cl !! id = Some q -> node (q_node q) cl = Some nd -> LabRPC.calls (sys cl) !! Z.of_nat id = Some c ->
     o_ends nd !! q_to q = Some e -> endname (c_req c) = inl e -> call_sim cl w owners q nd c oc ->
     c_req c' = c_req c /\ call_sim cl w owners q nd c' oc) ->
  is_Some (LabRPC.calls (sys cl) !! Z.of_nat id) -> related cl'.
Proof.
  intros Hr HW HS Hns Hnew [c0 Hc0].
  destruct (s_known _ _ _ _ HS _ _ Hc0) as (id0 & q & E & Hq). assert (id0 = id) as -> by lia.
  destruct (s_call _ _ _ _ HS id q Hq) as (c & nd & e & oc & Hz & Hn & He & Hi & Hreq & Hsim). simplify_eq.
  pose proof (net_step_changes _ _ _ _ _ _ owners HW Hns Hn) as Hch. exists w, owners, idx. split; [done|]. split; [by eapply Wired_changes|].
  destruct Hns as (s & -> & Hheap & Hcs & _).
  eapply (Sim_call cl _ w w owners idx id q q c' oc); try done; cbn; [by intros p; unfold node; cbn; rewrite Hheap|by rewrite list_insert_id|].
  intros c1 nd1 Hc1 Hn1 Hsim1. simplify_eq. eapply Hnew; try done. by rewrite Hreq.
Qed.

(** The fields of a call that RaftNet knows of. *)
Lemma call_sim_phase cl w owners q nd c c' k :
  call_sim cl w owners q nd c (Some k) ->
  (forall rc, RaftNet.calls w !! k = Some rc -> (forall h, c_handler c = Some h -> owners !! h = Some (q_to q) /\ c_status rc = RaftNet.Sent) ->
     phase_sim cl owners q c (c_status rc) ->
     (forall h, c_handler c' = Some h -> owners !! h = Some (q_to q) /\ c_status rc = RaftNet.Sent) /\ phase_sim cl owners q c' (c_status rc)) ->
  call_sim cl w owners q nd c' (Some k).
Proof.
  intros (rc & H1 & H2 & H3 & H4 & H5 & H6 & H7) Hnew. destruct (Hnew rc H1 H6 H7) as [H8 H9]. exists rc. by split_and!.
Qed.

Lemma rpc_alive ev cl cl' :
  rpc ev cl = Some cl' -> exists s, happen zeroMsg ev (sys cl) = Some s /\ cl' = set_sys s cl /\ alive (sys cl) = true.
Proof.
  intros (s & Hh & Hs)%bind_Some. unfold happen in Hh |- *. destruct (alive (sys cl)) eqn:Ha; [|done]. cbn [negb] in *.
  exists s. destruct (alive s); [|done]. by injection Hs as <-.
Qed.

Lemma related_process id r cl cl' : related cl -> rpc (EvProcess (Z.of_nat id) r) cl = Some cl' -> related cl'.
Proof.
  intros (w & owners & idx & Hr & HW & HS) (s & Hs & -> & Ha)%rpc_alive. unfold happen in Hs. rewrite Ha in Hs. cbn in Hs.
  destruct (LabRPC.calls (sys cl) !! Z.of_nat id) as [c|] eqn:Hc; [|done]. cbn in Hs. destruct (c_phase c) eqn:Hp; try done. injection Hs as <-.
  eapply (related_phase cl _ w owners idx id (process r c (LabRPC.net (sys cl)))); try done; [by eexists|].
  intros q nd c0 e oc Hq Hn Hc0 He Hreq Hsim. simplify_eq. destruct (proj2 (w_ends _ _ _ HW _ _ Hn) _ _ He) as [Hco _].
  split; [unfold process; by repeat case_match|]. destruct oc as [k|].
  - apply (call_sim_phase _ _ _ _ _ _ _ _ Hsim). intros rc _ Hh. unfold phase_sim at 1. rewrite Hp. intros [Hno Hst].
    unfold process, readEndnameInfo. rewrite Hreq, Hco. cbn.
    destruct (isEnabled (inl e) _); [|by cbn; rewrite Hno]. destruct (serverAt _ _) as [h|] eqn:Hs; [|by cbn; rewrite Hno].
    destruct (negb _ && _); [by cbn; rewrite Hno|]. cbn. split; [|done]. intros h' [= <-]. split; [|done]. by apply (w_runs _ _ _ HW), (w_reg _ _ _ HW).
  - destruct Hsim as ((i & Ho & Hnr) & Hno & _). unfold process, readEndnameInfo. rewrite Hreq. cbn.
    rewrite (w_cut _ _ _ HW (q_node q) nd i e); [cbn; eauto|done..|]. by eapply list_elem_of_lookup_2.
Qed.

Lemma related_giveUp id cl cl' : related cl -> rpc (LabRPC.EvTick (Z.of_nat id)) cl = Some cl' -> related cl'.
Proof.
  intros (w & owners & idx & Hr & HW & HS) (s & Hs & -> & Ha)%rpc_alive. unfold happen in Hs. rewrite Ha in Hs. cbn in Hs.
  destruct (LabRPC.calls (sys cl) !! Z.of_nat id) as [c|] eqn:Hc; [|done]. cbn in Hs. destruct (c_phase c) as [| |nm h rel lr [rep|]|rep|rep] eqn:Hp; try done.
  destruct (isServerDead _ _ _ _); injection Hs as <-; [|exists w, owners, idx; by destruct cl].
  eapply (related_phase cl _ w owners idx id (set_phase (Returned noReply) c)); try done; [by eexists|].
  intros q nd c0 e oc Hq Hn Hc0 He Hreq Hsim. simplify_eq. split; [done|]. destruct oc as [k|].
  - by apply (call_sim_phase _ _ _ _ _ _ _ _ Hsim).
  - destruct Hsim as (_ & _ & Hno). by rewrite Hp in Hno.
Qed.

Lemma related_timer id cl cl' : related cl -> rpc (EvTimer (Z.of_nat id)) cl = Some cl' -> related cl'.
Proof.
  intros (w & owners & idx & Hr & HW & HS) (s & Hs & -> & Ha)%rpc_alive. unfold happen in Hs. rewrite Ha in Hs. cbn in Hs.
  destruct (LabRPC.calls (sys cl) !! Z.of_nat id) as [c|] eqn:Hc; [|done]. cbn in Hs.
  destruct (c_phase c) as [| |nm h rel lr [rep|]|rep|rep] eqn:Hp; try done; injection Hs as <-.
  - eapply (related_phase cl _ w owners idx id (set_phase (Returned noReply) c)); try done; [by eexists|].
    intros q nd c0 e oc Hq Hn Hc0 He Hreq Hsim. simplify_eq. split; [done|]. destruct oc as [k|]; [by apply (call_sim_phase _ _ _ _ _ _ _ _ Hsim)|].
    by destruct Hsim as (? & ? & _).
  - eapply (related_phase cl _ w owners idx id (set_phase (Returned rep) c)); try done; [by eexists|].
    intros q nd c0 e oc Hq Hn Hc0 He Hreq Hsim. simplify_eq. split; [done|]. destruct oc as [k|].
    + apply (call_sim_phase _ _ _ _ _ _ _ _ Hsim). intros rc _ Hh. unfold phase_sim. rewrite Hp. cbn. intros [Hno Hex]. by split.
    + destruct Hsim as (_ & _ & Hno). by rewrite Hp in Hno.
Qed.

Lemma related_answer id r r' cl cl' : related cl -> rpc (EvAnswer (Z.of_nat id) r r') cl = Some cl' -> related cl'.
Proof.
  intros (w & owners & idx & Hr & HW & HS) (s & Hs & -> & Ha)%rpc_alive. unfold happen in Hs. rewrite Ha in Hs. cbn in Hs.
  destruct (LabRPC.calls (sys cl) !! Z.of_nat id) as [c|] eqn:Hc; [|done]. cbn in Hs. destruct (c_phase c) as [| |nm h rel lr [rep|]|rep|rep] eqn:Hp; try done.
  destruct (answerWith r r' _ nm h rel lr rep _) as [ph rn] eqn:Hans. injection Hs as <-.
  assert (same_wires (LabRPC.net (sys cl)) rn /\
    (ph = Returned noReply \/ (ph = Delayed rep \/ ph = Returned rep) /\ serverAt nm (LabRPC.net (sys cl)) = Some h)) as [Hw Hph].
  { unfold answerWith, isServerDead in Hans. destruct (negb _ || negb _) eqn:Ed; [injection Hans as <- <-; split; [done|by left]|].
    apply orb_false_iff in Ed as [_ Ed%negb_false_iff%bool_decide_eq_true].
    repeat case_match; simplify_eq; (split; [done|]); [by left|right; split; [by left|done]|right; split; [by right|done]]. }
  eapply (related_phase cl _ w owners idx id (set_phase ph c)); try done; [by eexists|].
  intros q nd c0 e oc Hq Hn Hc0 He Hreq Hsim. simplify_eq. split; [done|]. destruct oc as [k|].
  - apply (call_sim_phase _ _ _ _ _ _ _ _ Hsim). intros rc _ Hh. unfold phase_sim. rewrite Hp. intros (-> & Hno & Ho & Hor).
    split; [done|]. cbn. destruct Hph as [->|[Hph Hsrv]]; [done|].
    assert (executed (c_status rc) rep) as Hex by (destruct Hor as [|Hnr]; [done|destruct Hnr; by apply (w_reg _ _ _ HW)]).
    by destruct Hph as [->| ->].
  - destruct Hsim as (_ & _ & Hno). by rewrite Hp in Hno.
Qed.

(** ** Handlers *)

Lemma phase_sim_answered cl owners q c h st st' rep :
  phase_sim cl owners q c st -> c_handler c = Some h -> owners !! h = Some (q_to q) -> executed (C := C) st' rep \/ ~ runs cl (q_to q) h ->
  phase_sim cl owners q (mkCall (c_req c) (answered rep (c_phase c)) None) st'.
Proof.
  intros Hp Hh Ho Hor. unfold phase_sim in *. cbn. destruct (c_phase c) as [| |nm h' rel lr [rep'|]|rep'|rep']; cbn.
  - destruct Hp. congruence.
  - done.
  - destruct Hp as (_ & ? & _). congruence.
  - destruct Hp as [-> ?]. by simplify_eq.
  - destruct Hp. congruence.
  - intros Hok. destruct (Hp Hok). congruence.
Qed.

(** A handler that runs on a running instance is a delivery of RaftNet. *)
Lemma deliver_reply w k rc s now r :
  follows w -> RaftNet.calls w !! k = Some rc -> c_status rc = RaftNet.Sent -> RaftNet.servers w !! c_to rc = Some s ->
  exists rf rep, deliver now r (c_body rc) (s_raft s) = Some (rf, rep) /\
    follows (upd_call k (set_status (Executed rep) rc) (upd_server (c_to rc) (set_raft rf s) w)).
Proof.
  intros Hr Hk Hst Hs. destruct (Inv_deliver zero_cmd w k rc s now r (follows_Inv zero_cmd n marks w Hr) Hk Hst Hs) as (rf & rep & E & _).
  exists rf, rep. split; [done|]. apply (follows_step zero_cmd n marks w (EvDeliver k now r)); [done|]. cbn. by rewrite Hk, Hst, Hs, E.
Qed.

(** The cluster after a handler, with another heap and another call. *)
Definition ran cl heap' (z : Z) c' hist : Cluster C byte :=
  set_sys (mkSys true (LabRPC.net (sys cl)) heap' (<[z := c']> (LabRPC.calls (sys cl))) hist) cl.
Definition mid cl heap' : Cluster C byte := set_sys (set_heap heap' (sys cl)) cl.

Lemma handler_shape id now r cl cl' owners c p nd e b :
  Wired cl owners -> handler id now r cl = Some cl' -> LabRPC.calls (sys cl) !! Z.of_nat id = Some c -> c_handler c = Some p ->
  node p cl = Some nd -> c_req c = mkReqMsg (inl e) (methodOf b) (gob_encode (toMsg b)) ->
  let nv := serve b (set_clock now r nd) in
  exists heap' hist, cl' = ran cl heap' (Z.of_nat id) (mkCall (c_req c) (answered (mkReplyMsg true (gob_encode nv.2)) (c_phase c)) None) hist /\
    changes cl (mid cl heap') p nd nv.1.
Proof.
  intros HW Hcl Hc Hp Hn Hreq nv. set (nd1 := set_clock now r nd) in *.
  unfold handler in Hcl. rewrite Hc in Hcl. cbn [mbind option_bind] in Hcl. rewrite Hp in Hcl. cbn [mbind option_bind] in Hcl. rewrite Hn in Hcl. cbn [mbind option_bind] in Hcl.
  apply bind_Some in Hcl as (cl2 & (s & Hs & -> & Ha)%rpc_alive & Hfin). apply bind_Some in Hfin as (nd2 & _ & Hfin).
  destruct (o_panicked nd2); [done|]. injection Hfin as <-. clear nd2.
  pose proof (put_changes cl owners p nd nd1 HW Hn eq_refl eq_refl) as Hch1. fold nd1 in Hs, Ha.
  pose proof (ch_nodes _ _ _ _ _ Hch1 p) as Hn1. rewrite decide_True in Hn1 by done. unfold node in Hn1. apply bind_Some in Hn1 as (rs & Hrs & Hnode).
  destruct (ch_host _ _ _ _ _ Hch1 p rs Hrs) as [nd1' Hhost]. rewrite (hosts_nodeOf rs nd1' Hhost) in Hnode. injection Hnode as ->.
  unfold happen in Hs. rewrite Ha in Hs. cbn [negb] in Hs. change (LabRPC.calls (sys (put_node p nd1 cl))) with (LabRPC.calls (sys cl)) in Hs.
  rewrite Hc in Hs. cbn [mbind option_bind] in Hs. rewrite Hp in Hs. cbn [mbind option_bind] in Hs. rewrite Hrs in Hs. cbn [mbind option_bind] in Hs.
  destruct (dispatch_serve rs nd1 b e Hhost) as (rs' & Hhost' & E). rewrite Hreq, E in Hs. injection Hs as <-. rewrite <- Hreq.
  eexists _, _. split; [done|]. pose proof (lookup_lt_Some _ _ _ Hrs) as Hlt. destruct (serve_frame b nd1) as [Hends Hepoch].
  set (h1 := LabRPC.heap (sys (put_node p nd1 cl))) in *. split; try done.
  - intros p'. unfold node. cbn. case_decide as E'.
    + subst p'. rewrite list_lookup_insert_eq by done. by apply hosts_nodeOf.
    + rewrite list_lookup_insert_ne by done. pose proof (ch_nodes _ _ _ _ _ Hch1 p') as Hn'. by rewrite decide_False in Hn' by done.
  - cbn. rewrite length_insert. apply Hch1.
  - cbn. intros p' rs0 [(<- & <- & _)|[_ Hl]]%list_lookup_insert_Some; [by exists nv.1|by apply (ch_host _ _ _ _ _ Hch1 p')].
Qed.

Lemma related_executed cl w w1 w2 owners idx heap' hist id q c k rc p nd nd2 st' rep :
  follows w2 -> Wired cl owners -> changes cl (mid cl heap') p nd nd2 -> Sim (mid cl heap') w1 owners idx ->
  LabRPC.calls (sys cl) !! Z.of_nat id = Some c -> pend cl !! id = Some q -> idx !! id = Some (Some k) -> RaftNet.calls w !! k = Some rc ->
  c_handler c = Some p -> owners !! p = Some (q_to q) ->
  RaftNet.servers w2 = RaftNet.servers w1 -> RaftNet.calls w1 = RaftNet.calls w -> RaftNet.calls w2 = <[k := set_status st' rc]> (RaftNet.calls w) ->
  executed (C := C) st' rep \/ ~ runs cl (q_to q) p ->
  related (ran cl heap' (Z.of_nat id) (mkCall (c_req c) (answered rep (c_phase c)) None) hist).
Proof.
  intros Hr2 HW Hch HS1 Hc Hq Hi Hk Hp Hop Hsv Hc1 Hc2 Hor. exists w2, owners, idx. split; [done|]. split.
  { apply (Wired_changes n cl _ p nd nd2 owners); [|done]. by destruct Hch. }
  eapply (Sim_call (mid cl heap') _ w1 w2 owners idx id q q _ (Some k)); try done; cbn; [by rewrite list_insert_id| |].
  - intros k' Hne. rewrite Hc1, Hc2, list_lookup_insert_ne by congruence. done.
  - intros c1 nd3 Hc1' Hn3 (rc1 & Hrc1 & Hfrom & Hep1 & Hto & Hb & _ & Hph). simplify_eq. rewrite Hc1 in Hrc1. simplify_eq. split; [done|].
    exists (set_status st' rc). rewrite Hc2, list_lookup_insert_eq by (by eapply lookup_lt_Some). split_and!; try done. cbn.
    by eapply (phase_sim_answered (mid cl heap') owners q c p).
Qed.

Lemma related_handler id now r cl cl' : related cl -> handler id now r cl = Some cl' -> related cl'.
Proof.
  intros (w & owners & idx & Hr & HW & HS) Hcl. pose proof Hcl as (c & Hc & (p & Hp & (nd & Hn & _)%bind_Some)%bind_Some)%bind_Some.
  destruct (s_known _ _ _ _ HS _ _ Hc) as (id0 & q & E & Hq). assert (id0 = id) as -> by lia.
  destruct (s_call _ _ _ _ HS id q Hq) as (c0 & ndq & e & oc & Hz & Hnq & He & Hi & Hreq & Hsim). simplify_eq.
  destruct oc as [k|]; [|by destruct Hsim as (_ & ? & _); congruence]. destruct Hsim as (rc & Hk & Hfrom & Hep & Hto & Hb & Hh & Hph).
  destruct (Hh p Hp) as [Hop Hst].
  destruct (handler_shape id now r cl cl' owners c p nd e (q_body q) HW Hcl Hc Hp Hn Hreq) as (heap' & hist & -> & Hch).
  destruct (decide (rafts (conf cl) !! q_to q = Some (Some p))) as [Hrun|Hrun].
  - pose proof (s_cur _ _ _ _ HS _ _ _ Hrun Hn) as Hs. rewrite <- Hto in Hs.
    destruct (deliver_reply w k rc (o_server nd) now r Hr Hk Hst Hs) as (rf & rep & Hdel & Hr2). rewrite Hb in Hdel.
    rewrite (serve_deliver (q_body q) (set_clock now r nd) rf rep Hdel) in Hch |- *. cbn [fst snd] in *.
    eapply (related_executed cl w (upd_server (c_to rc) (set_raft rf (o_server nd)) w) _ owners idx heap' hist id q c k rc p nd _ (Executed rep)); try done; [|left; by exists rep].
    eapply (Sim_changes n cl _ p nd _ w _ owners idx []); try done; [| |by rewrite app_nil_r].
    + intros i Hi'. destruct (w_runs _ _ _ HW i p Hi') as [Ho' _]. simplify_eq. by rewrite Hto.
    + intros Hno. by destruct (Hno (q_to q)).
  - eapply (related_executed cl w w w owners idx heap' hist id q c k rc p nd _ RaftNet.Sent); try done; [| |by right].
    + eapply (Sim_changes n cl _ p nd _ w w owners idx []); try done; [|by rewrite app_nil_r].
      intros i Hi'. destruct (w_runs _ _ _ HW i p Hi') as [Ho' _]. by simplify_eq.
    + rewrite list_insert_id; [done|]. rewrite Hk. destruct rc. cbn in Hst. by subst.
Qed.

(** ** Answers reach their goroutines *)

Definition returned q : Pending C := mkPending (q_node q) (q_to q) (q_body q) false.

(** A goroutine that has its answer forgets it. *)
Lemma phase_sim_returned cl owners q c st st' rep :
  c_phase c = Returned rep -> phase_sim cl owners q c st -> phase_sim cl owners (returned q) c st'.
Proof. intros Hp. unfold phase_sim. rewrite Hp. intros Hret Hok. by destruct (Hret Hok). Qed.

Lemma Sim_returned cl cl' w w' owners idx id q c rep oc :
  (forall p, node p cl' = node p cl) -> conf cl' = conf cl -> starts cl' = starts cl -> LabRPC.calls (sys cl') = LabRPC.calls (sys cl) ->
  pend cl' = <[id := returned q]> (pend cl) -> pend cl !! id = Some q -> LabRPC.calls (sys cl) !! Z.of_nat id = Some c -> c_phase c = Returned rep ->
  idx !! id = Some oc -> RaftNet.servers w' = RaftNet.servers w ->
  (RaftNet.calls w' = RaftNet.calls w \/ exists k rc st', oc = Some k /\ c_handler c = None /\ RaftNet.calls w !! k = Some rc /\ RaftNet.calls w' = <[k := set_status st' rc]> (RaftNet.calls w)) ->
  Sim cl w owners idx -> Sim cl' w' owners idx.
Proof.
  intros Hnode Hcf Hst Hcs Hpd Hq Hc Hp Hi Hsv Hcalls HS.
  eapply (Sim_call cl cl' w w' owners idx id q (returned q) c oc); try done.
  - by rewrite insert_id.
  - intros k Hne. destruct Hcalls as [->|(k' & rc & st' & -> & _ & _ & ->)]; [done|]. rewrite list_lookup_insert_ne by congruence. done.
  - intros c0 nd Hc0 Hn Hsim. simplify_eq. split; [done|]. destruct oc as [k|]; [|done].
    destruct Hsim as (rc & Hk & Hfrom & Hep & Hto & Hb & Hh & Hph). destruct Hcalls as [E|(k' & rc' & st' & [= <-] & Hno & Hk' & E)].
    + exists rc. rewrite E. split_and!; try done. by eapply phase_sim_returned.
    + assert (rc' = rc) as -> by congruence. exists (set_status st' rc). rewrite E, list_lookup_insert_eq by (by eapply lookup_lt_Some). split_and!; try done; [by rewrite Hno|].
      by eapply phase_sim_returned.
Qed.

(** The goroutine of a running instance handles the reply as in RaftNet. *)
Lemma reply_handled w k rc s rep rf :
  follows w -> RaftNet.calls w !! k = Some rc -> c_status rc = Executed rep -> RaftNet.servers w !! c_from rc = Some s ->
  c_epoch rc = s_epoch s -> handle (c_to rc) (c_body rc) rep (s_raft s) = Some rf ->
  follows (upd_call k (set_status (Finished rep) rc) (upd_server (c_from rc) (set_raft rf s) w)).
Proof.
  intros Hr Hk Hst Hs Hep Hh. apply (follows_step zero_cmd n marks w (EvReply k)); [done|]. cbn. by rewrite Hk, Hst, Hs, Hep, Nat.eqb_refl, Hh.
Qed.

Lemma related_answered cl w owners idx id q c nd k rc rep r rf :
  follows w -> Wired cl owners -> Sim cl w owners idx -> pend cl !! id = Some q -> LabRPC.calls (sys cl) !! Z.of_nat id = Some c ->
  node (q_node q) cl = Some nd -> idx !! id = Some (Some k) -> call_sim cl w owners q nd c (Some k) -> RaftNet.calls w !! k = Some rc ->
  c_phase c = Returned rep -> c_handler c = None -> c_status rc = Executed r -> handle (q_to q) (q_body q) r (raftOf nd) = Some rf ->
  related (put_node (q_node q) (set_node rf nd) (set_pend (<[id := returned q]> (pend cl)) cl)).
Proof.
  intros Hr HW HS Hq Hc Hn Hi (rc0 & Hk & Hfrom & Hep & Hto & Hb & Hh & Hph) Hk' Hp Hno Hst Hhandle. simplify_eq.
  set (p := q_node q) in *. set (cl1 := put_node p (set_node rf nd) cl).
  pose proof (put_changes cl owners p nd (set_node rf nd) HW Hn eq_refl eq_refl) as Hch.
  assert (Wired (set_pend (<[id := returned q]> (pend cl)) cl1) owners) as HW'.
  { apply (Wired_changes n cl _ p nd (set_node rf nd) owners); [|done]. by destruct Hch. }
  destruct (decide (rafts (conf cl) !! c_from rc0 = Some (Some p))) as [Hrun|Hrun].
  - pose proof (s_cur _ _ _ _ HS _ _ _ Hrun Hn) as Hs. rewrite <- Hto, <- Hb in Hhandle.
    pose proof (reply_handled w k rc0 (o_server nd) r rf Hr Hk Hst Hs Hep Hhandle) as Hr'.
    exists (upd_call k (set_status (Finished r) rc0) (upd_server (c_from rc0) (set_raft rf (o_server nd)) w)), owners, idx. split; [done|]. split; [done|].
    eapply (Sim_returned cl1 _ (upd_server (c_from rc0) (set_raft rf (o_server nd)) w) _ owners idx id q c rep (Some k)); try done.
    { right. exists k, rc0, (Finished r). by split_and!. }
    eapply (Sim_changes n cl cl1 p nd _ w _ owners idx []); try done; [| |by rewrite app_nil_r].
    + intros i Hi'. destruct (w_runs _ _ _ HW i p Hi') as [Ho' _]. by simplify_eq.
    + intros Hnr. by destruct (Hnr (c_from rc0)).
  - exists w, owners, idx. split; [done|]. split; [done|].
    eapply (Sim_returned cl1 _ w w owners idx id q c rep (Some k)); try done; [by left|].
    eapply (Sim_changes n cl cl1 p nd _ w _ owners idx []); try done; [|by rewrite app_nil_r].
    intros i Hi'. destruct (w_runs _ _ _ HW i p Hi') as [Ho' _]. by simplify_eq.
Qed.

Lemma related_return id cl cl' : related cl -> return_ id cl = Some cl' -> related cl'.
Proof.
  intros (w & owners & idx & Hr & HW & HS) (q & Hq & (c & Hc & (nd & Hn & Hret)%bind_Some)%bind_Some)%bind_Some.
  destruct (s_call _ _ _ _ HS id q Hq) as (c0 & nd0 & e & oc & Hz & Hn0 & He & Hi & Hreq & Hsim). simplify_eq.
  destruct (q_waiting q) eqn:Hw; [|done]. cbn [negb] in Hret. destruct (c_phase c) as [| |nm h rel lr [rep|]|rep|rep] eqn:Hp; try done.
  unfold callResult in Hret. destruct (ok rep) eqn:Hok.
  - destruct oc as [k|]; [|by destruct Hsim as (_ & _ & Hno); rewrite Hp in Hno; congruence].
    pose proof Hsim as (rc & Hk & _ & _ & _ & _ & _ & Hph). unfold phase_sim in Hph. rewrite Hp in Hph. destruct (Hph Hok) as [Hno Hex].
    destruct (Hex Hw) as (r & Hst & ->). cbn in Hret. rewrite <- (app_nil_r (gob_encode _)), gob_decode_encode in Hret. cbn in Hret.
    destruct r as [r|r]; cbn [replyMsgOf] in Hret; apply bind_Some in Hret as (rf & Hhandle & [= <-]); by eapply (related_answered cl w owners idx id q c nd k rc).
  - cbn in Hret. injection Hret as <-. exists w, owners, idx. split; [done|]. split.
    + apply (Wired_changes n cl _ (q_node q) nd nd owners); [|done]. split; try done; [|by apply HW]. intros p'. case_decide; by subst.
    + eapply (Sim_returned cl _ w w owners idx id q c rep oc); try done. by left.
Qed.
End Steps.
