(* ===== verification/RaftClusterTest.v ===== *)
(** * RaftClusterTest: the test keeps the simulation

    The statements of the test, [connect], [disconnect] and the pieces of [crash1] and [start1], keep the wiring: a crashed
    instance is cut off before its persister is copied, and new ends have new names. *)

From S2P Require Import Prelude Persister Raft RaftFacts RaftNet RaftSafety LabRPC TestNet RaftConfig RaftCluster RaftClusterSim RaftClusterSteps.
Local Open Scope Z_scope.

Section Test.
Context {C byte : Type} `{!EqDecision C} `{!Gob byte Z} `{!Gob byte (list (LogEntries C))} `{!Gob byte (list C)} `{!Gob byte (Msg C)}.
Context (zero_cmd : C) (n : nat) (marks : list (nat * Z)).
Implicit Types (cl : Cluster C byte) (nd : Node C byte) (w : World C byte) (owners : list nat) (q : Pending C).
Implicit Types (rn : Net) (c : config C byte).

Abbreviation related := (related zero_cmd n marks).
Abbreviation follows := (follows zero_cmd n marks).
Abbreviation Wired := (Wired n).

(** ** Switching ends *)

Lemma Sim_conf cl cl' w owners idx :
  LabRPC.heap (sys cl') = LabRPC.heap (sys cl) -> LabRPC.calls (sys cl') = LabRPC.calls (sys cl) -> rafts (conf cl') = rafts (conf cl) ->
  saved (conf cl') = saved (conf cl) -> starts cl' = starts cl -> pend cl' = pend cl -> Sim cl w owners idx -> Sim cl' w owners idx.
Proof.
  intros Hh Hc Hr Hsv Hst Hp HS.
  assert (forall p, node p cl' = node p cl) as Hn by (intros; unfold node; by rewrite Hh).
  split; unfold runs; rewrite ?Hr, ?Hsv, ?Hst, ?Hp, ?Hc; try apply HS.
  - intros i p nd. rewrite Hn. apply HS.
  - intros id q Hq. destruct (s_call _ _ _ _ HS id q Hq) as (c & nd & e & oc & ?). exists c, nd, e, oc. rewrite Hn.
    unfold call_sim, phase_sim, runs in *. by rewrite Hr.
Qed.

Lemma Wired_net cl cl' owners :
  LabRPC.heap (sys cl') = LabRPC.heap (sys cl) -> starts cl' = starts cl -> rafts (conf cl') = rafts (conf cl) -> endnames (conf cl') = endnames (conf cl) ->
  saved (conf cl') = saved (conf cl) -> RaftConfig.n (conf cl') = RaftConfig.n (conf cl) ->
  LabRPC.ends (LabRPC.net (sys cl')) = LabRPC.ends (LabRPC.net (sys cl)) -> connections (LabRPC.net (sys cl')) = connections (LabRPC.net (sys cl)) ->
  (forall i p, serverAt (server_name i) (LabRPC.net (sys cl')) = Some p -> runs cl i p) ->
  (forall i, isConnected (conf cl') i = true -> exists p, runs cl i p) ->
  (forall e, isEnabled (inl e) (LabRPC.net (sys cl')) = true -> isEnabled (inl e) (LabRPC.net (sys cl)) = true \/
     exists i p nd, runs cl i p /\ node p cl = Some nd /\ e ∈ o_ends nd) ->
  test_ok n cl' -> Wired cl owners -> Wired cl' owners.
Proof.
  intros Hh Hst Hr Hen Hsv Hnn He Hco Hreg Hconn Hena Htest HW.
  assert (forall p, node p cl' = node p cl) as Hn by (intros; unfold node; by rewrite Hh).
  assert (forall es, leads n (LabRPC.net (sys cl)) es -> leads n (LabRPC.net (sys cl')) es) as Hleads
    by (intros es [Hl Hj]; split; [done|]; by rewrite He, Hco).
  assert (forall i p, runs cl' i p <-> runs cl i p) as Hruns by (intros; unfold runs; by rewrite Hr).
  split; rewrite ?Hst, ?Hr, ?Hen, ?Hsv, ?Hnn, ?Hh; try apply HW; try done.
  - intros p nd. rewrite Hn. intros Hp. by apply Hleads, (w_ends _ _ _ HW p).
  - intros p p' nd nd' e. rewrite !Hn. apply HW.
  - intros i p Hi%Hruns. rewrite Hn. by apply HW.
  - intros i p Hi. apply Hruns. by apply Hreg.
  - intros i Hi. destruct (Hconn i Hi) as [p Hp]. exists p. by apply Hruns.
  - intros p nd i e Hp Ho Hno Hin. rewrite Hn in Hp. rewrite Hruns in Hno. pose proof (w_cut _ _ _ HW p nd i e Hp Ho Hno Hin) as Hoff.
    apply not_true_is_false. intros Hon. destruct (Hena e Hon) as [|(j & p' & nd' & Hj & Hp' & Hin')]; [congruence|].
    assert (p = p') as <- by (by eapply (w_distinct _ _ _ HW)). destruct (w_runs _ _ _ HW j p Hj) as [Ho' _]. by simplify_eq.
Qed.

(** The names that [connect] and [disconnect] look up. *)
Lemma endnameOf_runs cl owners i p j e :
  Wired cl owners -> runs cl i p -> endnameOf (conf cl) i j = Some e -> exists nd, node p cl = Some nd /\ e ∈ o_ends nd.
Proof.
  intros HW Hi He. destruct (w_runs _ _ _ HW i p Hi) as (_ & nd & Hn & Hends). exists nd. split; [done|].
  unfold endnameOf in He. rewrite Hends in He. cbn in He. by eapply list_elem_of_lookup_2.
Qed.

Lemma isConnected_insert c i b j :
  isConnected (set_connected (<[i := b]> (connected c)) c) j = true -> isConnected c j = true \/ i = j /\ b = true.
Proof.
  unfold isConnected. cbn. destruct (decide (i = j)) as [->|Hne]; [|rewrite list_lookup_insert_ne by done; tauto].
  destruct (decide (j < length (connected c))%nat); [rewrite list_lookup_insert_eq by done; destruct b; tauto|].
  rewrite list_insert_ge by lia. tauto.
Qed.

Lemma related_connect i p cl c : related cl -> doing cl = Idle -> runs cl i p -> connect i (confOf cl) = Some c -> related (set_conf c cl).
Proof.
  intros (w & owners & idx & Hr & HW & HS) Hidle Hi Hc. exists w, owners, idx. unfold connect in Hc.
  apply bind_Some in Hc as (outgoing & Hout & (incoming & Hin & [= <-])%bind_Some).
  split; [done|]. split; [|by apply (Sim_conf cl)].
  set (c1 := set_connected _ _) in *.
  assert (forall j, isConnected c1 j = true -> exists p', runs cl j p') as Hconn.
  { intros j [Hj|[<- _]]%isConnected_insert; [by apply (w_conn _ _ _ HW)|by exists p]. }
  destruct (enableAll_frame true incoming (enableAll true outgoing (LabRPC.net (sys cl)))) as (E1 & E2 & E3 & _).
  destruct (enableAll_frame true outgoing (LabRPC.net (sys cl))) as (F1 & F2 & F3 & _).
  eapply (Wired_net cl); try done; cbn; [by rewrite E1|by rewrite E2| | |by unfold test_ok; cbn; rewrite Hidle].
  - intros j p'. unfold serverAt. rewrite E3, F3. apply HW.
  - intros e. rewrite !isEnabled_enableAll. case_decide as D1; [|case_decide as D2; [|by left]]; intros _; right.
    + apply (mapM_elem _ _ _ _ Hin) in D1 as (j & [Hj _]%list_elem_of_filter & He). destruct (Hconn j Hj) as [p' Hp'].
      destruct (endnameOf_runs cl owners j p' i e HW Hp' He) as (nd & ? & ?). by exists j, p', nd.
    + apply (mapM_elem _ _ _ _ Hout) in D2 as (j & _ & He). destruct (endnameOf_runs cl owners i p j e HW Hi He) as (nd & ? & ?). by exists i, p, nd.
Qed.

(** [disconnect] switches off and nothing else. *)
Lemma disconnect_spec i c c' :
  disconnect i c = Some c' ->
  exists off, c' = RaftConfig.set_net (enableAll false off (RaftConfig.net c)) (set_connected (<[i := false]> (connected c)) c) /\
    forall names j e, endnames c !! i = Some (Some names) -> (j < RaftConfig.n c)%nat -> names !! j = Some e -> e ∈ off.
Proof.
  intros Hc. unfold disconnect in Hc. apply bind_Some in Hc as (outgoing & Hout & (incoming & Hin & [= <-])%bind_Some).
  exists (outgoing ++ incoming). split; [by rewrite enableAll_app|].
  intros names j e Hn Hj He. apply elem_of_app. left. apply (mapM_elem _ _ _ _ Hout). exists j.
  unfold endnameOf, hasEnds. cbn. rewrite Hn. cbn. split; [|done]. apply list_elem_of_filter. split; [done|]. apply elem_of_seq. lia.
Qed.

Lemma isConnected_off c c' i :
  connected c' = <[i := false]> (connected c) -> isConnected c' i = false /\ forall j, isConnected c' j = true -> isConnected c j = true.
Proof.
  unfold isConnected. intros ->. split.
  - destruct (decide (i < length (connected c))%nat); [by rewrite list_lookup_insert_eq|]. rewrite list_insert_ge by lia. by rewrite lookup_ge_None_2 by lia.
  - intros j Hj. by apply (isConnected_insert c i false j) in Hj as [|[_ ?]].
Qed.

Lemma related_disconnect i cl c : related cl -> doing cl = Idle -> disconnect i (confOf cl) = Some c -> related (set_conf c cl).
Proof.
  intros (w & owners & idx & Hr & HW & HS) Hidle (off & -> & _)%disconnect_spec. exists w, owners, idx.
  split; [done|]. split; [|by apply (Sim_conf cl)]. destruct (enableAll_frame false off (LabRPC.net (sys cl))) as (E1 & E2 & E3 & _).
  eapply (Wired_net cl); try done; cbn; [| | |by unfold test_ok; cbn; rewrite Hidle].
  - intros j p. unfold serverAt. rewrite E3. apply HW.
  - intros j Hj. apply (w_conn _ _ _ HW). eapply (isConnected_off (conf cl) _ i); [|exact Hj]; done.
  - intros e. rewrite isEnabled_enableAll. case_decide; [done|by left].
Qed.

Lemma related_set x cl rn : related cl -> doing cl = Idle -> applySetting x (LabRPC.net (sys cl)) = Some rn -> related (set_sys (LabRPC.set_net rn (sys cl)) cl).
Proof.
  intros (w & owners & idx & Hr & HW & HS) Hidle Hx. exists w, owners, idx. split; [done|]. split; [|by apply (Sim_conf cl)].
  assert (same_wires (LabRPC.net (sys cl)) rn) as (E1 & E2 & E3 & E4).
  { destruct x; cbn in Hx; [by injection Hx as <-..|]. unfold Cleanup in Hx. destruct (LabRPC.done _); [done|]. by injection Hx as <-. }
  eapply (Wired_net cl); try done; cbn; [| | |by unfold test_ok; cbn; rewrite Hidle].
  - intros j p. unfold serverAt. rewrite E3. apply HW.
  - apply HW.
  - intros e. unfold isEnabled. rewrite E2. by left.
Qed.

(** ** [crash1] *)

Lemma serverAt_insert i j x rn :
  serverAt (server_name j) (set_servers (<[inr (Z.of_nat i) := x]> (LabRPC.servers rn)) rn) = if decide (i = j) then x else serverAt (server_name j) rn.
Proof.
  unfold serverAt. cbn. case_decide as E; [subst; by rewrite lookup_insert_eq|]. rewrite lookup_insert_ne; [done|]. 
  unfold server_name. intros [= ?]. lia.
Qed.

Lemma related_crash i again cl c :
  related cl -> doing cl = Idle -> (i < RaftConfig.n (conf cl))%nat -> crashNet i (confOf cl) = Some c ->
  related (set_doing (Crashing i again) (set_conf c cl)).
Proof.
  intros (w & owners & idx & Hr & HW & HS) Hidle Hlt (c1 & (off & -> & Hoff)%disconnect_spec & [= <-])%bind_Some. exists w, owners, idx.
  split; [done|]. split; [|by apply (Sim_conf cl)]. destruct (enableAll_frame false off (LabRPC.net (sys cl))) as (E1 & E2 & E3 & _).
  eapply (Wired_net cl); try done; cbn.
  - intros j p. unfold DeleteServer. rewrite serverAt_insert. case_decide; [done|]. unfold serverAt. rewrite E3. apply HW.
  - intros j Hj. apply (w_conn _ _ _ HW). eapply (isConnected_off (conf cl) _ i); [|exact Hj]; done.
  - intros e. unfold DeleteServer. unfold isEnabled at 1. cbn. fold (isEnabled (inl e) (enableAll false off (LabRPC.net (sys cl)))).
    rewrite isEnabled_enableAll. case_decide; [done|by left].
  - unfold test_ok. cbn. split_and!; [by rewrite <- (w_n _ _ _ HW)|by apply (isConnected_off (conf cl))|unfold DeleteServer; rewrite serverAt_insert; by rewrite decide_True|].
    intros p nd e Hp Hn Hin. destruct (w_runs _ _ _ HW i p Hp) as (_ & nd' & Hn' & Hends). unfold node in Hn. cbn in Hn. fold (node p cl) in Hn. simplify_eq.
    apply list_elem_of_lookup in Hin as (j & Hj). destruct (w_ends _ _ _ HW p nd Hn) as [Hlen _].
    unfold DeleteServer, isEnabled. cbn. fold (isEnabled (inl e) (enableAll false off (LabRPC.net (sys cl)))). rewrite isEnabled_enableAll, decide_True; [done|].
    eapply (Hoff (o_ends nd) j); [done| |done]. cbn. rewrite (w_n _ _ _ HW), <- Hlen. by eapply lookup_lt_Some.
Qed.

Lemma related_add i p cl : related cl -> doing cl = Adding i p -> related (set_doing Idle (set_conf (addServer i p (confOf cl)) cl)).
Proof.
  intros (w & owners & idx & Hr & HW & HS) Hadd. exists w, owners, idx. split; [done|]. split; [|by apply (Sim_conf cl)].
  pose proof (w_test _ _ _ HW) as Ht. unfold test_ok in Ht. rewrite Hadd in Ht.
  eapply (Wired_net cl); try done; cbn.
  - intros j p'. unfold AddServer. rewrite serverAt_insert. case_decide as E; [by subst; intros [= <-]|apply HW].
  - intros j Hj. by apply (w_conn _ _ _ HW).
  - intros e. unfold isEnabled. cbn. by left.
Qed.

(** What a persister holds survives its copies. *)
Lemma saved_copy (ps : Persister byte) : Save (ReadRaftState (Copy ps)) (ReadSnapshot (Copy ps)) (mkPersister [] []) = ps.
Proof. destruct ps as [rs sn]. unfold Save, ReadRaftState, ReadSnapshot, Copy. cbn [raftstate snapshot]. by rewrite !clone_id. Qed.

Lemma crashSave_spec i c :
  crashSave i c = set_rafts (<[i := None]> (rafts c)) c.
Proof.
  unfold crashSave. cbn [saved set_rafts]. destruct (saved c !! i) as [[ps|]|] eqn:E; try done. rewrite saved_copy, list_insert_id by done. by destruct c.
Qed.

Lemma derefSaved_kill i cl owners : Wired cl owners -> derefSaved i (killOld i cl) = derefSaved i cl.
Proof.
  intros HW. unfold derefSaved, killOld. destruct (mjoin (rafts (conf cl) !! i)) as [p|] eqn:Ep; [|by rewrite ?Ep].
  unfold kill. destruct (node p cl) as [nd|] eqn:Hn; [|cbn; by rewrite Ep; cbn; rewrite Hn].
  pose proof (put_changes n cl owners p nd (set_node (Kill (raftOf nd)) nd) HW Hn eq_refl eq_refl) as Hch.
  cbn. rewrite Ep. cbn. rewrite (ch_nodes _ _ _ _ _ Hch), decide_True, Hn by done. done.
Qed.

Lemma related_save_ i again cl :
  related cl -> doing cl = Crashing i again ->
  related (set_doing (if again then Naming i else Idle) (set_conf (crashSave i (derefSaved i cl)) cl)).
Proof.
  intros (w & owners & idx & Hr & HW & HS) Hcr. pose proof (w_test _ _ _ HW) as Ht. unfold test_ok in Ht. rewrite Hcr in Ht. destruct Ht as (Hlt & Hoff & Hsrv & Hcut).
  destruct (w_len _ _ _ HW) as (Hlr & Hle & Hls & Hlst). rewrite crashSave_spec.
  set (cl' := set_doing _ _).
  assert (forall p, node p cl' = node p cl) as Hn by done.
  assert (rafts (conf cl') = <[i := None]> (rafts (conf cl))) as Hrafts by (cbn; unfold derefSaved; by case_match).
  assert (forall j p, runs cl' j p <-> i <> j /\ runs cl j p) as Hruns.
  { intros j p. unfold runs. rewrite Hrafts. destruct (decide (i = j)) as [->|Hne]; [rewrite list_lookup_insert_eq by lia; naive_solver|].
    rewrite list_lookup_insert_ne by done. tauto. }
  assert (LabRPC.net (sys cl') = LabRPC.net (sys cl)) as Hnet by (cbn; unfold derefSaved; by case_match).
  assert (endnames (conf cl') = endnames (conf cl) /\ connected (conf cl') = connected (conf cl) /\ RaftConfig.n (conf cl') = RaftConfig.n (conf cl)) as (Hen & Hco & Hnn)
    by (cbn; unfold derefSaved; by case_match).
  assert (saved (conf cl') = match mjoin (rafts (conf cl) !! i) ≫= fun p => node p cl with
    Some nd => <[i := Some (persister (raftOf nd))]> (saved (conf cl)) | None => saved (conf cl) end) as Hsaved
    by (cbn; unfold derefSaved; change (rafts (confOf cl)) with (rafts (conf cl)); by destruct (_ ≫= _)).
  exists w, owners, idx. split; [done|]. split.
  - split; rewrite ?Hnet, ?Hen, ?Hnn, ?Hrafts; try apply HW; try done.
    + rewrite length_insert, Hsaved. split_and!; try done. case_match; by rewrite ?length_insert.
    + intros j p [_ Hj]%Hruns. by apply HW.
    + intros j p Hj. apply Hruns. split; [intros <-; congruence|by apply HW].
    + intros j Hj. unfold isConnected in *. rewrite Hco in Hj. destruct (w_conn _ _ _ HW j Hj) as [p Hp]. exists p. apply Hruns. split; [intros <-; congruence|done].
    + intros p nd j e Hp Ho Hno Hin. destruct (decide (rafts (conf cl) !! j = Some (Some p))) as [Hj|Hj]; [|by eapply (w_cut _ _ _ HW p nd j)].
      destruct (decide (i = j)) as [->|Hne]; [by apply (Hcut p nd)|]. destruct Hno. by apply Hruns.
    + unfold test_ok. cbn [doing cl' set_doing]. destruct again; [|done]. fold cl'. rewrite Hrafts. by apply list_lookup_insert_eq; lia.
  - split; try apply HS.
    + intros j p nd [_ Hj]%Hruns Hp. by eapply HS.
    + intros j. rewrite Hrafts, Hsaved. intros [(<- & _ & _)|[Hne Hj]]%list_lookup_insert_Some.
      * destruct (lookup_lt_is_Some_2 (rafts (conf cl)) i) as [[p|] Hp]; [lia| |].
        -- destruct (w_runs _ _ _ HW i p Hp) as (_ & nd & Hnd & _). rewrite Hp. cbn. rewrite Hnd. exists (o_server nd). split; [by eapply HS|].
           rewrite list_lookup_insert_eq by lia. done.
        -- rewrite Hp. cbn. by apply (s_down _ _ _ _ HS).
      * destruct (s_down _ _ _ _ HS j Hj) as (s & Hs & Hps). exists s. split; [done|]. case_match; [by rewrite list_lookup_insert_ne|done].
    + intros id q Hq. destruct (s_call _ _ _ _ HS id q Hq) as (c & nd & e & oc & ? & ? & ? & ? & ? & Hsim). exists c, nd, e, oc. split_and!; try done.
      eapply call_sim_frame; [|done..|exact Hsim]. by intros ? p j _ [_ ?]%Hruns.
Qed.

Lemma related_save i again cl : related cl -> doing cl = Crashing i again -> related (set_doing (if again then Naming i else Idle) (crashed i cl)).
Proof.
  intros Hrel Hcr. pose proof Hrel as (w & owners & idx & _ & HW & _). unfold crashed. rewrite <- (derefSaved_kill i cl owners HW). apply related_save_.
  - unfold killOld. case_match; [by apply related_kill|done].
  - unfold killOld, kill. by repeat case_match.
Qed.

(** ** [start1] *)

Lemma related_ends i names cl c :
  related cl -> doing cl = Naming i -> startEnds i names (confOf cl) = Some c -> related (set_doing (Booting i) (set_conf c cl)).
Proof.
  intros (w & owners & idx & Hr & HW & HS) Hdo Hc. pose proof (w_test _ _ _ HW) as Ht. unfold test_ok in Ht. rewrite Hdo in Ht.
  unfold startEnds in Hc. case_bool_decide as Hlen; [|done]. cbn in Hlen, Hc. rewrite (w_n _ _ _ HW) in Hlen. apply bind_Some in Hc as (rn & Hm & [= <-]).
  destruct (makeEnds_spec _ _ _ _ Hm) as (_ & Hfresh & Hends & Hena). destruct (makeEnds_frame _ _ _ _ Hm) as (Hsrv & _ & _ & Hnew & Hold).
  destruct (w_len _ _ _ HW) as (Hlr & Hle & Hls & Hlst). assert (i < n)%nat as Hlt by (rewrite <- Hlr; by eapply lookup_lt_Some).
  exists w, owners, idx. split; [done|]. split; [|by apply (Sim_conf cl)].
  assert (forall p nd e, node p cl = Some nd -> e ∈ o_ends nd -> e ∉ names) as Hout.
  { intros p nd e Hn (j & Hj)%list_elem_of_lookup Hin. destruct (w_ends _ _ _ HW p nd Hn) as [_ Hl]. destruct (Hl j e Hj) as [_ He]. by destruct (Hfresh e Hin). }
  split; cbn; try apply HW.
  - rewrite length_insert. by split_and!.
  - intros p nd Hn. destruct (w_ends _ _ _ HW p nd Hn) as [Hl Hj]. split; [done|]. intros j e He.
    rewrite Hold, Hends by (eapply Hout; [exact Hn|by eapply list_elem_of_lookup_2]). destruct (Hj j e He). by split; [|left].
  - intros j p Hj. destruct (w_runs _ _ _ HW j p Hj) as (Ho & nd & Hn & He). split; [done|]. exists nd. split; [done|].
    rewrite list_lookup_insert_ne; [done|]. intros ->. unfold runs in Hj. cbn in Hj. congruence.
  - intros j p. unfold serverAt. rewrite Hsrv. apply HW.
  - intros p nd j e Hn Ho Hno Hin. rewrite Hena, decide_False by (by eapply Hout). by apply (w_cut _ _ _ HW p nd j).
  - unfold test_ok. cbn. split; [done|]. exists names. split_and!; [apply list_lookup_insert_eq; lia| |by apply Hout].
    split; [done|]. intros j e He. rewrite (Hnew j e He). split; [done|]. apply Hends. right. exists e. split; [done|]. by eapply list_elem_of_lookup_2.
Qed.

(** The persister of the new instance holds what the old one left. *)
Lemma startSaved_spec i c c' :
  startSaved i c = Some c' ->
  saved c' = <[i := Some (default MakePersister (mjoin (saved c !! i)))]> (saved c) /\ RaftConfig.net c' = RaftConfig.net c /\
  RaftConfig.n c' = RaftConfig.n c /\ rafts c' = rafts c /\ connected c' = connected c /\ endnames c' = endnames c.
Proof.
  unfold startSaved. cbn. destruct (saved c !! i) as [[ps|]|]; cbn; [|by intros [= <-]..]. rewrite Copy_id.
  case_bool_decide; [by intros [= <-]|]. intros (r & Hing & Hr)%bind_Some. destruct r as [c1|]; [|done]. injection Hr as ->.
  unfold ingestSnap in Hing. apply bind_Some in Hing as ([z rest] & _ & ([xlog rest'] & _ & Hing)%bind_Some). case_match; [done|]. by injection Hing as <-.
Qed.

Lemma hosts_snoc (h : list (LabRPC.Server (Val := Msg C) (Obj := Node C byte))) nd p :
  (h ++ [raftServer nd]) !! p ≫= nodeOf = if decide (p = length h) then Some nd else h !! p ≫= nodeOf.
Proof.
  case_decide as E; [subst; by rewrite list_lookup_middle|]. destruct (decide (p < length h)%nat); [by rewrite lookup_app_l|].
  rewrite !lookup_ge_None_2; [done|lia|rewrite length_app; cbn; lia].
Qed.

(** A new instance [nd] at address [p] runs as server [i], which was down. *)
Record grows cl cl' (i p : nat) nd : Prop := {
  g_new : p = length (LabRPC.heap (sys cl));
  g_heap : LabRPC.heap (sys cl') = LabRPC.heap (sys cl) ++ [raftServer nd];
  g_net : LabRPC.net (sys cl') = LabRPC.net (sys cl);
  g_calls : LabRPC.calls (sys cl') = LabRPC.calls (sys cl);
  g_pend : pend cl' = pend cl;
  g_n : RaftConfig.n (conf cl') = RaftConfig.n (conf cl);
  g_rafts : rafts (conf cl') = <[i := Some p]> (rafts (conf cl));
  g_saved : exists ps, saved (conf cl') = <[i := ps]> (saved (conf cl));
  g_connected : connected (conf cl') = connected (conf cl);
  g_endnames : endnames (conf cl') = endnames (conf cl);
  g_starts : starts cl' = <[i := s_epoch (o_server nd)]> (starts cl);
  g_doing : doing cl' = Adding i p;
  g_down : rafts (conf cl) !! i = Some None;
  g_names : endnames (conf cl) !! i = Some (Some (o_ends nd));
  g_leads : leads n (LabRPC.net (sys cl)) (o_ends nd);
  g_fresh p' nd' e : node p' cl = Some nd' -> e ∈ o_ends nd' -> e ∉ o_ends nd
}.

Lemma grows_node cl cl' i p nd p' : grows cl cl' i p nd -> node p' cl' = if decide (p' = p) then Some nd else node p' cl.
Proof. intros H. unfold node. rewrite (g_heap _ _ _ _ _ H), (g_new _ _ _ _ _ H). apply hosts_snoc. Qed.

Lemma grows_old cl cl' i p nd p' nd' : grows cl cl' i p nd -> node p' cl = Some nd' -> node p' cl' = Some nd'.
Proof.
  intros H Hn. rewrite (grows_node _ _ _ _ _ _ H), decide_False; [done|]. intros ->. unfold node in Hn.
  by rewrite lookup_ge_None_2 in Hn by by rewrite (g_new _ _ _ _ _ H).
Qed.

Lemma grows_runs cl cl' i p nd j p' : grows cl cl' i p nd -> runs cl' j p' <-> i = j /\ p' = p \/ runs cl j p'.
Proof.
  intros H. unfold runs. rewrite (g_rafts _ _ _ _ _ H). pose proof (g_down _ _ _ _ _ H) as Hd. destruct (decide (i = j)) as [->|Hne].
  - rewrite list_lookup_insert_eq by (by eapply lookup_lt_Some). naive_solver.
  - rewrite list_lookup_insert_ne by done. naive_solver.
Qed.

Lemma Wired_grows cl cl' i p nd owners : grows cl cl' i p nd -> Wired cl owners -> Wired cl' (owners ++ [i]).
Proof.
  intros H HW. pose proof (fun j p' => grows_runs _ _ _ _ _ j p' H) as Hruns. pose proof (fun p' => grows_node _ _ _ _ _ p' H) as Hnode.
  assert (length owners = p) as Hlen by (rewrite (w_owners _ _ _ HW); symmetry; apply H). destruct (g_saved _ _ _ _ _ H) as [ps Hsv].
  assert (forall p' j, (owners ++ [i]) !! p' = Some j -> p' <> p -> owners !! p' = Some j) as Hback.
  { intros p' j [Ho|[Hge Ho]]%lookup_app_Some Hne; [done|]. apply list_lookup_singleton_Some in Ho as [? _]. lia. }
  split; rewrite ?(g_net _ _ _ _ _ H), ?(g_n _ _ _ _ _ H), ?(g_endnames _ _ _ _ _ H), ?(g_heap _ _ _ _ _ H), ?(g_rafts _ _ _ _ _ H), ?(g_starts _ _ _ _ _ H), ?Hsv; try apply HW.
  - rewrite !length_insert. apply HW.
  - rewrite !length_app. by rewrite (w_owners _ _ _ HW).
  - intros p' rs [Hp'|[_ Hp']]%lookup_app_Some; [by eapply HW|]. apply list_lookup_singleton_Some in Hp' as [_ <-]. by exists nd.
  - intros p' nd' Hp'. rewrite Hnode in Hp'. case_decide; [simplify_eq; apply H|by apply (w_ends _ _ _ HW p')].
  - intros p1 p2 nd1 nd2 e H1 H2 Hin1 Hin2. rewrite Hnode in H1, H2. destruct (decide (p1 = p)) as [->|], (decide (p2 = p)) as [->|]; [done| | |by eapply (w_distinct _ _ _ HW)].
    + injection H1 as <-. by destruct (g_fresh _ _ _ _ _ H p2 nd2 e).
    + injection H2 as <-. by destruct (g_fresh _ _ _ _ _ H p1 nd1 e).
  - intros j p' [[<- ->]|Hj]%Hruns.
    + split; [rewrite <- Hlen; by apply list_lookup_middle|]. exists nd. rewrite Hnode, decide_True by done. split; [done|apply H].
    + destruct (w_runs _ _ _ HW j p' Hj) as (Ho & nd' & Hn' & He). split; [by apply lookup_app_l_Some|]. exists nd'. split; [by eapply grows_old|done].
  - intros j p' Hj%(w_reg _ _ _ HW). apply Hruns. by right.
  - intros j Hj. unfold isConnected in Hj. rewrite (g_connected _ _ _ _ _ H) in Hj. destruct (w_conn _ _ _ HW j Hj) as [p' Hp']. exists p'. apply Hruns. by right.
  - intros p' nd' j e Hp' Ho Hno Hin. rewrite Hnode in Hp'. case_decide as E.
    + subst p'. destruct Hno. apply Hruns. left. split; [|done]. rewrite <- Hlen in Ho. rewrite list_lookup_middle in Ho by done. by simplify_eq.
    + apply (w_cut _ _ _ HW p' nd' j e); [done|by apply Hback| |done]. intros Hj. apply Hno, Hruns. by right.
  - unfold test_ok. rewrite (g_doing _ _ _ _ _ H). apply Hruns. by left.
Qed.

Lemma Sim_grows cl cl' i p nd w w' owners idx :
  grows cl cl' i p nd -> Wired cl owners -> RaftNet.servers w' = <[i := o_server nd]> (RaftNet.servers w) -> RaftNet.calls w' = RaftNet.calls w ->
  Sim cl w owners idx -> Sim cl' w' (owners ++ [i]) idx.
Proof.
  intros H HW Hsrv Hcalls HS. pose proof (fun j p' => grows_runs _ _ _ _ _ j p' H) as Hruns. pose proof (g_down _ _ _ _ _ H) as Hd.
  destruct (g_saved _ _ _ _ _ H) as [ps Hsv]. destruct (s_down _ _ _ _ HS i Hd) as (s & Hs & _).
  split; rewrite ?(g_pend _ _ _ _ _ H), ?(g_calls _ _ _ _ _ H), ?Hsrv; try apply HS.
  - intros j p' nd' [[<- ->]|Hj]%Hruns Hn'.
    + rewrite (grows_node _ _ _ _ _ _ H), decide_True in Hn' by done. simplify_eq. by eapply list_lookup_insert_eq, lookup_lt_Some.
    + destruct (w_runs _ _ _ HW j p' Hj) as (_ & nd0 & Hn0 & _). rewrite (grows_old _ _ _ _ _ _ _ H Hn0) in Hn'. simplify_eq.
      rewrite list_lookup_insert_ne by (intros ->; unfold runs in Hj; congruence). by eapply HS.
  - intros j. rewrite (g_rafts _ _ _ _ _ H), Hsv. intros [(_ & ? & _)|[Hne Hj]]%list_lookup_insert_Some; [done|].
    rewrite !list_lookup_insert_ne by done. by apply (s_down _ _ _ _ HS).
  - intros j s1. rewrite (g_starts _ _ _ _ _ H). intros [(<- & <- & _)|[Hne Hj]]%list_lookup_insert_Some.
    + by eapply list_lookup_insert_eq, lookup_lt_Some, HS.
    + rewrite list_lookup_insert_ne by done. by apply HS.
  - intros id q Hq. destruct (s_call _ _ _ _ HS id q Hq) as (c0 & nd0 & e & oc & Hz & Hn0 & He & Hi & Hreq & Hsim). exists c0, nd0, e, oc.
    split_and!; try done; [by eapply grows_old|]. eapply call_sim_frame; [| | |done|exact Hsim]; [|intros; by apply lookup_app_l_Some|by rewrite Hcalls].
    intros i0 p' j Ho [[_ ->]|?]%Hruns; [|done]. apply lookup_lt_Some in Ho. rewrite (w_owners _ _ _ HW), (g_new _ _ _ _ _ H) in Ho. lia.
Qed.

Lemma booted_grows i now r cl cl' owners (s : RaftNet.Server C byte) :
  Wired cl owners -> doing cl = Booting i -> starts cl !! i = Some (s_epoch s) -> persister (s_raft s) = default MakePersister (mjoin (saved (conf cl) !! i)) ->
  booted zero_cmd i now r cl = Some cl' ->
  exists p nd, grows cl cl' i p nd /\ o_server nd = RaftNet.boot zero_cmd n i (Copy (persister (s_raft s))) (S (s_epoch s)) now r.
Proof.
  intros HW Hdo Hstart Hps (c & Hc & Hb)%bind_Some. pose proof (w_test _ _ _ HW) as Ht. unfold test_ok in Ht. rewrite Hdo in Ht.
  destruct Ht as (Hdown & names & Hnames & Hleads & Hout). destruct (startSaved_spec i _ c Hc) as (Hsv & Hnet & Hn & Hra & Hco & Hen).
  destruct (w_len _ _ _ HW) as (Hlr & Hle & Hls & Hlst). assert (i < n)%nat as Hlt by (rewrite <- Hlr; by eapply lookup_lt_Some).
  cbn in Hsv, Hnet, Hn, Hra, Hco, Hen. rewrite Hsv, list_lookup_insert_eq, Hen, Hnames, Hstart, <- Hps in Hb by lia. cbn [mjoin option_join mbind option_bind] in Hb.
  apply bind_Some in Hb as (cl1 & (s' & Hs' & -> & Ha)%rpc_alive & [= <-]). unfold happen in Hs'. rewrite Ha in Hs'. injection Hs' as <-.
  exists (length (LabRPC.heap (sys cl))), (made zero_cmd i names (S (s_epoch s)) (persister (s_raft s)) now r c).
  split; [|by rewrite Copy_id, <- (w_n _ _ _ HW), <- Hn].
  split; cbn; try done; [by rewrite Hra|by eexists].
Qed.

Lemma related_boot i now r cl cl' : related cl -> doing cl = Booting i -> booted zero_cmd i now r cl = Some cl' -> related cl'.
Proof.
  intros (w & owners & idx & Hr & HW & HS) Hdo Hb. pose proof (w_test _ _ _ HW) as Ht. unfold test_ok in Ht. rewrite Hdo in Ht. destruct Ht as [Hdown _].
  destruct (s_down _ _ _ _ HS i Hdown) as (s & Hs & Hps).
  destruct (booted_grows i now r cl cl' owners s HW Hdo (s_starts _ _ _ _ HS i s Hs) Hps Hb) as (p & nd & Hg & Hnd).
  exists (upd_server i (o_server nd) w), (owners ++ [i]), idx. split_and!; [|by eapply Wired_grows|by eapply Sim_grows].
  apply (follows_step zero_cmd n marks w (EvCrash i now r)); [done|]. cbn. by rewrite Hs, Hnd, (follows_length zero_cmd n marks w Hr).
Qed.
End Test.
