(* ===== verification/RaftClusterProps.v ===== *)
(** * RaftClusterProps: Raft on labrpc refines RaftNet

    Every run of the peers over the simulated network, under every test that connects only servers that run, is a run of RaftNet as
    far as the running instances can tell.  So what holds of every reachable world of RaftNet holds of them.  The
    check of the tester for two leaders in one term reads the servers one after another, and each of them in two reads without its
    lock: it finds the leader unless a server came to lead another term between its two reads, and such a server can make it fire. *)

From S2P Require Import Prelude Persister Raft RaftFacts RaftNet RaftSafety LabRPC TestNet RaftConfig RaftCluster RaftClusterSim RaftClusterSteps RaftClusterTest.
Local Open Scope Z_scope.

Section Props.
Context {C byte : Type} `{!EqDecision C} `{!Gob byte Z} `{!Gob byte (list (LogEntries C))} `{!Gob byte (list C)} `{!Gob byte (Msg C)}.
Context (zero_cmd : C) (n : nat).
Implicit Types (cl : Cluster C byte) (marks : list (nat * Z)).

Lemma related_fresh unreliable : related zero_cmd n [] (fresh n unreliable : Cluster C byte).
Proof.
  exists (init zero_cmd n), [], []. split; [by repeat constructor|]. split.
  - split; cbn; try done.
    + by rewrite !length_replicate.
    + intros i p. unfold runs. cbn. by intros [? _]%lookup_replicate.
    + intros i. unfold isConnected. cbn. destruct (replicate n false !! i) as [b|] eqn:E; [|done]. by apply lookup_replicate in E as [-> _].
  - split; cbn; try done.
    + intros i [_ Hi]%lookup_replicate. eexists. rewrite list_lookup_fmap, lookup_seq_lt by done. split; [done|]. cbn.
      destruct (Make_fields zero_cmd n i MakePersister 0 0) as (_ & _ & Hp & _). rewrite Hp.
      by rewrite (lookup_replicate_2 n None i Hi).
    + intros i s. rewrite list_lookup_fmap. intros (j & [-> Hj]%lookup_seq & ->)%fmap_Some. cbn. by apply lookup_replicate_2.
Qed.

Lemma step_related marks ev cl cl' : related zero_cmd n marks cl -> step zero_cmd ev cl = Some cl' -> related zero_cmd n marks cl'.
Proof.
  intros Hrel Hs. destruct ev as [p now r|p k now r gone|p cmd|p|p|id r|id now r|id|id r r'|id|id|t]; cbn [step] in Hs;
    [by eapply related_tick|by eapply related_runG|by eapply related_start|by eapply related_applyBegins|by eapply related_applyEnds|by eapply related_process
    |by eapply related_handler|by eapply related_giveUp|by eapply related_answer|by eapply related_timer|by eapply related_return|].
  unfold test in Hs. destruct t as [i|i|x|i|i again| |names|now r|], (doing cl) as [|j again'|j|j|j p] eqn:Hdo; try done.
  - apply bind_Some in Hs as (p & Hp & (c & Hc & [= <-])%bind_Some). apply (related_connect zero_cmd n marks i p); try done.
    unfold runs. destruct (rafts (conf cl) !! i) as [[q|]|]; by simplify_eq/=.
  - apply bind_Some in Hs as (c & Hc & [= <-]). by eapply related_disconnect.
  - apply bind_Some in Hs as (rn & Hx & [= <-]). by eapply related_set.
  - injection Hs as <-. unfold killOld. case_match; [by apply related_kill|done].
  - case_bool_decide; [|done]. apply bind_Some in Hs as (c & Hc & [= <-]). by apply related_crash.
  - injection Hs as <-. by apply related_save.
  - apply bind_Some in Hs as (c & Hc & [= <-]). by eapply related_ends.
  - by eapply related_boot.
  - injection Hs as <-. by apply related_add.
Qed.

Lemma steps_related marks evs cl cl' : related zero_cmd n marks cl -> steps zero_cmd evs cl = Some cl' -> related zero_cmd n marks cl'.
Proof.
  revert cl. induction evs as [|ev evs IH]; intros cl Hrel Hs; cbn in Hs; [by simplify_eq|].
  apply bind_Some in Hs as (cl1 & H1 & H2). eapply IH; [|done]. by eapply step_related.
Qed.

Lemma reaches_related unreliable cl : reaches zero_cmd n unreliable cl -> related zero_cmd n [] cl.
Proof. induction 1; [apply related_fresh|by eapply step_related]. Qed.

(** C2: Raft on labrpc refines RaftNet.  However the goroutines, the network and a test interleave, whatever labrpc drops, delays,
    reorders or executes after its client has given up, and whatever crashed instances go on doing: there is a
    reachable world of RaftNet in which every server that runs is in exactly the state of its instance, with what it has applied,
    and every server that is down has the persister that its next instance will be made from. *)
Theorem cluster_refines unreliable cl :
  reaches zero_cmd n unreliable cl ->
  exists w, reachable zero_cmd n w /\
    (forall i p, rafts (conf cl) !! i = Some (Some p) -> exists nd, node p cl = Some nd /\ RaftNet.servers w !! i = Some (o_server nd)) /\
    (forall i, rafts (conf cl) !! i = Some None -> exists s, RaftNet.servers w !! i = Some s /\
       persister (s_raft s) = default MakePersister (mjoin (saved (conf cl) !! i))).
Proof.
  intros (w & owners & idx & [Hr _] & HW & HS)%reaches_related. exists w. split_and!; [done| |apply HS].
  intros i p Hi. destruct (w_runs _ _ _ HW i p Hi) as (_ & nd & Hn & _). exists nd. split; [done|]. by eapply HS.
Qed.

(** ** One leader *)

(** The test waits, so its configuration stays. *)
Lemma conf_rpc ev cl cl' : rpc ev cl = Some cl' -> conf cl' = conf cl.
Proof. unfold rpc. intros (s & _ & Hs)%bind_Some. case_match; by simplify_eq. Qed.

Lemma conf_step ev cl cl' : background ev = true -> step zero_cmd ev cl = Some cl' -> conf cl' = conf cl.
Proof.
  intros Hb Hs. destruct ev; try done; cbn in Hs; try (by eapply conf_rpc);
    unfold tick, runG, call, start, applyBegins, applyEnds, handler, return_ in Hs;
    repeat (first [apply bind_Some in Hs as (? & ? & Hs) | case_match | progress simplify_eq/=]); try done;
    match goal with H : rpc _ _ = Some _ |- _ => by apply conf_rpc in H end.
Qed.

Lemma conf_steps evs cl cl' : forallb background evs = true -> steps zero_cmd evs cl = Some cl' -> conf cl' = conf cl.
Proof.
  revert cl. induction evs as [|ev evs IH]; intros cl Hb Hs; cbn in Hb, Hs; [by simplify_eq|].
  apply andb_true_iff in Hb as [Hb Hbs]. apply bind_Some in Hs as (cl1 & H1 & H2). rewrite (IH cl1 Hbs H2). by eapply conf_step.
Qed.

(** An instance that runs and leads has won its term. *)
Lemma leader_marked marks cl i p nd :
  related zero_cmd n marks cl -> rafts (conf cl) !! i = Some (Some p) -> node p cl = Some nd -> whoami (raftOf nd) = Leader ->
  related zero_cmd n ((i, currentTerm (Stat (raftOf nd))) :: marks) cl /\ 0 <= currentTerm (Stat (raftOf nd)).
Proof.
  intros (w & owners & idx & Hf & HW & HS) Hi Hn Hl. pose proof (follows_Inv _ _ _ _ Hf) as HI.
  assert (RaftNet.servers w !! i = Some (o_server nd)) as Hs by by eapply HS. split.
  - exists w, owners, idx. split; [|done]. split; [apply Hf|]. constructor; [by apply (leader_led zero_cmd)|apply Hf].
  - destruct (inv_server _ _ HI _ _ Hs) as (Hok & _). apply Hok.
Qed.

(** Two elections of one term have one winner. *)
Lemma marks_unique marks cl i j t : related zero_cmd n marks cl -> (i, t) ∈ marks -> (j, t) ∈ marks -> i = j.
Proof.
  intros (w & _ & _ & Hf & _) Hi Hj. pose proof (follows_Inv _ _ _ _ Hf) as HI. destruct Hf as [_ Hm]. rewrite Forall_forall in Hm.
  exact (led_unique zero_cmd w i j t HI (Hm _ Hi) (Hm _ Hj)).
Qed.

Lemma leadersOf_spec state (c : config C byte) t i : i ∈ leadersOf state c t <-> isConnected c i = true /\ state i = (t, true) /\ (i < RaftConfig.n c)%nat.
Proof. unfold leadersOf. rewrite list_elem_of_filter, elem_of_seq. split; [intros [[??]?]|intros (?&?&?)]; (repeat split); auto with lia. Qed.

Lemma leaderTerms_spec state (c : config C byte) t : t ∈ leaderTerms state c <-> exists i, isConnected c i = true /\ state i = (t, true) /\ (i < RaftConfig.n c)%nat.
Proof.
  unfold leaderTerms. rewrite list_elem_of_fmap. setoid_rewrite list_elem_of_filter. setoid_rewrite elem_of_seq. split.
  - intros (i & -> & [Hc Hl] & Hi). exists i. destruct (state i) as [t b]. cbn in *. subst. split_and!; [done..|lia].
  - intros (i & Hc & Hs & Hi). exists i. rewrite Hs. split_and!; done || lia.
Qed.

(** The servers are read one after another: [base] is the number of the first.  Every instance that was seen to lead has won an
    election of the term it was then in. *)
Definition marked marks (base : nat) (rs : list (option (Node C byte * Node C byte))) : Prop :=
  forall k nd nd', rs !! k = Some (Some (nd, nd')) -> whoami (raftOf nd') = Leader ->
    ((base + k)%nat, currentTerm (Stat (raftOf nd'))) ∈ marks /\ 0 <= currentTerm (Stat (raftOf nd')).

Lemma look_marked marks i before between cl nd nd' cl' :
  related zero_cmd n marks cl -> look zero_cmd i before between cl = Some (nd, nd', cl') ->
  conf cl' = conf cl /\
  exists marks', marks ⊆ marks' /\ related zero_cmd n marks' cl' /\
    (whoami (raftOf nd') = Leader -> (i, currentTerm (Stat (raftOf nd'))) ∈ marks' /\ 0 <= currentTerm (Stat (raftOf nd'))).
Proof.
  intros Hrel Hl. unfold look in Hl. destruct (forallb _ _) eqn:Hb; [|done]. rewrite forallb_app in Hb. apply andb_true_iff in Hb as [Hb1 Hb2].
  apply bind_Some in Hl as (p & Hp & (cl1 & H1 & (nd1 & _ & (cl2 & H2 & (nd2 & Hn & [= -> -> ->])%bind_Some)%bind_Some)%bind_Some)%bind_Some).
  assert (conf cl' = conf cl) as Hc by (rewrite (conf_steps _ _ _ Hb2 H2); exact (conf_steps _ _ _ Hb1 H1)).
  assert (related zero_cmd n marks cl') as Hrel' by (eapply steps_related; [|exact H2]; by eapply steps_related).
  split; [done|]. destruct (decide (whoami (raftOf nd') = Leader)) as [Hlead|Hno]; [|by exists marks; split_and!].
  destruct (leader_marked marks cl' i p nd' Hrel') as [Hr Ht]; [|done..|].
  { rewrite Hc. revert Hp. destruct (rafts (conf cl) !! i) as [[]|]; cbn; congruence. }
  eexists. split; [|split; [exact Hr|]]; [by right|]. intros _. split; [by left|done].
Qed.

Lemma looks_marked sched : forall base marks cl rs cl',
  related zero_cmd n marks cl -> looks zero_cmd base sched cl = Some (rs, cl') ->
  conf cl' = conf cl /\ length rs = length sched /\
  (forall k, isConnected (conf cl) (base + k) = true -> rs !! k <> Some None) /\
  (forall k x, rs !! k = Some (Some x) -> isConnected (conf cl) (base + k) = true) /\
  exists marks', marks ⊆ marks' /\ related zero_cmd n marks' cl' /\ marked marks' base rs.
Proof.
  induction sched as [|[before between] sched IH]; intros base marks cl rs cl' Hrel Hl; cbn in Hl.
  { simplify_eq. split_and!; [done..|]. by exists marks. }
  destruct (isConnected (conf cl) base) eqn:Hcon.
  - apply bind_Some in Hl as ([[nd nd'] cl1] & Hlook & ([rs1 cl2] & Hls & [= <- <-])%bind_Some).
    destruct (look_marked _ _ _ _ _ _ _ _ Hrel Hlook) as (Hc & marks1 & Hsub & Hrel1 & Hm).
    destruct (IH _ _ _ _ _ Hrel1 Hls) as (Hc2 & Hlen & Hno & Hyes & marks2 & Hsub2 & Hrel2 & Hms). rewrite Hc in Hno, Hyes.
    split_and!; [congruence|cbn; congruence|intros [|k]; [done|]; rewrite Nat.add_succ_r; apply Hno
      |intros [|k] x; [by rewrite Nat.add_0_r|]; rewrite Nat.add_succ_r; apply Hyes|].
    exists marks2. split_and!; [by etrans|done|]. intros [|k] nd0 nd0' Hk Hlead; cbn in Hk.
    + simplify_eq. rewrite Nat.add_0_r. destruct (Hm Hlead) as [Hin ?]. split; [by apply Hsub2|done].
    + rewrite Nat.add_succ_r. by apply (Hms k nd0 nd0').
  - apply bind_Some in Hl as ([rs1 cl2] & Hls & Hl). injection Hl as <- <-.
    destruct (IH _ _ _ _ _ Hrel Hls) as (Hc2 & Hlen & Hno & Hyes & marks2 & Hsub2 & Hrel2 & Hms).
    split_and!; [done|cbn; congruence|intros [|k]; [rewrite Nat.add_0_r; congruence|]; rewrite Nat.add_succ_r; apply Hno
      |intros [|k] x; [done|]; rewrite Nat.add_succ_r; apply Hyes|].
    exists marks2. split_and!; [done..|]. intros [|k] nd0 nd0' Hk Hlead; [done|]. rewrite Nat.add_succ_r. by apply (Hms k nd0 nd0').
Qed.

(** The judgement of [checkOneLeader] on answers in which no two servers lead one term. *)
Lemma oneLeader_spec state (c : config C byte) :
  (forall i j t, isConnected c i = true -> isConnected c j = true -> state i = (t, true) -> state j = (t, true) -> i = j) ->
  (forall i t, isConnected c i = true -> state i = (t, true) -> 0 <= t /\ (i < RaftConfig.n c)%nat) ->
  exists found, oneLeader state c = Some found /\
    match found with
    | Some l => isConnected c l = true /\ exists t, state l = (t, true) /\
        forall j t', isConnected c j = true -> state j = (t', true) -> t' <= t /\ (t' = t -> j = l)
    | None => forall j, isConnected c j = true -> (state j).2 = false
    end.
Proof.
  intros Huniq Hpos.
  assert (forall t, (length (leadersOf state c t) <= 1)%nat) as Hone.
  { intros t. apply (length_le_1 (leadersOf _ _ t)); [apply NoDup_filter, NoDup_seq|]. intros i j (Hci & Hi & _)%leadersOf_spec (Hcj & Hj & _)%leadersOf_spec.
    by eapply Huniq. }
  unfold oneLeader. destruct (existsb _ _) eqn:Ex.
  { apply existsb_exists in Ex as (t & _ & Hlt%Nat.ltb_lt). specialize (Hone t). lia. }
  assert (forall j t, isConnected c j = true -> state j = (t, true) -> t ∈ leaderTerms state c) as Hterm.
  { intros j t Hc Hs. apply leaderTerms_spec. exists j. split_and!; [done..|]. by eapply Hpos. }
  destruct (leaderTerms state c) as [|t0 ts] eqn:Ets.
  - exists None. split; [done|]. intros j Hj. destruct (state j) as [t []] eqn:Hs; [|done]. by destruct (not_elem_of_nil t (Hterm j t Hj Hs)).
  - rewrite <- Ets in Hterm |- *. clear Ex. set (t := foldl Z.max (-1) _).
    assert (t ∈ leaderTerms state c) as (l & Hc & Hs & Hl)%leaderTerms_spec.
    { destruct (foldl_max_in (-1) (leaderTerms state c)) as [E|]; [|done]. exfalso.
      assert (t0 ∈ leaderTerms state c) as Hin by (rewrite Ets; by left). pose proof (foldl_max_le (-1) _ t0 (or_intror Hin)).
      apply leaderTerms_spec in Hin as (i & Hci & Hi & _). destruct (Hpos i t0 Hci Hi). lia. }
    assert (l ∈ leadersOf state c t) as Hin by by apply leadersOf_spec.
    destruct (leadersOf state c t) as [|l' ls] eqn:El; [by apply not_elem_of_nil in Hin|].
    exists (Some l'). split; [done|]. assert (l' ∈ leadersOf state c t) as (Hc' & Hs' & _)%leadersOf_spec by (rewrite El; by left).
    split; [done|]. exists t. split; [done|]. intros j t' Hj Hst. split.
    + apply foldl_max_le. right. by eapply Hterm.
    + intros ->. by eapply Huniq.
Qed.

(** The two reads of [GetState] met server [i] in different terms, and the second a leader. *)
Definition torn (rs : list (option (Node C byte * Node C byte))) (i : nat) : bool :=
  match rs !! i with
  | Some (Some (nd, nd')) =>
      bool_decide (whoami (raftOf nd') = Leader) && negb (currentTerm (Stat (raftOf nd)) =? currentTerm (Stat (raftOf nd')))
  | _ => false
  end.

End Props.

(** ** The theorems at work: commands and bytes are integers *)

Definition flag (b : bool) : Z := if b then 1 else 0.
Definition encodeMsg (m : Msg Z) : list Z :=
  match m with
  | MVote a => [0; rv_Term a; rv_CandidateId a; rv_LastLogIndex a; rv_LastLogTerm a]
  | MVoteReply r => [1; rvr_Term r; flag (rvr_VoteGranted r)]
  | MAppend a b c d es e => [2; a; b; c; d; e] ++ gob_encode es
  | MAppendReply r => [3; aer_Term r; flag (aer_Success r); aer_ConflictTerm r; aer_ConflictIndex r]
  end.
Definition decodeMsg (bs : list Z) : option (Msg Z * list Z) :=
  match bs with
  | 0 :: a :: b :: c :: d :: rest => Some (MVote (mkRequestVoteArgs a b c d), rest)
  | 1 :: t :: b :: rest => Some (MVoteReply (mkRequestVoteReply t (b =? 1)), rest)
  | 2 :: a :: b :: c :: d :: e :: rest => '(es, rest) ← gob_decode rest; Some (MAppend a b c d es e, rest)
  | 3 :: t :: s :: c :: i :: rest => Some (MAppendReply (mkAppendEntriesReply t (s =? 1) c i), rest)
  | _ => None
  end.
#[export] Program Instance gob_Msg : Gob Z (Msg Z) := {| gob_encode := encodeMsg; gob_decode := decodeMsg |}.
Next Obligation. by intros []. Qed.
Next Obligation.
  intros [a|r|a b c d es e|r] rest; unfold encodeMsg; cbn [app decodeMsg];
    [by destruct a|by destruct r as [t []]|by rewrite gob_decode_encode|by destruct r as [t [] c i]].
Qed.

Section Concrete.
Local Open Scope string_scope.

Definition start1_of (i : nat) (names : list string) : list (CEvent Z) := CTest <$> [TCrash i true; TSave; TEnds names; TBoot 0 0; TAdd].
Definition make3 : list (CEvent Z) :=
  start1_of 0 ["00"; "01"; "02"] ++ start1_of 1 ["10"; "11"; "12"] ++ start1_of 2 ["20"; "21"; "22"] ++
  (CTest <$> [TConnect 0; TConnect 1; TConnect 2]).

(** Server 0 wins term 1 with the vote of server 1. *)
Definition wins : list (CEvent Z) :=
  [CTick 0 5000 0; CRun 0 0 5000 0 false; CProcess 0 0; CHandler 0 5000 0; CAnswer 0 0 0; CReturn 0].

(** Its request to server 2 is on the way when server 2 is restarted: the client gives up, and the old instance still
    serves the request. *)
Definition late : list (CEvent Z) :=
  [CRun 0 0 5000 0 false; CProcess 1 0] ++ start1_of 2 ["30"; "31"; "32"] ++ [CGiveUp 1; CHandler 1 6000 0; CReturn 1] ++ [CTest (TConnect 2)].

Definition after : Cluster Z Z := default (fresh 3 false) (steps 0%Z (make3 ++ wins ++ late) (fresh 3 false)).

Lemma after_reached : reaches 0%Z 3 false after.
Proof.
  assert (bool_decide (is_Some (steps 0%Z (make3 ++ wins ++ late) (fresh 3 false : Cluster Z Z))) = true) as Hs%bool_decide_eq_true by (vm_compute; reflexivity).
  apply (reaches_steps 0%Z 3 false (make3 ++ wins ++ late) (fresh 3 false)); [apply reaches_fresh|]. unfold after. by destruct Hs as [cl ->].
Defined.
End Concrete.

(** The old instance of server 2 has voted in term 1; the server that RaftNet knows is the new one, which has not. *)
Lemma cluster_refines_witness :
  ((fun nd => (currentTerm (Stat (raftOf nd)), votedFor (Stat (raftOf nd)))) <$> node 2 after = Some (1, 0)) /\
  exists w s, reachable 0 3 w /\ RaftNet.servers w !! 2%nat = Some s /\ currentTerm (Stat (s_raft s)) = 0 /\ votedFor (Stat (s_raft s)) = -1.
Proof.
  split; [by vm_compute|].
  destruct (cluster_refines 0 3 false after after_reached) as (w & Hr & Hruns & _).
  destruct (Hruns 2%nat 3%nat) as (nd & Hn & Hs); [by vm_compute|]. exists w, (o_server nd). split_and!; [done..| |].
  - assert ((fun nd => currentTerm (Stat (raftOf nd))) <$> node 3 after = Some 0) as E by by vm_compute. rewrite Hn in E. by injection E.
  - assert ((fun nd => votedFor (Stat (raftOf nd))) <$> node 3 after = Some (-1)) as E by by vm_compute. rewrite Hn in E. by injection E.
Defined.

(** Server 1 times out and wins term 2 with the vote of server 2. *)
Definition wins1 : list (CEvent Z) :=
  [CTick 1 20000 0; CRun 1 2 20000 0 false; CProcess 2 0; CHandler 2 20000 0; CAnswer 2 0 0; CReturn 2].

(** A round in which the first [k] events of that election happen before the term of server 1 is read, and the others before
    its role is read. *)
Definition round1 (k : nat) : list (list (CEvent Z) * list (CEvent Z)) := [([], []); (take k wins1, drop k wins1); ([], [])].


(** Without the lock of [GetState] the check can fire although no term ever has two leaders: server 1 is elected between the
    two reads, so that it is seen to lead term 1, as server 0 is.  The tester then ends the test. *)
Theorem unlocked_GetState_is_fatal :
  exists (cl cl' : Cluster Z Z) rs, reaches 0 3 false cl /\ looks 0 0 (round1 0) cl = Some (rs, cl') /\
    seen rs 0 = (1, true) /\ seen rs 1 = (1, true) /\ torn rs 1 = true /\ oneLeader (seen rs) (conf cl') = None.
Proof.
  exists after. assert (bool_decide (is_Some (looks 0 0 (round1 0) after)) = true) as [[rs cl'] E]%bool_decide_eq_true by (vm_compute; reflexivity). exists cl', rs.
  assert ((fun r => (seen r.1 0, seen r.1 1, torn r.1 1, oneLeader (seen r.1) (conf r.2))) <$> looks 0 0 (round1 0) after
    = Some ((1, true), (1, true), true, None)) as H by (vm_compute; reflexivity).
  rewrite E in H. injection H as H0 H1 H2 H3. exact (conj after_reached (conj E (conj H0 (conj H1 (conj H2 H3))))).
Qed.
