(* ===== verification/KvRaft.v ===== *)
(** * KvRaft: the replicated key/value service
      (src/6.5840-golabs-2024/src/kvraft/server.go, client.go, common.go)

    The service is a skeleton around a Raft peer: its RPC handlers have empty bodies, so a
    reply keeps the zero value it was made with, and its clerk answers without a call.  A
    server is started on what its persister holds.  [Replica] states what the tester needs of
    a replicated server. *)

From S2P Require Import Prelude Persister Raft.
Local Open Scope Z_scope.

(** ** What a tester needs of a server *)

(** [r_start]: the number of peers, [me], what the persister holds, [maxraftstate], and the
    time and the random number [raft.Make] reads.  [r_persister]: what its Raft peer last
    wrote to its persister. *)
Class Replica (Srv byte : Type) := {
  r_start : nat -> nat -> Persister byte -> Z -> Z * Z -> Srv;
  r_Kill : Srv -> Srv;
  r_GetState : Srv -> Z * bool;
  r_persister : Srv -> Persister byte;
  r_start_keeps : forall peers me ps maxraftstate t, r_persister (r_start peers me ps maxraftstate t) = ps;
  r_Kill_keeps : forall srv, r_persister (r_Kill srv) = r_persister srv
}.

(** ** common.go *)

Definition OK : string := "OK".
Definition ErrNoKey : string := "ErrNoKey".
Definition ErrWrongLeader : string := "ErrWrongLeader".
Record PutAppendArgs := mkPutAppendArgs { pa_Key : string; pa_Value : string }.
Record PutAppendReply := mkPutAppendReply { par_Err : string }.
Record GetArgs := mkGetArgs { ga_Key : string }.
Record GetReply := mkGetReply { gr_Err : string; gr_Value : string }.

(** ** server.go *)

Section Server.
Context {C byte : Type} `{!Gob byte Z} `{!Gob byte (list (LogEntries C))} (zero_cmd : C).

(** The channel [applyCh] has no reader. *)
Record KVServer := mkKVServer { kv_me : nat; kv_rf : Raft.Raft C byte; kv_dead : Z; kv_maxraftstate : Z }.

Definition Get (args : GetArgs) (reply : GetReply) (kv : KVServer) : KVServer * GetReply := (kv, reply).
Definition Put (args : PutAppendArgs) (reply : PutAppendReply) (kv : KVServer) : KVServer * PutAppendReply := (kv, reply).
Definition Append (args : PutAppendArgs) (reply : PutAppendReply) (kv : KVServer) : KVServer * PutAppendReply := (kv, reply).

Definition Kill (kv : KVServer) : KVServer := mkKVServer (kv_me kv) (Raft.Kill (kv_rf kv)) 1 (kv_maxraftstate kv).
Definition killed (kv : KVServer) : bool := kv_dead kv =? 1.

Definition StartKVServer (servers me : nat) (ps : Persister byte) (maxraftstate : Z) (t : Z * Z) : KVServer :=
  mkKVServer me (Make zero_cmd servers me ps t.1 t.2) 0 maxraftstate.

#[export] Program Instance KVServer_replica : Replica KVServer byte := {|
  r_start := StartKVServer;
  r_Kill := Kill;
  r_GetState kv := Raft.GetState (kv_rf kv);
  r_persister kv := persister (kv_rf kv)
|}.
Next Obligation.
  intros. cbn. unfold Make, readPersist. destruct (zlen _ <? 1); [done|]. by destruct (decodeState _) as [[? ?] ?].
Qed.
Next Obligation. done. Qed.
End Server.
Arguments KVServer : clear implicits.

(** ** client.go *)

(** [servers]: the client ends, by name. *)
Record Clerk := mkClerk { ck_servers : list string }.
Definition MakeClerk (servers : list string) : Clerk := mkClerk servers.
Definition Clerk_Get (ck : Clerk) (key : string) : string := "".
Definition Clerk_PutAppend (ck : Clerk) (key value op : string) : Clerk := ck.
Definition Clerk_Put (ck : Clerk) (key value : string) : Clerk := Clerk_PutAppend ck key value "Put".
Definition Clerk_Append (ck : Clerk) (key value : string) : Clerk := Clerk_PutAppend ck key value "Append".
