(* ===== verification/Tester.v ===== *)
(** * Tester: the tester of the replicated services
      (src/6.5840-golabs-2024/src/kvraft/config.go; shardctrler/config.go has the same code
      around its own servers, see CtrlerTester)

    The tester keeps [n] servers and any number of clerks on one simulated network.  It gives
    every server and every clerk an own end for each server, and switches ends to make
    partitions.  Servers, persisters and clerks are addresses: a server that was shut down
    still exists and can still write to the persister it was started with.  [None] is a panic,
    [t.Fatal] or [log.Fatalf].  Random strings and numbers are arguments. *)

From S2P Require Import Prelude Persister LabRPC TestNet KvRaft.
Local Open Scope Z_scope.

(** ** Shuffling *)

Section Shuffle.
Context {A : Type}.

(** [sa[i], sa[j] = sa[j], sa[i]] *)
Definition swap (i j : nat) (sa : list A) : list A :=
  match sa !! i, sa !! j with
  | Some x, Some y => <[j := x]> (<[i := y]> sa)
  | _, _ => sa
  end.

(** [r i]: the [i]-th random number; [rand.Intn(i + 1)] is at most [i], so the indices are in
    range. *)
Definition random_handles (r : nat -> nat) (kvh : list A) : list A :=
  foldl (fun sa i => swap i (r i `mod` S i) sa) kvh (seq 0 (length kvh)).
End Shuffle.

Section Tester.
Context {Srv byte : Type} `{!Replica Srv byte}.

(** A server in memory and the persister it was started with. *)
Record Instance_ := mkInstance { in_srv : Srv; in_persister : nat }.

(** [instances], [persisters] and [clerkObjects] are the memory [kvservers], [saved] and
    [clerks] point into. *)
Record config := mkConfig {
  net : Net;
  n : nat;
  kvservers : list (option nat);
  saved : list (option nat);
  endnames : list (option (list string));
  clerks : gmap nat (list string);
  nextClientId : Z;
  maxraftstate : Z;
  rpcs0 : Z;
  ops : Z;
  instances : list Instance_;
  persisters : list (Persister byte);
  clerkObjects : list Clerk
}.

Definition set_net x c := mkConfig x (n c) (kvservers c) (saved c) (endnames c) (clerks c) (nextClientId c) (maxraftstate c) (rpcs0 c) (ops c) (instances c) (persisters c) (clerkObjects c).
Definition set_kvservers x c := mkConfig (net c) (n c) x (saved c) (endnames c) (clerks c) (nextClientId c) (maxraftstate c) (rpcs0 c) (ops c) (instances c) (persisters c) (clerkObjects c).
Definition set_endnames x c := mkConfig (net c) (n c) (kvservers c) (saved c) x (clerks c) (nextClientId c) (maxraftstate c) (rpcs0 c) (ops c) (instances c) (persisters c) (clerkObjects c).
Definition set_clerks x c := mkConfig (net c) (n c) (kvservers c) (saved c) (endnames c) x (nextClientId c) (maxraftstate c) (rpcs0 c) (ops c) (instances c) (persisters c) (clerkObjects c).
Definition set_instances x c := mkConfig (net c) (n c) (kvservers c) (saved c) (endnames c) (clerks c) (nextClientId c) (maxraftstate c) (rpcs0 c) (ops c) x (persisters c) (clerkObjects c).
Definition set_persisters x c := mkConfig (net c) (n c) (kvservers c) (saved c) (endnames c) (clerks c) (nextClientId c) (maxraftstate c) (rpcs0 c) (ops c) (instances c) x (clerkObjects c).
(** A new persister with contents [ps], which [saved[i]] now points to. *)
Definition new_saved (i : nat) (ps : Persister byte) c :=
  mkConfig (net c) (n c) (kvservers c) (<[i := Some (length (persisters c))]> (saved c)) (endnames c) (clerks c)
    (nextClientId c) (maxraftstate c) (rpcs0 c) (ops c) (instances c) (persisters c ++ [ps]) (clerkObjects c).
(** A new clerk with its end names. *)
Definition new_clerk (ck : Clerk) (names : list string) c :=
  mkConfig (net c) (n c) (kvservers c) (saved c) (endnames c) (<[length (clerkObjects c) := names]> (clerks c))
    (nextClientId c + 1) (maxraftstate c) (rpcs0 c) (ops c) (instances c) (persisters c) (clerkObjects c ++ [ck]).

(** ** Connections between servers *)

(** [cfg.endnames[i][j]]; [None] is an index out of range, also for a nil slice. *)
Definition endnameOf (c : config) (i j : nat) : option string := names ← mjoin (endnames c !! i); names !! j.
(** [cfg.endnames[j] != nil], with the index out of range for [None]. *)
Definition hasEnds (c : config) (j : nat) : option bool := (fun x => bool_decide (is_Some x)) <$> endnames c !! j.

Definition connectUnlocked (i : nat) (to : list nat) (c : config) : option config :=
  outgoing ← mapM (fun t => endnameOf c i t) to;
  incoming ← mapM (fun t => endnameOf c t i) to;
  Some (set_net (enableAll true incoming (enableAll true outgoing (net c))) c).
Definition connect (i : nat) (to : list nat) (c : config) : option config := connectUnlocked i to c.

(** The ends the two loops switch off.  The first tests the ends of server [i], the second
    tests those of server [j], the loop's counter, and switches the end of server [from[j]]. *)
Definition outgoingEnds (i : nat) (from : list nat) (c : config) : option (list string) :=
  b ← (if bool_decide (from = []) then Some false else hasEnds c i);
  if b : bool then mapM (fun f => endnameOf c i f) from else Some [].
Fixpoint incomingEnds (i j : nat) (from : list nat) (c : config) : option (list string) :=
  match from with
  | [] => Some []
  | f :: from =>
      b ← hasEnds c j;
      if b : bool then e ← endnameOf c f i; es ← incomingEnds i (S j) from c; Some (e :: es)
      else incomingEnds i (S j) from c
  end.
Definition disconnectUnlocked (i : nat) (from : list nat) (c : config) : option config :=
  outgoing ← outgoingEnds i from c;
  incoming ← incomingEnds i 0 from c;
  Some (set_net (enableAll false incoming (enableAll false outgoing (net c))) c).
Definition disconnect (i : nat) (from : list nat) (c : config) : option config := disconnectUnlocked i from c.

Definition All (c : config) : list nat := seq 0 (n c).

Fixpoint connectEach (is_ : list nat) (c : config) : option config :=
  match is_ with
  | [] => Some c
  | i :: is_ => c ← connectUnlocked i (All c) c; connectEach is_ c
  end.
Definition ConnectAll (c : config) : option config := connectEach (seq 0 (n c)) c.

(** One of the two loops of [partition]: the servers [is_] of part [own]. *)
Fixpoint separate (is_ own other : list nat) (c : config) : option config :=
  match is_ with
  | [] => Some c
  | i :: is_ => c ← disconnectUnlocked i other c; c ← connectUnlocked i own c; separate is_ own other c
  end.
Definition partition (p1 p2 : list nat) (c : config) : option config :=
  c ← separate p1 p1 p2 c; separate p2 p2 p1 c.

(** ** Clerks *)

(** [cfg.clerks[ck]]: nil for an unknown clerk. *)
Definition clerkEnds (c : config) (ck : nat) : list string := default [] (clerks c !! ck).

Definition ConnectClientUnlocked (ck : nat) (to : list nat) (c : config) : option config :=
  es ← mapM (fun t => clerkEnds c ck !! t) to; Some (set_net (enableAll true es (net c)) c).
Definition ConnectClient (ck : nat) (to : list nat) (c : config) : option config := ConnectClientUnlocked ck to c.
Definition DisconnectClientUnlocked (ck : nat) (from : list nat) (c : config) : option config :=
  es ← mapM (fun f => clerkEnds c ck !! f) from; Some (set_net (enableAll false es (net c)) c).
Definition DisconnectClient (ck : nat) (from : list nat) (c : config) : option config := DisconnectClientUnlocked ck from c.

(** The new clerk is the next address. *)
Definition makeClient (to : list nat) (names : list string) (r : nat -> nat) (c : config) : option (config * nat) :=
  if negb (bool_decide (length names = n c)) then None
  else
    rn ← makeEnds names 0 (net c);
    let c := set_net rn c in
    let ck := length (clerkObjects c) in
    let c := new_clerk (MakeClerk (random_handles r names)) names c in
    c ← ConnectClientUnlocked ck to c;
    Some (c, ck).

(** [os.Remove] looks for files named like the ends; there are none. *)
Definition deleteClient (ck : nat) (c : config) : config := set_clerks (delete ck (clerks c)) c.

(** ** Servers *)

(** The instance at address [a] goes on: its new state is [srv], and its persister holds what
    it persisted. *)
Definition serverRuns (a : nat) (srv : Srv) (c : config) : config :=
  match instances c !! a with
  | None => c
  | Some inst =>
      set_persisters (<[in_persister inst := r_persister srv]> (persisters c))
        (set_instances (<[a := mkInstance srv (in_persister inst)]> (instances c)) c)
  end.

Definition killServer (a : nat) (c : config) : config :=
  match instances c !! a with
  | None => c
  | Some inst => set_instances (<[a := mkInstance (r_Kill (in_srv inst)) (in_persister inst)]> (instances c)) c
  end.

(** [cfg.saved[i]], when it is not nil, with what it holds. *)
Definition savedAt (c : config) (i : nat) : option (Persister byte) := a ← mjoin (saved c !! i); persisters c !! a.

Definition ShutdownServer (i : nat) (c : config) : option config :=
  c ← disconnectUnlocked i (All c) c;
  let c := set_net (DeleteServer (inr (Z.of_nat i)) (net c)) c in
  let c := match savedAt c i with Some ps => new_saved i (Copy ps) c | None => c end in
  kv ← kvservers c !! i;
  match kv with
  | Some a => Some (set_kvservers (<[i := None]> (kvservers c)) (killServer a c))
  | None => Some c
  end.

(** [names]: the random strings; [t]: the time and the random number of [raft.Make]. *)
Definition StartServer (i : nat) (names : list string) (t : Z * Z) (c : config) : option config :=
  if negb (bool_decide (length names = n c)) || negb (bool_decide (i < length (endnames c))%nat) then None
  else
    let c := set_endnames (<[i := Some names]> (endnames c)) c in
    rn ← makeEnds names 0 (net c);
    let c := set_net rn c in
    let c := new_saved i (match savedAt c i with Some ps => Copy ps | None => MakePersister end) c in
    a ← mjoin (saved c !! i);
    ps ← persisters c !! a;
    let srv := length (instances c) in
    let c := set_instances (instances c ++ [mkInstance (r_start (n c) i ps (maxraftstate c) t) a]) c in
    let c := set_kvservers (<[i := Some srv]> (kvservers c)) c in
    Some (set_net (AddServer (inr (Z.of_nat i)) srv (net c)) c).

(** What a running server answers to [GetState]; [None] is a nil pointer. *)
Definition stateOf (c : config) (i : nat) : option (Z * bool) :=
  a ← mjoin (kvservers c !! i); inst ← instances c !! a; Some (r_GetState (in_srv inst)).

Fixpoint leaderFrom (c : config) (is_ : list nat) : option (bool * nat) :=
  match is_ with
  | [] => Some (false, 0%nat)
  | i :: is_ => '(_, is_leader) ← stateOf c i; if is_leader : bool then Some (true, i) else leaderFrom c is_
  end.
Definition Leader (c : config) : option (bool * nat) := leaderFrom c (seq 0 (n c)).

(** The loop of [make_partition]; [j] counts the servers that were put in a part. *)
Fixpoint fillParts (l : nat) (is_ : list nat) (j : nat) (p1 p2 : list nat) : option (list nat * list nat) :=
  match is_ with
  | [] => Some (p1, p2)
  | i :: is_ =>
      if bool_decide (i <> l) then
        if bool_decide (j < length p1)%nat then fillParts l is_ (S j) (<[j := i]> p1) p2
        else if bool_decide (j - length p1 < length p2)%nat then fillParts l is_ (S j) p1 (<[(j - length p1)%nat := i]> p2)
        else None
      else fillParts l is_ j p1 p2
  end.
(** With the leader [l] that [Leader] found. *)
Definition partsFor (k l : nat) : option (list nat * list nat) :=
  '(p1, p2) ← fillParts l (seq 0 k) 0 (replicate (k / 2 + 1) 0%nat) (replicate (k / 2) 0%nat);
  if bool_decide (length p2 = 0%nat) then None else Some (p1, <[(length p2 - 1)%nat := l]> p2).
Definition make_partition (c : config) : option (list nat * list nat) :=
  '(_, l) ← Leader c; partsFor (n c) l.

(** ** The whole test *)

Definition initial (k : nat) (maxraftstate : Z) : config :=
  mkConfig MakeNetwork k (replicate k None) (replicate k None) (replicate k None) ∅ (Z.of_nat k + 1000) maxraftstate
    0 0 [] [] [].

Fixpoint startAll (i : nat) (names : list (list string)) (t : nat -> Z * Z) (c : config) : option config :=
  match names with
  | [] => Some c
  | ns :: names => c ← StartServer i ns (t i) c; startAll (S i) names t c
  end.
(** [names]: the end names of each of the servers. *)
Definition make_config (k : nat) (unreliable : bool) (maxraftstate : Z) (names : list (list string)) (t : nat -> Z * Z) : option config :=
  if negb (bool_decide (length names = k)) then None
  else
    c ← startAll 0 names t (initial k maxraftstate);
    c ← ConnectAll c;
    Some (set_net (Reliable (negb unreliable) (net c)) c).

(** The largest size over the servers; a nil persister panics. *)
Definition maxSize (size : Persister byte -> Z) (c : config) : option Z :=
  foldl (fun acc i => m ← acc; ps ← savedAt c i; Some (if size ps >? m then size ps else m)) (Some 0) (seq 0 (n c)).
Definition LogSize (c : config) : option Z := maxSize RaftStateSize c.
Definition SnapshotSize (c : config) : option Z := maxSize Persister.SnapshotSize c.

(** [false] is [t.Fatal]; times are nanoseconds. *)
Definition checkTimeout (failed : bool) (elapsed : Z) : bool := negb (negb failed && (elapsed >? 120 * 10 ^ 9)).

Definition cleanup (failed : bool) (elapsed : Z) (c : config) : option config :=
  let c := foldl (fun c kv => match kv with Some a => killServer a c | None => c end) c (kvservers c) in
  rn ← LabRPC.Cleanup (net c);
  if checkTimeout failed elapsed then Some (set_net rn c) else None.

Definition rpcTotal (c : config) : Z := GetTotalCount (net c).
Definition set_stats (r o : Z) c := mkConfig (net c) (n c) (kvservers c) (saved c) (endnames c) (clerks c) (nextClientId c) (maxraftstate c) r o (instances c) (persisters c) (clerkObjects c).
Definition begin (c : config) : config := set_stats (rpcTotal c) 0 c.
Definition op (c : config) : config := set_stats (rpcs0 c) (swrap 32 (ops c + 1)) c.
(** The numbers [end] prints: peers, calls and operations since [begin]. *)
Definition end_ (failed : bool) (elapsed : Z) (c : config) : option (option (nat * Z * Z)) :=
  if checkTimeout failed elapsed
  then Some (if failed then None else Some (n c, rpcTotal c - rpcs0 c, ops c)) else None.
End Tester.
Arguments config : clear implicits.
Arguments Instance_ : clear implicits.
