(* ===== verification/TesterFacts.v ===== *)
(** * TesterFacts: the tester's network as a set of links

    [Links] is the abstract state of the network of the tester: which ends are up, which clerks
    there are, and which names were used.  [absOp] says what an operation of the tester does to
    it.  The lemmas show that the operations of Tester.v do exactly that. *)

From S2P Require Import Prelude Persister LabRPC TestNet KvRaft Tester.
Local Open Scope Z_scope.

(** An end: from a server to a server, or from a clerk to a server. *)
Inductive End := SrvEnd (i j : nat) | ClkEnd (ck j : nat).
Definition target (o : End) : nat := match o with SrvEnd _ j => j | ClkEnd _ j => j end.

Record Links := mkLinks {
  l_up : End -> bool;
  l_clerks : gset nat;
  l_next : nat;
  l_used : gset string
}.
Definition set_up (f : End -> bool) (L : Links) : Links := mkLinks f (l_clerks L) (l_next L) (l_used L).

(** [switch b S up]: the ends of [S] become [b]. *)
Definition switch (b : bool) (S up : End -> bool) : End -> bool := fun o => if S o then b else up o.
Definition touches (i : nat) (js : list nat) (o : End) : bool :=
  match o with
  | SrvEnd a d => bool_decide (a = i /\ d ∈ js) || bool_decide (d = i /\ a ∈ js)
  | ClkEnd _ _ => false
  end.
Definition ofClerk (ck : nat) (js : list nat) (o : End) : bool :=
  match o with SrvEnd _ _ => false | ClkEnd k j => bool_decide (k = ck /\ j ∈ js) end.
Definition within (p q : list nat) (o : End) : bool :=
  match o with SrvEnd a d => bool_decide (a ∈ p /\ d ∈ q) | ClkEnd _ _ => false end.
Definition fromServer (i : nat) (o : End) : bool := match o with SrvEnd a _ => bool_decide (a = i) | _ => false end.

Section Facts.
Context {Srv byte : Type} `{!Replica Srv byte}.
Implicit Types (c : config Srv byte).

(** ** Operations *)

Inductive Op :=
| OConnect (i : nat) (to : list nat)
| ODisconnect (i : nat) (from : list nat)
| OConnectAll
| OPartition (p1 p2 : list nat)
| OMakeClient (to : list nat) (names : list string) (r : nat -> nat)
| ODeleteClient (ck : nat)
| OConnectClient (ck : nat) (to : list nat)
| ODisconnectClient (ck : nat) (from : list nat)
| OShutdown (i : nat)
| OStart (i : nat) (names : list string) (t : Z * Z)
| ORun (a : nat) (srv : Srv).

Definition runOp (op : Op) c : option (config Srv byte) :=
  match op with
  | OConnect i to => connect i to c
  | ODisconnect i from => disconnect i from c
  | OConnectAll => ConnectAll c
  | OPartition p1 p2 => partition p1 p2 c
  | OMakeClient to names r => fst <$> makeClient to names r c
  | ODeleteClient ck => Some (deleteClient ck c)
  | OConnectClient ck to => ConnectClient ck to c
  | ODisconnectClient ck from => DisconnectClient ck from c
  | OShutdown i => ShutdownServer i c
  | OStart i names t => StartServer i names t c
  | ORun a srv => Some (serverRuns a srv c)
  end.
Fixpoint runOps (ops : list Op) c : option (config Srv byte) :=
  match ops with [] => Some c | op :: ops => c ← runOp op c; runOps ops c end.

(** ** The abstract machine *)

Definition below (k : nat) (js : list nat) : Prop := Forall (fun j => (j < k)%nat) js.
Definition fresh (k : nat) (names : list string) (L : Links) : Prop :=
  length names = k /\ NoDup names /\ Forall (fun e => e ∉ l_used L) names.
#[global] Instance below_dec k js : Decision (below k js) := _.
#[global] Instance fresh_dec k names L : Decision (fresh k names L) := _.

Definition guard_ (P : Prop) `{!Decision P} (L : Links) : option Links := if decide P then Some L else None.

(** With [k] servers; [None] when the operation is not one of a sound test. *)
Definition absOp (k : nat) (op : Op) (L : Links) : option Links :=
  match op with
  | OConnect i to => guard_ ((i < k)%nat /\ below k to) (set_up (switch true (touches i to) (l_up L)) L)
  | ODisconnect i from =>
      guard_ ((i < k)%nat /\ below k from /\ (length from <= k)%nat) (set_up (switch false (touches i from) (l_up L)) L)
  | OConnectAll => Some (set_up (switch true (within (seq 0 k) (seq 0 k)) (l_up L)) L)
  | OPartition p1 p2 =>
      guard_ (below k (p1 ++ p2) /\ NoDup (p1 ++ p2))
        (set_up (switch true (fun o => within p1 p1 o || within p2 p2 o)
                  (switch false (fun o => within p1 p2 o || within p2 p1 o) (l_up L))) L)
  | OMakeClient to names r =>
      guard_ (below k to /\ fresh k names L)
        (mkLinks (fun o => match o with ClkEnd ck j => if decide (ck = l_next L) then bool_decide (j ∈ to) else l_up L o
                                      | _ => l_up L o end)
           ({[l_next L]} ∪ l_clerks L) (S (l_next L)) (list_to_set names ∪ l_used L))
  | ODeleteClient ck => Some (mkLinks (l_up L) (l_clerks L ∖ {[ck]}) (l_next L) (l_used L))
  | OConnectClient ck to => guard_ (ck ∈ l_clerks L /\ below k to) (set_up (switch true (ofClerk ck to) (l_up L)) L)
  | ODisconnectClient ck from =>
      guard_ (ck ∈ l_clerks L /\ below k from) (set_up (switch false (ofClerk ck from) (l_up L)) L)
  | OShutdown i => guard_ (i < k)%nat (set_up (switch false (touches i (seq 0 k)) (l_up L)) L)
  | OStart i names t =>
      guard_ ((i < k)%nat /\ fresh k names L)
        (mkLinks (switch false (fromServer i) (l_up L)) (l_clerks L) (l_next L) (list_to_set names ∪ l_used L))
  | ORun a srv => Some L
  end.
Fixpoint absRun (k : nat) (ops : list Op) (L : Links) : option Links :=
  match ops with [] => Some L | op :: ops => L ← absOp k op L; absRun k ops L end.

(** ** The refinement relation *)

Definition endOf c (o : End) : option string :=
  match o with SrvEnd i j => endnameOf c i j | ClkEnd ck j => clerkEnds c ck !! j end.

Record shape c : Prop := {
  sh_len : length (kvservers c) = n c /\ length (saved c) = n c /\ length (endnames c) = n c;
  sh_names i names : endnames c !! i = Some (Some names) -> length names = n c;
  sh_clerks ck names : clerks c !! ck = Some names -> (ck < length (clerkObjects c))%nat /\ length names = n c;
  sh_known o e : endOf c o = Some e -> inl e ∈ ends (net c);
  sh_inj o o' e : endOf c o = Some e -> endOf c o' = Some e -> o = o';
  sh_conn o e : endOf c o = Some e -> connections (net c) !! inl e = Some (Some (inr (Z.of_nat (target o))));
  sh_servers i : (i < n c)%nat -> serverAt (inr (Z.of_nat i)) (net c) = mjoin (kvservers c !! i)
}.
Definition started c : Prop := forall i, (i < n c)%nat -> exists names, endnames c !! i = Some (Some names).

Record refines (L : Links) c : Prop := {
  rf_shape : shape c;
  rf_up o e : endOf c o = Some e -> isEnabled (inl e) (net c) = l_up L o;
  rf_next : l_next L = length (clerkObjects c);
  rf_clerks ck : ck ∈ l_clerks L <-> is_Some (clerks c !! ck);
  rf_used e : e ∈ l_used L <-> inl e ∈ ends (net c)
}.

Lemma shape_frame c c' :
  n c' = n c -> length (kvservers c') = length (kvservers c) -> length (saved c') = length (saved c) ->
  endnames c' = endnames c -> clerks c' = clerks c -> length (clerkObjects c') = length (clerkObjects c) ->
  ends (net c') = ends (net c) -> connections (net c') = connections (net c) ->
  (forall i, (i < n c)%nat -> serverAt (inr (Z.of_nat i)) (net c') = mjoin (kvservers c' !! i)) -> shape c -> shape c'.
Proof.
  intros En Ek Es Ee Ec Eo Eends Econn Hsrv [H1 H2 H3 H4 H5 H6 H7].
  assert (forall o, endOf c' o = endOf c o) as E by (intros [|]; unfold endOf, endnameOf, clerkEnds; by rewrite ?Ee, ?Ec).
  split; rewrite ?En, ?Ek, ?Es, ?Ee, ?Ec, ?Eo, ?Eends, ?Econn; try done; setoid_rewrite E; done.
Qed.

(** Fields that are not about the network. *)
Lemma refines_frame L c c' :
  shape c' -> endnames c' = endnames c -> clerks c' = clerks c -> clerkObjects c' = clerkObjects c ->
  ends (net c') = ends (net c) -> enabled (net c') = enabled (net c) -> refines L c -> refines L c'.
Proof.
  intros Hs Ee Ec Eo Eends Een [H1 H2 H3 H4 H5].
  assert (forall o, endOf c' o = endOf c o) as E by (intros [|]; unfold endOf, endnameOf, clerkEnds; by rewrite ?Ee, ?Ec).
  split; rewrite ?Eo, ?Ec, ?Eends; try done. intros o e Ho. rewrite E in Ho. unfold isEnabled. rewrite Een. by apply H2.
Qed.

Lemma refines_ext L f c : refines L c -> (forall o e, endOf c o = Some e -> f o = l_up L o) -> refines (set_up f L) c.
Proof. intros [H1 H2 H3 H4 H5] Hf. split; try done. intros o e Ho. cbn. rewrite (Hf o e Ho). by apply H2. Qed.

(** Switching the ends of [S]. *)
Lemma refines_switch L c b (S : End -> bool) es :
  refines L c -> (forall e, e ∈ es <-> exists o, S o = true /\ endOf c o = Some e) ->
  refines (set_up (switch b S (l_up L)) L) (set_net (enableAll b es (net c)) c).
Proof.
  intros HR Hes. pose proof (rf_shape _ _ HR) as Hs.
  destruct (enableAll_frame b es (net c)) as (E1 & E2 & E3 & _).
  split; cbn; rewrite ?E1; try apply HR.
  - apply (shape_frame c); try done. intros i Hi. cbn. unfold serverAt. rewrite E3. by apply (sh_servers _ Hs).
  - intros o e Ho. change (endOf c o = Some e) in Ho. rewrite isEnabled_enableAll. unfold switch.
    rewrite (rf_up _ _ HR o e Ho). destruct (S o) eqn:So.
    + rewrite decide_True; [done|]. apply Hes. eauto.
    + rewrite decide_False; [done|]. intros (o' & So' & Ho')%Hes.
      rewrite (sh_inj _ Hs o o' e Ho Ho') in So. congruence.
Qed.

(** ** Connecting and disconnecting *)

Lemma endnameOf_bounds c i j e : shape c -> endnameOf c i j = Some e -> (i < n c)%nat /\ (j < n c)%nat.
Proof.
  intros Hs (names & Hn & Hj)%bind_Some. destruct (endnames c !! i) as [[ns|]|] eqn:E; cbn in Hn; simplify_eq.
  apply lookup_lt_Some in Hj. rewrite (sh_names _ Hs i names E) in Hj. apply lookup_lt_Some in E.
  destruct (sh_len _ Hs) as (_ & _ & Hl). lia.
Qed.

Lemma endnameOf_there c i j : shape c -> started c -> (i < n c)%nat -> (j < n c)%nat -> is_Some (endnameOf c i j).
Proof.
  intros Hs Hst Hi Hj. destruct (Hst i Hi) as [names Hn]. unfold endnameOf. rewrite Hn. cbn.
  apply lookup_lt_is_Some_2. by rewrite (sh_names _ Hs i names Hn).
Qed.

Lemma mapM_there {A B} (f : A -> option B) l : Forall (fun x => is_Some (f x)) l -> exists k, mapM f l = Some k.
Proof. intros Hl. apply mapM_is_Some_2 in Hl as [k Hk]. eauto. Qed.

Lemma touched c i js out inc :
  mapM (fun t => endnameOf c i t) js = Some out -> mapM (fun t => endnameOf c t i) js = Some inc ->
  forall e, e ∈ out ++ inc <-> exists o, touches i js o = true /\ endOf c o = Some e.
Proof.
  intros Ho Hi e. rewrite elem_of_app, (mapM_elem _ _ _ e Ho), (mapM_elem _ _ _ e Hi). split.
  - intros [(j & Hj & He)|(j & Hj & He)]; [exists (SrvEnd i j)|exists (SrvEnd j i)]; (split; [|done]); cbn.
    + by rewrite bool_decide_eq_true_2.
    + by rewrite orb_true_iff, !bool_decide_eq_true; right.
  - intros ([a d|] & Ht & He); [|done]. cbn in Ht, He. apply orb_true_iff in Ht.
    rewrite !bool_decide_eq_true in Ht. destruct Ht as [[-> Hd]|[-> Ha]]; [left|right]; eauto.
Qed.

Section Links.
Context (L : Links) (c : config Srv byte) (HR : refines L c) (Hst : started c).

Lemma ends_there i js : (i < n c)%nat -> below (n c) js ->
  exists out inc, mapM (fun t => endnameOf c i t) js = Some out /\ mapM (fun t => endnameOf c t i) js = Some inc.
Proof.
  intros Hi Hjs. destruct (mapM_there (fun t => endnameOf c i t) js) as [out Hout].
  { eapply Forall_impl; [exact Hjs|]. intros j Hj. apply endnameOf_there; [apply HR|done..]. }
  destruct (mapM_there (fun t => endnameOf c t i) js) as [inc Hinc]; [|eauto].
  eapply Forall_impl; [exact Hjs|]. intros j Hj. apply endnameOf_there; [apply HR|done..].
Qed.

Lemma connect_refines i to : (i < n c)%nat -> below (n c) to ->
  exists rn, connectUnlocked i to c = Some (set_net rn c) /\
    refines (set_up (switch true (touches i to) (l_up L)) L) (set_net rn c).
Proof.
  intros Hi Hto. destruct (ends_there i to Hi Hto) as (out & inc & Ho & Hin). unfold connectUnlocked. rewrite Ho. cbn. rewrite Hin. cbn.
  eexists. split; [done|]. rewrite <- enableAll_app. apply refines_switch; [done|]. by apply touched.
Qed.

(** While every server has ends, the tests of [disconnectUnlocked] hold. *)
Lemma incomingEnds_all i j from : (j + length from <= n c)%nat -> incomingEnds i j from c = mapM (fun f => endnameOf c f i) from.
Proof.
  revert j. induction from as [|f from IH]; intros j Hj; [done|]. cbn in *. destruct (Hst j) as [names Hn]; [lia|].
  unfold hasEnds. rewrite Hn. cbn. rewrite IH by lia. done.
Qed.

Lemma disconnect_refines i from : (i < n c)%nat -> below (n c) from -> (length from <= n c)%nat ->
  exists rn, disconnectUnlocked i from c = Some (set_net rn c) /\
    refines (set_up (switch false (touches i from) (l_up L)) L) (set_net rn c).
Proof.
  intros Hi Hf Hlen. destruct (ends_there i from Hi Hf) as (out & inc & Ho & Hin). unfold disconnectUnlocked.
  rewrite incomingEnds_all by done. assert (outgoingEnds i from c = Some out) as ->.
  { unfold outgoingEnds. case_bool_decide as E; cbn; [subst; by injection Ho as <-|].
    destruct (Hst i Hi) as [names Hn]. unfold hasEnds. rewrite Hn. cbn. done. }
  cbn. rewrite Hin. cbn. eexists. split; [done|]. rewrite <- enableAll_app. apply refines_switch; [done|]. by apply touched.
Qed.

Lemma clerk_refines b ck js : ck ∈ l_clerks L -> below (n c) js ->
  exists es, mapM (fun t => clerkEnds c ck !! t) js = Some es /\
    refines (set_up (switch b (ofClerk ck js) (l_up L)) L) (set_net (enableAll b es (net c)) c).
Proof.
  intros [names Hn]%(rf_clerks _ _ HR) Hjs. destruct (mapM_there (fun t => clerkEnds c ck !! t) js) as [es Hes].
  { eapply Forall_impl; [exact Hjs|]. intros j Hj. unfold clerkEnds. rewrite Hn. cbn. apply lookup_lt_is_Some_2.
    destruct (sh_clerks _ (rf_shape _ _ HR) ck names Hn) as [_ ->]. done. }
  exists es. split; [done|]. apply refines_switch; [done|]. intros e. rewrite (mapM_elem _ _ _ e Hes). split.
  - intros (j & Hj & He). exists (ClkEnd ck j). cbn. by rewrite bool_decide_eq_true_2.
  - intros ([|k j] & Ht & He); [done|]. cbn in Ht, He. apply bool_decide_eq_true in Ht as [-> Hj]. eauto.
Qed.
End Links.

(** ** Loops *)

Lemma set_net_net rn rn' c : set_net rn' (set_net rn c) = set_net rn' c.
Proof. done. Qed.

Lemma connectEach_refines is_ L c : refines L c -> started c -> below (n c) is_ ->
  exists rn, connectEach is_ c = Some (set_net rn c) /\
    refines (set_up (switch true (fun o => existsb (fun i => touches i (seq 0 (n c)) o) is_) (l_up L)) L) (set_net rn c).
Proof.
  revert L c. induction is_ as [|i is_ IH]; intros L c HR Hst Hb.
  - exists (net c). destruct c. split; [done|]. by apply refines_ext.
  - apply Forall_cons in Hb as [Hi Hb]. cbn [connectEach].
    destruct (connect_refines L c HR Hst i (All c) Hi) as (rn & Hc & HR1); [apply Forall_seq; lia|]. rewrite Hc. cbn [mbind option_bind].
    destruct (IH _ _ HR1 Hst Hb) as (rn' & -> & HR2). exists rn'. split; [done|].
    eapply (refines_ext _ _ _ HR2). intros o e Ho. cbn. unfold switch, All. cbn. by destruct (existsb _ _), (touches _ _ _).
Qed.

Definition disjoint_parts (p q : list nat) : Prop := forall i, i ∈ p -> i ∈ q -> False.

Lemma touches_within i own o : i ∈ own -> touches i own o = true -> within own own o = true.
Proof.
  intros Hi. destruct o as [a d|]; [|done]. cbn. rewrite orb_true_iff, !bool_decide_eq_true. naive_solver.
Qed.
Lemma touches_across i own other o :
  i ∈ own -> disjoint_parts own other -> touches i other o = true -> within own own o = false.
Proof.
  intros Hi Hd. destruct o as [a d|]; [|done]. cbn. rewrite orb_true_iff, !bool_decide_eq_true, bool_decide_eq_false.
  intros [[-> Hx]|[-> Hx]] [Ha Hb]; [exact (Hd d Hb Hx)|exact (Hd a Ha Hx)].
Qed.

Lemma separate_refines is_ own other L c :
  refines L c -> started c -> below (n c) own -> below (n c) other -> (length other <= n c)%nat ->
  disjoint_parts own other -> (forall i, i ∈ is_ -> i ∈ own) ->
  exists rn, separate is_ own other c = Some (set_net rn c) /\
    refines (set_up (switch true (fun o => existsb (fun i => touches i own o) is_)
                      (switch false (fun o => existsb (fun i => touches i other o) is_) (l_up L))) L) (set_net rn c).
Proof.
  revert L c. induction is_ as [|i is_ IH]; intros L c HR Hst Ho1 Ho2 Hlen Hd Hin.
  - exists (net c). destruct c. split; [done|]. by apply refines_ext.
  - assert (i ∈ own) as Hi by (apply Hin; by left).
    assert ((i < n c)%nat) as Hlt by (unfold below in Ho1; rewrite Forall_forall in Ho1; by apply Ho1).
    cbn [separate]. destruct (disconnect_refines L c HR Hst i other Hlt Ho2 Hlen) as (rn & -> & HR1). cbn [mbind option_bind].
    destruct (connect_refines _ _ HR1 Hst i own Hlt Ho1) as (rn1 & Hc & HR2). rewrite Hc. cbn [mbind option_bind].
    rewrite set_net_net in HR2 |- *.
    destruct (IH _ _ HR2 Hst Ho1 Ho2 Hlen Hd) as (rn2 & -> & HR3); [intros j Hj; apply Hin; by right|].
    exists rn2. split; [done|]. eapply (refines_ext _ _ _ HR3). intros o e _. cbn. unfold switch.
    destruct (existsb (fun i0 => touches i0 own o) is_) eqn:E1; [by rewrite orb_true_r|rewrite orb_false_r].
    destruct (existsb (fun i0 => touches i0 other o) is_) eqn:E2; [rewrite orb_true_r|rewrite orb_false_r; done].
    destruct (touches i own o) eqn:E3; [|done]. exfalso.
    apply existsb_exists in E2 as (j & Hj%list_elem_of_In & Ht). apply touches_within in E3; [|done].
    rewrite (touches_across j own other o) in E3; [done|apply Hin; by right|done..].
Qed.

Lemma existsb_touches p q o : existsb (fun i => touches i q o) p = within p q o || within q p o.
Proof.
  apply eq_bool_prop_intro. rewrite !Is_true_true, existsb_exists, orb_true_iff. setoid_rewrite <- list_elem_of_In.
  destruct o as [a d|]; cbn; [|naive_solver]. setoid_rewrite orb_true_iff. setoid_rewrite bool_decide_eq_true. naive_solver.
Qed.

Lemma partition_refines p1 p2 L c :
  refines L c -> started c -> below (n c) (p1 ++ p2) -> NoDup (p1 ++ p2) ->
  exists rn, partition p1 p2 c = Some (set_net rn c) /\
    refines (set_up (switch true (fun o => within p1 p1 o || within p2 p2 o)
               (switch false (fun o => within p1 p2 o || within p2 p1 o) (l_up L))) L) (set_net rn c).
Proof.
  intros HR Hst [Hb1 Hb2]%Forall_app (Hn1 & Hd & Hn2)%NoDup_app.
  assert (forall p, below (n c) p -> NoDup p -> (length p <= n c)%nat) as Hlen.
  { intros p Hb Hn. rewrite <- (length_seq (n c) 0). apply submseteq_length, NoDup_submseteq; [done|].
    intros x Hx. unfold below in Hb. rewrite Forall_forall in Hb. apply elem_of_seq. specialize (Hb x Hx). lia. }
  unfold partition. destruct (separate_refines p1 p1 p2 L c HR Hst Hb1 Hb2 (Hlen _ Hb2 Hn2)) as (rn & -> & HR1);
    [intros i Hi Hi'; by apply (Hd i)|done|]. cbn [mbind option_bind].
  destruct (separate_refines p2 p2 p1 _ _ HR1 Hst Hb2 Hb1 (Hlen _ Hb1 Hn1)) as (rn1 & -> & HR2);
    [intros i Hi Hi'; by apply (Hd i)|done|]. exists rn1. split; [done|].
  eapply (refines_ext _ _ _ HR2). intros o e _. cbn. unfold switch. rewrite !existsb_touches.
  destruct o as [a d|]; [|done]. cbn. repeat case_bool_decide; cbn; try done; exfalso; naive_solver.
Qed.

(** ** New ends *)

(** The ends of [N] are new and have [names]; the others are what they were. *)
Section NewEnds.
Context (L : Links) (c c' : config Srv byte) (N : End -> bool) (names : list string) (rn : Net).
Context (HR : refines L c) (Hmake : makeEnds names 0 (net c) = Some rn).
Context (Hends : ends (net c') = ends rn) (Hconn : connections (net c') = connections rn)
  (Henab : enabled (net c') = enabled rn).
Context (Hof : forall o e, endOf c' o = Some e -> if N o then names !! target o = Some e else endOf c o = Some e).
Context (HN : forall o o', N o = true -> N o' = true -> target o = target o' -> o = o').

Lemma new_known o e : endOf c' o = Some e -> inl e ∈ ends (net c').
Proof using Type*.
  intros Ho%Hof. destruct (makeEnds_spec _ _ _ _ Hmake) as (_ & _ & Hin & _). rewrite Hends, Hin. destruct (N o).
  - right. exists e. split; [done|]. by eapply list_elem_of_lookup_2.
  - left. by eapply sh_known; [apply HR|].
Qed.

Lemma new_old_disjoint o e : endOf c o = Some e -> e ∉ names.
Proof using HR Hmake.
  intros Ho Hin. destruct (makeEnds_spec _ _ _ _ Hmake) as (_ & Hfr & _). apply (Hfr e Hin).
  by eapply sh_known; [apply HR|].
Qed.

Lemma new_inj o o' e : endOf c' o = Some e -> endOf c' o' = Some e -> o = o'.
Proof using Type*.
  intros Ho%Hof Ho'%Hof. destruct (makeEnds_spec _ _ _ _ Hmake) as (Hnd & _).
  destruct (N o) eqn:E, (N o') eqn:E'.
  - apply HN; [done..|]. by eapply NoDup_lookup.
  - apply new_old_disjoint in Ho'. destruct Ho'. by eapply list_elem_of_lookup_2.
  - apply new_old_disjoint in Ho. destruct Ho. by eapply list_elem_of_lookup_2.
  - by eapply (sh_inj _ (rf_shape _ _ HR)).
Qed.

Lemma new_conn o e : endOf c' o = Some e -> connections (net c') !! inl e = Some (Some (inr (Z.of_nat (target o)))).
Proof using Type*.
  intros Ho%Hof. destruct (makeEnds_frame _ _ _ _ Hmake) as (_ & _ & _ & Hc1 & Hc2). rewrite Hconn. destruct (N o).
  - rewrite (Hc1 _ _ Ho). done.
  - rewrite Hc2 by (by eapply new_old_disjoint). by apply (sh_conn _ (rf_shape _ _ HR)).
Qed.

Lemma new_up o e : endOf c' o = Some e -> isEnabled (inl e) (net c') = if N o then false else l_up L o.
Proof using Type*.
  intros Ho%Hof. destruct (makeEnds_spec _ _ _ _ Hmake) as (_ & _ & _ & He).
  assert (isEnabled (inl e) (net c') = isEnabled (inl e) rn) as -> by (unfold isEnabled; by rewrite Henab).
  rewrite He. destruct (N o).
  - by rewrite decide_True by (by eapply list_elem_of_lookup_2).
  - rewrite decide_False by (by eapply new_old_disjoint). by apply (rf_up _ _ HR).
Qed.

Lemma new_used e : e ∈ list_to_set (C := gset string) names ∪ l_used L <-> inl e ∈ ends (net c').
Proof using Type*.
  destruct (makeEnds_spec _ _ _ _ Hmake) as (_ & _ & Hin & _). rewrite Hends, Hin, elem_of_union, elem_of_list_to_set, (rf_used _ _ HR).
  naive_solver.
Qed.
End NewEnds.

Lemma fresh_makeEnds L c names : refines L c -> fresh (n c) names L -> exists rn, makeEnds names 0 (net c) = Some rn.
Proof.
  intros HR (_ & Hnd & Hf). apply makeEnds_succeeds; [done|]. intros e He Hin. rewrite Forall_forall in Hf.
  apply (Hf e He). by apply (rf_used _ _ HR).
Qed.

Lemma makeClient_refines to names r L c :
  refines L c -> started c -> below (n c) to -> fresh (n c) names L ->
  exists c', fst <$> makeClient to names r c = Some c' /\ n c' = n c /\ started c' /\
    refines (mkLinks (fun o => match o with ClkEnd ck j => if decide (ck = l_next L) then bool_decide (j ∈ to) else l_up L o
                                          | _ => l_up L o end)
               ({[l_next L]} ∪ l_clerks L) (S (l_next L)) (list_to_set names ∪ l_used L)) c'.
Proof.
  intros HR Hst Hto Hf. destruct (fresh_makeEnds _ _ _ HR Hf) as [rn Hm]. pose proof (rf_shape _ _ HR) as Hs.
  unfold makeClient. rewrite bool_decide_eq_true_2 by apply Hf. cbn [negb]. rewrite Hm. cbn [mbind option_bind].
  set (ck := length (clerkObjects c)). set (c1 := new_clerk _ names (set_net rn c)).
  set (N := fun o => match o with ClkEnd k _ => bool_decide (k = ck) | SrvEnd _ _ => false end).
  assert (Hof : forall o e, endOf c1 o = Some e -> if N o then names !! target o = Some e else endOf c o = Some e).
  { intros [a d|k j] e; [done|]. cbn. unfold clerkEnds. cbn. case_bool_decide as E; [subst k; by rewrite lookup_insert_eq|].
    by rewrite lookup_insert_ne. }
  assert (HN : forall o o', N o = true -> N o' = true -> target o = target o' -> o = o').
  { intros [|k j] [|k' j']; cbn; try done. rewrite !bool_decide_eq_true. congruence. }
  destruct (makeEnds_frame _ _ _ _ Hm) as (Esrv & _).
  set (L1 := mkLinks (fun o => if N o then false else l_up L o) ({[l_next L]} ∪ l_clerks L) (S (l_next L)) (list_to_set names ∪ l_used L)).
  assert (refines L1 c1) as HR1.
  { split.
    - split; [apply Hs|apply Hs|..].
      + intros k ns. cbn. rewrite length_app. cbn. intros [[<- <-]|[_ Hk]]%lookup_insert_Some; [split; [lia|apply Hf]|].
        destruct (sh_clerks _ Hs k ns Hk). split; [lia|done].
      + by apply (new_known L c c1 N names rn).
      + by apply (new_inj L c c1 N names rn).
      + by apply (new_conn L c c1 N names rn).
      + intros i Hi. cbn. unfold serverAt. rewrite Esrv. by apply (sh_servers _ Hs).
    - by apply (new_up L c c1 N names rn).
    - cbn. rewrite length_app, (rf_next _ _ HR). cbn. lia.
    - intros k. cbn. rewrite elem_of_union, elem_of_singleton, (rf_clerks _ _ HR), (rf_next _ _ HR).
      destruct (decide (k = ck)) as [->|Hne]; [rewrite lookup_insert_eq; naive_solver|]. rewrite lookup_insert_ne by done. naive_solver.
    - by apply (new_used L c c1 N names rn). }
  destruct (clerk_refines _ _ HR1 true ck to) as (es & Hes & HR2); [|exact Hto|].
  { cbn. rewrite (rf_next _ _ HR). set_solver. }
  change (length (clerkObjects (set_net rn c))) with ck. unfold ConnectClientUnlocked. rewrite Hes. cbn.
  eexists. split; [done|]. split_and!; [done|done|].
  eapply (refines_ext _ _ _ HR2). intros [a d|k j] e _; [done|]. cbn. unfold switch. cbn. rewrite (rf_next _ _ HR).
  repeat case_bool_decide; repeat case_decide; naive_solver.
Qed.

Lemma deleteClient_refines ck L c : refines L c ->
  refines (mkLinks (l_up L) (l_clerks L ∖ {[ck]}) (l_next L) (l_used L)) (deleteClient ck c).
Proof.
  intros HR. pose proof (rf_shape _ _ HR) as Hs.
  assert (Hof : forall o e, endOf (deleteClient ck c) o = Some e -> endOf c o = Some e).
  { intros [a d|k j] e; [done|]. cbn. unfold clerkEnds. cbn. destruct (decide (k = ck)) as [->|]; [by rewrite lookup_delete_eq|].
    by rewrite lookup_delete_ne. }
  split.
  - split; try apply Hs.
    + intros k ns. cbn. intros [_ Hk]%lookup_delete_Some. by apply (sh_clerks _ Hs).
    + intros o e Ho%Hof. by apply (sh_known _ Hs o).
    + intros o o' e Ho%Hof Ho'%Hof. by apply (sh_inj _ Hs o o' e).
    + intros o e Ho%Hof. by apply (sh_conn _ Hs o).
  - intros o e Ho%Hof. by apply (rf_up _ _ HR).
  - apply HR.
  - intros k. cbn. rewrite elem_of_difference, elem_of_singleton, (rf_clerks _ _ HR). destruct (decide (k = ck)) as [->|Hne].
    + rewrite lookup_delete_eq. unfold is_Some. naive_solver.
    + rewrite lookup_delete_ne by done. naive_solver.
  - apply HR.
Qed.

(** ** Servers *)

Lemma inr_nat_inj (i j : nat) : @inr string Z (Z.of_nat i) = inr (Z.of_nat j) -> i = j.
Proof. intros [= ?]. lia. Qed.

Lemma StartServer_refines i names t L c :
  refines L c -> (i < n c)%nat -> fresh (n c) names L ->
  exists c', StartServer i names t c = Some c' /\ n c' = n c /\ endnames c' = <[i := Some names]> (endnames c) /\
    refines (mkLinks (switch false (fromServer i) (l_up L)) (l_clerks L) (l_next L) (list_to_set names ∪ l_used L)) c'.
Proof.
  intros HR Hi Hf. destruct (fresh_makeEnds _ _ _ HR Hf) as [rn Hm]. pose proof (rf_shape _ _ HR) as Hs.
  destruct (sh_len _ Hs) as (Hl1 & Hl2 & Hl3). unfold StartServer.
  rewrite bool_decide_eq_true_2, bool_decide_eq_true_2 by (apply Hf || lia). cbn [negb orb].
  change (net (set_endnames _ c)) with (net c). rewrite Hm. cbn [mbind option_bind].
  cbn [new_saved saved set_net set_endnames persisters]. rewrite list_lookup_insert_eq by lia. cbn [mjoin option_join mbind option_bind].
  rewrite list_lookup_middle by done. cbn [mbind option_bind]. set (c' := set_net _ _).
  exists c'. split_and!; [done..|].
  set (N := fromServer i).
  assert (Hof : forall o e, endOf c' o = Some e -> if N o then names !! target o = Some e else endOf c o = Some e).
  { intros [a d|k j] e; [|done]. cbn. unfold endnameOf. cbn. case_bool_decide as E; [subst a; by rewrite list_lookup_insert_eq by lia|].
    by rewrite list_lookup_insert_ne. }
  assert (HN : forall o o', N o = true -> N o' = true -> target o = target o' -> o = o').
  { intros [a d|] [a' d'|]; cbn; try done. rewrite !bool_decide_eq_true. congruence. }
  destruct (makeEnds_frame _ _ _ _ Hm) as (Esrv & _).
  split.
  - split; cbn.
    + by rewrite !length_insert.
    + intros a ns [(-> & [= <-] & _)|[_ Ha]]%list_lookup_insert_Some; [apply Hf|by apply (sh_names _ Hs a)].
    + apply Hs.
    + by apply (new_known L c c' N names rn).
    + by apply (new_inj L c c' N names rn).
    + by apply (new_conn L c c' N names rn).
    + intros a Ha. unfold serverAt, AddServer. cbn. destruct (decide (i = a)) as [->|Hne].
      * by rewrite lookup_insert_eq, list_lookup_insert_eq by lia.
      * rewrite lookup_insert_ne by (intros ?%inr_nat_inj; done). rewrite list_lookup_insert_ne by done.
        rewrite Esrv. by apply (sh_servers _ Hs).
  - intros o e Ho. by rewrite (new_up L c c' N names rn HR Hm eq_refl eq_refl eq_refl Hof HN o e Ho).
  - apply HR.
  - apply HR.
  - by apply (new_used L c c' N names rn).
Qed.

(** Killing a server and copying its persister are not about the network. *)
Lemma killServer_net a c : net (killServer a c) = net c /\ n (killServer a c) = n c /\ endnames (killServer a c) = endnames c /\
  clerks (killServer a c) = clerks c /\ clerkObjects (killServer a c) = clerkObjects c /\
  kvservers (killServer a c) = kvservers c /\ saved (killServer a c) = saved c.
Proof. unfold killServer. by destruct (instances c !! a). Qed.

Lemma refines_deleted i L c c' :
  refines L c -> (i < n c)%nat -> n c' = n c -> endnames c' = endnames c -> clerks c' = clerks c -> clerkObjects c' = clerkObjects c ->
  net c' = DeleteServer (inr (Z.of_nat i)) (net c) -> kvservers c' = <[i := None]> (kvservers c) ->
  length (saved c') = length (saved c) -> refines L c'.
Proof.
  intros HR Hi En Ee Ec Eo Enet Ek Es. pose proof (rf_shape _ _ HR) as Hs.
  apply (refines_frame L c); rewrite ?Enet; try done.
  apply (shape_frame c); rewrite ?Enet, ?Ek, ?Eo; try done; [by rewrite length_insert|].
  intros a Ha. unfold serverAt, DeleteServer. cbn. destruct (sh_len _ Hs) as (Hl1 & _). destruct (decide (i = a)) as [->|Hne].
  - by rewrite lookup_insert_eq, list_lookup_insert_eq by lia.
  - rewrite lookup_insert_ne by (intros ?%inr_nat_inj; done). rewrite list_lookup_insert_ne by done. by apply (sh_servers _ Hs).
Qed.

Lemma ShutdownServer_refines i L c : refines L c -> started c -> (i < n c)%nat ->
  exists c', ShutdownServer i c = Some c' /\ n c' = n c /\ started c' /\
    refines (set_up (switch false (touches i (seq 0 (n c))) (l_up L)) L) c'.
Proof.
  intros HR Hst Hi. unfold ShutdownServer.
  destruct (disconnect_refines L c HR Hst i (All c) Hi) as (rn & -> & HR1); [apply Forall_seq; lia|unfold All; by rewrite length_seq|].
  cbn [mbind option_bind]. set (c1 := set_net rn c) in *. set (c2 := set_net _ c1).
  set (c3 := match savedAt c2 i with Some ps => new_saved i (Copy ps) c2 | None => c2 end).
  assert (net c3 = net c2 /\ n c3 = n c /\ endnames c3 = endnames c /\ clerks c3 = clerks c /\ clerkObjects c3 = clerkObjects c /\
          kvservers c3 = kvservers c /\ length (saved c3) = length (saved c)) as (E1 & E2 & E3 & E4 & E5 & E6 & E7).
  { unfold c3. destruct (savedAt c2 i); cbn; rewrite ?length_insert; by split_and!. }
  destruct (sh_len _ (rf_shape _ _ HR)) as (Hl1 & _).
  destruct (lookup_lt_is_Some_2 (kvservers c3) i) as [kv Hkv]; [rewrite E6; lia|]. rewrite Hkv. cbn [mbind option_bind].
  assert (forall c4, net c4 = net c2 -> n c4 = n c -> endnames c4 = endnames c -> clerks c4 = clerks c -> clerkObjects c4 = clerkObjects c ->
    kvservers c4 = <[i := None]> (kvservers c) -> length (saved c4) = length (saved c) ->
    n c4 = n c /\ started c4 /\ refines (set_up (switch false (touches i (seq 0 (n c))) (l_up L)) L) c4) as Hfin.
  { intros c4 F1 F2 F3 F4 F5 F6 F7. split_and!; [done|unfold started; by rewrite F2, F3|]. by apply (refines_deleted i _ c1). }
  destruct kv as [a|].
  - eexists. split; [done|]. destruct (killServer_net a c3) as (K1 & K2 & K3 & K4 & K5 & K6 & K7).
    apply Hfin; cbn; rewrite ?K1, ?K2, ?K3, ?K4, ?K5, ?K7; try done. by rewrite E6.
  - eexists. split; [done|]. apply Hfin; try done. rewrite E6. symmetry. apply list_insert_id. by rewrite <- E6.
Qed.

Lemma serverRuns_refines a srv L c : refines L c -> refines L (serverRuns a srv c) /\ n (serverRuns a srv c) = n c /\
  endnames (serverRuns a srv c) = endnames c.
Proof.
  intros HR. unfold serverRuns. destruct (instances c !! a); [|done]. split_and!; [|done..].
  apply (refines_frame L c); try done. apply (shape_frame c); try done; [apply HR|apply HR].
Qed.

(** ** Every operation *)

Lemma op_simulated k op L L' c :
  refines L c -> started c -> n c = k -> absOp k op L = Some L' ->
  exists c', runOp op c = Some c' /\ refines L' c' /\ started c' /\ n c' = k.
Proof.
  intros HR Hst <- Ha. destruct op as [i to|i from| |p1 p2|to names r|ck|ck to|ck from|i|i names t|a srv]; cbn in Ha |- *;
    unfold guard_ in Ha; repeat case_decide; try done; destruct_and?; injection Ha as <-.
  - destruct (connect_refines L c HR Hst i to) as (rn & Hc & H'); [done..|]. eexists. by split_and!.
  - destruct (disconnect_refines L c HR Hst i from) as (rn & Hc & H'); [done..|]. eexists. by split_and!.
  - destruct (connectEach_refines (seq 0 (n c)) L c HR Hst) as (rn & Hc & H'); [apply Forall_seq; lia|].
    eexists. split_and!; [exact Hc| |done..]. eapply (refines_ext _ _ _ H'). intros o e _. cbn. unfold switch. rewrite existsb_touches.
    by destruct (within _ _ _).
  - destruct (partition_refines p1 p2 L c HR Hst) as (rn & Hc & H'); [done..|]. eexists. by split_and!.
  - destruct (makeClient_refines to names r L c HR Hst) as (c' & ? & ? & ? & ?); [done..|]. eexists. by split_and!.
  - eexists. split_and!; [done|by apply deleteClient_refines|done..].
  - destruct (clerk_refines L c HR true ck to) as (es & Hes & H'); [done..|]. eexists. split_and!; [|exact H'|done..].
    unfold ConnectClient, ConnectClientUnlocked. by rewrite Hes.
  - destruct (clerk_refines L c HR false ck from) as (es & Hes & H'); [done..|]. eexists. split_and!; [|exact H'|done..].
    unfold DisconnectClient, DisconnectClientUnlocked. by rewrite Hes.
  - destruct (ShutdownServer_refines i L c HR Hst) as (c' & ? & ? & ? & ?); [done..|]. eexists. by split_and!.
  - destruct (StartServer_refines i names t L c HR) as (c' & Hc & Hn & He & H'); [done..|]. eexists. split_and!; [done|done| |done].
    intros a Ha. rewrite Hn in Ha. rewrite He. destruct (decide (i = a)) as [->|Hne].
    + destruct (sh_len _ (rf_shape _ _ HR)) as (_ & _ & Hl). rewrite list_lookup_insert_eq by lia. eauto.
    + rewrite list_lookup_insert_ne by done. by apply Hst.
  - destruct (serverRuns_refines a srv L c HR) as (? & Hn & He). eexists. split_and!; [done|done| |done].
    unfold started. by rewrite Hn, He.
Qed.

Lemma ops_simulated k ops L L' c :
  refines L c -> started c -> n c = k -> absRun k ops L = Some L' ->
  exists c', runOps ops c = Some c' /\ refines L' c' /\ started c' /\ n c' = k.
Proof.
  revert L c. induction ops as [|op ops IH]; intros L c HR Hst Hn Ha.
  - injection Ha as <-. cbn. eauto.
  - cbn in Ha |- *. apply bind_Some in Ha as (L1 & H1 & H2).
    destruct (op_simulated k op L L1 c HR Hst Hn H1) as (c1 & Hc1 & HR1 & Hst1 & Hn1). rewrite Hc1. cbn. by apply (IH L1 c1).
Qed.
End Facts.
