(* ===== verification/TesterProps.v ===== *)
(** * TesterProps: what the tester's operations do

    Partitions are what they are meant to be, over every sequence of operations; the parts
    that [make_partition] computes; a restarted server gets what the old one persisted. *)

From S2P Require Import Prelude Persister Raft LabRPC TestNet KvRaft Tester TesterFacts.
Local Open Scope Z_scope.

(** ** Shuffling *)

Lemma insert_middle {A} (pre suf : list A) (y x : A) : <[length pre := x]> (pre ++ y :: suf) = pre ++ x :: suf.
Proof. induction pre; [done|]. cbn. by f_equal. Qed.

Lemma swap_perm {A} (i j : nat) (sa : list A) : swap i j sa ≡ₚ sa.
Proof.
  unfold swap. destruct (sa !! i) as [x|] eqn:Hi; [|done]. destruct (sa !! j) as [y|] eqn:Hj; [|done].
  destruct (decide (i = j)) as [<-|Hne].
  { simplify_eq. by rewrite !(list_insert_id sa i x). }
  assert (forall (a b : nat) (u v : A), (a < b)%nat -> sa !! a = Some u -> sa !! b = Some v -> <[b := u]> (<[a := v]> sa) ≡ₚ sa) as Hlt.
  { intros a b u v Hab Ha Hb. destruct (list_elem_of_split_length sa a u Ha) as (l1 & l2 & E & El).
    rewrite E in Hb. rewrite lookup_app_r in Hb by lia. replace (b - length l1)%nat with (S (b - S a)) in Hb by lia. cbn in Hb.
    destruct (list_elem_of_split_length l2 _ v Hb) as (l3 & l4 & -> & El3). rewrite E, El, insert_middle.
    replace (l1 ++ v :: l3 ++ v :: l4) with ((l1 ++ v :: l3) ++ v :: l4) by (by rewrite <- app_assoc).
    replace b with (length (l1 ++ v :: l3)) by (rewrite length_app; cbn; lia). rewrite insert_middle, <- app_assoc. cbn.
    apply Permutation_app_head. rewrite <- !Permutation_middle. apply Permutation_swap. }
  destruct (decide (i < j)%nat).
  - by apply (Hlt i j x y).
  - rewrite list_insert_insert_ne by done. apply (Hlt j i y x); [lia|done..].
Qed.

Lemma random_handles_perm {A} (r : nat -> nat) (kvh : list A) : random_handles r kvh ≡ₚ kvh.
Proof.
  unfold random_handles. generalize (seq 0 (length kvh)). intros is_. revert kvh.
  induction is_ as [|i is_ IH]; intros kvh; [done|]. cbn. by rewrite IH, swap_perm.
Qed.

(** ** The parts of [make_partition] *)

(** The two parts are one array with a mark; [done_] are the servers written so far. *)
Lemma fillParts_spec l is_ done_ rest p1 p2 :
  p1 ++ p2 = done_ ++ rest -> (length (filter (fun i => i <> l) is_) <= length rest)%nat ->
  exists q1 q2, fillParts l is_ (length done_) p1 p2 = Some (q1, q2) /\ length q1 = length p1 /\
    q1 ++ q2 = done_ ++ filter (fun i => i <> l) is_ ++ drop (length (filter (fun i => i <> l) is_)) rest.
Proof.
  revert done_ rest p1 p2. induction is_ as [|i is_ IH]; intros done_ rest p1 p2 E Hlen; [cbn in *; eauto|].
  cbn [fillParts]. rewrite filter_cons in Hlen |- *. case_decide as Hil.
  2: { case_bool_decide; [done|]. by apply IH. }
  case_bool_decide; [|done]. destruct rest as [|y rest]; cbn in Hlen; [lia|].
  assert (Hsum : (length p1 + length p2 = length done_ + S (length rest))%nat).
  { apply (f_equal length) in E. rewrite !length_app in E. cbn in E. lia. }
  assert (E' : forall q1 q2, q1 ++ q2 = done_ ++ i :: rest -> q1 ++ q2 = (done_ ++ [i]) ++ rest)
    by (intros q1 q2 ->; by rewrite <- app_assoc).
  assert (Hd : S (length done_) = length (done_ ++ [i])) by (rewrite length_app; cbn; lia).
  assert (Hins : <[length done_ := i]> (p1 ++ p2) = done_ ++ i :: rest) by (rewrite E; apply insert_middle).
  case_bool_decide as Hj.
  - rewrite insert_app_l in Hins by done. apply E' in Hins. rewrite Hd.
    destruct (IH _ _ _ _ Hins) as (q1 & q2 & -> & Hl & Hq); [lia|]. rewrite length_insert in Hl.
    exists q1, q2. rewrite Hq. by rewrite <- app_assoc.
  - rewrite bool_decide_eq_true_2 by lia. rewrite insert_app_r_alt in Hins by lia. apply E' in Hins. rewrite Hd.
    destruct (IH _ _ _ _ Hins) as (q1 & q2 & -> & Hl & Hq); [lia|]. exists q1, q2. rewrite Hq. by rewrite <- app_assoc.
Qed.

Lemma filter_seq_others k l : (l < k)%nat -> filter (fun i => i <> l) (seq 0 k) ++ [l] ≡ₚ seq 0 k.
Proof.
  intros Hl. apply NoDup_Permutation; [|apply NoDup_seq|].
  - apply NoDup_app. split_and!; [apply NoDup_filter, NoDup_seq| |apply NoDup_singleton].
    intros x Hx Hy%list_elem_of_singleton. apply list_elem_of_filter in Hx as [? _]. done.
  - intros x. rewrite elem_of_app, list_elem_of_filter, list_elem_of_singleton, elem_of_seq.
    destruct (decide (x = l)); naive_solver lia.
Qed.

Lemma length_others k l : (l < k)%nat -> S (length (filter (fun i => i <> l) (seq 0 k))) = k.
Proof.
  intros Hl. pose proof (Permutation_length (filter_seq_others k l Hl)) as E.
  rewrite length_app, length_seq in E. cbn in E. lia.
Qed.

Lemma insert_last {A} (p q : list A) (x y : A) : p <> [] -> forall o, o ++ p = q ++ [y] -> o ++ <[(length p - 1)%nat := x]> p = q ++ [x].
Proof.
  intros Hp o E. destruct p as [|z p _] using rev_ind; [done|]. rewrite app_assoc in E. apply app_inj_tail in E as [<- ->].
  rewrite length_app. cbn. replace (length p + 1 - 1)%nat with (length p) by lia. by rewrite insert_middle, app_assoc.
Qed.

(** What [make_partition] returns when [Leader] found [l]: all servers but [l] in order, one
    zero that was never overwritten if the number of servers is even, and [l]. *)
Lemma partsFor_spec k l : (l < k)%nat -> (2 <= k)%nat ->
  exists p1 p2, partsFor k l = Some (p1, p2) /\ length p1 = (k / 2 + 1)%nat /\ length p2 = (k / 2)%nat /\
    p1 ++ p2 = filter (fun i => i <> l) (seq 0 k) ++ (if Nat.even k then [0%nat] else []) ++ [l].
Proof.
  intros Hl Hk. unfold partsFor. set (others := filter _ _). pose proof (length_others k l Hl) as Hlen.
  pose proof (Nat.div_mod k 2 ltac:(lia)) as Hdm. pose proof (Nat.mod_upper_bound k 2 ltac:(lia)) as Hmb.
  set (z1 := replicate _ _). set (z2 := replicate (k / 2) 0%nat).
  destruct (fillParts_spec l (seq 0 k) [] (z1 ++ z2) z1 z2 eq_refl) as (q1 & q2 & Hq & Hl1 & E).
  { rewrite length_app. unfold z1, z2. rewrite !length_replicate. lia. }
  cbn [length] in Hq. rewrite Hq. cbn [mbind option_bind]. fold others in E, Hlen. cbn [app] in E.
  assert (Hl1' : length q1 = (k / 2 + 1)%nat) by (rewrite Hl1; unfold z1; by rewrite length_replicate).
  assert (Hsuf : drop (length others) (z1 ++ z2) = (if Nat.even k then [0%nat] else []) ++ [0%nat]).
  { unfold z1, z2. rewrite <- replicate_add, drop_replicate. destruct (Nat.even k) eqn:Ev.
    - apply Nat.even_spec in Ev as [m Hm]. replace (k / 2 + 1 + k / 2 - length others)%nat with 2%nat; [done|]. lia.
    - assert (Nat.odd k = true) as [m Hm]%Nat.odd_spec by (unfold Nat.odd; by rewrite Ev).
      replace (k / 2 + 1 + k / 2 - length others)%nat with 1%nat; [done|]. lia. }
  rewrite Hsuf in E.
  assert (length q2 = (k / 2)%nat) as Hl2.
  { apply (f_equal length) in E. rewrite !length_app in E. cbn in E. destruct (Nat.even k) eqn:Ev; cbn in E.
    - apply Nat.even_spec in Ev as [m Hm]. lia.
    - assert (Nat.odd k = true) as [m Hm]%Nat.odd_spec by (unfold Nat.odd; by rewrite Ev). lia. }
  assert (length q2 <> 0%nat) as Hne by lia. rewrite bool_decide_eq_false_2 by done. eexists _, _. split; [done|]. rewrite length_insert. split_and!; [done..|].
  rewrite app_assoc in E |- *. eapply insert_last; [by intros ->|exact E].
Qed.

Lemma fillParts_nil l is_ j q1 p1 p2 : fillParts l is_ j q1 [] = Some (p1, p2) -> p2 = [].
Proof.
  revert q1 j. induction is_ as [|i is_ IH]; intros q1 j; cbn; [by intros [= _ <-]|].
  repeat case_bool_decide; try done; [by apply IH|cbn in *; lia|by apply IH].
Qed.

Lemma partsFor_small k l : (k <= 1)%nat -> partsFor k l = None.
Proof.
  intros Hk. unfold partsFor. assert (k / 2 = 0)%nat as -> by (apply Nat.div_small; lia). cbn [replicate].
  destruct (fillParts _ _ _ _ _) as [[p1 p2]|] eqn:E; [|done]. by apply fillParts_nil in E as ->.
Qed.

(** The parts of [make_partition] for every number of servers [k] and leader [l].  With fewer
    than two servers it panics.  Otherwise the first part has [k/2+1] servers, a majority, and
    the second [k/2], of which the leader is the last; an odd number of servers is split
    without remainder, while for an even number one slot keeps the value 0, so that from four
    servers on server 0 is in both parts unless it leads. *)
Theorem make_partition_parts k l : (l < k)%nat ->
  ((k <= 1)%nat -> partsFor k l = None) /\
  ((2 <= k)%nat -> exists p1 p2, partsFor k l = Some (p1, p2) /\
     length p1 = (k / 2 + 1)%nat /\ length p2 = (k / 2)%nat /\ last p2 = Some l /\
     (Nat.odd k = true -> p1 ++ p2 ≡ₚ seq 0 k) /\
     (Nat.even k = true -> (4 <= k)%nat -> l <> 0%nat -> 0%nat ∈ p1 /\ 0%nat ∈ p2)).
Proof.
  intros Hl. split; [apply partsFor_small|]. intros Hk. destruct (partsFor_spec k l Hl Hk) as (p1 & p2 & Hp & Hl1 & Hl2 & E).
  assert (length p2 <> 0%nat) as Hne by (rewrite Hl2; intros ?%Nat.div_small_iff; lia).
  destruct p2 as [|x p2 _] using rev_ind; [done|]. rewrite !app_assoc in E. apply app_inj_tail in E as [E ->].
  exists p1, (p2 ++ [l]). split_and!; [done..|apply last_snoc| |].
  - intros Hodd. unfold Nat.odd in Hodd. apply negb_true_iff in Hodd. rewrite Hodd, app_nil_r in E.
    rewrite app_assoc, E. by apply filter_seq_others.
  - intros Hev Hk4 Hl0. rewrite Hev in E. destruct k as [|k]; [lia|]. cbn [seq] in E. rewrite filter_cons, decide_True in E by done.
    destruct p1 as [|y p1]; [cbn in Hl1; lia|]. cbn in E. injection E as -> E. split; [by left|].
    rewrite length_app in Hl2. assert (2 <= S k / 2)%nat as Hdiv by (apply Nat.div_le_lower_bound; lia).
    destruct p2 as [|z p2 _] using rev_ind; [cbn [length] in Hl2; lia|].
    rewrite app_assoc in E. apply app_inj_tail in E as [_ ->]. set_solver.
Qed.

(** ** The network over a whole test *)

Section Network.
Context {Srv byte : Type} `{!Replica Srv byte}.
Implicit Types (c : config Srv byte).

(** After [make_config] every server reaches every server, and there are no clerks. *)
Definition allUp (k : nat) (names : list (list string)) : Links :=
  mkLinks (within (seq 0 k) (seq 0 k)) ∅ 0 (list_to_set (concat names)).
Definition sound_names (k : nat) (names : list (list string)) : Prop :=
  length names = k /\ Forall (fun ns => length ns = k) names /\ NoDup (concat names).

Lemma initial_refines k mrs : refines (mkLinks (fun _ => false) ∅ 0 ∅) (initial (Srv := Srv) (byte := byte) k mrs).
Proof.
  assert (forall o, endOf (initial (Srv := Srv) (byte := byte) k mrs) o = None) as Hno.
  { intros [i j|ck j]; [|done]. cbn. unfold endnameOf. cbn. destruct (replicate k None !! i) as [x|] eqn:E; [|done].
    by apply lookup_replicate in E as [-> _]. }
  split; [split|..]; try (intros *; by rewrite Hno); cbn; try done.
  - by rewrite !length_replicate.
  - intros i ns [? _]%lookup_replicate. done.
  - intros i Hi. destruct (replicate k None !! i) as [x|] eqn:E; [|done]. by apply lookup_replicate in E as [-> _].
  - intros ck. split; [set_solver|by intros [? ?]].
Qed.

Lemma startAll_refines k names t i used c :
  refines (mkLinks (fun _ => false) ∅ 0 used) c -> n c = k -> (i + length names = k)%nat ->
  Forall (fun ns => length ns = k) names -> NoDup (concat names) -> Forall (fun e => e ∉ used) (concat names) ->
  (forall a, (a < i)%nat -> exists ns, endnames c !! a = Some (Some ns)) ->
  exists c', startAll i names t c = Some c' /\ n c' = k /\ started c' /\
    refines (mkLinks (fun _ => false) ∅ 0 (list_to_set (concat names) ∪ used)) c'.
Proof.
  revert i used c. induction names as [|ns names IH]; intros i used c HR Hn Hi Hlen Hnd Hfr Hst.
  - exists c. split_and!; [done..| |].
    + intros a Ha. apply Hst. cbn in Hi. lia.
    + destruct HR as [H1 H2 H3 H4 H5]. split; try done. intros e. cbn. rewrite <- H5. cbn. set_solver.
  - cbn in Hi. apply Forall_cons in Hlen as [Hl Hlen]. cbn in Hnd, Hfr. apply NoDup_app in Hnd as (Hnd1 & Hdj & Hnd2).
    apply Forall_app in Hfr as [Hf1 Hf2].
    destruct (StartServer_refines i ns (t i) _ c HR) as (c1 & Hs & Hn1 & He & HR1); [lia|rewrite Hn; split_and!; done|].
    cbn [startAll]. rewrite Hs. cbn [mbind option_bind].
    destruct (IH (S i) (list_to_set ns ∪ used) c1) as (c' & ? & ? & ? & HR2); [|lia..|done|done| | |].
    + destruct HR1 as [A1 A2 A3 A4 A5]. split; try done. intros o e Ho. rewrite (A2 o e Ho). cbn. unfold switch. by destruct (fromServer i o).
    + rewrite Forall_forall in Hf2 |- *. intros e Hin. specialize (Hf2 e Hin). specialize (Hdj e). set_solver.
    + intros a Ha. rewrite He. destruct (decide (i = a)) as [->|Hne].
      * destruct (sh_len _ (rf_shape _ _ HR)) as (_ & _ & Hl3). rewrite list_lookup_insert_eq by lia. eauto.
      * rewrite list_lookup_insert_ne by done. apply Hst. lia.
    + exists c'. split_and!; [done..|]. destruct HR2 as [A1 A2 A3 A4 A5]. split; try done. intros e. cbn. rewrite <- (A5 e). cbn. set_solver.
Qed.

Lemma make_config_refines k unreliable mrs names t :
  sound_names k names ->
  exists c, make_config (Srv := Srv) k unreliable mrs names t = Some c /\ refines (allUp k names) c /\ started c /\ n c = k.
Proof.
  intros (Hk & Hlen & Hnd). unfold make_config. rewrite bool_decide_eq_true_2 by done. cbn [negb].
  destruct (startAll_refines k names t 0 ∅ (initial k mrs)) as (c & -> & Hn & Hst & HR);
    [apply initial_refines|done|lia|done|done|apply Forall_true; intros; set_solver|intros; lia|]. cbn [mbind option_bind].
  destruct (op_simulated k OConnectAll _ _ c HR Hst Hn eq_refl) as (c1 & Hc1 & HR1 & Hst1 & Hn1). cbn in Hc1. rewrite Hc1. cbn [mbind option_bind].
  eexists. split; [done|]. split_and!; [|done..]. destruct HR1 as [A1 A2 A3 A4 A5]. split; try done.
  - apply (shape_frame c1); try done. apply A1.
  - intros o e Ho. change (isEnabled (inl e) (net c1) = within (seq 0 k) (seq 0 k) o). rewrite (A2 o e Ho). cbn. unfold switch.
    by destruct (within _ _ _).
  - intros e. rewrite <- (A5 e). cbn. set_solver.
Qed.

Lemma target_bound L c o e : refines L c -> endOf c o = Some e -> (target o < n c)%nat.
Proof.
  intros HR Ho. pose proof (rf_shape _ _ HR) as Hs. destruct o as [i j|ck j]; cbn in *.
  - by destruct (endnameOf_bounds _ _ _ _ Hs Ho).
  - unfold clerkEnds in Ho. destruct (clerks c !! ck) as [ns|] eqn:E; [|done]. cbn in Ho. apply lookup_lt_Some in Ho.
    destruct (sh_clerks _ Hs ck ns E). lia.
Qed.

(** C11: a test gets the network it asks for.  From [make_config] on, every sound sequence of
    operations goes through without a panic; afterwards an end leads to the server that runs
    as its target, and lets messages through exactly when the abstract machine, in which
    operations switch links between servers and clerks, says so. *)
Theorem tester_network k unreliable mrs names t ops L :
  sound_names k names -> absRun (Srv := Srv) k ops (allUp k names) = Some L ->
  exists c0 c, make_config k unreliable mrs names t = Some c0 /\ runOps ops c0 = Some c /\
    (forall i j, (i < k)%nat -> (j < k)%nat -> is_Some (endOf c (SrvEnd i j))) /\
    (forall ck j, ck ∈ l_clerks L -> (j < k)%nat -> is_Some (endOf c (ClkEnd ck j))) /\
    forall o e, endOf c o = Some e ->
      readEndnameInfo (inl e) (net c) =
        mkEndInfo (l_up L o) (Some (inr (Z.of_nat (target o)))) (mjoin (kvservers c !! target o))
          (reliable (net c)) (longReordering (net c)).
Proof.
  intros Hnames Ha. destruct (make_config_refines k unreliable mrs names t Hnames) as (c0 & Hc0 & HR0 & Hst0 & Hn0).
  destruct (ops_simulated k ops _ L c0 HR0 Hst0 Hn0 Ha) as (c & Hc & HR & Hst & Hn). pose proof (rf_shape _ _ HR) as Hs.
  exists c0, c. split_and!; [done..| | |].
  - intros i j Hi Hj. apply endnameOf_there; try done; by rewrite Hn.
  - intros ck j Hck Hj. apply (rf_clerks _ _ HR) in Hck as [ns Hck]. cbn. unfold clerkEnds. rewrite Hck. cbn.
    apply lookup_lt_is_Some_2. destruct (sh_clerks _ Hs ck ns Hck). lia.
  - intros o e Ho. unfold readEndnameInfo. rewrite (sh_conn _ Hs o e Ho). cbn [default id mbind option_bind].
    rewrite (rf_up _ _ HR o e Ho), (sh_servers _ Hs) by (by eapply target_bound). done.
Qed.

(** ** Partitions around the leader *)

Lemma leaderFrom_elem c is_ b l : leaderFrom c is_ = Some (b, l) -> l ∈ is_ \/ l = 0%nat.
Proof.
  induction is_ as [|i is_ IH]; cbn; [intros [= <- <-]; by right|].
  destruct (stateOf c i) as [[? [|]]|]; cbn; [intros [= <- <-]; left; set_solver| |done]. intros [Hl|Hl]%IH; [left; set_solver|by right].
Qed.

Lemma Leader_bound c b l : Leader c = Some (b, l) -> (0 < n c)%nat -> (l < n c)%nat.
Proof. intros [Hl%elem_of_seq| ->]%leaderFrom_elem Hn; lia. Qed.

(** [make_partition] with [partition] cuts off the leader.  When the number of servers is odd
    and at least three, the two parts hold every server once, the first is a majority without
    the leader, and after [partition] two servers can talk exactly when they are in the same
    part. *)
Theorem leader_cut_off k unreliable mrs names t ops L c0 c b l :
  sound_names k names -> Nat.odd k = true -> (3 <= k)%nat ->
  absRun (Srv := Srv) k ops (allUp k names) = Some L ->
  make_config k unreliable mrs names t = Some c0 -> runOps ops c0 = Some c -> Leader c = Some (b, l) ->
  exists p1 p2 c', make_partition c = Some (p1, p2) /\ partition p1 p2 c = Some c' /\
    (p1 ++ p2 ≡ₚ seq 0 k) /\ (2 * length p1 > k)%nat /\ last p2 = Some l /\ (l ∉ p1) /\
    forall i j e, endnameOf c' i j = Some e -> isEnabled (inl e) (net c') = bool_decide ((i ∈ p1) <-> (j ∈ p1)).
Proof.
  intros Hnames Hodd Hk Ha Hc0 Hc Hl. destruct (make_config_refines k unreliable mrs names t Hnames) as (c0' & Hc0' & HR0 & Hst0 & Hn0).
  assert (c0' = c0) as -> by congruence.
  destruct (ops_simulated k ops _ L c0 HR0 Hst0 Hn0 Ha) as (c1 & Hc1 & HR & Hst & Hn). assert (c1 = c) as -> by congruence.
  pose proof (Leader_bound c b l Hl ltac:(lia)) as Hlt. rewrite Hn in Hlt.
  destruct (partsFor_spec k l Hlt ltac:(lia)) as (p1 & p2 & Hp & Hl1 & Hl2 & E).
  assert (length p2 <> 0%nat) as Hk2 by (rewrite Hl2; intros ?%Nat.div_small_iff; lia).
  assert (Nat.even k = false) as Hev by (unfold Nat.odd in Hodd; by destruct (Nat.even k)). rewrite Hev in E. cbn [app] in E.
  assert (p1 ++ p2 ≡ₚ seq 0 k) as Hperm by (rewrite E; by apply filter_seq_others).
  assert (NoDup (p1 ++ p2)) as Hnd by (rewrite Hperm; apply NoDup_seq).
  assert (Hall : forall x, x ∈ p1 ++ p2 <-> (x < k)%nat) by (intros x; rewrite Hperm, elem_of_seq; lia).
  destruct (partition_refines p1 p2 L c HR Hst) as (rn & Hpart & HR'); [|done|].
  { apply Forall_forall. intros x Hx. rewrite Hn. by apply Hall. }
  exists p1, p2, (set_net rn c). split_and!.
  - unfold make_partition. rewrite Hl. cbn. by rewrite Hn.
  - done.
  - done.
  - rewrite Hl1. pose proof (Nat.div_mod k 2 ltac:(lia)). pose proof (Nat.mod_upper_bound k 2 ltac:(lia)). lia.
  - destruct p2 as [|x p2 _] using rev_ind; [by destruct Hk2|].
    rewrite app_assoc in E. apply app_inj_tail in E as [_ ->]. apply last_snoc.
  - intros Hin. destruct p2 as [|x p2 _] using rev_ind; [by destruct Hk2|].
    rewrite app_assoc in E. apply app_inj_tail in E as [_ ->]. apply NoDup_app in Hnd as (_ & Hd & _). apply (Hd l Hin). set_solver.
  - intros i j e He. rewrite (rf_up _ _ HR' (SrvEnd i j) e He). cbn. unfold switch. cbn.
    destruct (endnameOf_bounds _ _ _ _ (rf_shape _ _ HR') He) as [Hi Hj]. cbn in Hi, Hj. rewrite Hn in Hi, Hj.
    apply Hall, elem_of_app in Hi. apply Hall, elem_of_app in Hj. apply NoDup_app in Hnd as (_ & Hd & _).
    repeat case_bool_decide; cbn; try done; exfalso; naive_solver.
Qed.
End Network.

(** ** The theorems at work *)

Lemma make_partition_parts_witness :
  partsFor 5 2 = Some ([0; 1; 3]%nat, [4; 2]%nat) /\
  exists p1 p2, partsFor 4 1 = Some (p1, p2) /\ 0%nat ∈ p1 /\ 0%nat ∈ p2.
Proof.
  split; [by vm_compute|]. destruct (make_partition_parts 4 1 ltac:(lia)) as [_ (p1 & p2 & Hp & _ & _ & _ & _ & Hev)]; [lia|].
  exists p1, p2. split; [done|]. apply Hev; [done|lia|done].
Defined.

#[local] Instance kv_replica : Replica (KVServer Z Z) Z := KVServer_replica 0.

Definition names3 : list (list string) := [["a0"; "a1"; "a2"]; ["b0"; "b1"; "b2"]; ["c0"; "c1"; "c2"]]%string.
(** Server 2, now the leader of term 1. *)
Definition leader2 : KVServer Z Z :=
  let rf := kv_rf (StartKVServer 0 3 2 MakePersister (-1) (0, 0)) in
  mkKVServer 2 (Raft.convertToLeader (Raft.StartElection 9 9 rf)) 0 (-1).
(** A clerk that reaches servers 0 and 2; server 1 is restarted and connected again; server 2
    becomes the leader. *)
Definition ops3 : list (Op (Srv := KVServer Z Z)) :=
  [OMakeClient [0; 2]%nat ["k0"; "k1"; "k2"]%string (fun i => i); OShutdown 1; OStart 1 ["d0"; "d1"; "d2"]%string (5, 7);
   OConnect 1 [0; 1; 2]%nat; ORun 2 leader2].
Definition links3 : Links := default (allUp 3 names3) (absRun 3 ops3 (allUp 3 names3)).
Definition config0 : config (KVServer Z Z) Z := default (initial 0 0) (make_config 3 false (-1) names3 (fun _ => (0, 0))).
Definition config3 : config (KVServer Z Z) Z := default (initial 0 0) (runOps ops3 config0).

Lemma names3_sound : sound_names 3 names3.
Proof. split_and!; [done|by repeat constructor|]. apply (bool_decide_unpack _). by vm_compute. Qed.

Lemma tester_network_witness :
  exists c0 c, make_config (Srv := KVServer Z Z) 3 false (-1) names3 (fun _ => (0, 0)) = Some c0 /\ runOps ops3 c0 = Some c /\
    is_Some (endOf c (ClkEnd 0 1)) /\ l_up links3 (ClkEnd 0 1) = false /\ l_up links3 (SrvEnd 0 1) = true.
Proof.
  destruct (tester_network 3 false (-1) names3 (fun _ => (0, 0)) ops3 links3 names3_sound) as (c0 & c & H0 & Hc & _ & Hck & _);
    [apply some_default; by vm_compute|].
  exists c0, c. split_and!; [done|done| |by vm_compute|by vm_compute]. apply Hck; [by apply (bool_decide_unpack _); vm_compute|lia].
Defined.

Lemma leader_cut_off_witness :
  Leader config3 = Some (true, 2%nat) /\
  exists p1 p2 c', make_partition config3 = Some (p1, p2) /\ partition p1 p2 config3 = Some c' /\ (2%nat ∉ p1).
Proof.
  split; [by vm_compute|].
  destruct (leader_cut_off 3 false (-1) names3 (fun _ => (0, 0)) ops3 links3 config0 config3 true 2 names3_sound)
    as (p1 & p2 & c' & H1 & H2 & _ & _ & _ & H3 & _); [done|lia|apply some_default; by vm_compute..|by vm_compute|]. exists p1, p2, c'. exact (conj H1 (conj H2 H3)).
Defined.
