(* ===== verification/TesterPersist.v ===== *)
(** * TesterPersist: restarts and persisters

    The tester copies a persister when it shuts a server down and again when it starts one, so
    that an old server, which may still run, never writes to what a new server reads. *)

From S2P Require Import Prelude Persister Raft LabRPC TestNet KvRaft Tester TesterFacts.
Local Open Scope Z_scope.

Section Persist.
Context {Srv byte : Type} `{!Replica Srv byte}.
Implicit Types (c : config Srv byte).

(** Every server has a persister of its own, which holds what the server persisted; what
    [saved] points to belongs to the running server or to none. *)
Record owned c : Prop := {
  ow_len : length (kvservers c) = length (saved c) /\ length (endnames c) = length (saved c);
  ow_cell p x : instances c !! p = Some x -> persisters c !! in_persister x = Some (r_persister (in_srv x));
  ow_inst p q x y : instances c !! p = Some x -> instances c !! q = Some y -> in_persister x = in_persister y -> p = q;
  ow_saved i a : saved c !! i = Some (Some a) -> (a < length (persisters c))%nat;
  ow_cur i p : kvservers c !! i = Some (Some p) -> exists x, instances c !! p = Some x /\ saved c !! i = Some (Some (in_persister x));
  ow_owner i p x : instances c !! p = Some x -> saved c !! i = Some (Some (in_persister x)) -> kvservers c !! i = Some (Some p)
}.

Lemma owned_frame c c' :
  kvservers c' = kvservers c -> saved c' = saved c -> length (endnames c') = length (endnames c) ->
  instances c' = instances c -> persisters c' = persisters c -> owned c -> owned c'.
Proof. intros E1 E2 E3 E4 E5 []. split; rewrite ?E1, ?E2, ?E3, ?E4, ?E5; done. Qed.

Lemma cell_bound c p x : owned c -> instances c !! p = Some x -> (in_persister x < length (persisters c))%nat.
Proof. intros Ho Hp. by eapply lookup_lt_Some, (ow_cell _ Ho p). Qed.

(** ** Operations on the network only *)

Lemma connectUnlocked_net i to c c' : connectUnlocked i to c = Some c' -> exists rn, c' = set_net rn c.
Proof. intros (? & _ & (? & _ & [= <-])%bind_Some)%bind_Some. eauto. Qed.
Lemma disconnectUnlocked_net i from c c' : disconnectUnlocked i from c = Some c' -> exists rn, c' = set_net rn c.
Proof. intros (? & _ & (? & _ & [= <-])%bind_Some)%bind_Some. eauto. Qed.
Lemma connectEach_net is_ c c' : connectEach is_ c = Some c' -> exists rn, c' = set_net rn c.
Proof.
  revert c. induction is_ as [|i is_ IH]; intros c; cbn; [intros [= <-]; exists (net c); by destruct c|].
  intros (c1 & [rn ->]%connectUnlocked_net & [rn' ->]%IH)%bind_Some. by exists rn'.
Qed.
Lemma separate_net is_ own other c c' : separate is_ own other c = Some c' -> exists rn, c' = set_net rn c.
Proof.
  revert c. induction is_ as [|i is_ IH]; intros c; cbn; [intros [= <-]; exists (net c); by destruct c|].
  intros (c1 & [rn ->]%disconnectUnlocked_net & (c2 & [rn1 ->]%connectUnlocked_net & [rn' ->]%IH)%bind_Some)%bind_Some. by exists rn'.
Qed.

Lemma owned_net c rn : owned c -> owned (set_net rn c).
Proof. by apply owned_frame. Qed.
Hint Resolve owned_net : core.

(** ** Servers *)

Lemma serverRuns_owned a srv c : owned c -> owned (serverRuns a srv c).
Proof.
  intros Ho. unfold serverRuns. destruct (instances c !! a) as [inst|] eqn:Ha; [|done].
  pose proof (cell_bound c a inst Ho Ha) as Hb.
  assert (Hold : forall p x, <[a := mkInstance srv (in_persister inst)]> (instances c) !! p = Some x ->
    exists x0, instances c !! p = Some x0 /\ in_persister x0 = in_persister x /\ (p <> a -> x0 = x)).
  { intros p x [(-> & <- & _)|[Hne Hp]]%list_lookup_insert_Some; eauto. exists inst. by split_and!. }
  split; cbn; try apply Ho.
  - intros p x Hp. destruct (decide (a = p)) as [->|Hne].
    + rewrite list_lookup_insert_eq in Hp by (by eapply lookup_lt_Some). injection Hp as <-. cbn. by rewrite list_lookup_insert_eq.
    + rewrite list_lookup_insert_ne in Hp by done. rewrite list_lookup_insert_ne; [by apply (ow_cell _ Ho p)|].
      intros E. apply Hne. by eapply (ow_inst _ Ho).
  - intros p q x y (x0 & Hp & <- & _)%Hold (y0 & Hq & <- & _)%Hold. by apply (ow_inst _ Ho p q).
  - intros i b. rewrite length_insert. by apply (ow_saved _ Ho).
  - intros i p Hi. destruct (ow_cur _ Ho i p Hi) as (x & Hp & Hs). destruct (decide (a = p)) as [->|Hne].
    + simplify_eq. rewrite list_lookup_insert_eq by (by eapply lookup_lt_Some). eauto.
    + rewrite list_lookup_insert_ne by done. eauto.
  - intros i p x (x0 & Hp & <- & _)%Hold. by apply (ow_owner _ Ho).
Qed.

Lemma killServer_runs a c : owned c ->
  killServer a c = match instances c !! a with Some inst => serverRuns a (r_Kill (in_srv inst)) c | None => c end.
Proof.
  intros Ho. unfold killServer, serverRuns. destruct (instances c !! a) as [inst|] eqn:Ha; [|done].
  rewrite (list_insert_id (persisters c)); [done|]. rewrite r_Kill_keeps. by apply (ow_cell _ Ho a).
Qed.

Lemma killServer_owned a c : owned c -> owned (killServer a c).
Proof. intros Ho. rewrite killServer_runs by done. destruct (instances c !! a); [by apply serverRuns_owned|done]. Qed.

(** [saved[i]] moves to a new persister; then the running server [i], if any, is forgotten. *)
Lemma forget_owned i ps c : owned c -> (i < length (saved c))%nat -> owned (set_kvservers (<[i := None]> (kvservers c)) (new_saved i ps c)).
Proof.
  intros Ho Hi. destruct (ow_len _ Ho) as [Hl1 Hl2].
  assert (Hsv : forall j b, <[i := Some (length (persisters c))]> (saved c) !! j = Some (Some b) ->
    j = i /\ b = length (persisters c) \/ j <> i /\ saved c !! j = Some (Some b)).
  { intros j b [(-> & [= <-] & _)|[Hne Hj]]%list_lookup_insert_Some; eauto. }
  split; cbn.
  - by rewrite !length_insert.
  - intros p x Hp. rewrite lookup_app_l by (by eapply cell_bound). by apply (ow_cell _ Ho p).
  - apply Ho.
  - intros j b. rewrite length_app. cbn. intros [[-> ->]|[_ Hj%(ow_saved _ Ho)]]%Hsv; lia.
  - intros j p [(_ & ? & _)|[Hne Hj]]%list_lookup_insert_Some; [done|]. destruct (ow_cur _ Ho j p Hj) as (x & Hp & Hs).
    exists x. split; [done|]. by rewrite list_lookup_insert_ne.
  - intros j p x Hp [[-> E]|[Hne Hj]]%Hsv.
    + apply (cell_bound _ _ _ Ho) in Hp. lia.
    + rewrite list_lookup_insert_ne by done. by apply (ow_owner _ Ho j p x).
Qed.

Lemma savedAt_there i a c : owned c -> saved c !! i = Some (Some a) -> exists ps, savedAt c i = Some ps /\ persisters c !! a = Some ps.
Proof.
  intros Ho Hs. destruct (lookup_lt_is_Some_2 (persisters c) a) as [ps Hps]; [by apply (ow_saved _ Ho i)|].
  exists ps. unfold savedAt. by rewrite Hs.
Qed.

(** What [ShutdownServer] leaves: no server [i], and its persister's contents at that moment. *)
Lemma ShutdownServer_owned i c c' : owned c -> ShutdownServer i c = Some c' ->
  owned c' /\ kvservers c' !! i = Some None /\ savedAt c' i = savedAt c i /\ n c' = n c /\ maxraftstate c' = maxraftstate c.
Proof.
  intros Ho (c1 & [rn ->]%disconnectUnlocked_net & Hs)%bind_Some. cbn zeta in Hs.
  set (c2 := set_net _ (set_net rn c)) in Hs. assert (owned c2) as Ho2 by (by apply owned_frame with c).
  set (c3 := match savedAt c2 i with Some ps => new_saved i (Copy ps) c2 | None => c2 end) in Hs.
  apply bind_Some in Hs as (kv & Hkv & Hs).
  assert (kvservers c3 = kvservers c) as Ek by (unfold c3; by destruct (savedAt c2 i)).
  assert (n c3 = n c /\ maxraftstate c3 = maxraftstate c) as [En Em] by (unfold c3; by destruct (savedAt c2 i)).
  assert (i < length (saved c))%nat as Hi by (destruct (ow_len _ Ho); apply lookup_lt_Some in Hkv; rewrite Ek in Hkv; lia).
  assert (savedAt c3 i = savedAt c i) as Esv.
  { change (savedAt c i) with (savedAt c2 i). unfold c3. destruct (savedAt c2 i) as [ps|] eqn:E; [|done].
    unfold savedAt. cbn. rewrite list_lookup_insert_eq by done. cbn. rewrite list_lookup_middle by done. by rewrite Copy_id. }
  assert (owned (set_kvservers (<[i := None]> (kvservers c3)) c3)) as Ho3.
  { unfold c3. destruct (savedAt c2 i) as [ps|] eqn:E; [by apply (forget_owned i _ c2)|].
    destruct kv as [a|].
    - destruct (ow_cur _ Ho i a) as (x & _ & Hx); [by rewrite <- Ek|].
      destruct (savedAt_there i _ _ Ho2 Hx) as (ps & Hps & _). congruence.
    - eapply owned_frame; [..|exact Ho2]; try done. cbn. apply list_insert_id. by rewrite <- Ek. }
  destruct kv as [a|]; injection Hs as <-.
  - set (c4 := set_kvservers (<[i := None]> (kvservers c3)) c3) in Ho3.
    replace (set_kvservers (<[i := None]> (kvservers c3)) (killServer a c3)) with (killServer a c4)
      by (unfold killServer, c4; cbn; by destruct (instances c3 !! a)).
    replace (kvservers (killServer a c4)) with (kvservers c4) by (unfold killServer; by destruct (instances c4 !! a)).
    split_and!; [by apply killServer_owned| | |..].
    + cbn. rewrite list_lookup_insert_eq; [done|]. rewrite Ek. destruct (ow_len _ Ho). lia.
    + rewrite <- Esv. unfold killServer, c4. cbn. by destruct (instances c3 !! a).
    + rewrite <- En. unfold killServer, c4. cbn. by destruct (instances c3 !! a).
    + rewrite <- Em. unfold killServer, c4. cbn. by destruct (instances c3 !! a).
  - split_and!; [|done..]. eapply owned_frame; [..|exact Ho3]; try done. cbn. by rewrite list_insert_id.
Qed.

(** A started server reads what [saved[i]] held; its own persister is new. *)
Lemma StartServer_owned i names t c c' : owned c -> StartServer i names t c = Some c' ->
  owned c' /\ kvservers c' !! i = Some (Some (length (instances c))) /\
  instances c' !! length (instances c) =
    Some (mkInstance (r_start (n c) i (default MakePersister (savedAt c i)) (maxraftstate c) t) (length (persisters c))).
Proof.
  intros Ho Hs. unfold StartServer in Hs. case_bool_decide as Hlen; [|done]. case_bool_decide as Hi; [|done]. cbn [negb orb] in Hs.
  apply bind_Some in Hs as (rn & Hm & Hs). destruct (ow_len _ Ho) as [Hl1 Hl2]. cbn zeta in Hs.
  set (c1 := set_net rn _) in Hs. change (savedAt c1 i) with (savedAt c i) in Hs.
  set (ps := match savedAt c i with Some ps => Copy ps | None => MakePersister end) in Hs.
  assert (ps = default MakePersister (savedAt c i)) as Eps by (unfold ps; destruct (savedAt c i); cbn; by rewrite ?Copy_id).
  assert (saved (new_saved i ps c1) !! i = Some (Some (length (persisters c)))) as Esv by (cbn; rewrite list_lookup_insert_eq by lia; done).
  rewrite Esv in Hs. cbn [mjoin option_join mbind option_bind] in Hs.
  assert (persisters (new_saved i ps c1) !! length (persisters c) = Some ps) as Epp by (cbn; by rewrite list_lookup_middle).
  rewrite Epp in Hs. cbn [mbind option_bind] in Hs. injection Hs as <-.
  assert (owned (set_kvservers (<[i := None]> (kvservers c1)) (new_saved i ps c1))) as Ho1.
  { apply forget_owned; [|cbn; lia]. apply (owned_frame c); try done. cbn. by rewrite length_insert. }
  rewrite <- Eps. cbn. split_and!; [|by rewrite list_lookup_insert_eq by lia|by rewrite list_lookup_middle].
  destruct Ho1 as [A1 A2 A3 A4 A5 A6]. cbn in *.
  assert (Hold : forall p x, (instances c ++ [mkInstance (r_start (n c) i ps (maxraftstate c) t) (length (persisters c))]) !! p = Some x ->
    instances c !! p = Some x \/ p = length (instances c) /\ x = mkInstance (r_start (n c) i ps (maxraftstate c) t) (length (persisters c))).
  { intros p x [Hp|[Hp Hx]]%lookup_app_Some; [by left|right]. apply list_lookup_singleton_Some in Hx as [? <-]. split; [lia|done]. }
  split; cbn.
  - by rewrite !length_insert in *.
  - intros p x [Hp|[-> ->]]%Hold; [by apply (A2 p)|]. cbn. by rewrite list_lookup_middle, r_start_keeps.
  - intros p q x y [Hp|[-> ->]]%Hold [Hq|[-> ->]]%Hold; cbn.
    + by apply (A3 p q).
    + intros E. apply (cell_bound _ _ _ Ho) in Hp. lia.
    + intros E. apply (cell_bound _ _ _ Ho) in Hq. lia.
    + done.
  - done.
  - intros j p [(-> & [= <-] & _)|[Hne Hj]]%list_lookup_insert_Some.
    + eexists. split; [by rewrite list_lookup_middle|]. by rewrite list_lookup_insert_eq by lia.
    + destruct (A5 j p) as (x & Hp & Hx); [by rewrite list_lookup_insert_ne|]. exists x. split; [|done].
      rewrite lookup_app_l; [done|]. by eapply lookup_lt_Some.
  - intros j p x [Hp|[-> ->]]%Hold Hj; cbn in *.
    + pose proof (A6 j p x Hp Hj) as HA. apply list_lookup_insert_Some in HA as [(_ & ? & _)|[Hne HA]]; [done|]. by rewrite list_lookup_insert_ne.
    + apply list_lookup_insert_Some in Hj as [(-> & _ & _)|[Hne Hj]]; [by rewrite list_lookup_insert_eq by lia|].
      apply (ow_saved _ Ho) in Hj. lia.
Qed.

Lemma runOp_owned op c c' : owned c -> runOp op c = Some c' -> owned c'.
Proof.
  intros Ho. destruct op as [i to|i from| |p1 p2|to names r|ck|ck to|ck from|i|i names t|a srv]; cbn.
  - intros [rn ->]%connectUnlocked_net. eauto.
  - intros [rn ->]%disconnectUnlocked_net. eauto.
  - intros [rn ->]%connectEach_net. eauto.
  - intros (c1 & [rn ->]%separate_net & [rn' ->]%separate_net)%bind_Some. eauto.
  - intros ([c1 ck] & Hm & [= <-])%fmap_Some. unfold makeClient in Hm. case_bool_decide; [|done]. cbn [negb] in Hm.
    apply bind_Some in Hm as (rn & _ & (c2 & Hc2 & [= <- _])%bind_Some). apply bind_Some in Hc2 as (es & _ & [= <-]).
    by apply (owned_frame c).
  - intros [= <-]. by apply (owned_frame c).
  - intros (es & _ & [= <-])%bind_Some. eauto.
  - intros (es & _ & [= <-])%bind_Some. eauto.
  - intros Hs. by apply (ShutdownServer_owned i c c').
  - intros Hs. by apply (StartServer_owned i names t c c').
  - intros [= <-]. by apply serverRuns_owned.
Qed.

Lemma runOps_owned ops c c' : owned c -> runOps ops c = Some c' -> owned c'.
Proof.
  revert c. induction ops as [|op ops IH]; intros c Ho; cbn; [by intros [= <-]|].
  intros (c1 & H1%runOp_owned & H2)%bind_Some; [|done]. by apply (IH c1).
Qed.

Lemma make_config_owned k unreliable mrs names t c :
  make_config (Srv := Srv) (byte := byte) k unreliable mrs names t = Some c -> owned c.
Proof.
  unfold make_config. case_bool_decide; [|done]. cbn [negb].
  intros (c1 & Hs & (c2 & [rn ->]%connectEach_net & [= <-])%bind_Some)%bind_Some.
  assert (owned (initial (Srv := Srv) (byte := byte) k mrs)) as Hinit.
  { split; cbn; try done; [by rewrite !length_replicate|intros i a [? _]%lookup_replicate; done..]. }
  assert (owned c1) as Ho1; [|by apply (owned_frame c1)]. clear rn. revert Hs Hinit. generalize (initial (Srv := Srv) (byte := byte) k mrs) 0%nat.
  clear H. induction names as [|ns names IH]; intros c0 i; cbn; [by intros [= <-]|].
  intros (c3 & H3 & H4)%bind_Some Ho. apply (IH c3 (S i) H4). by apply (StartServer_owned i ns (t i) c0 c3).
Qed.

(** While no server [i] runs, no server writes to what [saved[i]] points to. *)
Lemma runs_keep_saved i runs c :
  owned c -> kvservers c !! i = Some None ->
  let c' := foldl (fun c x => serverRuns x.1 x.2 c) c runs in
  owned c' /\ savedAt c' i = savedAt c i /\ n c' = n c /\ maxraftstate c' = maxraftstate c.
Proof.
  revert c. induction runs as [|[a srv] runs IH]; intros c Ho Hi; [done|]. cbn.
  assert (savedAt (serverRuns a srv c) i = savedAt c i /\ kvservers (serverRuns a srv c) = kvservers c /\
          n (serverRuns a srv c) = n c /\ maxraftstate (serverRuns a srv c) = maxraftstate c) as (E1 & E2 & E3 & E4).
  { unfold serverRuns. destruct (instances c !! a) as [x|] eqn:Ha; [|done]. split_and!; [|done..]. unfold savedAt. cbn.
    destruct (saved c !! i) as [[b|]|] eqn:Hs; [|done..]. cbn. rewrite list_lookup_insert_ne; [done|].
    intros E. pose proof (ow_owner _ Ho i a x Ha) as Hcur. rewrite E in Hcur. specialize (Hcur Hs). congruence. }
  destruct (IH (serverRuns a srv c)) as (? & -> & -> & ->); [by apply serverRuns_owned|by rewrite E2|]. by rewrite E1, E3, E4.
Qed.

(** C32: a restarted server starts from what its predecessor last persisted.  After any test, shut
    down server [i], let any servers in memory go on and persist what they like, the old one
    too, and start server [i] again: the new server is given what the old one had persisted
    when it was shut down. *)
Theorem restart_gets_last_state k unreliable mrs names t ops c0 c i p inst c1 runs names' t' c2 :
  make_config (Srv := Srv) k unreliable mrs names t = Some c0 -> runOps ops c0 = Some c ->
  kvservers c !! i = Some (Some p) -> instances c !! p = Some inst ->
  ShutdownServer i c = Some c1 ->
  StartServer i names' t' (foldl (fun c x => serverRuns x.1 x.2 c) c1 runs) = Some c2 ->
  exists p' a, kvservers c2 !! i = Some (Some p') /\
    instances c2 !! p' = Some (mkInstance (r_start (n c) i (r_persister (in_srv inst)) (maxraftstate c) t') a).
Proof.
  intros Hc0 Hc Hkv Hp Hsh Hst. pose proof (runOps_owned _ _ _ (make_config_owned _ _ _ _ _ _ Hc0) Hc) as Ho.
  destruct (ShutdownServer_owned i c c1 Ho Hsh) as (Ho1 & Hk1 & Hs1 & Hn1 & Hm1).
  destruct (runs_keep_saved i runs c1 Ho1 Hk1) as (Ho2 & Hs2 & Hn2 & Hm2).
  destruct (StartServer_owned _ _ _ _ _ Ho2 Hst) as (_ & Hk & Hi). rewrite Hn2, Hn1, Hm2, Hm1, Hs2, Hs1 in Hi.
  eexists _, _. split; [exact Hk|]. rewrite Hi. do 3 f_equal. destruct (ow_cur _ Ho i p Hkv) as (x & Hx & Hsx). simplify_eq.
  unfold savedAt. rewrite Hsx. cbn. by rewrite (ow_cell _ Ho p inst Hp).
Qed.
End Persist.

(** ** The theorem at work *)

#[local] Instance kv_replica1 : Replica (KVServer Z Z) Z := KVServer_replica 0.

(** One server; it starts an election and so persists term 1 and its vote. *)
Definition candidate : KVServer Z Z :=
  mkKVServer 0 (Raft.StartElection 9 9 (kv_rf (StartKVServer 0 1 0 MakePersister (-1) (0, 0)))) 0 (-1).
Definition again : KVServer Z Z := mkKVServer 0 (Raft.StartElection 9 9 (kv_rf candidate)) 0 (-1).
Definition start1 : config (KVServer Z Z) Z := default (initial 0 0) (make_config 1 false (-1) [["a"%string]] (fun _ => (0, 0))).
Definition elected : config (KVServer Z Z) Z := default start1 (runOps [ORun 0 candidate] start1).
Definition stopped : config (KVServer Z Z) Z := default start1 (ShutdownServer 0 elected).
Definition restarted : config (KVServer Z Z) Z :=
  default start1 (StartServer 0 ["b"%string] (0, 0) (foldl (fun c x => serverRuns x.1 x.2 c) stopped [(0%nat, again)])).

(** The old server persisted term 2 after it was shut down; the new one starts in term 1. *)
Lemma restart_gets_last_state_witness :
  exists p' a, kvservers restarted !! 0%nat = Some (Some p') /\
    instances restarted !! p' = Some (mkInstance (r_start 1 0 (r_persister candidate) (-1) (0, 0)) a) /\
    Raft.currentTerm (Raft.Stat (kv_rf (r_start 1 0 (r_persister candidate) (-1) (0, 0)))) = 1.
Proof.
  destruct (restart_gets_last_state 1 false (-1) [["a"%string]] (fun _ => (0, 0)) [ORun 0 candidate] start1 elected 0 0
    (mkInstance candidate 0) stopped [(0%nat, again)] ["b"%string] (0, 0) restarted) as (p' & a & H1 & H2); [by vm_compute..|].
  exists p', a. split_and!; [done|exact H2|by vm_compute].
Defined.
