(* ===== verification/ShardCtrler.v ===== *)
(** * ShardCtrler: the shard controller
      (src/6.5840-golabs-2024/src/shardctrler/common.go, client.go, server.go)

    The server is a skeleton around a Raft peer: its handlers have empty bodies.  The clerk
    sends its request to the servers in turn, again and again, until one of them answers that
    it is the leader.  What the network and the servers answer is an argument: [call r i args]
    is the reply of server [i] in round [r], [None] when [Call] returns false. *)

From S2P Require Import Prelude Persister Raft KvRaft.
Local Open Scope Z_scope.

(** ** common.go *)

Definition NShards : Z := 10.

(** [Shards] has [NShards] elements; [Groups] may be the nil map. *)
Record Config := mkConfig {
  Num : Z;
  Shards : list Z;
  Groups : option (gmap Z (list string))
}.
Definition zeroConfig : Config := mkConfig 0 (replicate (Z.to_nat NShards) 0) None.
(** Reading a nil map is reading an empty one. *)
Definition groupOf (c : Config) (gid : Z) : option (list string) := default ∅ (Groups c) !! gid.

Definition OK : string := "OK".
Record JoinArgs := mkJoinArgs { ja_Servers : gmap Z (list string) }.
Record JoinReply := mkJoinReply { jr_WrongLeader : bool; jr_Err : string }.
Record LeaveArgs := mkLeaveArgs { la_GIDs : list Z }.
Record LeaveReply := mkLeaveReply { lr_WrongLeader : bool; lr_Err : string }.
Record MoveArgs := mkMoveArgs { ma_Shard : Z; ma_GID : Z }.
Record MoveReply := mkMoveReply { mr_WrongLeader : bool; mr_Err : string }.
Record QueryArgs := mkQueryArgs { qa_Num : Z }.
Record QueryReply := mkQueryReply { qr_WrongLeader : bool; qr_Err : string; qr_Config : Config }.

(** ** server.go *)

Section Server.
Context {C byte : Type} `{!Gob byte Z} `{!Gob byte (list (LogEntries C))} (zero_cmd : C).

Record ShardCtrler := mkShardCtrler { sc_me : nat; sc_rf : Raft.Raft C byte; sc_configs : list Config }.

Definition Join (args : JoinArgs) (reply : JoinReply) (sc : ShardCtrler) : ShardCtrler * JoinReply := (sc, reply).
Definition Leave (args : LeaveArgs) (reply : LeaveReply) (sc : ShardCtrler) : ShardCtrler * LeaveReply := (sc, reply).
Definition Move (args : MoveArgs) (reply : MoveReply) (sc : ShardCtrler) : ShardCtrler * MoveReply := (sc, reply).
Definition Query (args : QueryArgs) (reply : QueryReply) (sc : ShardCtrler) : ShardCtrler * QueryReply := (sc, reply).

Definition Kill (sc : ShardCtrler) : ShardCtrler := mkShardCtrler (sc_me sc) (Raft.Kill (sc_rf sc)) (sc_configs sc).
Definition Raft_ (sc : ShardCtrler) : Raft.Raft C byte := sc_rf sc.

Definition StartServer (servers me : nat) (ps : Persister byte) (t : Z * Z) : ShardCtrler :=
  mkShardCtrler me (Make zero_cmd servers me ps t.1 t.2) [mkConfig 0 (replicate (Z.to_nat NShards) 0) (Some ∅)].

#[export] Program Instance ShardCtrler_replica : Replica ShardCtrler byte := {|
  r_start servers me ps _ t := StartServer servers me ps t;
  r_Kill := Kill;
  r_GetState sc := Raft.GetState (sc_rf sc);
  r_persister sc := persister (sc_rf sc)
|}.
Next Obligation. intros servers me ps ? t. cbn. exact (r_start_keeps (Replica := KVServer_replica zero_cmd) servers me ps 0 t). Qed.
Next Obligation. done. Qed.
End Server.
Arguments ShardCtrler : clear implicits.

(** ** client.go *)

(** The client ends, by name. *)
Record Clerk := mkClerk { ck_servers : list string }.
Definition MakeClerk (servers : list string) : Clerk := mkClerk servers.

Section Retry.
Context {R : Type} (wrongLeader : R -> bool).

(** Is the reply one the clerk stops at? *)
Definition accepted (reply : option R) : bool := match reply with Some r => negb (wrongLeader r) | None => false end.

(** The inner loop, from server [i] on. *)
Fixpoint tryEach (call : nat -> option R) (i : nat) (servers : list string) : option R :=
  match servers with
  | [] => None
  | _ :: servers =>
      let reply := call i in
      if accepted reply then reply else tryEach call (S i) servers
  end.

(** The outer loop, for [fuel] rounds from round [r] on; [None]: it goes on. *)
Fixpoint retry (call : nat -> nat -> option R) (servers : list string) (fuel r : nat) : option R :=
  match fuel with
  | O => None
  | S fuel =>
      match tryEach (call r) 0 servers with
      | Some reply => Some reply
      | None => retry call servers fuel (S r)
      end
  end.

Lemma tryEach_None call i servers :
  tryEach call i servers = None <-> forall j, (j < length servers)%nat -> accepted (call (i + j)%nat) = false.
Proof.
  revert i. induction servers as [|s servers IH]; intros i; cbn; [split; [intros _ j Hj; lia|done]|].
  destruct (accepted (call i)) eqn:E.
  - split; [intros Hn; by rewrite Hn in E|]. intros Hall. specialize (Hall 0%nat ltac:(lia)). rewrite Nat.add_0_r in Hall. congruence.
  - rewrite IH. split.
    + intros Hall [|j] Hj; [by rewrite Nat.add_0_r|]. replace (i + S j)%nat with (S i + j)%nat by lia. apply Hall. lia.
    + intros Hall j Hj. replace (S i + j)%nat with (i + S j)%nat by lia. apply Hall. lia.
Qed.

Lemma tryEach_Some call i servers x :
  tryEach call i servers = Some x <->
  exists j, (j < length servers)%nat /\ call (i + j)%nat = Some x /\ wrongLeader x = false /\
    forall j', (j' < j)%nat -> accepted (call (i + j')%nat) = false.
Proof.
  revert i. induction servers as [|s servers IH]; intros i; cbn; [split; [done|intros (j & Hj & _); lia]|].
  destruct (accepted (call i)) eqn:E.
  - split.
    + intros Hx. exists 0%nat. rewrite Nat.add_0_r. split_and!; [lia|done| |intros; lia]. rewrite Hx in E. cbn in E.
      by apply negb_true_iff in E.
    + intros ([|j] & Hj & Hc & Hw & Hall); [by rewrite Nat.add_0_r in Hc|]. specialize (Hall 0%nat ltac:(lia)).
      rewrite Nat.add_0_r in Hall. congruence.
  - rewrite IH. split.
    + intros (j & Hj & Hc & Hw & Hall). exists (S j). replace (i + S j)%nat with (S i + j)%nat by lia. split_and!; [lia|done..|].
      intros [|j'] Hj'; [by rewrite Nat.add_0_r|]. replace (i + S j')%nat with (S i + j')%nat by lia. apply Hall. lia.
    + intros ([|j] & Hj & Hc & Hw & Hall); [rewrite Nat.add_0_r in Hc; rewrite Hc in E; cbn in E; by rewrite Hw in E|].
      exists j. replace (S i + j)%nat with (i + S j)%nat by lia. split_and!; [lia|done..|].
      intros j' Hj'. replace (S i + j')%nat with (i + S j')%nat by lia. apply Hall. lia.
Qed.

(** Round [r], server [i] comes before round [r'], server [i']. *)
Definition earlier (r i r' i' : nat) : Prop := (r < r')%nat \/ r = r' /\ (i < i')%nat.

Lemma retry_first call servers fuel r0 x :
  retry call servers fuel r0 = Some x <->
  exists r i, (r0 <= r < r0 + fuel)%nat /\ (i < length servers)%nat /\ call r i = Some x /\ wrongLeader x = false /\
    forall r' i', (r0 <= r')%nat -> (i' < length servers)%nat -> earlier r' i' r i -> accepted (call r' i') = false.
Proof.
  revert r0. induction fuel as [|fuel IH]; intros r0; cbn; [split; [done|intros (r & i & ? & _); lia]|].
  destruct (tryEach (call r0) 0 servers) as [y|] eqn:E.
  - pose proof E as (j & Hj & Hc & Hw & Hall)%tryEach_Some. cbn in Hc, Hall. split.
    + intros [= <-]. exists r0, j. split_and!; [lia..|done|done|]. intros r' i' Hr Hi [?|[-> Hlt]]; [lia|by apply Hall].
    + intros (r & i & Hr & Hi & Hc' & Hw' & Hall'). f_equal.
      assert (accepted (call r0 j) = true) as Ha by (rewrite Hc; cbn; by rewrite Hw).
      assert (~ earlier r0 j r i) as Hne by (intros He; rewrite (Hall' r0 j) in Ha; [done|lia|done|done]).
      unfold earlier in Hne. assert (r = r0) as -> by lia. destruct (decide (i < j)%nat) as [Hij|Hij].
      * specialize (Hall i Hij). rewrite Hc' in Hall. cbn in Hall. by rewrite Hw' in Hall.
      * assert (i = j) as -> by lia. congruence.
  - pose proof (proj1 (tryEach_None _ _ _) E) as Hnone. cbn in Hnone. rewrite IH. split.
    + intros (r & i & Hr & Hi & Hc & Hw & Hall). exists r, i. split_and!; [lia..|done|done|]. intros r' i' Hr' Hi' He.
      destruct (decide (r' = r0)) as [->|]; [by apply Hnone|]. apply Hall; [lia|done..].
    + intros (r & i & Hr & Hi & Hc & Hw & Hall). assert (r <> r0) as Hne.
      { intros ->. specialize (Hnone i Hi). rewrite Hc in Hnone. cbn in Hnone. by rewrite Hw in Hnone. }
      exists r, i. split_and!; [lia..|done|done|]. intros r' i' Hr' Hi' He. apply Hall; [lia|done..].
Qed.

Lemma retry_None call servers fuel r0 :
  retry call servers fuel r0 = None <->
  forall r i, (r0 <= r < r0 + fuel)%nat -> (i < length servers)%nat -> accepted (call r i) = false.
Proof.
  revert r0. induction fuel as [|fuel IH]; intros r0; cbn; [split; [intros _ r i ?; lia|done]|].
  destruct (tryEach (call r0) 0 servers) as [y|] eqn:E.
  - apply tryEach_Some in E as (j & Hj & Hc & Hw & _). cbn in Hc. split; [done|]. intros Hall. specialize (Hall r0 j ltac:(lia) Hj).
    rewrite Hc in Hall. cbn in Hall. by rewrite Hw in Hall.
  - pose proof (proj1 (tryEach_None _ _ _) E) as Hnone. cbn in Hnone. rewrite IH. split.
    + intros Hall r i Hr Hi. destruct (decide (r = r0)) as [->|]; [by apply Hnone|]. apply Hall; [lia|done].
    + intros Hall r i Hr Hi. apply Hall; [lia|done].
Qed.
End Retry.

(** The methods of the clerk, for at most [fuel] rounds. *)
Section Methods.
Context (ck : Clerk) (fuel : nat).

Definition Clerk_Query (call : nat -> nat -> QueryArgs -> option QueryReply) (num : Z) : option Config :=
  qr_Config <$> retry qr_WrongLeader (fun r i => call r i (mkQueryArgs num)) (ck_servers ck) fuel 0.
Definition Clerk_Join (call : nat -> nat -> JoinArgs -> option JoinReply) (servers : gmap Z (list string)) : option unit :=
  (fun _ => tt) <$> retry jr_WrongLeader (fun r i => call r i (mkJoinArgs servers)) (ck_servers ck) fuel 0.
Definition Clerk_Leave (call : nat -> nat -> LeaveArgs -> option LeaveReply) (gids : list Z) : option unit :=
  (fun _ => tt) <$> retry lr_WrongLeader (fun r i => call r i (mkLeaveArgs gids)) (ck_servers ck) fuel 0.
Definition Clerk_Move (call : nat -> nat -> MoveArgs -> option MoveReply) (shard gid : Z) : option unit :=
  (fun _ => tt) <$> retry mr_WrongLeader (fun r i => call r i (mkMoveArgs shard gid)) (ck_servers ck) fuel 0.
End Methods.

(** [Query] returns the configuration of the first server, in the order of rounds and servers,
    that answers and does not say that it is not the leader; it returns as soon as there is
    such an answer and goes on for ever when there is none. *)
Theorem query_first_leader ck call num :
  (forall fuel cfg, Clerk_Query ck fuel call num = Some cfg <->
     exists r i reply, (r < fuel)%nat /\ (i < length (ck_servers ck))%nat /\
       call r i (mkQueryArgs num) = Some reply /\ qr_WrongLeader reply = false /\ qr_Config reply = cfg /\
       forall r' i', (i' < length (ck_servers ck))%nat -> earlier r' i' r i ->
         accepted qr_WrongLeader (call r' i' (mkQueryArgs num)) = false) /\
  ((forall fuel, Clerk_Query ck fuel call num = None) <->
   forall r i, (i < length (ck_servers ck))%nat -> accepted qr_WrongLeader (call r i (mkQueryArgs num)) = false).
Proof.
  unfold Clerk_Query. split.
  - intros fuel cfg. rewrite fmap_Some. setoid_rewrite retry_first. split.
    + intros (reply & (r & i & Hr & Hi & Hc & Hw & Hall) & ->). exists r, i, reply. split_and!; try done; [lia|].
      intros r' i' Hi' He. apply Hall; [lia|done..].
    + intros (r & i & reply & Hr & Hi & Hc & Hw & <- & Hall). exists reply. split; [|done]. exists r, i. split_and!; try done; [lia..|].
      intros r' i' _ Hi' He. by apply Hall.
  - setoid_rewrite fmap_None. setoid_rewrite retry_None. split.
    + intros Hall r i Hi. apply (Hall (S r)); [lia|done].
    + intros Hall fuel r i _ Hi. by apply Hall.
Qed.
