(* ===== verification/ShardKv.v ===== *)
(** * ShardKv: the sharded key/value service
      (src/6.5840-golabs-2024/src/shardkv/common.go, client.go, server.go)

    The server is a skeleton.  The clerk looks up the group of a key in its configuration, asks
    the servers of the group in turn, and fetches a new configuration from the controller when
    none of them served the key.  Replies and configurations are arguments: [call r si srv] is
    what server [srv], number [si] of its group, answers in round [r], and [query r] is what
    [sm.Query(-1)] returns at the end of round [r], [None] when it does not return.  The loops
    record what the clerk did as a list of events. *)

From S2P Require Import Prelude Persister Raft KvRaft ShardCtrler.
Local Open Scope Z_scope.

(** ** common.go *)

Definition OK : string := "OK".
Definition ErrNoKey : string := "ErrNoKey".
Definition ErrWrongGroup : string := "ErrWrongGroup".
Definition ErrWrongLeader : string := "ErrWrongLeader".
Record PutAppendArgs := mkPutAppendArgs { pa_Key : string; pa_Value : string; pa_Op : string }.
Record PutAppendReply := mkPutAppendReply { par_Err : string }.
Record GetArgs := mkGetArgs { ga_Key : string }.
Record GetReply := mkGetReply { gr_Err : string; gr_Value : string }.

(** ** server.go *)

Section Server.
Context {C byte : Type} `{!Gob byte Z} `{!Gob byte (list (LogEntries C))} (zero_cmd : C).

(** [ctrlers]: the ends to the controllers, by name; [make_end] is the tester's. *)
Record ShardKV := mkShardKV { kv_me : nat; kv_rf : Raft.Raft C byte; kv_gid : Z; kv_ctrlers : list string; kv_maxraftstate : Z }.

Definition Get (args : GetArgs) (reply : GetReply) (kv : ShardKV) : ShardKV * GetReply := (kv, reply).
Definition PutAppend (args : PutAppendArgs) (reply : PutAppendReply) (kv : ShardKV) : ShardKV * PutAppendReply := (kv, reply).
Definition Kill (kv : ShardKV) : ShardKV :=
  mkShardKV (kv_me kv) (Raft.Kill (kv_rf kv)) (kv_gid kv) (kv_ctrlers kv) (kv_maxraftstate kv).
Definition StartServer (servers me : nat) (ps : Persister byte) (maxraftstate gid : Z) (ctrlers : list string) (t : Z * Z) : ShardKV :=
  mkShardKV me (Make zero_cmd servers me ps t.1 t.2) gid ctrlers maxraftstate.
End Server.
Arguments ShardKV : clear implicits.

(** ** client.go *)

Definition key2shard (key : string) : Z :=
  let shard := match key with EmptyString => 0 | String b _ => Z.of_N (Ascii.N_of_ascii b) end in
  Z.rem shard NShards.

Record Clerk := mkClerk { ck_sm : ShardCtrler.Clerk; ck_config : Config }.
Definition MakeClerk (ctrlers : list string) : Clerk := mkClerk (ShardCtrler.MakeClerk ctrlers) zeroConfig.

(** What the clerk does, in order. *)
Inductive Event {R : Type} :=
| Called (srv : string) (reply : option R)
| Queried (cfg : Config).
Arguments Event : clear implicits.

Section Loop.
Context {R : Type} (errOf : R -> string) (served : string -> bool).

(** Is this the reply the clerk returns with, or one that makes it give up the group? *)
Definition isServed (reply : option R) : bool := match reply with Some x => served (errOf x) | None => false end.
Definition isWrongGroup (reply : option R) : bool := match reply with Some x => bool_decide (errOf x = ErrWrongGroup) | None => false end.

(** The loop over the servers of the group: the events and the reply it returns with. *)
Fixpoint tryServers (call : nat -> string -> option R) (si : nat) (servers : list string) : list (Event R) * option R :=
  match servers with
  | [] => ([], None)
  | srv :: servers =>
      let reply := call si srv in
      if isServed reply then ([Called srv reply], reply)
      else if isWrongGroup reply then ([Called srv reply], None)
      else let '(evs, res) := tryServers call (S si) servers in (Called srv reply :: evs, res)
  end.

(** One group lookup.  The inner option is a missing group, the outer one [Shards[shard]] out of
    range. *)
Definition groupServers (cfg : Config) (key : string) : option (option (list string)) :=
  gid ← go_index (Shards cfg) (key2shard key); Some (groupOf cfg gid).

Inductive Outcome :=
| Returned (reply : R)
| Panicked
| Running.

(** The outer loop, for [fuel] rounds from round [r] on: the last configuration, the events and
    how it ended. *)
Fixpoint loop (call : nat -> nat -> string -> option R) (query : nat -> option Config) (key : string)
    (fuel r : nat) (cfg : Config) : Config * list (Event R) * Outcome :=
  match fuel with
  | O => (cfg, [], Running)
  | S fuel =>
      match groupServers cfg key with
      | None => (cfg, [], Panicked)
      | Some servers =>
          match tryServers (call r) 0 (default [] servers) with
          | (evs, Some reply) => (cfg, evs, Returned reply)
          | (evs, None) =>
              match query r with
              | None => (cfg, evs, Running)
              | Some cfg =>
                  let '(cfg', evs', res) := loop call query key fuel (S r) cfg in
                  (cfg', evs ++ Queried cfg :: evs', res)
              end
          end
      end
  end.
End Loop.

(** [Get]: the clerk's new configuration, what it did, and the value it returns. *)
Definition Clerk_Get (call : nat -> nat -> string -> GetArgs -> option GetReply) (query : nat -> option Config)
    (fuel : nat) (ck : Clerk) (key : string) : Clerk * list (Event GetReply) * Outcome :=
  let '(cfg, evs, res) := loop gr_Err (fun e => bool_decide (e = OK) || bool_decide (e = ErrNoKey))
                            (fun r si srv => call r si srv (mkGetArgs key)) query key fuel 0 (ck_config ck) in
  (mkClerk (ck_sm ck) cfg, evs, res).

Definition Clerk_PutAppend (call : nat -> nat -> string -> PutAppendArgs -> option PutAppendReply) (query : nat -> option Config)
    (fuel : nat) (ck : Clerk) (key value op : string) : Clerk * list (Event PutAppendReply) * Outcome :=
  let '(cfg, evs, res) := loop par_Err (fun e => bool_decide (e = OK))
                            (fun r si srv => call r si srv (mkPutAppendArgs key value op)) query key fuel 0 (ck_config ck) in
  (mkClerk (ck_sm ck) cfg, evs, res).
Definition Clerk_Put call query fuel ck key value := Clerk_PutAppend call query fuel ck key value "Put".
Definition Clerk_Append call query fuel ck key value := Clerk_PutAppend call query fuel ck key value "Append".

(** ** Shards *)

(** A configuration as its type has it: [Shards] is an array. *)
Definition wf_config (cfg : Config) : Prop := zlen (Shards cfg) = NShards.

Lemma key2shard_bounds key : 0 <= key2shard key < NShards.
Proof.
  unfold key2shard. apply Z.rem_bound_pos; [|done]. destruct key as [|b key]; [done|]. apply N2Z.is_nonneg.
Qed.

Lemma groupServers_there cfg key : wf_config cfg -> is_Some (groupServers cfg key).
Proof.
  intros Hwf. unfold groupServers. destruct (go_index_in_range (Shards cfg) (key2shard key)) as [gid ->]; [|by eexists].
  rewrite Hwf. apply key2shard_bounds.
Qed.

(** ** Runs of the clerk *)

Section Runs.
Context {R : Type} (errOf : R -> string) (served : string -> bool).

(** The configuration the clerk has after some events. *)
Definition current (cfg : Config) (evs : list (Event R)) : Config :=
  foldl (fun c e => match e with Queried c' => c' | Called _ _ => c end) cfg evs.

(** What a run of the clerk may look like.  Calls go to servers of the group that the clerk's
    configuration at that moment gives the key; a reply that serves the key ends the run, and
    after a wrong-group reply the clerk asks the controller before it calls again. *)
Record sound_run (cfg : Config) (key : string) (cfg' : Config) (evs : list (Event R)) (res : Outcome) : Prop := {
  sr_current : cfg' = current cfg evs;
  sr_routed pre srv reply post : evs = pre ++ Called srv reply :: post ->
    exists servers, groupServers (current cfg pre) key = Some (Some servers) /\ srv ∈ servers;
  sr_served pre srv reply post : evs = pre ++ Called srv reply :: post -> isServed errOf served reply = true ->
    post = [] /\ exists x, reply = Some x /\ res = Returned x;
  sr_wrong pre srv reply post : evs = pre ++ Called srv reply :: post -> isServed errOf served reply = false ->
    isWrongGroup errOf reply = true -> post = [] \/ exists c post', post = Queried c :: post';
  sr_returned x : res = Returned x -> exists pre srv, evs = pre ++ [Called srv (Some x)] /\ served (errOf x) = true;
  sr_panic : res <> Panicked
}.

(** The calls of one round, all to the same configuration. *)
Lemma tryServers_calls call si servers evs res e :
  tryServers errOf served call si servers = (evs, res) -> e ∈ evs -> exists srv reply, e = Called srv reply /\ srv ∈ servers.
Proof.
  revert si evs res. induction servers as [|srv servers IH]; intros si evs res; cbn; [intros [= <- <-] ?%not_elem_of_nil; done|].
  repeat case_match; intros [= <- <-]; rewrite ?list_elem_of_singleton, ?elem_of_cons; [intros ->; eauto with set_solver..|].
  all: try (eexists _, _; split; [done|by left]). intros [->|Hin]; [eexists _, _; split; [done|by left]|].
  destruct (IH _ _ _ H1 Hin) as (s & rep & -> & Hs). eexists _, _. split; [done|by right].
Qed.

Lemma tryServers_current call si servers evs res cfg :
  tryServers errOf served call si servers = (evs, res) -> current cfg evs = cfg.
Proof.
  revert si evs res. induction servers as [|srv servers IH]; intros si evs res; cbn; [by intros [= <- <-]|].
  repeat case_match; intros [= <- <-]; [done..|]. cbn. by eapply IH.
Qed.

Lemma tryServers_ends call si servers evs res pre srv reply post :
  tryServers errOf served call si servers = (evs, res) -> evs = pre ++ Called srv reply :: post ->
  (isServed errOf served reply = true -> post = [] /\ res = reply) /\
  (isServed errOf served reply = false -> isWrongGroup errOf reply = true -> post = [] /\ res = None).
Proof.
  revert si evs res pre. induction servers as [|s servers IH]; intros si evs res pre; cbn; [intros [= <- <-]; by destruct pre|].
  destruct (isServed errOf served (call si s)) eqn:E1; [|destruct (isWrongGroup errOf (call si s)) eqn:E2];
    [intros [= <- <-]; destruct pre as [|? [|]]; intros [=]; subst; split; intros; try split; congruence..|].
  destruct (tryServers errOf served call (S si) servers) as [evs1 res1] eqn:Et. intros [= <- <-]. destruct pre as [|e pre].
  - intros [=]. subst. split; congruence.
  - intros [= _ E]. by eapply IH.
Qed.

Lemma tryServers_returns call si servers evs x :
  tryServers errOf served call si servers = (evs, Some x) ->
  exists pre srv, evs = pre ++ [Called srv (Some x)] /\ served (errOf x) = true.
Proof.
  revert si evs. induction servers as [|s servers IH]; intros si evs; cbn; [done|].
  destruct (isServed errOf served (call si s)) eqn:E1; [|destruct (isWrongGroup errOf (call si s)) eqn:E2].
  - intros [= <- E]. rewrite E in *. by exists [], s.
  - done.
  - destruct (tryServers errOf served call (S si) servers) as [evs1 res1] eqn:Et. intros [= <- ->].
    destruct (IH _ _ Et) as (pre & srv & -> & Hs). by exists (Called s (call si s) :: pre), srv.
Qed.

Lemma current_calls cfg (pre : list (Event R)) : (forall e, e ∈ pre -> exists s rep, e = Called s rep) -> current cfg pre = cfg.
Proof.
  induction pre as [|e pre IH] using rev_ind; intros Hpre; [done|]. unfold current. rewrite foldl_app. cbn.
  destruct (Hpre e) as (s & rep & ->); [set_solver|]. apply IH. intros e' He'. apply Hpre. set_solver.
Qed.

Lemma tryServers_routed call si servers evs res cfg pre srv reply post key :
  groupServers cfg key = Some servers -> tryServers errOf served call si (default [] servers) = (evs, res) ->
  evs = pre ++ Called srv reply :: post ->
  exists l, groupServers (current cfg pre) key = Some (Some l) /\ srv ∈ l.
Proof.
  intros Hg Et E. destruct (tryServers_calls _ _ _ _ _ (Called srv reply) Et) as (? & ? & [= <- <-] & Hin); [rewrite E; set_solver|].
  rewrite current_calls, Hg.
  - destruct servers as [l|]; cbn in Hin; [eauto|by apply not_elem_of_nil in Hin].
  - intros e He. destruct (tryServers_calls _ _ _ _ _ e Et) as (s & rep & -> & _); [rewrite E; set_solver|eauto].
Qed.

(** A call is made before or after a query. *)
Lemma split_events (evs evs' : list (Event R)) cfg pre srv reply post :
  evs ++ Queried cfg :: evs' = pre ++ Called srv reply :: post ->
  (exists post0, evs = pre ++ Called srv reply :: post0 /\ post = post0 ++ Queried cfg :: evs') \/
  (exists pre1, pre = evs ++ Queried cfg :: pre1 /\ evs' = pre1 ++ Called srv reply :: post).
Proof.
  intros E. apply app_eq_app in E as [k [[-> E]|[-> E]]]; (destruct k as [|e k]; [done|]); injection E as <- ->; eauto.
Qed.

Lemma loop_sound call query key fuel r cfg cfg' evs res :
  wf_config cfg -> (forall r c, query r = Some c -> wf_config c) ->
  loop errOf served call query key fuel r cfg = (cfg', evs, res) -> sound_run cfg key cfg' evs res.
Proof.
  intros Hwf Hq. revert r cfg cfg' evs res Hwf. induction fuel as [|fuel IH]; intros r cfg cfg' evs res Hwf; cbn.
  { intros [= <- <- <-]. split; try done; by intros []. }
  destruct (groupServers_there cfg key Hwf) as [servers Hg]. rewrite Hg.
  destruct (tryServers errOf served (call r) 0 (default [] servers)) as [evs0 res0] eqn:Et.
  assert (Hroute := fun pre srv reply post => tryServers_routed _ _ _ _ _ _ pre srv reply post _ Hg Et).
  assert (Hends := fun pre srv reply post => tryServers_ends _ _ _ _ _ pre srv reply post Et).
  destruct res0 as [x|]; [|destruct (query r) as [cfg1|] eqn:Eq].
  - intros [= <- <- <-]. split; try done.
    + symmetry. by eapply tryServers_current.
    + intros pre srv reply post E Hs. destruct (Hends pre srv reply post E) as [H1 _]. destruct (H1 Hs) as [-> <-]. eauto.
    + intros pre srv reply post E Hs Hw. destruct (Hends pre srv reply post E) as [_ H2]. by destruct (H2 Hs Hw).
    + intros y [= <-]. by eapply tryServers_returns.
  - destruct (loop errOf served call query key fuel (S r) cfg1) as [[cfg2 evs1] res1] eqn:El. intros [= <- <- <-].
    pose proof (IH _ _ _ _ _ (Hq r cfg1 Eq) El) as [A1 A2 A3 A4 A5 A6].
    assert (Hcur : forall l, current cfg (evs0 ++ Queried cfg1 :: l) = current cfg1 l) by (intros l; unfold current; by rewrite foldl_app).
    assert (Hsplit := fun pre srv reply post => split_events evs0 evs1 cfg1 pre srv reply post).
    split; try done.
    + by rewrite Hcur.
    + intros pre srv reply post [(post0 & E & _)|(pre1 & -> & E)]%Hsplit; [by eapply Hroute|]. rewrite Hcur. by eapply A2.
    + intros pre srv reply post [(post0 & E & _)|(pre1 & -> & E)]%Hsplit Hs; [|by eapply A3].
      destruct (Hends pre srv reply post0 E) as [H1 _]. destruct (H1 Hs) as [_ <-]. done.
    + intros pre srv reply post [(post0 & E & ->)|(pre1 & -> & E)]%Hsplit Hs Hw; [|by eapply A4].
      destruct (Hends pre srv reply post0 E) as [_ H2]. destruct (H2 Hs Hw) as [-> _]. right. cbn. eauto.
    + intros x (pre & srv & -> & Hx)%A5. exists (evs0 ++ Queried cfg1 :: pre), srv. by rewrite <- app_assoc.
  - intros [= <- <- <-]. split; try done.
    + symmetry. by eapply tryServers_current.
    + intros pre srv reply post E Hs. destruct (Hends pre srv reply post E) as [H1 _]. destruct (H1 Hs) as [_ <-]. done.
    + intros pre srv reply post E Hs Hw. destruct (Hends pre srv reply post E) as [_ H2]. left. by destruct (H2 Hs Hw).
Qed.
End Runs.

(** The reply of a round that serves the key: server [si] of the group serves it, and no server
    before it says that the group is wrong. *)
Definition serves {R} (errOf : R -> string) (served : string -> bool) (call : nat -> string -> option R) (servers : list string) : Prop :=
  exists si srv, servers !! si = Some srv /\ isServed errOf served (call si srv) = true /\
    forall si' srv', (si' < si)%nat -> servers !! si' = Some srv' -> isWrongGroup errOf (call si' srv') = false.

Lemma tryServers_serves {R} (errOf : R -> string) served call i servers :
  serves errOf served (fun si => call (i + si)%nat) servers -> exists evs x, tryServers errOf served call i servers = (evs, Some x).
Proof.
  revert i. induction servers as [|s servers IH]; intros i (si & srv & Hsi & Hs & Hw); [done|]. cbn.
  destruct (isServed errOf served (call i s)) eqn:E1; [destruct (call i s) as [x|]; [eauto|done]|].
  destruct si as [|si]; cbn in Hsi; [injection Hsi as ->; rewrite Nat.add_0_r in Hs; congruence|].
  pose proof (Hw 0%nat s ltac:(lia) eq_refl) as Hw0. rewrite Nat.add_0_r in Hw0. rewrite Hw0.
  destruct (IH (S i)) as (evs & x & ->); [|eauto]. exists si, srv. replace (S i + si)%nat with (i + S si)%nat by lia.
  split_and!; [done..|]. intros si' srv' Hlt Hl. replace (S i + si')%nat with (i + S si')%nat by lia. apply (Hw (S si')); [lia|done].
Qed.

Lemma loop_returns {R} (errOf : R -> string) served call query key r0 r (cfgs : nat -> Config) servers :
  (forall r', (r0 <= r' <= r)%nat -> wf_config (cfgs r')) ->
  (forall r', (r0 <= r' < r)%nat -> query r' = Some (cfgs (S r'))) -> (r0 <= r)%nat ->
  groupServers (cfgs r) key = Some (Some servers) -> serves errOf served (call r) servers ->
  exists cfg' evs x, loop errOf served call query key (S r - r0) r0 (cfgs r0) = (cfg', evs, Returned x).
Proof.
  intros Hwf Hq Hle Hg Hs. remember (r - r0)%nat as d eqn:Hd. revert r0 Hd Hwf Hq Hle. induction d as [|d IH]; intros r0 Hd Hwf Hq Hle.
  - assert (r0 = r) as -> by lia. replace (S r - r)%nat with 1%nat by lia. cbn [loop]. rewrite Hg. change (default [] (Some servers)) with servers.
    destruct (tryServers_serves errOf served (call r) 0 servers Hs) as (evs & x & ->). eauto.
  - replace (S r - r0)%nat with (S (S r - S r0))%nat by lia. cbn [loop].
    destruct (groupServers_there (cfgs r0) key) as [sv ->]; [apply Hwf; lia|].
    destruct (tryServers errOf served (call r0) 0 (default [] sv)) as [evs [x|]]; [eauto|]. rewrite Hq by lia.
    destruct (IH (S r0)) as (cfg' & evs' & x & ->); [lia|intros; apply Hwf; lia|intros; apply Hq; lia|lia|eauto].
Qed.

(** ** What the clerk does *)

(** [key2shard] gives every key one of the shards, so that the lookup in [Shards] is in range
    for every configuration, and every shard has keys. *)
Theorem key2shard_total key shard :
  (0 <= key2shard key < NShards /\ forall cfg, wf_config cfg -> is_Some (go_index (Shards cfg) (key2shard key))) /\
  (0 <= shard < NShards -> exists key', key2shard key' = shard).
Proof.
  split; [split; [apply key2shard_bounds|]|].
  - intros cfg Hwf. destruct (go_index_in_range (Shards cfg) (key2shard key)) as [x ->]; [|by eexists].
    rewrite Hwf. apply key2shard_bounds.
  - intros Hs. exists (String (Ascii.ascii_of_N (Z.to_N shard)) EmptyString). unfold key2shard, NShards in *.
    rewrite Ascii.N_ascii_embedding by lia. rewrite Z2N.id by lia. apply Z.rem_small. lia.
Qed.

(** C38: the clerk talks to the owner of the key only.  In every run of [Get] and [PutAppend], over
    any replies and any configurations from the controller, each call goes to a server of the
    group that the clerk's latest configuration gives the key's shard; after a wrong-group
    reply the controller is asked before another server; the methods do not panic, and they
    return only with a reply that serves the key. *)
Theorem clerk_routes ck key value op callG callP query fuel :
  wf_config (ck_config ck) -> (forall r c, query r = Some c -> wf_config c) ->
  (let '(ck', evs, res) := Clerk_Get callG query fuel ck key in
   sound_run gr_Err (fun e => bool_decide (e = OK) || bool_decide (e = ErrNoKey)) (ck_config ck) key (ck_config ck') evs res) /\
  (let '(ck', evs, res) := Clerk_PutAppend callP query fuel ck key value op in
   sound_run par_Err (fun e => bool_decide (e = OK)) (ck_config ck) key (ck_config ck') evs res).
Proof.
  intros Hwf Hq. unfold Clerk_Get, Clerk_PutAppend. split.
  - destruct (loop gr_Err _ _ _ _ _ _ _) as [[cfg evs] res] eqn:E. by eapply loop_sound.
  - destruct (loop par_Err _ _ _ _ _ _ _) as [[cfg evs] res] eqn:E. by eapply loop_sound.
Qed.

(** C39: [Get] returns.  When the controller answers and in some round [r] the group of the key in
    the clerk's configuration has a server that serves the key, with no wrong-group reply
    before it, [Get] has returned after that round. *)
Theorem clerk_get_returns ck key call query r (cfgs : nat -> Config) servers :
  cfgs 0%nat = ck_config ck -> (forall r', wf_config (cfgs r')) -> (forall r', (r' < r)%nat -> query r' = Some (cfgs (S r'))) ->
  groupServers (cfgs r) key = Some (Some servers) ->
  serves gr_Err (fun e => bool_decide (e = OK) || bool_decide (e = ErrNoKey)) (fun si srv => call r si srv (mkGetArgs key)) servers ->
  exists ck' evs reply, Clerk_Get call query (S r) ck key = (ck', evs, Returned reply).
Proof.
  intros H0 Hwf Hq Hg Hs. unfold Clerk_Get. rewrite <- H0.
  edestruct (loop_returns gr_Err (fun e => bool_decide (e = OK) || bool_decide (e = ErrNoKey))
    (fun r si srv => call r si srv (mkGetArgs key)) query key 0 r cfgs servers) as (cfg' & evs & x & E); [by intros; apply Hwf|intros; apply Hq; lia|lia|done|done|].
  replace (S r - 0)%nat with (S r) in E by lia. rewrite E. eauto.
Qed.

(** ** The theorems at work *)

Lemma key2shard_total_witness : exists key', key2shard key' = 7.
Proof. apply (key2shard_total ""); unfold NShards; lia. Defined.

(** Group 100 has the shards; its first server is not the leader, the second one is. *)
Definition cfg1 : Config := mkConfig 1 (replicate 10 100) (Some {[100 := ["s0"; "s1"]%string]}).
Definition answers (r si : nat) (srv : string) (args : GetArgs) : option GetReply :=
  if bool_decide (srv = "s1"%string) then Some (mkGetReply OK "v") else Some (mkGetReply ErrWrongLeader "").
Definition clerk0 : Clerk := MakeClerk ["c0"%string].

Lemma clerk_routes_witness :
  let '(ck', evs, res) := Clerk_Get answers (fun _ => Some cfg1) 3 clerk0 "k" in
  res = Returned (mkGetReply OK "v") /\ ck_config ck' = current (ck_config clerk0) evs.
Proof.
  destruct (clerk_routes clerk0 "k" "" "" answers (fun _ _ _ _ => None) (fun _ => Some cfg1) 3) as [[Hcur _ _ _ _ _] _];
    [done|by intros r c [= <-]|]. split; [done|exact Hcur].
Defined.

Lemma clerk_get_returns_witness :
  exists ck' evs reply, Clerk_Get answers (fun _ => Some cfg1) 2 clerk0 "k" = (ck', evs, Returned reply).
Proof.
  apply (clerk_get_returns clerk0 "k" answers (fun _ => Some cfg1) 1 (fun r => match r with O => zeroConfig | S _ => cfg1 end) ["s0"; "s1"]%string);
    [done|by intros [|]|done|done|]. exists 1%nat, "s1"%string. split_and!; [done..|]. intros [|si'] srv' Hlt Hl; [by injection Hl as <-|lia].
Defined.
