(* ===== verification/CtrlerTester.v ===== *)
(** * CtrlerTester: the tester of the shard controller
      (src/6.5840-golabs-2024/src/shardctrler/config.go)

    The file repeats kvraft/config.go around [ShardCtrler] servers, without statistics and
    without [maxraftstate].  Where the text is the same the definitions are those of Tester.v,
    at the type of these servers; [Leader] skips servers that are down, where kvraft's
    dereferences a nil pointer. *)

From S2P Require Import Prelude Persister Raft LabRPC TestNet KvRaft ShardCtrler Tester TesterFacts TesterProps TesterPersist.
Local Open Scope Z_scope.

Section CtrlerTester.
Context {C byte : Type} `{!Gob byte Z} `{!Gob byte (list (LogEntries C))} (zero_cmd : C).
#[local] Instance ctrler_replica : Replica (ShardCtrler C byte) byte := ShardCtrler_replica zero_cmd.

Definition config : Type := Tester.config (ShardCtrler C byte) byte.
Implicit Types (c : config).

Definition random_handles (r : nat -> nat) (kvh : list string) : list string := Tester.random_handles r kvh.

Definition checkTimeout (failed : bool) (elapsed : Z) : bool := Tester.checkTimeout failed elapsed.
Definition cleanup (failed : bool) (elapsed : Z) c : option config := Tester.cleanup failed elapsed c.
Definition LogSize c : option Z := Tester.LogSize c.
Definition connectUnlocked (i : nat) (to : list nat) c : option config := Tester.connectUnlocked i to c.
Definition connect (i : nat) (to : list nat) c : option config := Tester.connect i to c.
Definition disconnectUnlocked (i : nat) (from : list nat) c : option config := Tester.disconnectUnlocked i from c.
Definition disconnect (i : nat) (from : list nat) c : option config := Tester.disconnect i from c.
Definition All c : list nat := Tester.All c.
Definition ConnectAll c : option config := Tester.ConnectAll c.
Definition partition (p1 p2 : list nat) c : option config := Tester.partition p1 p2 c.
Definition makeClient (to : list nat) (names : list string) (r : nat -> nat) c : option (config * nat) := Tester.makeClient to names r c.
Definition deleteClient (ck : nat) c : config := Tester.deleteClient ck c.
Definition ConnectClientUnlocked (ck : nat) (to : list nat) c : option config := Tester.ConnectClientUnlocked ck to c.
Definition ConnectClient (ck : nat) (to : list nat) c : option config := Tester.ConnectClient ck to c.
Definition DisconnectClientUnlocked (ck : nat) (from : list nat) c : option config := Tester.DisconnectClientUnlocked ck from c.
Definition DisconnectClient (ck : nat) (from : list nat) c : option config := Tester.DisconnectClient ck from c.
Definition ShutdownServer (i : nat) c : option config := Tester.ShutdownServer i c.
Definition StartServer_ (i : nat) (names : list string) (t : Z * Z) c : option config := Tester.StartServer i names t c.

(** Servers that are down are skipped. *)
Fixpoint leaderFrom c (is_ : list nat) : bool * nat :=
  match is_ with
  | [] => (false, 0%nat)
  | i :: is_ => match stateOf c i with Some (_, true) => (true, i) | _ => leaderFrom c is_ end
  end.
Definition Leader c : bool * nat := leaderFrom c (seq 0 (n c)).
Definition make_partition c : option (list nat * list nat) := partsFor (n c) (Leader c).2.

Definition make_config (k : nat) (unreliable : bool) (names : list (list string)) (t : nat -> Z * Z) : option config :=
  Tester.make_config k unreliable 0 names t.

(** ** Properties *)

(** [Leader] answers also when servers are down: the first running server that leads. *)
Lemma leaderFrom_spec c is_ :
  (exists i, leaderFrom c is_ = (true, i) /\ i ∈ is_ /\ exists term, stateOf c i = Some (term, true)) \/
  leaderFrom c is_ = (false, 0%nat) /\ forall i term, i ∈ is_ -> stateOf c i <> Some (term, true).
Proof.
  induction is_ as [|i is_ IH]; cbn; [right; split; [done|intros ? ? ?%not_elem_of_nil; done]|].
  destruct (stateOf c i) as [[term [|]]|] eqn:E.
  - left. exists i. split_and!; [done|by left|eauto].
  - destruct IH as [(j & -> & Hj & Hst)|[-> Hno]]; [left; exists j; split_and!; [done|by right|done]|right].
    split; [done|]. intros j t [->|Hj]%elem_of_cons; [congruence|by apply Hno].
  - destruct IH as [(j & -> & Hj & Hst)|[-> Hno]]; [left; exists j; split_and!; [done|by right|done]|right].
    split; [done|]. intros j t [->|Hj]%elem_of_cons; [congruence|by apply Hno].
Qed.

(** The controller's tester can always split its servers.  In every state of an odd number of
    at least three servers, whichever are down, [make_partition] answers: the parts hold every
    server once, and when some running server leads, a leader is the last of the minority. *)
Theorem ctrler_partition_total c :
  Nat.odd (n c) = true -> (3 <= n c)%nat ->
  exists p1 p2, make_partition c = Some (p1, p2) /\ (p1 ++ p2 ≡ₚ seq 0 (n c)) /\ (2 * length p1 > n c)%nat /\
    ((exists i term, (i < n c)%nat /\ stateOf c i = Some (term, true)) ->
     exists l term, last p2 = Some l /\ stateOf c l = Some (term, true)).
Proof.
  intros Hodd Hk. unfold make_partition, Leader.
  assert (Hl : ((leaderFrom c (seq 0 (n c))).2 < n c)%nat).
  { destruct (leaderFrom_spec c (seq 0 (n c))) as [(i & -> & Hi%elem_of_seq & _)|[-> _]]; cbn; lia. }
  destruct (partsFor_spec _ _ Hl ltac:(lia)) as (p1 & p2 & Hp & Hl1 & Hl2 & E).
  unfold Nat.odd in Hodd. apply negb_true_iff in Hodd. rewrite Hodd in E. cbn [app] in E.
  exists p1, p2. split_and!; [done| |rewrite Hl1; pose proof (Nat.div_mod (n c) 2 ltac:(lia)); pose proof (Nat.mod_upper_bound (n c) 2 ltac:(lia)); lia|].
  - rewrite E. by apply filter_seq_others.
  - intros (i & term & Hi & Hst). destruct (leaderFrom_spec c (seq 0 (n c))) as [(l & Hlead & _ & [t Ht])|[_ Hno]].
    + exists l, t. split; [|done]. rewrite Hlead in E. destruct p2 as [|x p2 _] using rev_ind.
      { exfalso. symmetry in Hl2. apply Nat.div_small_iff in Hl2; lia. }
      rewrite app_assoc in E. apply app_inj_tail in E as [_ ->]. apply last_snoc.
    + destruct (Hno i term); [apply elem_of_seq; lia|done].
Qed.
End CtrlerTester.
