(* ===== verification/ShardTester.v ===== *)
(** * ShardTester: the tester of the sharded service
      (src/6.5840-golabs-2024/src/shardkv/config.go)

    The tester runs a controller of three servers and three groups of [n] servers on one
    network; servers have names that are strings.  Servers and persisters are addresses of
    [objects] and [persisters].  [supply] holds the random strings to come; [None] is a panic,
    [log.Fatalf], [t.Fatalf], or the end of the supply. *)

From S2P Require Import Prelude Decimal Persister Raft LabRPC TestNet KvRaft ShardCtrler ShardKv Tester.
Local Open Scope Z_scope.

(** Make, connect and enable an end, for each pair of an end name and a server name. *)
Fixpoint linkEnds (es : list (string * string)) (rn : Net) : option Net :=
  match es with
  | [] => Some rn
  | (e, s) :: es => rn ← MakeEnd (inl e) rn; linkEnds es (Enable (inl e) true (Connect (inl e) (inl s) rn))
  end.

Definition servername (gid : Z) (i : nat) : string := ("server-" +:+ Itoa gid +:+ "-" +:+ Itoa (Z.of_nat i))%string.

Section ShardTester.
Context {C byte : Type} `{!Gob byte Z} `{!Gob byte (list (LogEntries C))} (zero_cmd : C).

(** A server in memory, with the address of its persister. *)
Inductive Object :=
| KvObject (kv : ShardKV C byte) (persister : nat)
| CtlObject (sc : ShardCtrler C byte) (persister : nat).

Record group := mkGroup {
  gid : Z;
  g_servers : list (option nat);
  g_saved : list (option nat);
  g_endnames : list (option (list string));
  mendnames : list (option (list string))
}.

Record ctrler := mkCtrler {
  ct_n : nat;
  ct_servers : list (option nat);
  ct_names : list string;
  ct_ck : ShardCtrler.Clerk
}.

Record config := mkConfig {
  net : Net;
  ctl : ctrler;
  ngroups : nat;
  n : nat;
  groups : list group;
  clerks : gmap nat (list string);
  nextClientId : Z;
  maxraftstate : Z;
  objects : list Object;
  persisters : list (Persister byte);
  clerkObjects : list ShardKv.Clerk;
  supply : list string
}.

Definition set_net x c := mkConfig x (ctl c) (ngroups c) (n c) (groups c) (clerks c) (nextClientId c) (maxraftstate c) (objects c) (persisters c) (clerkObjects c) (supply c).
Definition set_ctl x c := mkConfig (net c) x (ngroups c) (n c) (groups c) (clerks c) (nextClientId c) (maxraftstate c) (objects c) (persisters c) (clerkObjects c) (supply c).
Definition set_groups x c := mkConfig (net c) (ctl c) (ngroups c) (n c) x (clerks c) (nextClientId c) (maxraftstate c) (objects c) (persisters c) (clerkObjects c) (supply c).
Definition set_objects x c := mkConfig (net c) (ctl c) (ngroups c) (n c) (groups c) (clerks c) (nextClientId c) (maxraftstate c) x (persisters c) (clerkObjects c) (supply c).
Definition set_persisters x c := mkConfig (net c) (ctl c) (ngroups c) (n c) (groups c) (clerks c) (nextClientId c) (maxraftstate c) (objects c) x (clerkObjects c) (supply c).
Definition set_supply x c := mkConfig (net c) (ctl c) (ngroups c) (n c) (groups c) (clerks c) (nextClientId c) (maxraftstate c) (objects c) (persisters c) (clerkObjects c) x.
Definition set_clerks m cs k c := mkConfig (net c) (ctl c) (ngroups c) (n c) (groups c) m k (maxraftstate c) (objects c) (persisters c) cs (supply c).

(** [k] calls of [randstring]. *)
Definition randstrings (k : nat) (c : config) : option (list string * config) :=
  if bool_decide (k <= length (supply c))%nat then Some (take k (supply c), set_supply (drop k (supply c)) c) else None.

Definition ctrlername (ct : ctrler) (i : nat) : option string := ct_names ct !! i.

(** A fresh end for each of the servers [names]; the end names. *)
Definition freshEnds (names : list string) (c : config) : option (list string * config) :=
  '(es, c) ← randstrings (length names) c;
  rn ← linkEnds (zip es names) (net c);
  Some (es, set_net rn c).

(** The function the tester passes as [make_end]. *)
Definition make_end (servername : string) (c : config) : option (string * config) :=
  '(es, c) ← freshEnds [servername] c; e ← head es; Some (e, c).

(** The names of the controllers, [ctl.ctrlername(j)] for [j < ctl.n]. *)
Definition ctrlernames (ct : ctrler) : option (list string) := mapM (ctrlername ct) (seq 0 (ct_n ct)).

(** [endnames] is made with [cfg.n] elements and indexed by the controllers. *)
Definition makeClient (ct : ctrler) (c : config) : option (config * nat) :=
  names ← ctrlernames ct;
  '(es, c) ← freshEnds names c;
  if bool_decide (ct_n ct <= n c)%nat then
    let ck := length (clerkObjects c) in
    let endnames := es ++ replicate (n c - ct_n ct) ""%string in
    Some (set_clerks (<[ck := endnames]> (clerks c)) (clerkObjects c ++ [ShardKv.MakeClerk es]) (nextClientId c + 1) c, ck)
  else None.

Definition deleteClient (ck : nat) (c : config) : config :=
  set_clerks (delete ck (clerks c)) (clerkObjects c) (nextClientId c) c.

(** ** Servers of a group *)

Definition killObject (o : Object) : Object :=
  match o with KvObject kv p => KvObject (ShardKv.Kill kv) p | CtlObject sc p => CtlObject (ShardCtrler.Kill sc) p end.
Definition kill (a : nat) (c : config) : config := set_objects (alter killObject a (objects c)) c.

Definition savedAt (gg : group) (c : config) (i : nat) : option (Persister byte) := a ← mjoin (g_saved gg !! i); persisters c !! a.

Definition ShutdownServer (gi i : nat) (c : config) : option config :=
  gg ← groups c !! gi;
  names ← (if bool_decide (length (g_servers gg) = 0%nat) then Some []
           else ns ← mjoin (g_endnames gg !! i); mapM (fun j => ns !! j) (seq 0 (length (g_servers gg))));
  mnames ← mendnames gg !! i;
  let rn := enableAll false (default [] mnames) (enableAll false names (net c)) in
  let c := set_net (DeleteServer (inl (servername (gid gg) i)) rn) c in
  let '(gg, c) := match savedAt gg c i with
                  | Some ps => (mkGroup (gid gg) (g_servers gg) (<[i := Some (length (persisters c))]> (g_saved gg)) (g_endnames gg) (mendnames gg),
                                set_persisters (persisters c ++ [Copy ps]) c)
                  | None => (gg, c)
                  end in
  kv ← g_servers gg !! i;
  match kv with
  | Some a =>
      let gg := mkGroup (gid gg) (<[i := None]> (g_servers gg)) (g_saved gg) (g_endnames gg) (mendnames gg) in
      Some (set_groups (<[gi := gg]> (groups c)) (kill a c))
  | None => Some (set_groups (<[gi := gg]> (groups c)) c)
  end.

(** [for i := 0; i < k; i++] *)
Fixpoint forEach (is_ : list nat) (f : nat -> config -> option config) (c : config) : option config :=
  match is_ with [] => Some c | i :: is_ => c ← f i c; forEach is_ f c end.

Definition ShutdownGroup (gi : nat) (c : config) : option config := forEach (seq 0 (n c)) (ShutdownServer gi) c.

(** [t]: the time and the random number of [raft.Make].  Both slices of end names are indexed
    with the server's number. *)
Definition StartServer (t : Z * Z) (gi i : nat) (c : config) : option config :=
  gg ← groups c !! gi;
  if negb (bool_decide (i < length (g_endnames gg))%nat) then None
  else
    '(es, c) ← freshEnds (servername (gid gg) <$> seq 0 (n c)) c;
    if negb (bool_decide (i < length (mendnames gg))%nat) then None
    else
      cnames ← ctrlernames (ctl c);
      '(ms, c) ← freshEnds cnames c;
      let ps := match savedAt gg c i with Some ps => Copy ps | None => MakePersister end in
      let a := length (objects c) in
      let p := length (persisters c) in
      let c := set_persisters (persisters c ++ [ps]) c in
      if negb (bool_decide (i < length (g_servers gg))%nat) then None
      else
        let srv := ShardKv.StartServer zero_cmd (n c) i ps (maxraftstate c) (gid gg) ms t in
        let gg := mkGroup (gid gg) (<[i := Some a]> (g_servers gg)) (<[i := Some p]> (g_saved gg))
                    (<[i := Some es]> (g_endnames gg)) (<[i := Some ms]> (mendnames gg)) in
        let c := set_objects (objects c ++ [KvObject srv p]) (set_groups (<[gi := gg]> (groups c)) c) in
        Some (set_net (AddServer (inl (servername (gid gg) i)) a (net c)) c).

Definition StartGroup (t : Z * Z) (gi : nat) (c : config) : option config := forEach (seq 0 (n c)) (StartServer t gi) c.

(** ** The controller *)

Definition StartCtrlerServer (t : Z * Z) (i : nat) (c : config) : option config :=
  let ct := ctl c in
  names ← ctrlernames ct;
  '(_, c) ← freshEnds names c;
  let a := length (objects c) in
  let p := length (persisters c) in
  if negb (bool_decide (i < length (ct_servers ct))%nat) then None
  else
    let sc := ShardCtrler.StartServer zero_cmd (ct_n ct) i MakePersister t in
    let c := set_objects (objects c ++ [CtlObject sc p]) (set_persisters (persisters c ++ [MakePersister]) c) in
    let c := set_ctl (mkCtrler (ct_n ct) (<[i := Some a]> (ct_servers ct)) (ct_names ct) (ct_ck ct)) c in
    name ← ctrlername ct i;
    Some (set_net (AddServer (inl name) a (net c)) c).

Definition ctrlerclerk (ct : ctrler) (c : config) : option (ShardCtrler.Clerk * config) :=
  names ← ctrlernames ct;
  '(es, c) ← freshEnds names c;
  Some (ShardCtrler.MakeClerk es, c).

Definition StartCtrlerService (t : Z * Z) (c : config) : option config :=
  '(rs, c) ← randstrings 3 c;
  let c := set_ctl (mkCtrler 3 (replicate 3 None) ((fun r => "ctlr-" +:+ r)%string <$> rs) (ShardCtrler.MakeClerk [])) c in
  c ← forEach (seq 0 3) (StartCtrlerServer t) c;
  '(ck, c) ← ctrlerclerk (ctl c) c;
  Some (set_ctl (mkCtrler (ct_n (ctl c)) (ct_servers (ctl c)) (ct_names (ctl c)) ck) c).

(** What [joinm] tells the controller: the names of the servers of each group. *)
Definition joinServers (gis : list nat) (c : config) : option (gmap Z (list string)) :=
  foldl (fun acc g => m ← acc; gg ← groups c !! g; Some (<[gid gg := servername (gid gg) <$> seq 0 (n c)]> m)) (Some ∅) gis.
Definition joinm (call : nat -> nat -> JoinArgs -> option JoinReply) (fuel : nat) (gis : list nat) (ct : ctrler) (c : config) : option unit :=
  m ← joinServers gis c; Clerk_Join (ct_ck ct) fuel call m.
Definition join call fuel (gi : nat) (c : config) : option unit := joinm call fuel [gi] (ctl c) c.
Definition ctljoin call fuel (gi : nat) (ct : ctrler) (c : config) : option unit := joinm call fuel [gi] ct c.
Definition leaveGids (gis : list nat) (c : config) : option (list Z) := mapM (fun g => gid <$> groups c !! g) gis.
Definition leavem (call : nat -> nat -> LeaveArgs -> option LeaveReply) (fuel : nat) (gis : list nat) (c : config) : option unit :=
  gids ← leaveGids gis c; Clerk_Leave (ct_ck (ctl c)) fuel call gids.
Definition leave call fuel (gi : nat) (c : config) : option unit := leavem call fuel [gi] c.

(** ** The whole test *)

(** The round of [make_config]'s loop for group [gi]: [mendnames] has one slot per controller. *)
Definition startGroup (t : Z * Z) (gi : nat) (c : config) : option config :=
  let gg := mkGroup (100 + Z.of_nat gi) (replicate (n c) None) (replicate (n c) None) (replicate (n c) None)
              (replicate (ct_n (ctl c)) None) in
  forEach (seq 0 (n c)) (StartServer t gi) (set_groups (groups c ++ [gg]) c).

Definition empty (k : nat) (maxraftstate : Z) (names : list string) : config :=
  mkConfig MakeNetwork (mkCtrler 0 [] [] (ShardCtrler.MakeClerk [])) 3 k [] ∅ (Z.of_nat k + 1000) maxraftstate [] [] [] names.
Definition make_config (k : nat) (unreliable : bool) (maxraftstate : Z) (names : list string) (t : Z * Z) : option config :=
  c ← StartCtrlerService t (empty k maxraftstate names);
  c ← forEach (seq 0 3) (startGroup t) c;
  Some (set_net (Reliable (negb unreliable) (net c)) c).

(** [false] is [t.Fatalf]. *)
Definition logOk (c : config) (ps : Persister byte) : bool :=
  negb ((maxraftstate c >=? 0) && (RaftStateSize ps >? 8 * maxraftstate c))
  && negb ((maxraftstate c <? 0) && (zlen (ReadSnapshot ps) >? 0)).
Definition checklogs (c : config) : option bool :=
  forallb (logOk c) <$> mapM (fun p => gg ← groups c !! p.1; savedAt gg c p.2) (list_prod (seq 0 (ngroups c)) (seq 0 (n c))).

Definition cleanup (failed : bool) (elapsed : Z) (c : config) : option config :=
  c ← forEach (seq 0 (ngroups c)) ShutdownGroup c;
  servers ← mapM (fun i => mjoin (ct_servers (ctl c) !! i)) (seq 0 (ct_n (ctl c)));
  let c := foldl (fun c a => kill a c) c servers in
  rn ← LabRPC.Cleanup (net c);
  if checkTimeout failed elapsed then Some (set_net rn c) else None.
End ShardTester.
Arguments config : clear implicits.
