(* ===== verification/ShardTesterProps.v ===== *)
(** * ShardTesterProps: what the tester of the sharded service sets up

    The names the tester publishes lead to the servers they stand for, and the sizes of its
    slices allow three servers per group only. *)

From S2P Require Import Prelude Decimal Persister Raft LabRPC TestNet KvRaft ShardCtrler ShardKv Tester ShardTester.
Local Open Scope Z_scope.

Lemma servername_inj g i g' i' : 0 <= g -> 0 <= g' -> servername g i = servername g' i' -> g = g' /\ i = i'.
Proof.
  intros Hg Hg' E. apply (f_equal chars) in E. unfold servername in E. rewrite !chars_app in E. apply app_inv_head in E.
  change (chars "-") with [dash] in E. apply (last_dash (chars (Itoa g)) (chars (Itoa g'))) in E as [E1 E2]; [|apply Itoa_digits; lia..].
  apply chars_inj, Itoa_inj in E1, E2. split; [done|lia].
Qed.

(** ** Fresh ends *)

Lemma linkEnds_spec (es : list (string * string)) (rn : Net) :
  NoDup es.*1 -> (forall e, e ∈ es.*1 -> inl e ∉ ends rn) ->
  exists rn', linkEnds es rn = Some rn' /\ servers rn' = servers rn /\
    reliable rn' = reliable rn /\ longReordering rn' = longReordering rn /\
    (forall x, x ∈ ends rn' <-> x ∈ ends rn \/ exists e, x = inl e /\ e ∈ es.*1) /\
    (forall e s, (e, s) ∈ es -> isEnabled (inl e) rn' = true /\ connections rn' !! inl e = Some (Some (inl s))) /\
    (forall e, e ∉ es.*1 -> isEnabled (inl e) rn' = isEnabled (inl e) rn /\ connections rn' !! inl e = connections rn !! inl e).
Proof.
  revert rn. induction es as [|[e s] es IH]; intros rn Hnd Hfr.
  { exists rn. split_and!; try done; [set_solver|]. intros e s ?%not_elem_of_nil. done. }
  cbn in Hnd. apply NoDup_cons in Hnd as [Hni Hnd]. cbn [linkEnds]. unfold MakeEnd.
  rewrite bool_decide_eq_false_2 by (apply Hfr; by left). cbn [mbind option_bind].
  destruct (IH (Enable (inl e) true (Connect (inl e) (inl s) (mkNetwork (reliable rn) (longDelays rn) (longReordering rn)
    ({[inl e]} ∪ ends rn) (<[inl e := false]> (enabled rn)) (servers rn) (<[inl e := None]> (connections rn)) (count rn) (bytes rn) (done rn)))) Hnd)
    as (rn' & -> & A1 & A2 & A3 & A4 & A5 & A6).
  { intros e' He'. cbn. specialize (Hfr e'). set_solver. }
  exists rn'. cbn in A1, A2, A3, A4. split_and!; [done..| | |].
  - intros x. rewrite A4. set_solver.
  - intros e' s' [[= -> ->]|Hin]%elem_of_cons; [|by apply A5]. destruct (A6 e Hni) as [-> ->]. cbn. unfold isEnabled. cbn.
    by rewrite !lookup_insert_eq.
  - intros e' [Hne Hni']%not_elem_of_cons. cbn in Hne. destruct (A6 e' Hni') as [-> ->]. unfold isEnabled. cbn.
    by rewrite !lookup_insert_ne by congruence.
Qed.

Section Props.
Context {C byte : Type} `{!Gob byte Z} `{!Gob byte (list (LogEntries C))} (zero_cmd : C).
Implicit Types (c : config C byte).

(** The random strings to come are different and new. *)
Definition ready c : Prop := NoDup (supply c) /\ forall e, e ∈ supply c -> inl e ∉ ends (net c).

Lemma take_drop_disjoint {A} (l : list A) k x : NoDup l -> x ∈ take k l -> x ∉ drop k l.
Proof. intros Hnd Hx Hd. rewrite <- (take_drop k l) in Hnd. apply NoDup_app in Hnd as (_ & Hdj & _). by apply (Hdj x). Qed.

Lemma freshEnds_spec names c :
  ready c -> (length names <= length (supply c))%nat ->
  exists es rn, freshEnds names c = Some (es, set_net rn (set_supply (drop (length names) (supply c)) c)) /\
    length es = length names /\ ready (set_net rn (set_supply (drop (length names) (supply c)) c)) /\
    servers rn = servers (net c) /\ reliable rn = reliable (net c) /\ longReordering rn = longReordering (net c) /\
    forall j e s, es !! j = Some e -> names !! j = Some s ->
      isEnabled (inl e) rn = true /\ connections rn !! inl e = Some (Some (inl s)).
Proof.
  intros [Hnd Hfr] Hlen. unfold freshEnds, randstrings. rewrite bool_decide_eq_true_2 by done. cbn [mbind option_bind].
  set (es := take (length names) (supply c)). assert (length es = length names) as Hes by (unfold es; rewrite length_take; lia).
  assert (Hfst : (zip es names).*1 = es) by (apply fst_zip; lia).
  destruct (linkEnds_spec (zip es names) (net c)) as (rn & Hl & A1 & A2 & A3 & A4 & A5 & _).
  { rewrite Hfst. unfold es. rewrite <- (take_drop (length names) (supply c)) in Hnd. by apply NoDup_app in Hnd as [? _]. }
  { rewrite Hfst. intros e He. apply Hfr. unfold es in He. rewrite <- (take_drop (length names)). set_solver. }
  exists es, rn. cbn [net set_supply]. rewrite Hl. cbn [mbind option_bind]. split_and!; try done.
  - split; cbn.
    + rewrite <- (take_drop (length names) (supply c)) in Hnd. by apply NoDup_app in Hnd as (_ & _ & ?).
    + intros e He [Hin|(e' & [= <-] & He')]%A4.
      * apply (Hfr e); [|done]. rewrite <- (take_drop (length names)). set_solver.
      * rewrite Hfst in He'. by apply (take_drop_disjoint (supply c) (length names) e).
  - intros j e s He Hs. apply (A5 e s). apply list_elem_of_lookup. exists j. apply lookup_zip_Some. done.
Qed.

(** ** Starting servers *)

(** Server [i] of group [gg] is on the network. *)
Definition running c (gg : group) (i : nat) : Prop :=
  exists a kv p, g_servers gg !! i = Some (Some a) /\ serverAt (inl (servername (gid gg) i)) (net c) = Some a /\
    objects c !! a = Some (KvObject kv p) /\ kv_gid kv = gid gg /\ kv_me kv = i.

Definition sized (k : nat) (gi : nat) (gg : group) : Prop :=
  gid gg = 100 + Z.of_nat gi /\ length (g_servers gg) = k /\ length (g_saved gg) = k /\ length (g_endnames gg) = k /\
  length (mendnames gg) = 3%nat.

(** The groups before [G] run, and of group [G] the servers before [j]. *)
Record stage (k G j need : nat) c : Prop := {
  st_ready : ready c;
  st_n : n c = k;
  st_ctl : ct_n (ctl c) = 3%nat /\ length (ct_names (ctl c)) = 3%nat;
  st_supply : (need <= length (supply c))%nat;
  st_sized gi gg : groups c !! gi = Some gg -> sized k gi gg;
  st_len : j <> 0%nat -> S G = length (groups c);
  st_run gi gg i : groups c !! gi = Some gg -> (i < k)%nat -> (gi < G \/ gi = G /\ i < j)%nat -> running c gg i
}.

Lemma ctrlernames_there (ct : ctrler) : length (ct_names ct) = ct_n ct -> ctrlernames ct = Some (ct_names ct).
Proof.
  intros Hl. unfold ctrlernames, ctrlername. rewrite <- Hl. apply mapM_Some. apply Forall2_lookup. intros i.
  destruct (ct_names ct !! i) as [x|] eqn:E.
  - rewrite lookup_seq_lt by (by eapply lookup_lt_Some). by constructor.
  - apply lookup_ge_None in E. rewrite lookup_seq_ge by done. by constructor.
Qed.

Lemma StartServer_stage t k G j need c :
  stage k G j (need + k + 3) c -> S G = length (groups c) -> (j < k)%nat -> (j < 3)%nat ->
  exists c', StartServer zero_cmd t G j c = Some c' /\ stage k G (S j) need c'.
Proof.
  intros [Hrd Hn [Hct1 Hct2] Hsup Hsz _ Hrun] Hlen Hjk Hj3. unfold StartServer.
  destruct (lookup_lt_is_Some_2 (groups c) G) as [gg Hgg]; [lia|]. rewrite Hgg. cbn [mbind option_bind].
  destruct (Hsz G gg Hgg) as (Hgid & Hl1 & Hl2 & Hl3 & Hl4).
  rewrite bool_decide_eq_true_2 by lia. cbn [negb]. rewrite Hn.
  destruct (freshEnds_spec (servername (gid gg) <$> seq 0 k) c Hrd) as (es & rn1 & -> & _ & Hrd1 & Hsv1 & _);
    [rewrite length_fmap, length_seq; lia|]. cbn [mbind option_bind]. rewrite length_fmap, length_seq in Hrd1 |- *.
  set (c1 := set_net rn1 _) in *. rewrite bool_decide_eq_true_2 by lia. cbn [negb].
  change (ctl c1) with (ctl c). rewrite ctrlernames_there by lia. cbn [mbind option_bind].
  destruct (freshEnds_spec (ct_names (ctl c)) c1 Hrd1) as (ms & rn2 & -> & _ & Hrd2 & Hsv2 & _).
  { cbn. rewrite length_drop. lia. }
  cbn [mbind option_bind]. set (c2 := set_net rn2 _) in *. rewrite bool_decide_eq_true_2 by lia. cbn [negb].
  eexists. split; [done|]. split; cbn.
  - exact Hrd2.
  - done.
  - done.
  - rewrite !length_drop. lia.
  - intros gi g [(-> & <- & _)|[_ Hg]]%list_lookup_insert_Some; [|by apply Hsz]. split_and!; cbn; rewrite ?length_insert; done.
  - by rewrite length_insert.
  - intros gi g i Hg Hi Hlt. destruct (decide (gi = G /\ i = j)) as [[-> ->]|Hother].
    + rewrite list_lookup_insert_eq in Hg by lia. injection Hg as <-. eexists _, _, _. cbn.
      split_and!; [by rewrite list_lookup_insert_eq by lia|unfold serverAt, AddServer; cbn; by rewrite lookup_insert_eq|by rewrite list_lookup_middle|done|done].
    + assert (exists g0, groups c !! gi = Some g0 /\ gid g0 = gid g /\ g_servers g !! i = g_servers g0 !! i) as (g0 & Hg0 & Egid & Esrv).
      { apply list_lookup_insert_Some in Hg as [(<- & <- & _)|[_ Hg]]; [|eauto]. exists gg. cbn. split_and!; [done..|].
        rewrite list_lookup_insert_ne; [done|]. intros ->. tauto. }
      destruct (Hrun gi g0 i Hg0 Hi) as (a & kv & p & B1 & B2 & B3 & B4 & B5); [lia|].
      exists a, kv, p. rewrite Esrv, <- Egid. split_and!; [done| |by apply lookup_app_l_Some|done..].
      unfold serverAt, AddServer. cbn. rewrite lookup_insert_ne, Hsv2.
      * cbn. rewrite Hsv1. exact B2.
      * intros E%(inj inl). destruct (Hsz gi g0 Hg0) as (Hgid0 & _). apply servername_inj in E as [E1 ->]; [|lia..].
        rewrite Hgid, Hgid0 in E1. apply Hother. split; [lia|done].
Qed.

Lemma StartServer_fourth t k G need c : stage k G 3 need c -> S G = length (groups c) -> StartServer zero_cmd t G 3 c = None.
Proof.
  intros [_ _ _ _ Hsz _ _] Hlen. unfold StartServer. destruct (lookup_lt_is_Some_2 (groups c) G) as [gg Hgg]; [lia|].
  rewrite Hgg. cbn [mbind option_bind]. destruct (Hsz G gg Hgg) as (_ & _ & _ & _ & Hl4). case_bool_decide; [|done]. cbn [negb].
  destruct (freshEnds _ c) as [[es c1]|]; [|done]. cbn [mbind option_bind]. by rewrite bool_decide_eq_false_2 by lia.
Qed.

Lemma forEach_app is1 is2 f c : forEach (is1 ++ is2) f c = c' ← forEach is1 f c; forEach is2 f c'.
Proof.
  revert c. induction is1 as [|i is1 IH]; intros c; [done|]. cbn. destruct (f i c) as [c1|]; [|done]. cbn. apply IH.
Qed.

Lemma forEach_stage t k G j m need c :
  stage k G j (need + m * (k + 3)) c -> S G = length (groups c) -> (j + m <= k)%nat -> (j + m <= 3)%nat ->
  exists c', forEach (seq j m) (StartServer zero_cmd t G) c = Some c' /\ stage k G (j + m) need c' /\ S G = length (groups c').
Proof.
  revert j c. induction m as [|m IH]; intros j c Hst Hlen Hk H3.
  { exists c. cbn in Hst. rewrite Nat.add_0_r in Hst |- *. done. }
  cbn [seq forEach]. destruct (StartServer_stage t k G j (need + m * (k + 3)) c) as (c1 & -> & Hst1); [|done|lia..|].
  { replace (need + m * (k + 3) + k + 3)%nat with (need + S m * (k + 3))%nat by lia. done. }
  cbn [mbind option_bind]. pose proof (st_len _ _ _ _ _ Hst1 ltac:(lia)) as Hl1.
  destruct (IH (S j) c1 Hst1) as (c' & Hf & Hst' & Hl'); [lia..|]. exists c'. replace (j + S m)%nat with (S j + m)%nat by lia. done.
Qed.

(** The new group, before any of its servers is started. *)
Definition newGroup (k G : nat) : group :=
  mkGroup (100 + Z.of_nat G) (replicate k None) (replicate k None) (replicate k None) (replicate 3 None).

Lemma newGroup_stage k G need c : stage k G 0 need c -> length (groups c) = G ->
  stage k G 0 need (set_groups (groups c ++ [newGroup k G]) c).
Proof.
  intros [A1 A2 A3 A4 A5 A6 A7] Hlen. split; try done; cbn.
  - intros gi gg [Hg|[Hge Hg]]%lookup_app_Some; [by apply A5|]. apply list_lookup_singleton_Some in Hg as [Hi <-].
    assert (gi = G) as -> by lia. unfold sized, newGroup. cbn. by rewrite !length_replicate.
  - intros gi gg i [Hg|[Hge _]]%lookup_app_Some Hi Hlt; [|lia].
    destruct (A7 gi gg i Hg Hi Hlt) as (a & kv & p & B). by exists a, kv, p.
Qed.

Lemma startGroup_stage t k G need c :
  stage k G 0 (need + k * (k + 3)) c -> length (groups c) = G -> (k <= 3)%nat ->
  exists c', startGroup zero_cmd t G c = Some c' /\ stage k (S G) 0 need c' /\ length (groups c') = S G.
Proof.
  intros Hst Hlen Hk. unfold startGroup. rewrite (st_n _ _ _ _ _ Hst), (proj1 (st_ctl _ _ _ _ _ Hst)).
  change (n (set_groups _ c)) with (n c). fold (newGroup k G).
  destruct (forEach_stage t k G 0 k need (set_groups (groups c ++ [newGroup k G]) c)) as (c' & Hf & Hst' & Hl');
    [by apply newGroup_stage|cbn; rewrite length_app; cbn; lia|lia..|].
  exists c'. split_and!; [done| |done]. destruct Hst' as [A1 A2 A3 A4 A5 A6 A7]. split; try done.
  intros gi gg i Hg Hi Hlt. apply (A7 gi gg i Hg Hi). lia.
Qed.

Lemma startGroup_large t k need c :
  stage k 0 0 (need + 3 * (k + 3)) c -> length (groups c) = 0%nat -> (3 < k)%nat -> startGroup zero_cmd t 0 c = None.
Proof.
  intros Hst Hlen Hk. unfold startGroup. rewrite (st_n _ _ _ _ _ Hst), (proj1 (st_ctl _ _ _ _ _ Hst)). fold (newGroup k 0).
  assert (seq 0 k = seq 0 3 ++ 3%nat :: seq 4 (k - 4)) as -> by (replace k with (3 + S (k - 4))%nat at 1 by lia; by rewrite seq_app).
  rewrite forEach_app.
  destruct (forEach_stage t k 0 0 3 need (set_groups (groups c ++ [newGroup k 0]) c)) as (c' & -> & Hst' & Hl');
    [by apply newGroup_stage|cbn; rewrite length_app; cbn; lia|lia..|].
  cbn [mbind option_bind forEach]. by rewrite (StartServer_fourth t k 0 need c').
Qed.

(** ** The controller *)

Record ctl_stage (k need : nat) c : Prop := {
  cs_ready : ready c;
  cs_n : n c = k;
  cs_ctl : ct_n (ctl c) = 3%nat /\ length (ct_names (ctl c)) = 3%nat /\ length (ct_servers (ctl c)) = 3%nat;
  cs_supply : (need <= length (supply c))%nat;
  cs_groups : groups c = []
}.

Lemma StartCtrlerServer_stage t k need i c : ctl_stage k (need + 3) c -> (i < 3)%nat ->
  exists c', StartCtrlerServer zero_cmd t i c = Some c' /\ ctl_stage k need c'.
Proof.
  intros [Hrd Hn (H1 & H2 & H3) Hs Hg] Hi. unfold StartCtrlerServer. rewrite ctrlernames_there by lia. cbn [mbind option_bind].
  destruct (freshEnds_spec (ct_names (ctl c)) c Hrd) as (es & rn & -> & _ & Hrd1 & _); [lia|]. cbn [mbind option_bind].
  rewrite bool_decide_eq_true_2 by lia. cbn [negb]. unfold ctrlername.
  destruct (lookup_lt_is_Some_2 (ct_names (ctl c)) i) as [name ->]; [lia|]. cbn [mbind option_bind]. eexists. split; [done|].
  split; cbn; try done; [rewrite length_insert; by split_and!|rewrite length_drop; lia].
Qed.

Lemma StartCtrlerService_stage t k mrs names need : NoDup names -> (need + 15 <= length names)%nat ->
  exists c, StartCtrlerService zero_cmd t (empty k mrs names) = Some c /\ stage k 0 0 need c /\ groups c = [].
Proof.
  intros Hnd Hlen. unfold StartCtrlerService, randstrings. cbn [supply empty]. rewrite bool_decide_eq_true_2 by lia. cbn [mbind option_bind].
  set (c0 := set_ctl _ _).
  assert (ctl_stage k (need + 3 + 3 + 3 + 3) c0) as Hst0.
  { split; cbn; try done.
    - split; cbn; [|set_solver]. rewrite <- (take_drop 3 names) in Hnd. by apply NoDup_app in Hnd as (_ & _ & ?).
    - rewrite length_fmap, length_take. lia.
    - rewrite length_drop. lia. }
  cbn [seq forEach].
  destruct (StartCtrlerServer_stage t k _ 0 c0 Hst0) as (c1 & -> & Hst1); [lia|]. cbn [mbind option_bind].
  destruct (StartCtrlerServer_stage t k _ 1 c1 Hst1) as (c2 & -> & Hst2); [lia|]. cbn [mbind option_bind].
  destruct (StartCtrlerServer_stage t k _ 2 c2 Hst2) as (c3 & -> & Hst3); [lia|]. cbn [mbind option_bind].
  destruct Hst3 as [Hrd Hn (H1 & H2 & H3) Hs Hg]. unfold ctrlerclerk. rewrite ctrlernames_there by lia. cbn [mbind option_bind].
  destruct (freshEnds_spec (ct_names (ctl c3)) c3 Hrd) as (es & rn & -> & _ & Hrd1 & _); [lia|]. cbn [mbind option_bind].
  eexists. split; [done|]. split; [|done]. split; cbn; try done.
  - rewrite length_drop. lia.
  - intros gi gg. by rewrite Hg.
  - intros gi gg i Hgi. by rewrite Hg in Hgi.
Qed.

Lemma make_config_stage t k unreliable mrs names need : NoDup names -> (need + 3 * (k * (k + 3)) + 15 <= length names)%nat -> (k <= 3)%nat ->
  exists c, make_config zero_cmd k unreliable mrs names t = Some c /\ stage k 3 0 need c /\ length (groups c) = 3%nat.
Proof.
  intros Hnd Hlen Hk. unfold make_config.
  destruct (StartCtrlerService_stage t k mrs names (need + k * (k + 3) + k * (k + 3) + k * (k + 3)) Hnd) as (c0 & -> & Hst0 & Hg0); [lia|].
  cbn [mbind option_bind seq forEach].
  destruct (startGroup_stage t k 0 _ c0 Hst0) as (c1 & -> & Hst1 & Hl1); [by rewrite Hg0|done|]. cbn [mbind option_bind].
  destruct (startGroup_stage t k 1 _ c1 Hst1) as (c2 & -> & Hst2 & Hl2); [done..|]. cbn [mbind option_bind].
  destruct (startGroup_stage t k 2 _ c2 Hst2) as (c3 & -> & Hst3 & Hl3); [done..|]. cbn [mbind option_bind].
  eexists. split; [done|]. split; [|done]. destruct Hst3 as [A1 A2 A3 A4 A5 A6 A7]. by split.
Qed.

(** Only three servers per group work.  With enough different random strings [make_config]
    sets up a test exactly for at most three servers per group, since [mendnames] has one slot
    per controller; and a clerk can be made exactly for at least three, since its end names
    have one slot per server of a group. *)
Theorem only_three_servers k unreliable mrs names t :
  NoDup names -> (18 + 3 * (k * (k + 3)) <= length names)%nat ->
  (is_Some (make_config zero_cmd k unreliable mrs names t) <-> (k <= 3)%nat) /\
  (forall c, make_config zero_cmd k unreliable mrs names t = Some c -> is_Some (makeClient (ctl c) c) <-> k = 3%nat).
Proof.
  intros Hnd Hlen. assert (Hlarge : (3 < k)%nat -> make_config zero_cmd k unreliable mrs names t = None).
  { intros Hk. unfold make_config.
    destruct (StartCtrlerService_stage t k mrs names (0 + 3 * (k + 3)) Hnd) as (c0 & -> & Hst0 & Hg0); [nia|].
    cbn [mbind option_bind seq forEach]. by rewrite (startGroup_large t k 0 c0 Hst0) by (by rewrite ?Hg0). }
  split.
  - split; [|intros Hk; destruct (make_config_stage t k unreliable mrs names 3 Hnd) as (c & -> & _); [lia|done|by eexists]].
    intros [c Hc]. destruct (decide (k <= 3)%nat) as [|Hk]; [done|]. rewrite Hlarge in Hc by lia. done.
  - intros c Hc. destruct (decide (k <= 3)%nat) as [Hk|Hk]; [|rewrite Hlarge in Hc by lia; done].
    destruct (make_config_stage t k unreliable mrs names 3 Hnd) as (c0 & Hc' & Hst & _); [lia|done|]. assert (c0 = c) as -> by congruence.
    destruct Hst as [Hrd Hn [Hct1 Hct2] Hsup _ _ _]. unfold makeClient. rewrite ctrlernames_there by lia. cbn [mbind option_bind].
    destruct (freshEnds_spec (ct_names (ctl c)) c Hrd) as (es & rn & -> & _); [lia|]. cbn [mbind option_bind]. rewrite Hct1.
    change (n (set_net _ _)) with (n c). case_bool_decide as Hb.
    + split; [intros _; lia|intros _; by eexists].
    + split; [by intros [? ?]|lia].
Qed.

(** What [joinm] publishes is routable.  After [make_config], for every group that joins and
    every server of it, the map that [joinm] hands to the controller has a name at the group's
    id and the server's number, and [make_end] on that name gives an end that is enabled and
    leads to that server of that group. *)
Theorem published_names_route k unreliable mrs names t c gis :
  NoDup names -> (16 + 3 * (k * (k + 3)) <= length names)%nat -> make_config zero_cmd k unreliable mrs names t = Some c ->
  (k <= 3)%nat -> Forall (fun g => (g < 3)%nat) gis ->
  exists m, joinServers gis c = Some m /\
    forall g i, g ∈ gis -> (i < k)%nat ->
      exists srvs s e c' a kv p, m !! (100 + Z.of_nat g) = Some srvs /\ srvs !! i = Some s /\ make_end s c = Some (e, c') /\
        readEndnameInfo (inl e) (net c') = mkEndInfo true (Some (inl s)) (Some a) (reliable (net c)) (longReordering (net c)) /\
        objects c' !! a = Some (KvObject kv p) /\ kv_gid kv = 100 + Z.of_nat g /\ kv_me kv = i.
Proof.
  intros Hnd Hlen Hc Hk Hgis.
  destruct (make_config_stage t k unreliable mrs names 1 Hnd) as (c0 & Hc' & [Hrd Hn _ Hsup Hsz _ Hrun] & Hlg); [lia|done|]. assert (c0 = c) as -> by congruence.
  assert (Hjoin : exists m, joinServers gis c = Some m /\
    forall g, g ∈ gis -> m !! (100 + Z.of_nat g) = Some (servername (100 + Z.of_nat g) <$> seq 0 (n c))).
  { induction gis as [|g gis IH] using rev_ind; [exists ∅; split; [done|intros g ?%not_elem_of_nil; done]|].
    apply Forall_app in Hgis as [Hgis [Hg _]%Forall_cons]. destruct (IH Hgis) as (m & Hm & Hall).
    destruct (lookup_lt_is_Some_2 (groups c) g) as [gg Hgg]; [lia|]. destruct (Hsz g gg Hgg) as (Hgid & _).
    unfold joinServers in *. rewrite foldl_app, Hm. cbn. rewrite Hgg. cbn. eexists. split; [done|]. rewrite Hgid.
    intros g' [Hin|Hin%list_elem_of_singleton]%elem_of_app; [|subst; by rewrite lookup_insert_eq].
    destruct (decide (g' = g)) as [->|Hne]; [by rewrite lookup_insert_eq|]. rewrite lookup_insert_ne by lia. by apply Hall. }
  destruct Hjoin as (m & Hm & Hall). exists m. split; [done|]. intros g i Hg Hi.
  rewrite Forall_forall in Hgis. specialize (Hgis g Hg). destruct (lookup_lt_is_Some_2 (groups c) g) as [gg Hgg]; [lia|].
  destruct (Hsz g gg Hgg) as (Hgid & _).
  destruct (Hrun g gg i Hgg) as (a & kv & p & _ & B2 & B3 & B4 & B5); [lia..|]. rewrite Hgid in B2, B4.
  destruct (freshEnds_spec [servername (100 + Z.of_nat g) i] c Hrd) as (es & rn & Hf & Hes & _ & Hsv & Hrel & Hlong & Hends); [cbn; lia|].
  destruct es as [|e [|]]; try done. destruct (Hends 0%nat e _ eq_refl eq_refl) as [He1 He2].
  eexists _, (servername (100 + Z.of_nat g) i), e, (set_net rn (set_supply (drop 1 (supply c)) c)), a, kv, p. split_and!; [by apply Hall| | | |done..].
  - rewrite list_lookup_fmap, lookup_seq_lt by lia. done.
  - unfold make_end. rewrite Hf. done.
  - unfold readEndnameInfo. cbn [net set_net]. rewrite He1, He2. cbn. unfold serverAt. rewrite Hsv, Hrel, Hlong. unfold serverAt in B2. by rewrite B2.
Qed.
End Props.

(** ** The theorems at work *)

Definition names80 : list string := (fun i => Itoa (Z.of_nat i)) <$> seq 0 80.
Lemma names80_NoDup : NoDup names80.
Proof. apply NoDup_fmap_2, NoDup_seq. intros i j E%Itoa_inj. lia. Qed.

Abbreviation Cfg := (config Z Z).
Definition three : Cfg := default (empty 0 0 []) (make_config 0 3 false 100 names80 (0, 0)).

Lemma only_three_servers_witness : is_Some (make_config (C := Z) (byte := Z) 0 2 false 100 names80 (0, 0)) /\ is_Some (makeClient (ctl three) three).
Proof.
  split.
  - apply (only_three_servers 0 2 false 100 names80 (0, 0) names80_NoDup); [by vm_compute; lia|lia].
  - apply (only_three_servers 0 3 false 100 names80 (0, 0) names80_NoDup); [by vm_compute; lia| |done].
    apply some_default. by vm_compute.
Defined.

Lemma published_names_route_witness :
  exists m srvs s e c', joinServers [0%nat; 2%nat] three = Some m /\ m !! 102 = Some srvs /\ srvs !! 1%nat = Some s /\ make_end s three = Some (e, c').
Proof.
  assert (2%nat ∈ [0%nat; 2%nat] /\ (1 < 3)%nat) as [Hin Hlt] by (split; [set_solver|lia]).
  destruct (published_names_route 0 3 false 100 names80 (0, 0) three [0%nat; 2%nat] names80_NoDup) as (m & Hm & Hall);
    [by vm_compute; lia|apply some_default; by vm_compute|lia|by repeat constructor; lia|].
  destruct (Hall 2%nat 1%nat Hin Hlt) as (srvs & s & e & c' & a & kv & p & H1 & H2 & H3 & _).
  exists m, srvs, s, e, c'. exact (conj Hm (conj H1 (conj H2 H3))).
Defined.
