(* ===== verification/KvSrvTester.v ===== *)
(** * KvSrvTester: the tester of the single-server service
      (src/6.5840-golabs-2024/src/kvsrv/config.go)

    One server, number 0, and clerks with one end each.  [None] is [log.Fatalf] or [t.Fatal]. *)

From S2P Require Import Prelude LabRPC TestNet KvSrv Tester.
Local Open Scope Z_scope.

Definition SERVERID : Z := 0.

(** [clerkObjects]: how many clerks were made; [clerks] is indexed by their addresses. *)
Record config := mkConfig {
  net : Net;
  kvserver : option KVServer;
  clerks : gmap nat string;
  clerkObjects : nat;
  nextClientId : Z;
  rpcs0 : Z;
  ops : Z
}.
Definition set_net x c := mkConfig x (kvserver c) (clerks c) (clerkObjects c) (nextClientId c) (rpcs0 c) (ops c).

Definition checkTimeout (failed : bool) (elapsed : Z) : bool := Tester.checkTimeout failed elapsed.

Definition cleanup (failed : bool) (elapsed : Z) (c : config) : option config :=
  rn ← LabRPC.Cleanup (net c); if checkTimeout failed elapsed then Some (set_net rn c) else None.

(** [cfg.clerks[ck]]: the empty string for an unknown clerk. *)
Definition clerkEnd (c : config) (ck : nat) : string := default ""%string (clerks c !! ck).

Definition ConnectClientUnlocked (ck : nat) (c : config) : config := set_net (Enable (inl (clerkEnd c ck)) true (net c)) c.
Definition ConnectClient (ck : nat) (c : config) : config := ConnectClientUnlocked ck c.

(** [name]: the random string. *)
Definition makeClient (name : string) (c : config) : option (config * nat) :=
  rn ← MakeEnd (inl name) (net c);
  let rn := Connect (inl name) (inr SERVERID) rn in
  let ck := clerkObjects c in
  let c := mkConfig rn (kvserver c) (<[ck := name]> (clerks c)) (S ck) (nextClientId c + 1) (rpcs0 c) (ops c) in
  Some (ConnectClientUnlocked ck c, ck).

(** [os.Remove] looks for files named like the end; there are none. *)
Definition deleteClient (ck : nat) (c : config) : option config :=
  rn ← DeleteEnd (inl (clerkEnd c ck)) (net c);
  Some (mkConfig rn (kvserver c) (delete ck (clerks c)) (clerkObjects c) (nextClientId c) (rpcs0 c) (ops c)).

(** [a]: the address of the new [labrpc.Server]. *)
Definition StartServer (a : nat) (c : config) : config :=
  mkConfig (AddServer (inr 0) a (net c)) (Some StartKVServer) (clerks c) (clerkObjects c) (nextClientId c) (rpcs0 c) (ops c).

Definition make_config (unreliable : bool) : config :=
  let c := mkConfig MakeNetwork None ∅ 0 (SERVERID + 1) 0 0 in
  let c := StartServer 0 c in
  set_net (Reliable (negb unreliable) (net c)) c.

Definition rpcTotal (c : config) : Z := GetTotalCount (net c).
Definition begin (c : config) : config := mkConfig (net c) (kvserver c) (clerks c) (clerkObjects c) (nextClientId c) (rpcTotal c) 0.
Definition op (c : config) : config :=
  mkConfig (net c) (kvserver c) (clerks c) (clerkObjects c) (nextClientId c) (rpcs0 c) (swrap 32 (ops c + 1)).
Definition end_ (failed : bool) (elapsed : Z) (c : config) : option (option (Z * Z)) :=
  if checkTimeout failed elapsed then Some (if failed then None else Some (rpcTotal c - rpcs0 c, ops c)) else None.

(** ** Clerks reach the server *)

Inductive Op := OMake (name : string) | ODelete (ck : nat) | OConnect (ck : nat).
Definition runOp (o : Op) (c : config) : option config :=
  match o with
  | OMake name => fst <$> makeClient name c
  | ODelete ck => deleteClient ck c
  | OConnect ck => Some (ConnectClient ck c)
  end.
Fixpoint runOps (os : list Op) (c : config) : option config :=
  match os with [] => Some c | o :: os => c ← runOp o c; runOps os c end.

Record clerks_ok (c : config) : Prop := {
  co_bound ck e : clerks c !! ck = Some e -> (ck < clerkObjects c)%nat;
  co_known ck e : clerks c !! ck = Some e -> inl e ∈ ends (net c);
  co_inj ck ck' e : clerks c !! ck = Some e -> clerks c !! ck' = Some e -> ck = ck';
  co_conn ck e : clerks c !! ck = Some e -> isEnabled (inl e) (net c) = true /\ connections (net c) !! inl e = Some (Some (inr SERVERID));
  co_server : serverAt (inr SERVERID) (net c) = Some 0%nat;
  co_empty : inl ""%string ∉ ends (net c)
}.

Lemma isEnabled_Enable (e e' : string) (b : bool) (rn : Net) : isEnabled (inl e) (Enable (inl e') b rn) = if decide (e = e') then b else isEnabled (inl e) rn.
Proof.
  unfold isEnabled, Enable. cbn. case_decide as E; [subst; by rewrite lookup_insert_eq|]. by rewrite lookup_insert_ne by congruence.
Qed.

(** Random strings are not empty. *)
Definition named (o : Op) : Prop := match o with OMake name => name <> ""%string | _ => True end.

Lemma runOp_ok o c c' : clerks_ok c -> named o -> runOp o c = Some c' -> clerks_ok c'.
Proof.
  intros [H1 H2 H3 H4 H5 H6] Hname. destruct o as [name|ck|ck]; cbn in *.
  - intros ([c1 ck] & Hm & [= ->])%fmap_Some. unfold makeClient in Hm. apply bind_Some in Hm as (rn & Hme & [= <- <-]).
    unfold MakeEnd in Hme. case_bool_decide as Hnew; [done|]. injection Hme as <-.
    assert (forall k e, clerks c !! k = Some e -> e <> name) as Hne by (intros k e He ->; by apply Hnew, (H2 k)).
    assert (forall k e, <[clerkObjects c := name]> (clerks c) !! k = Some e ->
      k = clerkObjects c /\ e = name \/ clerks c !! k = Some e /\ e <> name) as Hl.
    { intros k e [[-> ->]|[_ He]]%lookup_insert_Some; [by left|right]. split; [done|by apply (Hne k)]. }
    split; cbn.
    + intros k e [[-> ->]|[He _]]%Hl; [lia|]. apply H1 in He. lia.
    + intros k e [[-> ->]|[He _]]%Hl; [set_solver|]. apply H2 in He. set_solver.
    + intros k k' e [[-> ->]|[He Hn]]%Hl [[-> E]|[He' Hn']]%Hl; [done|congruence|congruence|by apply (H3 k k' e)].
    + intros k e He. unfold clerkEnd. cbn. rewrite lookup_insert_eq. cbn. apply Hl in He as [[-> ->]|[He Hn]].
      * split; [unfold isEnabled; cbn; by rewrite lookup_insert_eq|by rewrite lookup_insert_eq].
      * destruct (H4 k e He) as [Ha Hb]. split; [|by rewrite !lookup_insert_ne by congruence].
        unfold isEnabled. cbn. by rewrite !lookup_insert_ne by congruence.
    + done.
    + set_solver.
  - intros (rn & Hd & [= <-])%bind_Some. unfold DeleteEnd in Hd. case_bool_decide as Hin; [|done]. injection Hd as <-.
    destruct (clerks c !! ck) as [v|] eqn:Ev; [|unfold clerkEnd in Hin; by rewrite Ev in Hin].
    assert (clerkEnd c ck = v) as Ece by (unfold clerkEnd; by rewrite Ev). rewrite Ece.
    assert (forall k e, delete ck (clerks c) !! k = Some e -> clerks c !! k = Some e /\ e <> v) as Hl.
    { intros k e [Hk He]%lookup_delete_Some. split; [done|]. intros ->. by apply Hk, (H3 ck k v). }
    split; cbn.
    + intros k e [He _]%Hl. by apply (H1 k e).
    + intros k e [He Hne]%Hl. apply H2 in He. set_solver.
    + intros k k' e [He _]%Hl [He' _]%Hl. by apply (H3 k k' e).
    + intros k e [He Hne]%Hl. destruct (H4 k e He) as [Ha Hb]. unfold isEnabled. cbn. rewrite !lookup_delete_ne by congruence. done.
    + done.
    + set_solver.
  - intros [= <-]. split; cbn; try done. intros k e He. destruct (H4 k e He) as [Ha Hb]. split; [|done].
    rewrite isEnabled_Enable. by case_decide.
Qed.

(** Over every test every clerk reaches the server: after any sequence of making, deleting and
    connecting clerks that goes through, the end of every clerk is enabled and leads to the
    running server. *)
Theorem clerks_reach_server unreliable os c ck e :
  Forall named os -> runOps os (make_config unreliable) = Some c -> clerks c !! ck = Some e ->
  readEndnameInfo (inl e) (net c) =
    mkEndInfo true (Some (inr SERVERID)) (Some 0%nat) (reliable (net c)) (longReordering (net c)).
Proof.
  intros Hn Hr He. assert (clerks_ok c) as [H1 H2 H3 H4 H5 H6].
  { assert (clerks_ok (make_config unreliable)) as Hok by (split; cbn; try done; set_solver).
    revert Hok Hr. generalize (make_config unreliable). induction Hn as [|o os Ho Hn IH]; intros c0 Hok; cbn; [by intros [= <-]|].
    intros (c1 & Hc1 & Hr)%bind_Some. apply (IH c1); [|done]. by apply (runOp_ok o c0 c1). }
  unfold readEndnameInfo. destruct (H4 ck e He) as [-> ->]. cbn. unfold serverAt in *. by rewrite H5.
Qed.
