(* ===== verification/KvCluster.v ===== *)
(** * KvCluster: the key/value clerks on the simulated network, driven by their tester
      (src/6.5840-golabs-2024/src/kvsrv: client.go, server.go, config.go; labrpc/labrpc.go)

    KvSrv lets requests and replies get lost.  Here the clerks call the server over the network of LabRPC as the
    tester of KvSrvTester sets it up: the server is the receiver of a service on the heap of the network, a clerk
    calls through the end it was made with, and the handlers are run by the dispatcher of labrpc.  A method of a clerk is a
    [Job].  As in [run_client] of the test, a clerk is deleted when its methods have returned, and it is not used after that.
    [cfg.kvserver] is the receiver of the service and is not read by the tester.  Time passes with every event. *)

From S2P Require Import Prelude Persister Porcupine KvModel KvSrv Random LabRPC TestNet KvSrvTester.
Local Open Scope Z_scope.

(** ** Messages *)

Inductive Msg :=
| MGet (a : GetArgs)
| MGetReply (v : string)
| MPutAppend (a : PutAppendArgs)
| MPutAppendReply (v : string)
| MDelete (id : Z)
| MDeleteReply.

(** The argument, the result and the method of a call of [Clerk.Get] and [Clerk.PutAppend]. *)
Definition toMsg (req : Request) : Msg :=
  match req with RGet a => MGet a | RWrite _ a => MPutAppend a end.
Definition replyMsgOf (req : Request) (v : string) : Msg :=
  match req with RGet _ => MGetReply v | RWrite _ _ => MPutAppendReply v end.
Definition opName (op : WriteOp) : string := match op with OpPut => "Put" | OpAppend => "Append" end.
Definition methodOf (req : Request) : string :=
  match req with RGet _ => "KVServer.Get" | RWrite op _ => ("KVServer." +:+ opName op)%string end.

(** [reply.Value] *)
Definition replyValue (m : Msg) : option string :=
  match m with MGetReply v | MPutAppendReply v => Some v | _ => None end.

(** ** The service *)

(** The handlers as the dispatcher calls them.  A value of another type cannot reach them. *)
Definition onGet (kv : KVServer) (m : Msg) : KVServer * Msg :=
  match m with MGet a => (kv, MGetReply (Get a kv)) | _ => (kv, m) end.
Definition onPut (kv : KVServer) (m : Msg) : KVServer * Msg :=
  match m with MPutAppend a => let '(kv, v) := Put a kv in (kv, MPutAppendReply v) | _ => (kv, m) end.
Definition onAppend (kv : KVServer) (m : Msg) : KVServer * Msg :=
  match m with MPutAppend a => let '(kv, v) := Append a kv in (kv, MPutAppendReply v) | _ => (kv, m) end.
Definition onDelete (kv : KVServer) (m : Msg) : KVServer * Msg :=
  match m with MDelete id => (Delete id kv, MDeleteReply) | _ => (kv, m) end.

(** The exported methods of [KVServer] as reflection lists them. *)
Definition kvMethods : list (Method (Val := Msg) (Obj := KVServer)) :=
  [mkMethod "Append" "" 3 true 0 onAppend; mkMethod "Delete" "" 3 true 0 onDelete;
   mkMethod "Get" "" 3 true 0 onGet; mkMethod "Put" "" 3 true 0 onPut].

Abbreviation KServer := (LabRPC.Server (Val := Msg) (Obj := KVServer)).

Definition kvServer (kv : KVServer) : KServer := AddService (MakeService "KVServer" kv kvMethods) MakeServer.

(** The value [reflect.New] gives the dispatcher to decode into. *)
Definition zeroMsg : Msg := MGet (mkGetArgs "").

(** ** Clerks and their methods *)

(** A clerk with the name of its end [ck.server]. *)
Record Client := mkClient { ck_server : string; ck_clerk : Clerk }.

Definition set_clerk (ck : Clerk) (x : Client) : Client := mkClient (ck_server x) ck.

(** [Ready]: the method calls next, for the first time or after [time.Sleep].  [Calling]: its call is in progress.
    [Clearing], [ClearCalling]: it has the reply [v] and calls [Delete]. *)
Inductive Stage :=
| Ready
| Calling (id : Z)
| Clearing (v : string)
| ClearCalling (v : string) (id : Z).

Record Job := mkJob { j_clerk : nat; j_req : Request; j_stage : Stage }.
Definition set_stage (st : Stage) (j : Job) : Job := mkJob (j_clerk j) (j_req j) st.

Section Cluster.
Context {byte : Type} `{!Gob byte Msg}.

Abbreviation KSys := (LabRPC.Sys (Name := NetName) (byte := byte) (Val := Msg) (Obj := KVServer)).
Abbreviation KEvent := (LabRPC.Event (Name := NetName) (Val := Msg) (Obj := KVServer)).

(** [jobs]: the methods in progress, by the time at which they were called.  [log]: what the test records.  The network of [conf]
    is the one of [sys]. *)
Record Cluster := mkCluster {
  sys : KSys;
  conf : config;
  clients : list Client;
  jobs : gmap Z Job;
  nextCall : Z;
  now : Z;
  log : list kvOp
}.

Definition set_sys x cl := mkCluster x (conf cl) (clients cl) (jobs cl) (nextCall cl) (now cl) (log cl).
Definition set_clients x cl := mkCluster (sys cl) (conf cl) x (jobs cl) (nextCall cl) (now cl) (log cl).
Definition set_jobs x cl := mkCluster (sys cl) (conf cl) (clients cl) x (nextCall cl) (now cl) (log cl).
Definition set_next x cl := mkCluster (sys cl) (conf cl) (clients cl) (jobs cl) x (now cl) (log cl).
Definition set_log x cl := mkCluster (sys cl) (conf cl) (clients cl) (jobs cl) (nextCall cl) (now cl) x.
Definition set_now x cl := mkCluster (sys cl) (conf cl) (clients cl) (jobs cl) (nextCall cl) x (log cl).

(** What the tester works on, and its result. *)
Definition confOf cl : config := KvSrvTester.set_net (LabRPC.net (sys cl)) (conf cl).
Definition set_conf c cl :=
  mkCluster (LabRPC.set_net (KvSrvTester.net c) (sys cl)) c (clients cl) (jobs cl) (nextCall cl) (now cl) (log cl).

(** An event of the network; [log.Fatalf] ends the process. *)
Definition rpc (ev : KEvent) cl : option Cluster :=
  s ← LabRPC.happen zeroMsg ev (sys cl); if alive s then Some (set_sys s cl) else None.

(** ** client.go *)

(** Call number [nextCall cl]; [gone]: the network has been cleaned up. *)
Definition call (e meth : string) (m : Msg) (gone : bool) cl : option Cluster :=
  let id := nextCall cl in
  cl ← rpc (if gone then EvCallDone id (inl e) meth m else EvCall id (inl e) meth m) cl;
  Some (set_next (id + 1) cl).

(** A clerk that the test uses. *)
Definition usable (c : nat) cl : option Client :=
  _ ← KvSrvTester.clerks (conf cl) !! c; clients cl !! c.

(** The beginning of the methods. *)
Definition beginGet (c : nat) (key : string) cl : option Cluster :=
  _ ← usable c cl;
  Some (set_jobs (<[now cl := mkJob c (RGet (mkGetArgs key)) Ready]> (jobs cl)) cl).
Definition beginPutAppend (c : nat) (op : WriteOp) (key val : string) cl : option Cluster :=
  x ← usable c cl;
  let ck := ck_clerk x in
  if locked ck then None
  else
    let seq := swrap 64 (seq_ ck + 1) in
    let args := mkPutAppendArgs key val seq (client ck) in
    Some (set_jobs (<[now cl := mkJob c (RWrite op args) Ready]> (jobs cl))
            (set_clients (<[c := set_clerk (mkClerk (client ck) seq true) x]> (clients cl)) cl)).

(** [ck.server.Call] in the method that was called at [i]. *)
Definition callsServer (i : Z) (gone : bool) cl : option Cluster :=
  j ← jobs cl !! i;
  x ← clients cl !! j_clerk j;
  let id := nextCall cl in
  match j_stage j with
  | Ready =>
      cl ← call (ck_server x) (methodOf (j_req j)) (toMsg (j_req j)) gone cl;
      Some (set_jobs (<[i := set_stage (Calling id) j]> (jobs cl)) cl)
  | Clearing v =>
      cl ← call (ck_server x) "KVServer.Delete" (MDelete (client (ck_clerk x))) gone cl;
      Some (set_jobs (<[i := set_stage (ClearCalling v id) j]> (jobs cl)) cl)
  | _ => None
  end.

(** The method returns [v] to the test, which records it; the deferred [Unlock] of [PutAppend] runs. *)
Definition returns (i : Z) (j : Job) (v : string) cl : Cluster :=
  let xs := match j_req j with
            | RGet _ => clients cl
            | RWrite _ _ => alter (fun x => set_clerk (unlock (ck_clerk x)) x) (j_clerk j) (clients cl)
            end in
  set_log (log cl ++ [logged (j_clerk j) (j_req j) i (now cl) v]) (set_jobs (delete i (jobs cl)) (set_clients xs cl)).

(** [Call] returns to the method that was called at [i]. *)
Definition callReturns (i : Z) cl : option Cluster :=
  j ← jobs cl !! i;
  match j_stage j with
  | Calling id =>
      c ← LabRPC.calls (sys cl) !! id;
      match c_phase c with
      | Returned rep =>
          '(ok, m) ← callResult rep;
          if ok : bool then
            v ← m ≫= replyValue;
            Some (match j_req j with
                  | RGet _ => returns i j v cl
                  | RWrite _ _ => set_jobs (<[i := set_stage (Clearing v) j]> (jobs cl)) cl
                  end)
          else Some (set_jobs (<[i := set_stage Ready j]> (jobs cl)) cl)
      | _ => None
      end
  | ClearCalling v id =>
      c ← LabRPC.calls (sys cl) !! id;
      match c_phase c with
      | Returned rep => _ ← callResult (Val := Msg) rep; Some (returns i j v cl)
      | _ => None
      end
  | _ => None
  end.

(** ** The test *)

(** [cfg.makeClient()] with the random bytes of the name of the end and of the id of the clerk. *)
Definition makesClient (b seed : list Z) cl : option Cluster :=
  if negb (bool_decide (length b = 40%nat)) then None
  else
    let name := randstring 20 b in
    '(c, ck) ← makeClient name (confOf cl);
    Some (set_clients (clients cl ++ [mkClient name (MakeClerk (nrand seed))]) (set_conf c cl)).

Definition busy (c : nat) cl : bool := bool_decide (map_Exists (fun _ j => j_clerk j = c) (jobs cl)).

Definition deletesClient (ck : nat) cl : option Cluster :=
  if busy ck cl then None else c ← deleteClient ck (confOf cl); Some (set_conf c cl).

Inductive CEvent :=
| CGet (c : nat) (key : string)
| CPutAppend (c : nat) (op : WriteOp) (key val : string)
| CCall (i : Z) (gone : bool)
| CProcess (id r : Z)
| CHandler (id : Z)
| CGiveUp (id : Z)
| CAnswer (id r r' : Z)
| CTimer (id : Z)
| CReturn (i : Z)
| CMake (b seed : list Z)
| CDelete (ck : nat)
| CConnect (ck : nat)
| CSet (x : Setting).

(** [None]: the event is not possible, or it ends the process. *)
Definition happens (ev : CEvent) cl : option Cluster :=
  match ev with
  | CGet c key => beginGet c key cl
  | CPutAppend c op key val => beginPutAppend c op key val cl
  | CCall i gone => callsServer i gone cl
  | CProcess id r => rpc (EvProcess id r) cl
  | CHandler id => rpc (EvHandler id) cl
  | CGiveUp id => rpc (EvTick id) cl
  | CAnswer id r r' => rpc (EvAnswer id r r') cl
  | CTimer id => rpc (EvTimer id) cl
  | CReturn i => callReturns i cl
  | CMake b seed => makesClient b seed cl
  | CDelete ck => deletesClient ck cl
  | CConnect ck => Some (set_conf (ConnectClient ck (confOf cl)) cl)
  | CSet x => rn ← applySetting x (LabRPC.net (sys cl)); Some (set_sys (LabRPC.set_net rn (sys cl)) cl)
  end.

Definition step (ev : CEvent) cl : option Cluster := (fun cl => set_now (now cl + 1) cl) <$> happens ev cl.

Fixpoint steps (evs : list CEvent) cl : option Cluster :=
  match evs with
  | [] => Some cl
  | ev :: evs => cl ← step ev cl; steps evs cl
  end.

(** After [make_config]. *)
Definition fresh (unreliable : bool) : Cluster :=
  let c := make_config unreliable in
  mkCluster (mkSys true (KvSrvTester.net c) [kvServer StartKVServer] ∅ []) c [] ∅ 0 0 [].

(** The state of the server. *)
Definition kvOf cl : option KVServer := rs ← LabRPC.heap (sys cl) !! 0%nat; sv_rcvr <$> services rs !! "KVServer"%string.

(** The ids of the clerks that a run makes. *)
Definition idsOf (evs : list CEvent) : list Z := omap (fun ev => match ev with CMake _ seed => Some (nrand seed) | _ => None end) evs.
End Cluster.
Arguments Cluster : clear implicits.
