(* ===== verification/KvClusterSim.v ===== *)
(** * KvClusterSim: the clerks on labrpc do what KvSrv allows

    A forward simulation, event by event and with the same clock.  [Sim] relates a cluster to a world of KvSrv: the
    service holds the same server, the clerks made so far are the first clerks of the world, and a method has its phase by
    what labrpc has done with its call.  The end of a clerk in use stays enabled and leads to the server, so that labrpc never
    gives up a request that a handler may still run: when [Call] has returned, the request does not run any more. *)

From S2P Require Import Prelude Persister Porcupine KvModel KvSrv Random LabRPC TestNet KvSrvTester KvCluster.
Local Open Scope Z_scope.

Section Wire.
Context {byte : Type} `{!Gob byte Msg}.
Implicit Types (kv : KVServer) (req : Request).

(** ** Handlers behind the dispatcher *)

Definition hosts (rs : KServer) kv : Prop := services rs = services (kvServer kv).

Lemma hosts_kvOf rs kv : hosts rs kv -> sv_rcvr <$> services rs !! "KVServer"%string = Some kv.
Proof. intros H. by rewrite H. Qed.

(** A handler that the service has under [meth]. *)
Lemma dispatch_hosted rs kv (e : NetName) meth f m :
  hosts rs kv -> splitMethod ("KVServer." +:+ meth)%string = Some ("KVServer"%string, meth) ->
  sv_methods (MakeService "KVServer" kv kvMethods) !! meth = Some f ->
  exists rs', hosts rs' (f kv m).1 /\
    Server_dispatch zeroMsg (mkReqMsg (byte := byte) e ("KVServer." +:+ meth)%string (gob_encode m)) rs =
      Some (rs', m, (f kv m).2, mkReplyMsg true (gob_encode (f kv m).2)).
Proof.
  intros H Hm Hf. eexists (LabRPC.mkServer (services (kvServer (f kv m).1)) (sv_count rs + 1)). split; [done|].
  unfold Server_dispatch. cbn [svcMeth]. rewrite Hm. cbn [mbind option_bind]. rewrite H.
  unfold kvServer, AddService. cbn [services sv_name MakeService]. rewrite lookup_insert_eq. cbn [mbind option_bind].
  unfold Service_dispatch. rewrite Hf. cbn [mbind option_bind args].
  assert (gob_decode (gob_encode m) = Some (m, [])) as -> by (rewrite <- (app_nil_r (gob_encode m)); apply gob_decode_encode).
  cbn [fmap option_fmap option_map fst default sv_rcvr MakeService id]. destruct (f kv m) as [kv' v].
  cbn [mbind option_bind fst snd]. rewrite H. unfold kvServer, AddService. cbn [services sv_name MakeService].
  by rewrite insert_insert_eq.
Qed.

Lemma dispatch_request rs kv (e : NetName) req :
  hosts rs kv ->
  exists rs', hosts rs' (serve req kv).1 /\
    Server_dispatch zeroMsg (mkReqMsg (byte := byte) e (methodOf req) (gob_encode (toMsg req))) rs =
      Some (rs', toMsg req, replyMsgOf req (serve req kv).2, mkReplyMsg true (gob_encode (replyMsgOf req (serve req kv).2))).
Proof.
  intros H. destruct req as [a|[] a].
  - apply (dispatch_hosted rs kv e "Get" onGet (MGet a) H); done.
  - destruct (dispatch_hosted rs kv e "Put" onPut (MPutAppend a) H) as (rs' & Hr & Hd); [done..|].
    exists rs'. cbn [onPut serve toMsg replyMsgOf] in *. destruct (Put a kv). done.
  - destruct (dispatch_hosted rs kv e "Append" onAppend (MPutAppend a) H) as (rs' & Hr & Hd); [done..|].
    exists rs'. cbn [onAppend serve toMsg replyMsgOf] in *. destruct (Append a kv). done.
Qed.

Lemma dispatch_delete rs kv (e : NetName) cid :
  hosts rs kv ->
  exists rs', hosts rs' (Delete cid kv) /\
    Server_dispatch zeroMsg (mkReqMsg (byte := byte) e "KVServer.Delete" (gob_encode (MDelete cid))) rs =
      Some (rs', MDelete cid, MDeleteReply, mkReplyMsg true (gob_encode MDeleteReply)).
Proof. intros H. by apply (dispatch_hosted rs kv e "Delete" onDelete (MDelete cid) H). Qed.
End Wire.

(** ** The relation *)

Section Sim.
Context {byte : Type} `{!Gob byte Msg}.
Abbreviation KSys := (LabRPC.Sys (Name := NetName) (byte := byte) (Val := Msg) (Obj := KVServer)).
Abbreviation KCall := (LabRPC.Call (Name := NetName) (byte := byte)).
Implicit Types (cl : Cluster byte) (w : World) (s : KSys) (c : KCall) (j : Job) (t : Task) (x : Client) (id i : Z) (rn : Net).

Definition asked s id (e meth : string) (m : Msg) : Prop :=
  exists c, LabRPC.calls s !! id = Some c /\ c_req c = mkReqMsg (inl e) meth (gob_encode m).
Definition executed s id (m : Msg) : Prop := exists a, (id, a, m) ∈ history s.
Definition unexecuted s id : Prop := forall a m, (id, a, m) ∉ history s.

(** How far a method is in KvSrv. *)
Definition stage_ok s x j (p : KvSrv.Phase) : Prop :=
  match j_stage j with
  | Ready => p = Sending
  | Calling id =>
      asked s id (ck_server x) (methodOf (j_req j)) (toMsg (j_req j)) /\
      (p = Sending /\ unexecuted s id \/ exists v, p = Answered v /\ executed s id (replyMsgOf (j_req j) v))
  | Clearing v => p = Deleting v false
  | ClearCalling v id =>
      asked s id (ck_server x) "KVServer.Delete" (MDelete (client (ck_clerk x))) /\
      (p = Deleting v false /\ unexecuted s id \/ p = Deleting v true /\ executed s id MDeleteReply)
  end.

(** The method is one of [x]; only a write asks for [Delete]. *)
Definition job_of x j : Prop :=
  match j_req j with
  | RWrite _ args => pa_ClientID args = client (ck_clerk x)
  | RGet _ => match j_stage j with Ready | Calling _ => True | _ => False end
  end.

Definition job_ok cl j t : Prop :=
  t_clerk t = j_clerk j /\ t_req t = j_req j /\
  exists x, usable (j_clerk j) cl = Some x /\ job_of x j /\ stage_ok (sys cl) x j (t_phase t).

Definition callOf j : option Z :=
  match j_stage j with Calling id | ClearCalling _ id => Some id | _ => None end.

(** The tester's side: a clerk that was not deleted has its end, and every end leads to the server. *)
Record Wired cl : Prop := {
  wi_ok : clerks_ok (confOf cl);
  wi_len : clerkObjects (conf cl) = length (clients cl);
  wi_end ck e : KvSrvTester.clerks (conf cl) !! ck = Some e -> exists x, clients cl !! ck = Some x /\ ck_server x = e;
  wi_conn (e n : NetName) : connections (LabRPC.net (sys cl)) !! e = Some (Some n) -> n = inr SERVERID
}.

(** A request that has not returned belongs to a method; one that has returned has no handler left. *)
Definition call_wf cl id c : Prop :=
  match c_phase c with
  | Returned _ => c_handler c = None
  | Handling n server _ _ _ => n = inr SERVERID /\ server = 0%nat
  | _ => True
  end /\
  (forall p, c_handler c = Some p -> p = 0%nat) /\
  ((forall r, c_phase c <> Returned r) -> exists i j, jobs cl !! i = Some j /\ callOf j = Some id).

Record Traffic cl : Prop := {
  tr_inv : LabRPC.Inv (sys cl);
  tr_inj i i' j j' id : jobs cl !! i = Some j -> jobs cl !! i' = Some j' -> callOf j = Some id -> callOf j' = Some id -> i = i';
  tr_next id : is_Some (LabRPC.calls (sys cl) !! id) -> id < nextCall cl;
  tr_call id c : LabRPC.calls (sys cl) !! id = Some c -> call_wf cl id c
}.

(** [more]: the ids of the clerks that are still to be made. *)
Record Sim (more : list Z) cl w : Prop := {
  sim_kv : exists rs, LabRPC.heap (sys cl) = [rs] /\ hosts rs (w_kv w);
  sim_clerks : w_clerks w = (ck_clerk <$> clients cl) ++ (MakeClerk <$> more);
  sim_now : w_now w = now cl;
  sim_done : w_done w = log cl;
  sim_job i : option_Forall2 (job_ok cl) (jobs cl !! i) (w_tasks w !! i);
  sim_wired : Wired cl;
  sim_traffic : Traffic cl
}.

(** *** Frames *)

(** What a method needs of the call it waits for. *)
Definition same_call s s' id : Prop :=
  (forall c, LabRPC.calls s !! id = Some c -> exists c', LabRPC.calls s' !! id = Some c' /\ c_req c' = c_req c) /\
  forall a m, (id, a, m) ∈ history s' <-> (id, a, m) ∈ history s.

Lemma job_ok_frame cl cl' j t :
  job_ok cl j t ->
  (forall x, usable (j_clerk j) cl = Some x -> exists x', usable (j_clerk j) cl' = Some x' /\
     ck_server x' = ck_server x /\ client (ck_clerk x') = client (ck_clerk x)) ->
  (forall id, callOf j = Some id -> same_call (sys cl) (sys cl') id) ->
  job_ok cl' j t.
Proof.
  intros (H1 & H2 & x & Hx & Hof & Hst) Hu Hc. destruct (Hu x Hx) as (x' & Hx' & Hs & Hcl).
  split_and!; [done..|]. exists x'. split; [done|]. split.
  { unfold job_of in *. by rewrite Hcl. }
  unfold stage_ok, callOf, asked, executed, unexecuted in *. rewrite Hs, Hcl. destruct (j_stage j) as [|id|v|v id]; [done| |done|].
  all: destruct (Hc id eq_refl) as [Ha Hh]; destruct Hst as ((c & Hlk & Hreq) & Hst);
    destruct (Ha c Hlk) as (c' & Hc' & Hr); (split; [exists c'; split; [done|congruence]|]); setoid_rewrite Hh; done.
Qed.

Lemma same_call_refl s id : same_call s s id.
Proof. split; [eauto|done]. Qed.

(** The wiring of the network: what the settings and the counters leave alone. *)
Definition same_wires rn rn' : Prop :=
  ends rn' = ends rn /\ enabled rn' = enabled rn /\ servers rn' = servers rn /\ connections rn' = connections rn.

Lemma Wired_wires cl s : Wired cl -> same_wires (LabRPC.net (sys cl)) (LabRPC.net s) -> Wired (set_sys s cl).
Proof.
  intros [[H1 H2 H3 H4 H5 H6] Hl He Hc] (E1 & E2 & E3 & E4). split; cbn in *; [|done..|by rewrite E4].
  split; cbn; unfold isEnabled, serverAt in *; rewrite ?E1, ?E2, ?E3, ?E4; done.
Qed.

(** Jobs and clients change, the network does not. *)
Lemma Wired_jobs cl js : Wired cl -> Wired (set_jobs js cl).
Proof. by intros []. Qed.

Lemma Wired_clients cl xs :
  Wired cl -> length xs = length (clients cl) ->
  (forall ck x, clients cl !! ck = Some x -> exists x', xs !! ck = Some x' /\ ck_server x' = ck_server x) -> Wired (set_clients xs cl).
Proof.
  intros [H1 H2 H3 H4] Hl Hx. split; cbn; [done|by rewrite Hl| |done].
  intros ck e He. destruct (H3 ck e He) as (x & Hlk & <-). by apply Hx.
Qed.

Lemma Sim_tick more cl w : Sim more cl w -> Sim more (set_now (now cl + 1) cl) (tick w).
Proof. intros [H1 H2 H3 H4 H5 H6 H7]. split; try done; cbn; [by rewrite H3|by destruct H6|by destruct H7]. Qed.

(** *** Steps of the network *)

(** The clerk of a call in progress has its end. *)
Lemma job_end more cl w i j id :
  Sim more cl w -> jobs cl !! i = Some j -> callOf j = Some id ->
  exists x c, usable (j_clerk j) cl = Some x /\ LabRPC.calls (sys cl) !! id = Some c /\
    endname (c_req c) = inl (ck_server x) /\ isEnabled (inl (ck_server x)) (LabRPC.net (sys cl)) = true.
Proof.
  intros HS Hj Hid. pose proof (sim_job _ _ _ HS i) as Ht. rewrite Hj in Ht. inversion Ht as [? t (_ & _ & x & Hu & _ & Hst)|]; subst.
  pose proof Hu as (e & He & Hx)%bind_Some. pose proof (sim_wired _ _ _ HS) as [Hok _ Hend _].
  destruct (Hend _ _ He) as (x' & Hx' & Es). simplify_eq. pose proof (co_conn _ Hok _ _ He) as [Hen _]. cbn in Hen.
  unfold stage_ok, callOf, asked in *. destruct (j_stage j); simplify_eq; destruct Hst as ((c & Hc & Hreq) & _);
    exists x, c; rewrite Hreq; done.
Qed.

(** A call changes its phase. *)
Lemma Sim_phase more cl w s id c c' :
  Sim more cl w -> LabRPC.calls (sys cl) !! id = Some c -> LabRPC.Inv s ->
  LabRPC.heap s = LabRPC.heap (sys cl) -> history s = history (sys cl) -> LabRPC.calls s = <[id := c']> (LabRPC.calls (sys cl)) ->
  same_wires (LabRPC.net (sys cl)) (LabRPC.net s) -> c_req c' = c_req c ->
  (forall r, c_phase c <> Returned r) ->
  match c_phase c' with
  | Returned _ => c_handler c' = None
  | Handling n server _ _ _ => n = inr SERVERID /\ server = 0%nat
  | _ => True
  end -> (forall p, c_handler c' = Some p -> p = 0%nat) ->
  Sim more (set_sys s cl) w.
Proof.
  intros [H1 H2 H3 H4 H5 H6 H7] Hc HI Hh Hhist Hcalls Hw Hreq Hlive Hp Hp0. split; cbn; [by rewrite Hh|done..| | |].
  - intros i. specialize (H5 i). destruct H5 as [j t Hok|]; constructor. apply (job_ok_frame cl); [done|eauto|].
    intros id' _. split; cbn; [|by rewrite Hhist]. intros d Hd. rewrite Hcalls. destruct (decide (id = id')) as [->|Hne].
    + exists c'. rewrite lookup_insert_eq. split; [done|congruence].
    + exists d. by rewrite lookup_insert_ne.
  - by apply Wired_wires.
  - destruct H7 as [T1 T2 T3 T4]. split; cbn; [done|done| |].
    + intros id'. rewrite Hcalls. intros [d [[<- _]|[_ Hd]]%lookup_insert_Some]; apply T3; by eexists.
    + intros id' d. rewrite Hcalls. intros [[<- <-]|[_ Hd]]%lookup_insert_Some; [|by apply (T4 id' d)].
      split_and!; [done..|]. intros _. by apply (T4 id c Hc).
Qed.

Lemma rpc_Some (ev : LabRPC.Event (Name := NetName) (Val := Msg) (Obj := KVServer)) cl cl' :
  rpc ev cl = Some cl' -> exists s, LabRPC.happen zeroMsg ev (sys cl) = Some s /\ alive s = true /\ cl' = set_sys s cl.
Proof. unfold rpc. intros (s & Hs & H)%bind_Some. destruct (alive s) eqn:E; simplify_eq. by exists s. Qed.

Lemma same_wires_refl rn : same_wires rn rn.
Proof. done. Qed.

(** A request is lost, waits for nothing, or goes to the server. *)
Lemma process_wired rn r c :
  (forall e n, connections rn !! e = Some (Some n) -> n = inr SERVERID) -> serverAt (inr SERVERID) rn = Some 0%nat ->
  process r c rn = LabRPC.set_phase Waiting c \/ process r c rn = LabRPC.set_phase (Returned noReply) c \/
  exists rel lr, process r c rn = mkCall (c_req c) (Handling (inr SERVERID) 0%nat rel lr None) (Some 0%nat).
Proof.
  intros Hc Hs. unfold process, readEndnameInfo. cbn [i_enabled i_servername i_server i_reliable i_longreordering].
  destruct (isEnabled _ rn); [|auto]. destruct (connections rn !! endname (c_req c)) as [[n|]|] eqn:En; [|by auto..].
  apply Hc in En as ->. cbn [default mbind option_bind id]. rewrite Hs. destruct (negb (reliable rn) && _); [auto|].
  right. right. by eexists _, _.
Qed.

Lemma Sim_process more cl w id r cl' : Sim more cl w -> rpc (EvProcess id r) cl = Some cl' -> Sim more cl' w.
Proof.
  intros HS (s & Hs & _ & ->)%rpc_Some. pose proof (tr_inv _ (sim_traffic _ _ _ HS)) as HI.
  pose proof (happen_Inv _ _ _ _ HI Hs) as HI'. unfold LabRPC.happen in Hs. destruct (alive (sys cl)) eqn:Ea; [|done]. cbn [negb] in Hs.
  apply bind_Some in Hs as (c & Hc & Hs). destruct (c_phase c) eqn:Ep; try done. injection Hs as <-.
  destruct (inv_call _ HI id c Hc) as (_ & _ & Hnone). rewrite Ep in Hnone. destruct Hnone as [Hnone _].
  pose proof (co_server _ (wi_ok _ (sim_wired _ _ _ HS))) as Hsv. cbn in Hsv.
  destruct (process_wired _ r c (wi_conn _ (sim_wired _ _ _ HS)) Hsv) as [E|[E|(rel & lr & E)]];
    (eapply Sim_phase; [done|done|done|done|done|done|done|..]); rewrite ?E; cbn; rewrite ?Ep, ?Hnone; try done; by intros p [= <-].
Qed.

(** The caller never gives up while the handler may still run. *)
Lemma Sim_giveUp more cl w id cl' : Sim more cl w -> rpc (EvTick id) cl = Some cl' -> Sim more cl' w.
Proof.
  intros HS (s & Hs & _ & ->)%rpc_Some. unfold LabRPC.happen in Hs. destruct (alive (sys cl)) eqn:Ea; [|done]. cbn [negb] in Hs.
  apply bind_Some in Hs as (c & Hc & Hs). destruct (c_phase c) as [| |n sv rel lr [rep|]|rep|rep] eqn:Ep; try done.
  destruct (tr_call _ (sim_traffic _ _ _ HS) id c Hc) as (Hph & _ & Hown). rewrite Ep in Hph. destruct Hph as [-> ->].
  destruct Hown as (i & j & Hj & Hid); [by rewrite Ep|]. destruct (job_end _ _ _ _ _ _ HS Hj Hid) as (x & c' & _ & Hc' & He & Hen).
  simplify_eq. unfold isServerDead in Hs. rewrite He, Hen, bool_decide_eq_true_2 in Hs; [|apply (co_server _ (wi_ok _ (sim_wired _ _ _ HS)))].
  injection Hs as <-. destruct cl. exact HS.
Qed.

Lemma Sim_answer more cl w id r r' cl' : Sim more cl w -> rpc (EvAnswer id r r') cl = Some cl' -> Sim more cl' w.
Proof.
  intros HS (s & Hs & _ & ->)%rpc_Some. pose proof (tr_inv _ (sim_traffic _ _ _ HS)) as HI.
  pose proof (happen_Inv _ _ _ _ HI Hs) as HI'. unfold LabRPC.happen in Hs. destruct (alive (sys cl)) eqn:Ea; [|done]. cbn [negb] in Hs.
  apply bind_Some in Hs as (c & Hc & Hs). destruct (c_phase c) as [| |n sv rel lr [rep|]|rep|rep] eqn:Ep; try done.
  destruct (inv_call _ HI id c Hc) as (_ & _ & Hnone). rewrite Ep in Hnone. destruct Hnone as [Hnone _].
  destruct (answerWith r r' _ _ _ _ _ _ _) as [p rn] eqn:Ew. injection Hs as <-.
  assert (same_wires (LabRPC.net (sys cl)) rn /\ match p with Delayed _ | Returned _ => True | _ => False end) as [Hw Hp].
  { unfold answerWith in Ew. repeat case_match; simplify_eq; done. }
  eapply Sim_phase; [done|done|done|done|done|done|done|done|by rewrite Ep| |].
  - cbn. by destruct p.
  - cbn. by rewrite Hnone.
Qed.

Lemma Sim_timer more cl w id cl' : Sim more cl w -> rpc (EvTimer id) cl = Some cl' -> Sim more cl' w.
Proof.
  intros HS (s & Hs & _ & ->)%rpc_Some. pose proof (tr_inv _ (sim_traffic _ _ _ HS)) as HI.
  pose proof (happen_Inv _ _ _ _ HI Hs) as HI'. unfold LabRPC.happen in Hs. destruct (alive (sys cl)) eqn:Ea; [|done]. cbn [negb] in Hs.
  apply bind_Some in Hs as (c & Hc & Hs). destruct (inv_call _ HI id c Hc) as (_ & _ & Hnone).
  destruct (c_phase c) as [| |n sv rel lr [rep|]|rep|rep] eqn:Ep; try done; injection Hs as <-; destruct Hnone as [Hnone _];
    (eapply Sim_phase; [done|done|done|done|done|done|done|done|by rewrite Ep|done|by cbn; rewrite Hnone]).
Qed.

(** *** Methods and their calls *)

(** The task of a method in progress. *)
Lemma job_task more cl w i j :
  Sim more cl w -> jobs cl !! i = Some j -> exists t, w_tasks w !! i = Some t /\ job_ok cl j t.
Proof. intros HS Hj. pose proof (sim_job _ _ _ HS i) as Ht. rewrite Hj in Ht. inversion Ht; subst. eauto. Qed.

Lemma stage_asked s x j p id :
  stage_ok s x j p -> callOf j = Some id -> exists e meth m, asked s id e meth m.
Proof. unfold stage_ok, callOf. destruct (j_stage j); intros H; intros; simplify_eq; destruct H as [H _]; eauto. Qed.

Lemma call_known more cl w i j id :
  Sim more cl w -> jobs cl !! i = Some j -> callOf j = Some id -> is_Some (LabRPC.calls (sys cl) !! id).
Proof.
  intros HS Hj Hid. destruct (job_task _ _ _ _ _ HS Hj) as (t & _ & _ & _ & x & _ & _ & Hst).
  destruct (stage_asked _ _ _ _ _ Hst Hid) as (e & meth & m & c & Hc & _). by eexists.
Qed.

(** A new call. *)
Lemma Sim_newCall more cl w i j t x st meth m gone cl' :
  Sim more cl w -> jobs cl !! i = Some j -> w_tasks w !! i = Some t -> t_clerk t = j_clerk j -> t_req t = j_req j ->
  usable (j_clerk j) cl = Some x -> callOf j = None -> callOf (set_stage st j) = Some (nextCall cl) -> job_of x (set_stage st j) ->
  (forall s, asked s (nextCall cl) (ck_server x) meth m -> unexecuted s (nextCall cl) -> stage_ok s x (set_stage st j) (t_phase t)) ->
  call (ck_server x) meth m gone cl = Some cl' ->
  Sim more (set_jobs (<[i := set_stage st j]> (jobs cl')) cl') w.
Proof.
  intros HS Hj Ht Etc Etr Hu Hno Hid Hof Hst (cl1 & (s & Hs & _ & ->)%rpc_Some & [= <-])%bind_Some.
  pose proof (sim_traffic _ _ _ HS) as [T1 T2 T3 T4]. pose proof (happen_Inv _ _ _ _ T1 Hs) as HI.
  assert (LabRPC.calls (sys cl) !! nextCall cl = None) as Hnew.
  { destruct (LabRPC.calls (sys cl) !! nextCall cl) eqn:E; [|done]. assert (nextCall cl < nextCall cl); [apply T3; by eexists|lia]. }
  assert (exists ph, LabRPC.calls s = <[nextCall cl := mkCall (mkReqMsg (inl (ck_server x)) meth (gob_encode m)) ph None]> (LabRPC.calls (sys cl)) /\
    (ph = Sent \/ ph = Returned noReply) /\ LabRPC.heap s = LabRPC.heap (sys cl) /\ history s = history (sys cl) /\
    same_wires (LabRPC.net (sys cl)) (LabRPC.net s)) as (ph & Hcalls & Hph & Hheap & Hhist & Hw).
  { unfold LabRPC.happen in Hs. destruct (alive (sys cl)); [|done]. destruct gone; cbn [negb] in Hs; rewrite Hnew in Hs.
    - destruct (done (LabRPC.net (sys cl))); [|done]. injection Hs as <-. exists (Returned noReply). by split_and!; auto.
    - injection Hs as <-. exists Sent. by split_and!; auto. }
  destruct HS as [H1 H2 H3 H4 H5 H6 H7]. split; cbn; [by rewrite Hheap|done..| | |].
  - intros i'. destruct (decide (i = i')) as [<-|Hne].
    + rewrite lookup_insert_eq, Ht. constructor. split_and!; [done..|]. exists x. split_and!; [done|done|]. cbn. apply Hst.
      * eexists. by rewrite Hcalls, lookup_insert_eq.
      * unfold unexecuted. rewrite Hhist. intros a v Hin%elem_ids%(inv_known _ T1). rewrite Hnew in Hin. by destruct Hin.
    + rewrite lookup_insert_ne by done. destruct (H5 i') as [j' t' Hok|]; constructor. apply (job_ok_frame cl); [done|eauto|].
      intros id _. split; cbn; [|by rewrite Hhist]. intros d Hd. exists d. rewrite Hcalls, lookup_insert_ne; [done|]. congruence.
  - apply (Wired_wires _ s) in H6; [|done]. by destruct H6.
  - split; cbn; [done|..].
    + assert (forall i' j' id, jobs cl !! i' = Some j' -> callOf j' = Some id -> id < nextCall cl) as Hlt.
      { intros i' j' id Hj' Hid'. apply T3. by eapply (call_known more cl w). }
      intros a b ja jb id [[<- <-]|[Hna Ha]]%lookup_insert_Some [[<- <-]|[Hnb Hb]]%lookup_insert_Some Hia Hib; [done| | |by eapply T2].
      * rewrite Hid in Hia. simplify_eq. pose proof (Hlt _ _ _ Hb Hib). lia.
      * rewrite Hid in Hib. simplify_eq. pose proof (Hlt _ _ _ Ha Hia). lia.
    + intros id. rewrite Hcalls. intros [d [[<- _]|[_ Hd]]%lookup_insert_Some]; [lia|].
      assert (id < nextCall cl); [apply T3; by eexists|lia].
    + intros id d. rewrite Hcalls. intros [[<- <-]|[_ Hd]]%lookup_insert_Some.
      * split_and!; cbn; [by destruct Hph as [->| ->]|done|]. intros _. exists i, (set_stage st j). cbn. by rewrite lookup_insert_eq.
      * destruct (T4 id d Hd) as (Ha & Hb & Hc). split_and!; [done..|]. intros Hl. destruct (Hc Hl) as (i0 & j0 & Hj0 & Hi0).
        exists i0, j0. cbn. rewrite lookup_insert_ne; [done|]. congruence.
Qed.

Lemma Sim_calls more cl w i gone cl' : Sim more cl w -> callsServer i gone cl = Some cl' -> Sim more cl' w.
Proof.
  intros HS (j & Hj & (x & Hx & Hs)%bind_Some)%bind_Some. destruct (job_task _ _ _ _ _ HS Hj) as (t & Ht & Etc & Etr & x' & Hu & Hof & Hst).
  assert (x' = x) as -> by (apply bind_Some in Hu as (? & _ & Hu); congruence). unfold stage_ok in Hst.
  destruct (j_stage j) as [|id|v|v id] eqn:Est; try done; apply bind_Some in Hs as (cl1 & Hc & [= <-]);
    (eapply (Sim_newCall more cl w i j t x); [done..| | | | |done]).
  all: unfold callOf, job_of, stage_ok in *; cbn; rewrite ?Est in *; try done.
  all: try (intros s Ha Hu'; split; [done|]; by left).
Qed.

(** *** The server executes a call *)

Lemma Sim_executed more cl w i j t x id c al rs' kv p a v rep :
  Sim more cl w -> jobs cl !! i = Some j -> w_tasks w !! i = Some t -> job_ok cl j t -> usable (j_clerk j) cl = Some x ->
  callOf j = Some id -> LabRPC.calls (sys cl) !! id = Some c ->
  let s := mkSys al (LabRPC.net (sys cl)) (<[0%nat := rs']> (LabRPC.heap (sys cl)))
             (<[id := mkCall (c_req c) (answered rep (c_phase c)) None]> (LabRPC.calls (sys cl))) (history (sys cl) ++ [(id, a, v)]) in
  LabRPC.Inv s -> hosts rs' kv -> stage_ok s x j p ->
  Sim more (set_sys s cl) (set_kv kv (set_tasks (<[i := KvSrv.set_phase p t]> (w_tasks w)) w)).
Proof.
  intros HS Hj Ht (Etc & Etr & x' & Hu & Hof & _) Hu' Hid Hc s HI Hh Hst. assert (x' = x) as -> by congruence.
  destruct HS as [H1 H2 H3 H4 H5 H6 H7]. split; cbn; [|done|done|done| | |].
  - destruct H1 as (rs & -> & _). by exists rs'.
  - intros i'. destruct (decide (i = i')) as [<-|Hne].
    + rewrite Hj, lookup_insert_eq. constructor. split_and!; [done..|]. by exists x.
    + rewrite lookup_insert_ne by done. pose proof (H5 i') as Hi'. destruct (jobs cl !! i') as [j'|] eqn:Hj'; [|inversion Hi'; by constructor].
      inversion Hi' as [? t' Hok|]; subst. constructor. apply (job_ok_frame cl); [done|eauto|].
      intros id' Hid'. assert (id <> id') as Hni by (intros <-; by eapply Hne, (tr_inj _ H7)).
      split; cbn; [intros d Hd; exists d; by rewrite lookup_insert_ne|]. intros a' m'. rewrite elem_of_app, list_elem_of_singleton. naive_solver.
  - by apply Wired_wires.
  - destruct H7 as [T1 T2 T3 T4]. split; cbn; [done..| |].
    + intros id' [d [[<- _]|[_ Hd]]%lookup_insert_Some]; apply T3; by eexists.
    + intros id' d [[<- <-]|[_ Hd]]%lookup_insert_Some; [|by apply (T4 id' d)].
      destruct (T4 id c Hc) as (Ha & _ & _). split; [|split; [done|intros _; eauto]].
      cbn. by destruct (c_phase c) as [| |n sv rel lr []| |r].
Qed.

Lemma Sim_handler more cl w id cl' :
  Sim more cl w -> rpc (EvHandler id) cl = Some cl' ->
  exists i w', KvSrv.happen (EvExecute i) w = Some w' /\ Sim more cl' w'.
Proof.
  intros HS (s & Hs & _ & ->)%rpc_Some. pose proof (sim_traffic _ _ _ HS) as [T1 T2 T3 T4].
  pose proof (happen_Inv _ _ _ _ T1 Hs) as HI. unfold LabRPC.happen in Hs. destruct (alive (sys cl)) eqn:Ea; [|done]. cbn [negb] in Hs.
  apply bind_Some in Hs as (c & Hc & (sv & Hsv & (rs & Hrs & Hs)%bind_Some)%bind_Some).
  destruct (T4 id c Hc) as (Hph & ->%(fun H => H sv Hsv) & Hown).
  assert (forall r, c_phase c <> Returned r) as Hlive by (intros r Er; rewrite Er in Hph; congruence).
  destruct (Hown Hlive) as (i & j & Hj & Hid). destruct (job_task _ _ _ _ _ HS Hj) as (t & Ht & Hok). exists i.
  destruct (inv_call _ T1 id c Hc) as (_ & Hnot & _). specialize (Hnot ltac:(by rewrite Hsv)).
  assert (forall m, ~ executed (sys cl) id m) as Hnex by (intros m (a & Hin); by eapply Hnot, elem_ids).
  destruct (sim_kv _ _ _ HS) as (rs0 & Hheap & Hhost). rewrite Hheap in Hrs. injection Hrs as ->.
  pose proof Hok as (Etc & Etr & x & Hu & Hof & Hst). unfold KvSrv.happen. rewrite Ht. cbn [mbind option_bind].
  unfold stage_ok in Hst. destruct (j_stage j) as [|id'|v|v id'] eqn:Est; unfold callOf in Hid; rewrite Est in Hid; simplify_eq.
  - destruct Hst as ((c' & Hc' & Hreq) & [[Hp _]|(v & _ & Hex)]); [|by apply Hnex in Hex]. simplify_eq. rewrite Hp, Etr.
    destruct (dispatch_request rs (w_kv w) (inl (ck_server x)) (j_req j) Hhost) as (rs' & Hh' & Hd).
    rewrite Hreq, Hd in Hs. injection Hs as <-. destruct (serve (j_req j) (w_kv w)) as [kv v]. cbn [fst snd] in *.
    eexists. split; [done|]. rewrite <- Hreq in HI |- *.
    eapply (Sim_executed more cl w i j t x id c); try done. { unfold callOf. by rewrite Est. }
    unfold stage_ok. rewrite Est. split; [eexists; cbn; rewrite lookup_insert_eq; by split|].
    right. exists v. split; [done|]. eexists. cbn. apply elem_of_app. right. by apply list_elem_of_singleton.
  - destruct Hst as ((c' & Hc' & Hreq) & [[Hp _]|(_ & Hex)]); [|by apply Hnex in Hex]. simplify_eq. rewrite Hp, Etr.
    unfold job_of in Hof. rewrite Est in Hof. destruct (j_req j) as [|op args] eqn:Er; [done|].
    destruct (dispatch_delete rs (w_kv w) (inl (ck_server x)) (client (ck_clerk x)) Hhost) as (rs' & Hh' & Hd).
    rewrite Hreq, Hd in Hs. injection Hs as <-. eexists. split; [done|]. rewrite <- Hreq in HI |- *. rewrite Hof.
    eapply (Sim_executed more cl w i j t x id c); try done. { unfold callOf. by rewrite Est. }
    unfold stage_ok. rewrite Est. split; [eexists; cbn; rewrite lookup_insert_eq; by split|].
    right. split; [done|]. eexists. cbn. apply elem_of_app. right. by apply list_elem_of_singleton.
Qed.
End Sim.
