(* ===== verification/KvClusterSteps.v ===== *)
(** * KvClusterSteps: the steps of the clerks and of their tester in KvSrv

    What is left of the simulation: a call returns to its method, a method begins or returns, the test makes and deletes
    clerks; and every event of the cluster is one event of KvSrv. *)

From S2P Require Import Prelude Persister Porcupine KvModel KvSrv Random LabRPC TestNet KvSrvTester KvCluster KvClusterSim.
Local Open Scope Z_scope.

Section Steps.
Context {byte : Type} `{!Gob byte Msg}.
Implicit Types (cl : Cluster byte) (w : World) (j : Job) (t : Task) (x : Client) (id i : Z) (rn : Net).

(** ** Methods *)

(** Jobs change, but none starts or leaves a call that is in progress. *)
Lemma Traffic_jobs cl js :
  Traffic cl ->
  (forall i j, js !! i = Some j -> callOf j <> None -> jobs cl !! i = Some j) ->
  (forall i j id c, jobs cl !! i = Some j -> callOf j = Some id -> LabRPC.calls (sys cl) !! id = Some c ->
     js !! i = Some j \/ exists r, c_phase c = Returned r) ->
  Traffic (set_jobs js cl).
Proof.
  intros [T1 T2 T3 T4] Hold Hkeep. split; cbn; [done| |done|].
  - intros i i' j j' id Hi Hi' Hid Hid'. eapply T2; [apply Hold|apply Hold|..]; try done; congruence.
  - intros id c Hc. destruct (T4 id c Hc) as (Ha & Hb & Hown). split_and!; [done..|]. intros Hl.
    destruct (Hown Hl) as (i & j & Hj & Hid). exists i, j. split; [|done].
    destruct (Hkeep i j id c Hj Hid Hc) as [?|[r Hr]]; [done|]. by destruct (Hl r).
Qed.

(** The call a method waits for has returned. *)
Definition call_over cl j : Prop :=
  forall id c, callOf j = Some id -> LabRPC.calls (sys cl) !! id = Some c -> exists r, c_phase c = Returned r.

(** A method goes on. *)
Lemma Sim_stage more cl w i j t x st p :
  Sim more cl w -> jobs cl !! i = Some j -> w_tasks w !! i = Some t -> job_ok cl j t -> usable (j_clerk j) cl = Some x ->
  call_over cl j -> callOf (set_stage st j) = None -> job_of x (set_stage st j) -> stage_ok (sys cl) x (set_stage st j) p ->
  Sim more (set_jobs (<[i := set_stage st j]> (jobs cl)) cl) (set_tasks (<[i := KvSrv.set_phase p t]> (w_tasks w)) w).
Proof.
  intros HS Hj Ht (Etc & Etr & _) Hu Hover Hno Hof Hst. destruct HS as [H1 H2 H3 H4 H5 H6 H7].
  split; cbn; [done..| |by apply Wired_jobs|].
  - intros i'. destruct (decide (i = i')) as [<-|Hne]; [rewrite !lookup_insert_eq|by rewrite !lookup_insert_ne].
    constructor. split_and!; [done..|]. by exists x.
  - apply Traffic_jobs; [done|..].
    + intros i' j' [[<- <-]|[_ Hj']]%lookup_insert_Some Hc; done.
    + intros i' j' id c Hj' Hid Hc. destruct (decide (i = i')) as [<-|Hne]; [simplify_eq; right; by eapply Hover|].
      left. by rewrite lookup_insert_ne.
Qed.

Lemma lookup_unlock (xs : list Client) (k k' : nat) x :
  xs !! k' = Some x ->
  exists x', alter (fun x => set_clerk (unlock (ck_clerk x)) x) k xs !! k' = Some x' /\
    ck_server x' = ck_server x /\ client (ck_clerk x') = client (ck_clerk x).
Proof.
  intros Hx. destruct (decide (k = k')) as [->|Hne].
  - rewrite list_lookup_alter_eq, Hx. cbn. by eexists.
  - rewrite list_lookup_alter_ne by done. eauto.
Qed.

(** Clients change, their ends and ids do not. *)
Lemma usable_clients cl (xs : list Client) (ck : nat) x :
  (forall k x, clients cl !! k = Some x -> exists x', xs !! k = Some x' /\ ck_server x' = ck_server x /\ client (ck_clerk x') = client (ck_clerk x)) ->
  usable ck cl = Some x ->
  exists x', usable ck (set_clients xs cl) = Some x' /\ ck_server x' = ck_server x /\ client (ck_clerk x') = client (ck_clerk x).
Proof.
  intros Hxs (e & He & Hx)%bind_Some. destruct (Hxs _ _ Hx) as (x' & Hx' & ?). exists x'. unfold usable. cbn. by rewrite He.
Qed.

(** A method returns. *)
Lemma Sim_returns more cl w i j t v :
  Sim more cl w -> jobs cl !! i = Some j -> w_tasks w !! i = Some t -> job_ok cl j t -> call_over cl j ->
  Sim more (returns i j v cl) (finish i t v w).
Proof.
  intros HS Hj Ht (Etc & Etr & x & Hu & _) Hover. destruct HS as [H1 H2 H3 H4 H5 H6 H7].
  unfold returns, finish. rewrite Etc, Etr.
  set (xs := match j_req j with RGet _ => clients cl | RWrite _ _ => alter (fun x => set_clerk (unlock (ck_clerk x)) x) (j_clerk j) (clients cl) end).
  assert (forall (k : nat) x, clients cl !! k = Some x -> exists x', xs !! k = Some x' /\
    ck_server x' = ck_server x /\ client (ck_clerk x') = client (ck_clerk x)) as Hxs.
  { intros k y Hy. unfold xs. destruct (j_req j); [eauto|by apply lookup_unlock]. }
  split; cbn; [done| |done|by rewrite H4, H3|..].
  - unfold xs. destruct (j_req j); [done|]. rewrite H2. apply bind_Some in Hu as (_ & _ & Hu). rewrite alter_app_l.
    + f_equal. apply list_eq. intros k. rewrite list_lookup_fmap. destruct (decide (j_clerk j = k)) as [<-|Hne].
      * by rewrite !list_lookup_alter_eq, list_lookup_fmap, Hu.
      * by rewrite !list_lookup_alter_ne, list_lookup_fmap by done.
    + rewrite length_fmap. by eapply lookup_lt_Some.
  - intros i'. destruct (decide (i = i')) as [<-|Hne]; [rewrite !lookup_delete_eq; constructor|].
    rewrite !lookup_delete_ne by done. destruct (H5 i') as [j' t' Hok|]; constructor.
    apply (job_ok_frame cl); [done| |intros; apply same_call_refl]. intros y Hy. by apply (usable_clients cl).
  - apply (Wired_clients cl xs) in H6 as [W1 W2 W3 W4]; [by split|by unfold xs; destruct (j_req j); rewrite ?length_alter|].
    intros k y Hy. destruct (Hxs k y Hy) as (y' & ? & ? & _). eauto.
  - apply (Traffic_jobs cl (delete i (jobs cl))) in H7; [by destruct H7|..].
    + by intros i' j' [_ ?]%lookup_delete_Some _.
    + intros i' j' id c Hj' Hid Hc. destruct (decide (i = i')) as [<-|Hne]; [simplify_eq; right; by eapply Hover|].
      left. by rewrite lookup_delete_ne.
Qed.

(** A request has one result. *)
Lemma history_unique (s : LabRPC.Sys (Name := NetName) (byte := byte) (Val := Msg) (Obj := KVServer)) id a a' m m' :
  LabRPC.Inv s -> (id, a, m) ∈ history s -> (id, a', m') ∈ history s -> m = m'.
Proof.
  intros HI (k & Hk)%list_elem_of_lookup (k' & Hk')%list_elem_of_lookup.
  assert (k = k') as ->; [|congruence]. eapply (NoDup_lookup _ k k' id (inv_once _ HI)); by rewrite !list_lookup_fmap, ?Hk, ?Hk'.
Qed.

Lemma replyValue_reply req v : replyValue (replyMsgOf req v) = Some v.
Proof. by destruct req. Qed.

(** [Call] returns to its method. *)
Lemma Sim_callReturns more cl w i cl' :
  Sim more cl w -> callReturns i cl = Some cl' ->
  exists ev w', KvSrv.happen ev w = Some w' /\ Sim more cl' w'.
Proof.
  intros HS (j & Hj & Hs)%bind_Some. destruct (job_task _ _ _ _ _ HS Hj) as (t & Ht & Hok).
  pose proof Hok as (Etc & Etr & x & Hu & Hof & Hst). pose proof (tr_inv _ (sim_traffic _ _ _ HS)) as HI.
  unfold stage_ok, job_of in *. destruct (j_stage j) as [|id|v|v id] eqn:Est; try done;
    apply bind_Some in Hs as (c & Hc & Hs); destruct (c_phase c) as [| |?|?|rep] eqn:Ep; try done.
  all: assert (call_over cl j) as Hover by (intros id' c' Hid Hc'; unfold callOf in Hid; rewrite Est in Hid; simplify_eq; eauto).
  - apply bind_Some in Hs as ([ok m] & Hres & Hs). unfold callResult in Hres. destruct (LabRPC.ok rep) eqn:Eok.
    + apply bind_Some in Hres as ([m' rest] & Hdec & [= <- <-]). destruct (inv_call _ HI id c Hc) as (_ & _ & Hrep). rewrite Ep in Hrep.
      destruct (Hrep Eok) as (a & m & Hin & ->). cbn [LabRPC.reply] in Hdec. rewrite <- (app_nil_r (gob_encode m)), gob_decode_encode in Hdec.
      injection Hdec as <- <-. destruct Hst as (_ & [[_ Hun]|(v & Hp & a' & Hin')]); [by apply Hun in Hin|].
      rewrite (history_unique _ _ _ _ _ _ HI Hin Hin') in Hs. cbn in Hs. rewrite replyValue_reply in Hs. cbn in Hs. injection Hs as <-.
      exists (EvReturn i). unfold KvSrv.happen. rewrite Ht. cbn. rewrite Hp, Etr. destruct (j_req j) eqn:Er; (eexists; split; [done|]).
      * by apply Sim_returns.
      * eapply Sim_stage; try done. unfold job_of. cbn. by rewrite Er.
    + injection Hres as <- <-. injection Hs as <-. exists (EvFail i). unfold KvSrv.happen. rewrite Ht. cbn.
      assert (t_phase t = Sending \/ exists v, t_phase t = Answered v) as [->|[v ->]] by naive_solver.
      all: eexists; split; [done|]; eapply Sim_stage; try done; unfold job_of; cbn; by destruct (j_req j).
  - apply bind_Some in Hs as (_ & _ & [= <-]). exists (EvFail i). unfold KvSrv.happen. rewrite Ht. cbn.
    assert (exists b, t_phase t = Deleting v b) as [b ->] by naive_solver. eexists. split; [done|]. by apply Sim_returns.
Qed.

(** A method begins. *)
Lemma Sim_begins more cl w j t x clerks xs :
  Sim more cl w -> jobs cl !! now cl = None -> j_stage j = Ready -> t = mkTask (j_clerk j) (j_req j) Sending ->
  (forall (k : nat) x, clients cl !! k = Some x -> exists x', xs !! k = Some x' /\ ck_server x' = ck_server x /\ client (ck_clerk x') = client (ck_clerk x)) ->
  length xs = length (clients cl) -> clerks = (ck_clerk <$> xs) ++ (MakeClerk <$> more) ->
  usable (j_clerk j) (set_clients xs cl) = Some x -> job_of x j ->
  Sim more (set_jobs (<[now cl := j]> (jobs cl)) (set_clients xs cl))
    (mkWorld (w_kv w) clerks (<[w_now w := t]> (w_tasks w)) (w_now w) (w_done w)).
Proof.
  intros [H1 H2 H3 H4 H5 H6 H7] Hnew Hst -> Hxs Hlen -> Hu Hof. split; cbn; [done..| | |].
  - intros i. rewrite H3. destruct (decide (now cl = i)) as [<-|Hne].
    + rewrite !lookup_insert_eq. constructor. split_and!; [done..|]. exists x. split_and!; [done..|]. unfold stage_ok. by rewrite Hst.
    + rewrite !lookup_insert_ne by done. destruct (H5 i) as [j' t' Hok|]; constructor.
      apply (job_ok_frame cl); [done| |intros; apply same_call_refl]. intros y Hy. by apply (usable_clients cl).
  - apply (Wired_clients cl xs) in H6 as [W1 W2 W3 W4]; [by split|done|].
    intros k y Hy. destruct (Hxs k y Hy) as (y' & ? & ? & _). eauto.
  - apply (Traffic_jobs cl (<[now cl := j]> (jobs cl))) in H7; [by destruct H7|..].
    + intros i' j' [[<- <-]|[_ ?]]%lookup_insert_Some Hc; [|done]. unfold callOf in Hc. by rewrite Hst in Hc.
    + intros i' j' id c Hj' Hid Hc. left. rewrite lookup_insert_ne; [done|]. congruence.
Qed.

Lemma clerk_in_world more cl w (k : nat) x : Sim more cl w -> usable k cl = Some x -> w_clerks w !! k = Some (ck_clerk x).
Proof.
  intros HS (_ & _ & Hx)%bind_Some. rewrite (sim_clerks _ _ _ HS). apply lookup_app_l_Some. by rewrite list_lookup_fmap, Hx.
Qed.

Lemma Sim_beginGet more cl w k key cl' :
  Sim more cl w -> jobs cl !! now cl = None -> beginGet k key cl = Some cl' ->
  exists w', KvSrv.happen (EvGet k key) w = Some w' /\ Sim more cl' w'.
Proof.
  intros HS Hnew (x & Hu & [= <-])%bind_Some. unfold KvSrv.happen. rewrite (clerk_in_world _ _ _ _ _ HS Hu). eexists. split; [done|].
  pose proof (Sim_begins more cl w (mkJob k (RGet (mkGetArgs key)) Ready) _ x (w_clerks w) (clients cl) HS Hnew eq_refl eq_refl) as H.
  destruct cl. apply H; [eauto|done|apply (sim_clerks _ _ _ HS)|done|done].
Qed.

Lemma Sim_beginPutAppend more cl w k op key val cl' :
  Sim more cl w -> jobs cl !! now cl = None -> beginPutAppend k op key val cl = Some cl' ->
  exists w', KvSrv.happen (EvWrite k op key val) w = Some w' /\ Sim more cl' w'.
Proof.
  intros HS Hnew (x & Hu & Hs)%bind_Some. unfold KvSrv.happen. rewrite (clerk_in_world _ _ _ _ _ HS Hu). cbn [mbind option_bind]. cbv zeta in Hs.
  destruct (locked (ck_clerk x)); [done|]. injection Hs as <-. eexists. split; [done|].
  pose proof Hu as (e & He & Hx)%bind_Some. pose proof (lookup_lt_Some _ _ _ Hx) as Hlt.
  set (x' := set_clerk _ x). eapply (Sim_begins more cl w (mkJob k (RWrite op _) Ready) _ x' _ (<[k := x']> (clients cl))); try done.
  - intros k' y Hy. destruct (decide (k = k')) as [<-|Hne]; [|rewrite list_lookup_insert_ne by done; eauto].
    rewrite list_lookup_insert_eq by done. simplify_eq. by exists x'.
  - by rewrite length_insert.
  - rewrite (sim_clerks _ _ _ HS), insert_app_l by by rewrite length_fmap. by rewrite list_fmap_insert.
  - unfold usable. cbn. rewrite He. cbn. by rewrite list_lookup_insert_eq.
Qed.

(** ** The test *)

Lemma Sim_test more more' cl cl' w rn :
  Sim more cl w -> sys cl' = LabRPC.set_net rn (sys cl) -> jobs cl' = jobs cl -> nextCall cl' = nextCall cl -> now cl' = now cl ->
  log cl' = log cl -> w_clerks w = (ck_clerk <$> clients cl') ++ (MakeClerk <$> more') -> Wired cl' ->
  (forall i j x, jobs cl !! i = Some j -> usable (j_clerk j) cl = Some x -> usable (j_clerk j) cl' = Some x) ->
  Sim more' cl' w.
Proof.
  intros [H1 H2 H3 H4 H5 H6 H7] Es Ej En Et El Hcl Hw Hu. split; rewrite ?Es, ?Ej, ?En, ?Et, ?El; try done.
  - intros i. specialize (H5 i). destruct (jobs cl !! i) as [j|] eqn:Hj; inversion H5 as [? t Hok|]; subst; constructor.
    apply (job_ok_frame cl); [done| |].
    + intros x Hx. exists x. by eauto.
    + intros id _. rewrite Es. split; cbn; [eauto|done].
  - destruct H7 as [T1 T2 T3 T4]. split; unfold call_wf; rewrite ?Es, ?Ej, ?En; try done. by destruct T1.
Qed.

Lemma Wired_runOp (o : Op) cl c xs :
  Wired cl -> named o -> runOp o (confOf cl) = Some c -> clerkObjects c = length xs ->
  (forall (k : nat) e, KvSrvTester.clerks c !! k = Some e -> exists x, xs !! k = Some x /\ ck_server x = e) ->
  Wired (set_clients xs (set_conf c cl)).
Proof.
  intros [H1 H2 H3 H4] Hn Ho Hlen Hend. split; cbn; [|done|done|].
  - assert (clerks_ok c) as Hok by by apply (runOp_ok o (confOf cl) c). unfold confOf, KvSrvTester.set_net. cbn. by destruct c.
  - intros e n. destruct o as [name|k|k]; cbn in Ho.
    + apply fmap_Some in Ho as ([c' k] & Hm & ->). apply bind_Some in Hm as (rn & Hme & [= <- <-]).
      unfold MakeEnd in Hme. case_bool_decide; [done|]. injection Hme as <-. cbn.
      rewrite !lookup_insert_Some. naive_solver.
    + apply bind_Some in Ho as (rn & Hd & [= <-]). unfold DeleteEnd in Hd. case_bool_decide; [|done]. injection Hd as <-. cbn.
      intros [_ ?]%lookup_delete_Some. by apply (H4 e n).
    + injection Ho as <-. cbn. apply H4.
Qed.

Lemma Sim_makes more cl w b seed cl' :
  Sim (nrand seed :: more) cl w -> makesClient b seed cl = Some cl' -> Sim more cl' w.
Proof.
  intros HS. unfold makesClient. case_bool_decide as Hb; [|done]. cbn [negb]. intros ([c k] & Hm & [= <-])%bind_Some.
  pose proof (sim_wired _ _ _ HS) as HW. pose proof HW as [[W1 W2 W3 W4 W5 W6] Hlen Hend Hconn].
  pose proof Hm as (rn & _ & [= <- <-])%bind_Some. cbn in Hm.
  eapply (Sim_test (nrand seed :: more) _ cl); [done..| | |].
  - cbn. rewrite (sim_clerks _ _ _ HS), fmap_app, <- app_assoc. done.
  - apply (Wired_runOp (OMake (randstring 20 b))); [done| |cbn; by rewrite Hm|cbn; rewrite length_app; cbn; lia|].
    + cbn. intros E. pose proof (randstring_length 20 b Hb) as Hl. by rewrite E in Hl.
    + cbn. intros k e [[<- <-]|[Hne He]]%lookup_insert_Some; [rewrite Hlen, list_lookup_middle by done; by eexists|].
      destruct (Hend k e He) as (x & Hx & <-). exists x. split; [|done]. by apply lookup_app_l_Some.
  - intros i j x _ (e & He & Hx)%bind_Some. unfold usable. cbn. rewrite lookup_insert_ne.
    + rewrite He. cbn. by apply lookup_app_l_Some.
    + intros E. apply W1 in He. cbn in He. lia.
Qed.

Lemma Sim_deletes more cl w k cl' : Sim more cl w -> deletesClient k cl = Some cl' -> Sim more cl' w.
Proof.
  intros HS. unfold deletesClient, busy. case_bool_decide as Hb; [done|]. intros (c & Hd & [= <-])%bind_Some.
  pose proof (sim_wired _ _ _ HS) as HW. pose proof HW as [_ Hlen Hend _]. pose proof Hd as (rn & _ & [= <-])%bind_Some.
  eapply (Sim_test more more cl); [done..|apply HS| |].
  - pose proof (Wired_runOp (ODelete k) cl _ (clients cl) HW I Hd Hlen) as H. destruct cl. apply H.
    cbn. intros k' e [_ He]%lookup_delete_Some. by apply Hend.
  - intros i j x Hj (e & He & Hx)%bind_Some. unfold usable. cbn. rewrite lookup_delete_ne; [by rewrite He|].
    intros ->. apply Hb. exists i, j. done.
Qed.

Lemma Sim_connects more cl w k : Sim more cl w -> Sim more (set_conf (ConnectClient k (confOf cl)) cl) w.
Proof.
  intros HS. pose proof (sim_wired _ _ _ HS) as HW. eapply (Sim_test more more cl); [done..|apply HS| |done].
  pose proof (Wired_runOp (OConnect k) cl _ (clients cl) HW I eq_refl) as H. destruct cl. apply H; apply HW.
Qed.

Lemma Sim_sets more cl w st rn :
  Sim more cl w -> applySetting st (LabRPC.net (sys cl)) = Some rn -> Sim more (set_sys (LabRPC.set_net rn (sys cl)) cl) w.
Proof.
  intros HS Hset. eapply (Sim_test more more cl); [done..|apply HS| |done]. apply Wired_wires; [apply HS|]. cbn.
  destruct st; cbn in Hset; [by simplify_eq..|]. unfold Cleanup in Hset. destruct (done _); by simplify_eq.
Qed.

(** ** Runs *)

(** Methods were called before now. *)
Definition past cl : Prop := forall i, is_Some (jobs cl !! i) -> i < now cl.

Lemma rpc_frame ev cl cl' : rpc ev cl = Some cl' -> jobs cl' = jobs cl /\ now cl' = now cl.
Proof. by intros (s & _ & _ & ->)%rpc_Some. Qed.

Lemma happens_frame ev cl cl' :
  happens ev cl = Some cl' -> now cl' = now cl /\ forall i, is_Some (jobs cl' !! i) -> is_Some (jobs cl !! i) \/ i = now cl.
Proof.
  assert (forall i i' j, is_Some (<[i := j]> (jobs cl) !! i') -> is_Some (jobs cl !! i') \/ i' = i) as Hins
    by (intros i i' j; rewrite lookup_insert_is_Some; naive_solver).
  assert (forall i i' j j', jobs cl !! i = Some j -> is_Some (<[i := j']> (jobs cl) !! i') -> is_Some (jobs cl !! i') \/ i' = now cl) as Hupd
    by (intros i i' j j' Hi; rewrite lookup_insert_is_Some; naive_solver).
  assert (forall i i', is_Some (delete i (jobs cl) !! i') -> is_Some (jobs cl !! i') \/ i' = now cl) as Hdel
    by (intros i i' [? [_ ?]%lookup_delete_Some]; left; by eexists).
  destruct ev; cbn [happens]; intros Hs.
  - apply bind_Some in Hs as (x & _ & [= <-]). split; [done|]. intros i. apply Hins.
  - apply bind_Some in Hs as (x & _ & Hs). cbv zeta in Hs. destruct (locked _); [done|]. injection Hs as <-. split; [done|]. intros i. apply Hins.
  - apply bind_Some in Hs as (j & Hj & (x & _ & Hs)%bind_Some).
    destruct (j_stage j); try done; apply bind_Some in Hs as (cl1 & (cl2 & [E1 E2]%rpc_frame & [= <-])%bind_Some & [= <-]); cbn; rewrite E1, E2;
      (split; [done|]); intros i'; by apply (Hupd _ _ j).
  - apply rpc_frame in Hs as [-> ->]. auto.
  - apply rpc_frame in Hs as [-> ->]. auto.
  - apply rpc_frame in Hs as [-> ->]. auto.
  - apply rpc_frame in Hs as [-> ->]. auto.
  - apply rpc_frame in Hs as [-> ->]. auto.
  - apply bind_Some in Hs as (j & Hj & Hs). repeat (case_match || apply bind_Some in Hs as (? & ? & Hs)); simplify_eq; cbn;
      (split; [done|]); intros i'; first [apply Hdel|by apply (Hupd _ _ j)].
  - unfold makesClient in Hs. case_match; [done|]. apply bind_Some in Hs as ([] & _ & [= <-]). cbn. auto.
  - unfold deletesClient in Hs. destruct (busy _ _); [done|]. apply bind_Some in Hs as (c & _ & [= <-]). cbn. auto.
  - injection Hs as <-. cbn. auto.
  - apply bind_Some in Hs as (rn & _ & [= <-]). cbn. auto.
Qed.

Lemma step_past ev cl cl' : past cl -> step ev cl = Some cl' -> past cl'.
Proof.
  intros HP (cl1 & Hs & ->)%fmap_Some. destruct (happens_frame _ _ _ Hs) as [En Hj]. intros i Hi. cbn in *. rewrite En.
  destruct (Hj i Hi) as [Hi'| ->]; [apply HP in Hi'|]; lia.
Qed.

(** Every event of the cluster is one of KvSrv. *)
Lemma Sim_happens more ev cl w cl' :
  Sim (idsOf [ev] ++ more) cl w -> past cl -> happens ev cl = Some cl' ->
  exists ev' w', KvSrv.happen ev' w = Some w' /\ Sim more cl' w'.
Proof.
  intros HS HP Hs.
  assert (jobs cl !! now cl = None) as Hnew.
  { destruct (jobs cl !! now cl) eqn:E; [|done]. assert (now cl < now cl); [apply HP; by eexists|lia]. }
  destruct ev; cbn [happens] in Hs; cbn [idsOf omap list_omap app] in HS.
  - destruct (Sim_beginGet _ _ _ _ _ _ HS Hnew Hs) as (w' & ? & ?). eauto.
  - destruct (Sim_beginPutAppend _ _ _ _ _ _ _ _ HS Hnew Hs) as (w' & ? & ?). eauto.
  - exists EvIdle, w. eauto using Sim_calls.
  - exists EvIdle, w. eauto using Sim_process.
  - destruct (Sim_handler _ _ _ _ _ HS Hs) as (i & w' & ? & ?). eauto.
  - exists EvIdle, w. eauto using Sim_giveUp.
  - exists EvIdle, w. eauto using Sim_answer.
  - exists EvIdle, w. eauto using Sim_timer.
  - by eapply Sim_callReturns.
  - exists EvIdle, w. eauto using Sim_makes.
  - exists EvIdle, w. eauto using Sim_deletes.
  - injection Hs as <-. exists EvIdle, w. eauto using Sim_connects.
  - apply bind_Some in Hs as (rn & Hs & [= <-]). exists EvIdle, w. eauto using Sim_sets.
Qed.

Lemma Sim_step more ev cl w cl' :
  Sim (idsOf [ev] ++ more) cl w -> past cl -> step ev cl = Some cl' ->
  exists ev' w', KvSrv.step ev' w = Some w' /\ Sim more cl' w' /\ past cl'.
Proof.
  intros HS HP Hs. pose proof (step_past _ _ _ HP Hs) as HP'. apply fmap_Some in Hs as (cl1 & Hs & ->).
  destruct (Sim_happens _ _ _ _ _ HS HP Hs) as (ev' & w' & Hw & HS'). exists ev', (KvSrv.tick w').
  unfold KvSrv.step. rewrite Hw. split_and!; [done|by apply Sim_tick|done].
Qed.

Lemma Sim_fresh unreliable ids : Sim ids (fresh unreliable) (KvSrv.start ids).
Proof.
  split; cbn; [by eexists|done..| | |].
  - intros i. rewrite !lookup_empty. constructor.
  - split; cbn; [split; cbn; try done; set_solver|done|done|done].
  - split; cbn; [|done|by intros id [? ?]|done]. split; cbn; [constructor|by intros id ?%not_elem_of_nil|done].
Qed.
End Steps.
