(* ===== verification/KvClusterProps.v ===== *)
(** * KvClusterProps: the key/value service over the simulated network

    A run of the clerks on labrpc is a run of KvSrv with the same clock, the same server and the same record of
    operations.  With the linearizability of KvSrv and the correctness of the checker this gives the end of the test: the
    history it hands to porcupine is never found illegal. *)

From S2P Require Import Prelude Persister Porcupine CheckerSpec CheckerProps KvModel KvModelProps KvSrv KvSrvFacts KvSrvProps Random LabRPC TestNet KvSrvTester KvCluster KvClusterSim KvClusterSteps.
Local Open Scope Z_scope.

Section Props.
Context {byte : Type} `{!Gob byte Msg}.
Implicit Types (cl : Cluster byte) (w : World).

(** No value the server holds is one of the error strings. *)
Definition holdsClean cl : bool := match kvOf cl with Some kv => cleanb kv | None => true end.

Fixpoint throughout (p : Cluster byte -> bool) (evs : list CEvent) cl : bool :=
  p cl && match evs with
          | [] => true
          | ev :: evs => match step ev cl with Some cl' => throughout p evs cl' | None => true end
          end.

Lemma Sim_kvOf more cl w : Sim more cl w -> kvOf cl = Some (w_kv w).
Proof. intros HS. destruct (sim_kv _ _ _ HS) as (rs & Hh & Hhost). unfold kvOf. rewrite Hh. by apply hosts_kvOf. Qed.

Lemma idsOf_cons ev evs : idsOf (ev :: evs) = idsOf [ev] ++ idsOf evs.
Proof. by destruct ev. Qed.

Lemma Sim_steps evs more cl w cl' :
  Sim (idsOf evs ++ more) cl w -> past cl -> steps evs cl = Some cl' ->
  exists evs' w', KvSrv.run evs' w = Some w' /\ length evs' = length evs /\ Sim more cl' w' /\
    (throughout holdsClean evs cl = true -> always (fun w => cleanb (w_kv w)) evs' w = true).
Proof.
  revert cl w. induction evs as [|ev evs IH]; intros cl w HS HP Hs.
  - injection Hs as <-. exists [], w. split_and!; [done..|]. cbn. unfold holdsClean. by rewrite (Sim_kvOf _ _ _ HS).
  - cbn [steps] in Hs. apply bind_Some in Hs as (cl1 & H1 & Hs). rewrite idsOf_cons, <- app_assoc in HS.
    destruct (Sim_step _ _ _ _ _ HS HP H1) as (ev' & w1 & Hw & HS1 & HP1).
    destruct (IH cl1 w1 HS1 HP1 Hs) as (evs' & w' & Hr & Hl & HS' & Hal). exists (ev' :: evs'), w'.
    split_and!; [cbn; by rewrite Hw|cbn; by rewrite Hl|done|]. cbn [throughout always]. rewrite H1, Hw.
    unfold holdsClean at 1. rewrite (Sim_kvOf _ _ _ HS), !andb_true_iff. intros [? ?]. auto.
Qed.

Lemma past_fresh unreliable : past (fresh unreliable : Cluster byte).
Proof. intros i [j Hj]. cbn in Hj. by rewrite lookup_empty in Hj. Qed.

(** A run of the cluster in KvSrv. *)
Lemma cluster_run unreliable evs cl :
  steps evs (fresh unreliable) = Some cl ->
  exists evs' w, KvSrv.run evs' (KvSrv.start (idsOf evs)) = Some w /\ length evs' = length evs /\ Sim [] cl w /\
    (throughout holdsClean evs (fresh unreliable) = true -> always (fun w => cleanb (w_kv w)) evs' (KvSrv.start (idsOf evs)) = true).
Proof. intros Hs. eapply Sim_steps; [rewrite app_nil_r; apply Sim_fresh|apply past_fresh|done]. Qed.

(** C5: The key/value service over labrpc refines KvSrv.  Take any run of clerks on the simulated network as the tester
    sets it up, reliable or not, with clerks made and deleted on the way.  It is a run of KvSrv of the same length: with the same
    server, the same clerks, the same methods in progress and the same record of completed operations, times included. *)
Theorem kvcluster_refines unreliable evs cl :
  steps evs (fresh unreliable) = Some cl ->
  exists evs' w, KvSrv.run evs' (KvSrv.start (idsOf evs)) = Some w /\ length evs' = length evs /\
    kvOf cl = Some (w_kv w) /\ ck_clerk <$> clients cl = w_clerks w /\ log cl = w_done w /\
    forall i, (fun j => (j_clerk j, j_req j)) <$> jobs cl !! i = (fun t => (t_clerk t, t_req t)) <$> w_tasks w !! i.
Proof.
  intros (evs' & w & Hr & Hl & HS & _)%cluster_run. exists evs', w. split_and!; [done..| | | |].
  - by eapply Sim_kvOf.
  - rewrite (sim_clerks _ _ _ HS). by rewrite app_nil_r.
  - by rewrite (sim_done _ _ _ HS).
  - intros i. destruct (sim_job _ _ _ HS i) as [j t (Hc & Hq & _)|]; [|done]. cbn. by rewrite Hc, Hq.
Qed.

(** ** The end of the test *)

Lemma quiet_timely ids w xs : KvSrvFacts.Inv ids w xs -> timely (w_done w).
Proof.
  intros HI. unfold timely. rewrite (inv_done _ _ _ HI). apply Forall_forall.
  intros op (x & -> & [[r Hr] Hx]%list_elem_of_filter)%list_elem_of_fmap. rewrite opOf_call, opOf_return, Hr. cbn.
  destruct (inv_time _ _ _ HI x Hx) as [? Hlt]. specialize (Hlt r Hr). lia.
Qed.

Lemma quiet_linearizable ids w xs : KvSrvFacts.Inv ids w xs -> w_tasks w = ∅ -> linearizable KvStore (w_done w).
Proof.
  intros HI Hq. eapply linearizable_perm; [|exact (Inv_linearizable _ _ _ HI)].
  rewrite (inv_done _ _ _ HI), (done_times (w_now w)), filter_all; [done|]. intros x Hx.
  destruct (x_ret x) as [r|] eqn:E; [by eexists|]. apply (inv_pending _ _ _ HI x Hx) in E as [t Ht]. by rewrite Hq, lookup_empty in Ht.
Qed.

Context `{!Sorter (A:=entry (KvInput + KvOutput)) Less}.
Context (fmt_input : KvInput -> string) (fmt_output : KvOutput -> string) (fmt_state : string -> string).
Context (range_order : list nat -> list nat).

(** C6: The test of the key/value service passes.  Take any run of clerks with different ids over the simulated network, however
    unreliable, in which the server never holds one of the two error strings, of fewer than [2^63 - 1] events, in which every method has returned and
    at least one was recorded.  Then
    porcupine's [CheckOperations] with [KvModel] answers true on the recorded history, whatever the order in which its searches
    finish; and [CheckOperationsVerbose] with a timeout, as the test calls it, does not answer Illegal. *)
Theorem kvsrv_test_passes unreliable evs cl fuel :
  steps evs (fresh unreliable) = Some cl -> NoDup (idsOf evs) -> throughout holdsClean evs (fresh unreliable) = true ->
  zlen evs < 2 ^ 63 - 1 -> jobs cl = ∅ -> log cl <> [] -> (searchFuel (log cl) <= fuel)%nat ->
  (forall order, order ≡ₚ seq 0 (length (KvPartition (log cl))) ->
     CheckOperations fmt_input fmt_output fmt_state range_order fuel KvModel (log cl) (fun _ _ => 0) (Recv <$> order) = Some true) /\
  (forall kills sched r info, (forall i, i ∈ untilTimeout sched -> forall j, kills i j = 0) ->
     CheckOperationsVerbose fmt_input fmt_output fmt_state range_order fuel KvModel (log cl) kills sched = Some (r, info) -> r <> Illegal).
Proof.
  intros Hs Hids Hcl Hlen Hq Hne Hf. destruct (cluster_run _ _ _ Hs) as (evs' & w & Hr & Hl & HS & Hal).
  destruct (reached _ evs' w Hids (Hal Hcl)) as (xs & HI); [unfold zlen in *; lia|done|].
  assert (w_tasks w = ∅) as Hq'.
  { apply map_eq. intros i. pose proof (sim_job _ _ _ HS i) as Hi. rewrite Hq, lookup_empty in Hi. inversion Hi. by rewrite lookup_empty. }
  pose proof (quiet_timely _ _ _ HI) as Ht. pose proof (quiet_linearizable _ _ _ HI Hq') as Hlin.
  rewrite (sim_done _ _ _ HS) in Ht, Hlin. split.
  - intros order Hord. destruct (kv_checker_answer fmt_input fmt_output fmt_state range_order fuel (log cl) order) as (b & Hb & Hiff); [done..|].
    rewrite Hb. f_equal. by apply Hiff.
  - intros kills sched r info Hk. by apply kv_never_illegal.
Qed.
End Props.

(** ** The theorems at work *)

(** A stream of messages. *)
#[export] Program Instance gob_KvMsg : Gob Msg Msg := {|
  gob_encode m := [m];
  gob_decode bs := match bs with [] => None | m :: rest => Some (m, rest) end
|}.
Next Obligation. done. Qed.
Next Obligation. done. Qed.

Section Concrete.
Local Open Scope string_scope.

(** Two clerks append to "k" over an unreliable network.  The reply of the first is lost, and its request to forget the
    result too. *)
Definition appending : list CEvent :=
  [CMake (replicate 40 7) (replicate 8 1); CMake (replicate 40 9) (replicate 8 2);
   CPutAppend 0 OpAppend "k" "x"; CPutAppend 1 OpAppend "k" "y";
   CCall 2 false; CProcess 0 500; CHandler 0; CAnswer 0 50 0; CReturn 2;
   CCall 3 false; CProcess 1 500; CHandler 1; CAnswer 1 500 0; CReturn 3;
   CCall 2 false; CProcess 2 500; CHandler 2; CAnswer 2 500 0; CReturn 2;
   CCall 2 false; CProcess 3 50; CReturn 2;
   CCall 3 false; CProcess 4 500; CGiveUp 4; CHandler 4; CAnswer 4 500 0; CReturn 3;
   CDelete 0; CDelete 1; CSet SetCleanup]%Z.

Definition appended_end : Cluster Msg := default (fresh true) (steps appending (fresh true)).

Lemma appended_reached : steps appending (fresh true) = Some appended_end.
Proof.
  assert (bool_decide (is_Some (steps appending (fresh true : Cluster Msg))) = true) as Hs%bool_decide_eq_true by (vm_compute; reflexivity).
  unfold appended_end. by destruct Hs as [cl ->].
Defined.

Lemma kvcluster_refines_witness :
  exists evs' w, KvSrv.run evs' (KvSrv.start (idsOf appending)) = Some w /\ length evs' = 31%nat /\
    lookupStr (value (w_kv w)) "k" = "xy"%string /\ ((ko_Value <$> (op_Output <$> w_done w)) = [""; "x"]).
Proof.
  destruct (kvcluster_refines true appending appended_end appended_reached) as (evs' & w & Hr & Hl & Hkv & _ & Hlog & _).
  exists evs', w. split_and!; [done|done| |rewrite <- Hlog; vm_compute; reflexivity].
  assert ((fun kv => lookupStr (value kv) "k") <$> kvOf appended_end = Some "xy") as E by (vm_compute; reflexivity).
  rewrite Hkv in E. by injection E.
Defined.

Lemma kvsrv_test_passes_witness :
  CheckOperations fmt_in fmt_out fmt_st (fun l => l) (searchFuel (log appended_end)) KvModel (log appended_end) (fun _ _ => 0%Z) [Recv 0] = Some true /\
  forall r info, CheckOperationsVerbose fmt_in fmt_out fmt_st (fun l => l) (searchFuel (log appended_end)) KvModel (log appended_end)
    (fun _ _ => 0%Z) [Recv 0] = Some (r, info) -> r <> Illegal.
Proof.
  destruct (kvsrv_test_passes fmt_in fmt_out fmt_st (fun l => l) true appending appended_end (searchFuel (log appended_end))) as [H1 H2].
  - exact appended_reached.
  - apply (bool_decide_unpack (NoDup (idsOf appending))). vm_compute. exact I.
  - vm_compute. reflexivity.
  - vm_compute. reflexivity.
  - apply map_empty. intros i. assert (map_to_list (jobs appended_end) = []) as E%map_to_list_empty_iff by (vm_compute; reflexivity). by rewrite E, lookup_empty.
  - intros E. assert (length (log appended_end) = 2%nat) as El by (vm_compute; reflexivity). by rewrite E in El.
  - done.
  - split; [apply (H1 [0%nat]); vm_compute; reflexivity|]. intros r info. by apply H2.
Defined.
End Concrete.
