(* ===== verification/KvClusterLive.v ===== *)
(** * KvClusterLive: the methods of the clerks can always return

    Over labrpc no method of a clerk gets stuck: from every reachable state, whatever has happened to its calls so far, a few
    more events of its own calls make it return. *)

From S2P Require Import Prelude Persister Porcupine KvModel KvSrv Random LabRPC TestNet KvSrvTester KvCluster KvClusterSim KvClusterSteps KvClusterProps.
Local Open Scope Z_scope.

Section Live.
Context {byte : Type} `{!Gob byte Msg}.
Abbreviation KCall := (LabRPC.Call (Name := NetName) (byte := byte)).
Implicit Types (cl : Cluster byte) (j : Job) (c : KCall) (id i : Z) (ev : CEvent).

(** A state that a run reaches. *)
Definition good cl : Prop := alive (sys cl) = true /\ past cl /\ exists more w, Sim more cl w.

Lemma happens_alive ev cl cl' : happens ev cl = Some cl' -> alive (sys cl) = true -> alive (sys cl') = true.
Proof.
  assert (forall e cl1, rpc e cl = Some cl1 -> alive (sys cl1) = true) as Hrpc by (by intros e cl1 (s & _ & ? & ->)%rpc_Some).
  destruct ev; cbn [happens]; intros Hs Ha; try (by eapply Hrpc).
  - by apply bind_Some in Hs as (x & _ & [= <-]).
  - apply bind_Some in Hs as (x & _ & Hs). cbv zeta in Hs. destruct (locked _); by simplify_eq.
  - apply bind_Some in Hs as (j & _ & (x & _ & Hs)%bind_Some).
    destruct (j_stage j); try done; apply bind_Some in Hs as (cl1 & (cl2 & Hr & [= <-])%bind_Some & [= <-]); exact (Hrpc _ _ Hr).
  - apply bind_Some in Hs as (j & _ & Hs). repeat (case_match || apply bind_Some in Hs as (? & ? & Hs)); by simplify_eq.
  - unfold makesClient in Hs. case_match; [done|]. by apply bind_Some in Hs as ([] & _ & [= <-]).
  - unfold deletesClient in Hs. destruct (busy _ _); [done|]. by apply bind_Some in Hs as (c & _ & [= <-]).
  - by injection Hs as <-.
  - by apply bind_Some in Hs as (rn & _ & [= <-]).
Qed.

Lemma good_step ev cl cl' : good cl -> idsOf [ev] = [] -> step ev cl = Some cl' -> good cl'.
Proof.
  intros (Ha & HP & more & w & HS) Hid Hs. split; [|split; [by eapply step_past|]].
  - pose proof Hs as (cl1 & Hh & ->)%fmap_Some. exact (happens_alive _ _ _ Hh Ha).
  - destruct (Sim_step more ev cl w cl') as (ev' & w' & _ & HS' & _); [by rewrite Hid|done|done|]. eauto.
Qed.

Lemma good_steps evs cl unreliable : steps evs (fresh unreliable) = Some cl -> good cl.
Proof.
  intros Hs. assert (forall evs cl0, alive (sys cl0) = true -> past cl0 -> steps evs cl0 = Some cl -> alive (sys cl) = true /\ past cl) as H.
  { clear. intros evs. induction evs as [|ev evs IH]; intros cl0 Ha HP Hs; [by injection Hs as ->|]. cbn in Hs. apply bind_Some in Hs as (cl1 & H1 & Hs).
    apply (IH cl1); [|by eapply step_past|done]. apply fmap_Some in H1 as (cl2 & Hh & ->). exact (happens_alive _ _ _ Hh Ha). }
  destruct (H evs (fresh unreliable)) as [? ?]; [done|apply past_fresh|done|]. split; [done|split; [done|]].
  destruct (cluster_run unreliable evs cl Hs) as (evs' & w & _ & _ & HS & _). eauto.
Qed.

(** ** A call returns *)

(** Of these events only the method called at [i] is concerned. *)
Definition own (i : Z) cl ev : Prop :=
  match ev with
  | CCall i' gone => i' = i /\ gone = false
  | CReturn i' => i' = i
  | CProcess id _ | CHandler id | CAnswer id _ _ | CTimer id => exists j, jobs cl !! i = Some j /\ callOf j = Some id
  | _ => False
  end.

(** Some events of the method at [i] lead from one state to another. *)
Inductive leads (i : Z) : nat -> Cluster byte -> Cluster byte -> Prop :=
| leads_nil cl : leads i 0 cl cl
| leads_step n ev cl cl1 cl2 : own i cl ev -> step ev cl = Some cl1 -> leads i n cl1 cl2 -> leads i (S n) cl cl2.

Lemma leads_trans i n m cl cl1 cl2 : leads i n cl cl1 -> leads i m cl1 cl2 -> leads i (n + m) cl cl2.
Proof. induction 1; intros; [done|]. cbn. econstructor; eauto. Qed.

Lemma leads_good i n cl cl' : leads i n cl cl' -> good cl -> good cl'.
Proof.
  induction 1 as [|n ev cl cl1 cl2 Ho Hs _ IH]; intros HG; [done|]. apply IH. eapply good_step; [done| |done]. by destruct ev.
Qed.

(** The network moves the call of a method on. *)
Record moved cl cl' (id : Z) (p : LabRPC.Phase (Name := NetName) (byte := byte)) : Prop := {
  mv_jobs : jobs cl' = jobs cl;
  mv_log : log cl' = log cl;
  mv_conf : conf cl' = conf cl;
  mv_clients : clients cl' = clients cl;
  mv_call : exists c, LabRPC.calls (sys cl') !! id = Some c /\ c_phase c = p
}.

Lemma rpc_moves e s cl : LabRPC.happen zeroMsg e (sys cl) = Some s -> alive s = true -> rpc e cl = Some (set_sys s cl).
Proof. unfold rpc. intros -> Ha. cbn. by rewrite Ha. Qed.

(** One event of the call of the method at [i]. *)
Lemma move_one i j id p ev e s cl c :
  good cl -> jobs cl !! i = Some j -> callOf j = Some id -> happens ev cl = rpc e cl ->
  (own i cl ev) -> LabRPC.happen zeroMsg e (sys cl) = Some s -> alive s = true ->
  LabRPC.calls s !! id = Some c -> c_phase c = p ->
  exists cl', leads i 1 cl cl' /\ moved cl cl' id p.
Proof.
  intros HG Hj Hid He Ho Hs Ha Hc Hp. exists (set_now (now cl + 1) (set_sys s cl)). split.
  - econstructor; [done| |constructor]. unfold step. by rewrite He, (rpc_moves _ _ _ Hs Ha).
  - split; try done. by exists c.
Qed.

(** The network is alive and knows the call. *)
Local Ltac unfold_happen Ha Hc := unfold LabRPC.happen; rewrite Ha; cbn [negb]; rewrite Hc; cbn [mbind option_bind].

Lemma move_process i j id cl c r :
  good cl -> jobs cl !! i = Some j -> callOf j = Some id -> LabRPC.calls (sys cl) !! id = Some c -> c_phase c = Sent ->
  exists cl', leads i 1 cl cl' /\ moved cl cl' id (c_phase (process r c (LabRPC.net (sys cl)))).
Proof.
  intros HG Hj Hid Hc Hp. pose proof HG as (Ha & _).
  eapply (move_one i j id _ (CProcess id r) (EvProcess id r));
    [done|done|done|done|by exists j|unfold_happen Ha Hc; by rewrite Hp|done|cbn; apply lookup_insert_eq|done].
Qed.

Lemma move_timer i j id cl c p :
  good cl -> jobs cl !! i = Some j -> callOf j = Some id -> LabRPC.calls (sys cl) !! id = Some c ->
  c_phase c = Waiting /\ p = Returned noReply \/ (exists rep, c_phase c = Delayed rep /\ p = Returned rep) ->
  exists cl', leads i 1 cl cl' /\ moved cl cl' id p.
Proof.
  intros HG Hj Hid Hc Hp. pose proof HG as (Ha & _).
  destruct Hp as [[Hp ->]|(rep & Hp & ->)]; eapply (move_one i j id _ (CTimer id) (EvTimer id));
    [done|done|done|done|by exists j|unfold_happen Ha Hc; by rewrite Hp|done|cbn; apply lookup_insert_eq|done|
     done|done|done|done|by exists j|unfold_happen Ha Hc; by rewrite Hp|done|cbn; apply lookup_insert_eq|done].
Qed.

Lemma move_answer i j id cl c n sv rel lr rep r r' :
  good cl -> jobs cl !! i = Some j -> callOf j = Some id -> LabRPC.calls (sys cl) !! id = Some c -> c_phase c = Handling n sv rel lr (Some rep) ->
  exists cl', leads i 1 cl cl' /\ moved cl cl' id (answerWith r r' (endname (c_req c)) n sv rel lr rep (LabRPC.net (sys cl))).1.
Proof.
  intros HG Hj Hid Hc Hp. pose proof HG as (Ha & _).
  destruct (answerWith r r' (endname (c_req c)) n sv rel lr rep (LabRPC.net (sys cl))) as [p rn] eqn:Ew.
  eapply (move_one i j id _ (CAnswer id r r') (EvAnswer id r r'));
    [done|done|done|done|by exists j|unfold_happen Ha Hc; rewrite Hp, Ew; reflexivity|done|cbn; apply lookup_insert_eq|done].
Qed.

(** The handler of a call in progress answers. *)
Lemma move_handler i j id cl c n sv rel lr :
  good cl -> jobs cl !! i = Some j -> callOf j = Some id -> LabRPC.calls (sys cl) !! id = Some c -> c_phase c = Handling n sv rel lr None ->
  exists cl' rep, LabRPC.ok rep = true /\ leads i 1 cl cl' /\ moved cl cl' id (Handling n sv rel lr (Some rep)).
Proof.
  intros HG Hj Hid Hc Hp. pose proof HG as (Ha & _ & more & w & HS). pose proof (sim_traffic _ _ _ HS) as [T1 _ _ T4].
  destruct (inv_call _ T1 id c Hc) as (_ & _ & Hh). rewrite Hp in Hh. destruct (c_handler c) as [p|] eqn:Eh; [|done].
  destruct (T4 id c Hc) as (_ & ->%(fun H => H p Eh) & _). destruct (sim_kv _ _ _ HS) as (rs & Hheap & Hhost).
  assert (exists rs' a v, Server_dispatch zeroMsg (c_req c) rs = Some (rs', a, v, mkReplyMsg true (gob_encode v))) as (rs' & a & v & Hd).
  { destruct (job_task _ _ _ _ _ HS Hj) as (t & _ & _ & _ & x & _ & _ & Hst). unfold stage_ok, callOf, asked in *.
    destruct (j_stage j); simplify_eq; destruct Hst as ((c' & Hc' & Hreq) & _); simplify_eq; rewrite Hreq.
    - destruct (dispatch_request rs (w_kv w) (inl (ck_server x)) (j_req j) Hhost) as (rs' & _ & Hd). eauto.
    - destruct (dispatch_delete rs (w_kv w) (inl (ck_server x)) (client (ck_clerk x)) Hhost) as (rs' & _ & Hd). eauto. }
  assert (exists cl', leads i 1 cl cl' /\ moved cl cl' id (Handling n sv rel lr (Some (mkReplyMsg true (gob_encode v))))) as (cl' & Hl & Hm).
  { eapply (move_one i j id _ (CHandler id) (EvHandler id));
      [done|done|done|done|by exists j|
       unfold_happen Ha Hc; rewrite Eh; cbn [mbind option_bind]; rewrite Hheap; cbn [lookup list_lookup mbind option_bind]; rewrite Hd; reflexivity|
       done|cbn; apply lookup_insert_eq|cbn; by rewrite Hp]. }
  exists cl', (mkReplyMsg true (gob_encode v)). done.
Qed.

Lemma moved_trans cl cl1 cl2 id p p' : moved cl cl1 id p -> moved cl1 cl2 id p' -> moved cl cl2 id p'.
Proof. intros [H1 H2 H3 H4 _] [K1 K2 K3 K4 K5]. split; congruence || done. Qed.

(** [Call] has its answer after at most [n] events. *)
Definition settles (n : nat) i id cl : Prop :=
  exists m cl' rep, (m <= n)%nat /\ leads i m cl cl' /\ moved cl cl' id (Returned rep).

Lemma settles_next n i j id cl cl1 p :
  leads i 1 cl cl1 -> moved cl cl1 id p -> jobs cl !! i = Some j ->
  (jobs cl1 !! i = Some j -> settles n i id cl1) -> settles (S n) i id cl.
Proof.
  intros Hl Hm Hj Hs. destruct Hs as (m & cl' & rep & Hle & Hl' & Hm'); [by rewrite (mv_jobs _ _ _ _ Hm)|].
  exists (1 + m)%nat, cl', rep. split_and!; [lia|by eapply leads_trans|by eapply moved_trans].
Qed.

Lemma settles_now n i id cl c rep : LabRPC.calls (sys cl) !! id = Some c -> c_phase c = Returned rep -> settles n i id cl.
Proof. intros Hc Hp. exists 0%nat, cl, rep. split_and!; [lia|constructor|]. split; try done. by exists c. Qed.

Lemma settles_timer i j id cl c :
  good cl -> jobs cl !! i = Some j -> callOf j = Some id -> LabRPC.calls (sys cl) !! id = Some c ->
  c_phase c = Waiting \/ (exists rep, c_phase c = Delayed rep) -> settles 1 i id cl.
Proof.
  intros HG Hj Hid Hc Hp. assert (exists rep cl', leads i 1 cl cl' /\ moved cl cl' id (Returned rep)) as (rep & cl' & Hl & Hm).
  { destruct Hp as [Hp|[rep Hp]]; [exists noReply|exists rep]; eapply move_timer; eauto. }
  by exists 1%nat, cl', rep.
Qed.

Lemma settles_answered i j id cl c n sv rel lr rep :
  good cl -> jobs cl !! i = Some j -> callOf j = Some id -> LabRPC.calls (sys cl) !! id = Some c ->
  c_phase c = Handling n sv rel lr (Some rep) -> settles 2 i id cl.
Proof.
  intros HG Hj Hid Hc Hp. destruct (move_answer i j id cl c n sv rel lr rep 0 0 HG Hj Hid Hc Hp) as (cl1 & Hl & Hm).
  pose proof (leads_good _ _ _ _ Hl HG) as HG1. eapply settles_next; [done..|]. intros Hj1.
  destruct (mv_call _ _ _ _ Hm) as (c1 & Hc1 & Hp1). unfold answerWith in Hp1.
  destruct (isServerDead _ _ _ _); [by eapply settles_now|]. destruct (negb rel && _); [by eapply settles_now|].
  destruct (lr && _); [|by eapply settles_now]. eapply settles_timer; eauto.
Qed.

Lemma settles_handling i j id cl c n sv rel lr :
  good cl -> jobs cl !! i = Some j -> callOf j = Some id -> LabRPC.calls (sys cl) !! id = Some c ->
  c_phase c = Handling n sv rel lr None -> settles 3 i id cl.
Proof.
  intros HG Hj Hid Hc Hp. destruct (move_handler i j id cl c n sv rel lr HG Hj Hid Hc Hp) as (cl1 & rep & _ & Hl & Hm).
  pose proof (leads_good _ _ _ _ Hl HG) as HG1. eapply settles_next; [done..|]. intros Hj1.
  destruct (mv_call _ _ _ _ Hm) as (c1 & Hc1 & Hp1). by eapply settles_answered.
Qed.

Lemma settles_mono n m i id cl : (n <= m)%nat -> settles n i id cl -> settles m i id cl.
Proof. intros Hle (k & cl' & rep & ? & ? & ?). exists k, cl', rep. split_and!; [lia|done..]. Qed.

(** Whatever has happened to a call, it returns. *)
Lemma call_settles i j id cl : good cl -> jobs cl !! i = Some j -> callOf j = Some id -> settles 4 i id cl.
Proof.
  intros HG Hj Hid. pose proof HG as (_ & _ & more & w & HS). destruct (call_known _ _ _ _ _ _ HS Hj Hid) as [c Hc].
  destruct (c_phase c) as [| |n sv rel lr [rep|]|rep|rep] eqn:Ep.
  - destruct (move_process i j id cl c 0 HG Hj Hid Hc Ep) as (cl1 & Hl & Hm). pose proof (leads_good _ _ _ _ Hl HG) as HG1.
    eapply settles_next; [done..|]. intros Hj1. destruct (mv_call _ _ _ _ Hm) as (c1 & Hc1 & Hp1).
    pose proof (sim_wired _ _ _ HS) as HW. destruct (process_wired (LabRPC.net (sys cl)) 0 c (wi_conn _ HW) (co_server _ (wi_ok _ HW))) as [E|[E|(rel & lr & E)]];
      rewrite E in Hp1; cbn in Hp1; [|by eapply settles_now|by eapply settles_handling].
    eapply (settles_mono 1); [lia|]. eapply settles_timer; eauto.
  - eapply (settles_mono 1); [lia|]. eapply settles_timer; eauto.
  - eapply (settles_mono 2); [lia|]. by eapply settles_answered.
  - eapply (settles_mono 3); [lia|]. by eapply settles_handling.
  - eapply (settles_mono 1); [lia|]. eapply settles_timer; eauto.
  - by eapply settles_now.
Qed.

(** ** A method returns *)

Definition finished i cl cl' : Prop := jobs cl' = delete i (jobs cl) /\ exists op, log cl' = log cl ++ [op] /\ op_Call op = i.
Definition continues i st j cl cl' : Prop := jobs cl' = <[i := set_stage st j]> (jobs cl) /\ log cl' = log cl.
Definition finishes (n : nat) i cl : Prop := exists m cl', (m <= n)%nat /\ leads i m cl cl' /\ finished i cl cl'.

Lemma finishes_after n m i st j cl cl1 :
  leads i m cl cl1 -> continues i st j cl cl1 -> finishes n i cl1 -> finishes (m + n) i cl.
Proof.
  intros Hl [Hj Hlog] (k & cl' & Hle & Hl' & Hj' & op & Hop & Hc). exists (m + k)%nat, cl'. split_and!; [lia|by eapply leads_trans|].
  split; [by rewrite Hj', Hj, delete_insert_eq|]. exists op. by rewrite Hop, Hlog.
Qed.

Lemma logged_call k req i r v : op_Call (logged k req i r v) = i.
Proof. by destruct req as [|[] ?]. Qed.

Lemma finished_returns i j v cl : finished i cl (set_now (now (returns i j v cl) + 1) (returns i j v cl)).
Proof. split; [done|]. eexists. split; [done|]. apply logged_call. Qed.

Lemma leads_one i ev cl cl1 : own i cl ev -> happens ev cl = Some cl1 -> leads i 1 cl (set_now (now cl1 + 1) cl1).
Proof. intros Ho Hs. econstructor; [done| |constructor]. unfold step. by rewrite Hs. Qed.

(** The answer of [Delete] ends the method. *)
Lemma return_clear i j v id cl c rep :
  good cl -> jobs cl !! i = Some j -> j_stage j = ClearCalling v id -> LabRPC.calls (sys cl) !! id = Some c -> c_phase c = Returned rep ->
  exists cl', leads i 1 cl cl' /\ finished i cl cl'.
Proof.
  intros (_ & _ & more & w & HS) Hj Hst Hc Hp. eexists. split; [|apply (finished_returns i j v)].
  apply (leads_one i (CReturn i)); [done|]. cbn [happens]. unfold callReturns. rewrite Hj. cbn [mbind option_bind]. rewrite Hst, Hc.
  cbn [mbind option_bind]. rewrite Hp. unfold callResult. destruct (LabRPC.ok rep) eqn:Eok; [|done].
  destruct (inv_call _ (tr_inv _ (sim_traffic _ _ _ HS)) id c Hc) as (_ & _ & Hrep). rewrite Hp in Hrep.
  destruct (Hrep Eok) as (a & m & _ & ->). cbn [LabRPC.reply]. rewrite <- (app_nil_r (gob_encode m)), gob_decode_encode. done.
Qed.

(** The answer of the other calls ends the method, or lets it ask for [Delete], or repeat the call when it failed. *)
Lemma return_main i j id cl c rep :
  good cl -> jobs cl !! i = Some j -> j_stage j = Calling id -> LabRPC.calls (sys cl) !! id = Some c -> c_phase c = Returned rep ->
  exists cl', leads i 1 cl cl' /\
    (finished i cl cl' \/ (exists v, continues i (Clearing v) j cl cl') \/ (LabRPC.ok rep = false /\ continues i Ready j cl cl')).
Proof.
  intros (_ & _ & more & w & HS) Hj Hst Hc Hp. pose proof (tr_inv _ (sim_traffic _ _ _ HS)) as HI.
  assert (exists cl1, callReturns i cl = Some cl1 /\ now cl1 = now cl /\
    ((exists v, cl1 = returns i j v cl) \/ (exists v, cl1 = set_jobs (<[i := set_stage (Clearing v) j]> (jobs cl)) cl) \/
     (LabRPC.ok rep = false /\ cl1 = set_jobs (<[i := set_stage Ready j]> (jobs cl)) cl))) as (cl1 & Hs & Hn & Hcase).
  { unfold callReturns. rewrite Hj. cbn [mbind option_bind]. rewrite Hst, Hc. cbn [mbind option_bind]. rewrite Hp. unfold callResult.
    destruct (LabRPC.ok rep) eqn:Eok; [|eexists; split; [done|]; by eauto 10].
    destruct (inv_call _ HI id c Hc) as (_ & _ & Hrep). rewrite Hp in Hrep. destruct (Hrep Eok) as (a & m & Hin & ->).
    cbn [LabRPC.reply]. rewrite <- (app_nil_r (gob_encode m)), gob_decode_encode. cbn [mbind option_bind].
    destruct (job_task _ _ _ _ _ HS Hj) as (t & _ & _ & _ & x & _ & _ & Hok). unfold stage_ok in Hok. rewrite Hst in Hok.
    destruct Hok as (_ & [[_ Hun]|(v & _ & a' & Hin')]); [by apply Hun in Hin|].
    rewrite (history_unique _ _ _ _ _ _ HI Hin Hin'), replyValue_reply. cbn [mbind option_bind].
    eexists. split; [done|]. destruct (j_req j); (split; [done|]); eauto. }
  exists (set_now (now cl1 + 1) cl1). split; [by apply (leads_one i (CReturn i))|].
  destruct Hcase as [[v ->]|[[v ->]|[Eok ->]]]; [left|right; left; exists v|right; right; split; [done|]]; [|by split..]. apply (finished_returns i j v cl).
Qed.

(** A new call. *)
Lemma call_begins i j cl :
  good cl -> jobs cl !! i = Some j -> callOf j = None ->
  exists cl' c, leads i 1 cl cl' /\ LabRPC.calls (sys cl') !! nextCall cl = Some c /\ c_phase c = Sent /\
    continues i (match j_stage j with Clearing v => ClearCalling v (nextCall cl) | _ => Calling (nextCall cl) end) j cl cl'.
Proof.
  intros (Ha & _ & more & w & HS) Hj Hno. destruct (job_task _ _ _ _ _ HS Hj) as (t & _ & _ & _ & x & (_ & _ & Hx)%bind_Some & _ & _).
  assert (LabRPC.calls (sys cl) !! nextCall cl = None) as Hnew.
  { destruct (LabRPC.calls (sys cl) !! nextCall cl) eqn:E; [|done].
    assert (nextCall cl < nextCall cl); [apply (tr_next _ (sim_traffic _ _ _ HS)); by eexists|lia]. }
  assert (forall meth m, exists s, rpc (EvCall (nextCall cl) (inl (ck_server x)) meth m) cl = Some (set_sys s cl) /\
    LabRPC.calls s !! nextCall cl = Some (mkCall (mkReqMsg (inl (ck_server x)) meth (gob_encode m)) Sent None)) as Hrpc.
  { intros meth m. eexists. split; [apply rpc_moves; [unfold LabRPC.happen; rewrite Ha; cbn [negb]; rewrite Hnew; reflexivity|done]|].
    cbn. apply lookup_insert_eq. }
  unfold callOf in Hno. destruct (j_stage j) as [|id|v|v id] eqn:Est; try done.
  - destruct (Hrpc (methodOf (j_req j)) (toMsg (j_req j))) as (s & Hs & Hc). eexists _, _. split_and!; [eapply (leads_one i (CCall i false)); [done|]| | |].
    + cbn [happens]. unfold callsServer, call. rewrite Hj. cbn [mbind option_bind]. rewrite Hx. cbn [mbind option_bind]. rewrite Est, Hs. reflexivity.
    + exact Hc.
    + done.
    + by split.
  - destruct (Hrpc "KVServer.Delete"%string (MDelete (client (ck_clerk x)))) as (s & Hs & Hc). eexists _, _. split_and!; [eapply (leads_one i (CCall i false)); [done|]| | |].
    + cbn [happens]. unfold callsServer, call. rewrite Hj. cbn [mbind option_bind]. rewrite Hx. cbn [mbind option_bind]. rewrite Est, Hs. reflexivity.
    + exact Hc.
    + done.
    + by split.
Qed.

Lemma continues_lookup i st j cl cl' : continues i st j cl cl' -> jobs cl' !! i = Some (set_stage st j).
Proof. intros [-> _]. apply lookup_insert_eq. Qed.

(** The job of a settled call is as it was. *)
Lemma finishes_moved n m i id p cl cl1 :
  leads i m cl cl1 -> moved cl cl1 id p -> finishes n i cl1 -> finishes (m + n) i cl.
Proof.
  intros Hl Hm (k & cl' & Hle & Hl' & Hj' & op & Hop & Hc). exists (m + k)%nat, cl'. split_and!; [lia|by eapply leads_trans|].
  split; [by rewrite Hj', (mv_jobs _ _ _ _ Hm)|]. exists op. by rewrite Hop, (mv_log _ _ _ _ Hm).
Qed.

Lemma finishes_mono n m i cl : (n <= m)%nat -> finishes n i cl -> finishes m i cl.
Proof. intros Hle (k & cl' & ? & ? & ?). exists k, cl'. split_and!; [lia|done..]. Qed.

Lemma finishes_clearCalling i j v id cl : good cl -> jobs cl !! i = Some j -> j_stage j = ClearCalling v id -> finishes 5 i cl.
Proof.
  intros HG Hj Hst. assert (callOf j = Some id) as Hid by (unfold callOf; by rewrite Hst).
  destruct (call_settles i j id cl HG Hj Hid) as (m & cl1 & rep & Hle & Hl & Hm). pose proof (leads_good _ _ _ _ Hl HG) as HG1.
  destruct (mv_call _ _ _ _ Hm) as (c & Hc & Hp).
  destruct (return_clear i j v id cl1 c rep HG1) as (cl2 & Hl2 & Hf); [by rewrite (mv_jobs _ _ _ _ Hm)|done..|].
  apply (finishes_mono (m + 1)); [lia|]. eapply finishes_moved; [done..|]. by exists 1%nat, cl2.
Qed.

Lemma finishes_clearing i j v cl : good cl -> jobs cl !! i = Some j -> j_stage j = Clearing v -> finishes 6 i cl.
Proof.
  intros HG Hj Hst. destruct (call_begins i j cl HG Hj) as (cl1 & c & Hl & _ & _ & Hcont); [unfold callOf; by rewrite Hst|].
  rewrite Hst in Hcont. eapply (finishes_after 5 1); [done..|].
  eapply finishes_clearCalling; [by eapply leads_good|by eapply continues_lookup|done].
Qed.

(** With a network that lets it through, a call is answered. *)
Lemma call_succeeds i j id cl c :
  good cl -> jobs cl !! i = Some j -> callOf j = Some id -> LabRPC.calls (sys cl) !! id = Some c -> c_phase c = Sent ->
  exists cl' rep, leads i 3 cl cl' /\ moved cl cl' id (Returned rep) /\ LabRPC.ok rep = true.
Proof.
  intros HG Hj Hid Hc Hp. pose proof HG as (_ & _ & more & w & HS). pose proof (sim_wired _ _ _ HS) as HW.
  destruct (job_end _ _ _ _ _ _ HS Hj Hid) as (x & c' & Hu & Hc' & He & Hen). simplify_eq.
  assert (connections (LabRPC.net (sys cl)) !! inl (ck_server x) = Some (Some (inr SERVERID))) as Hconn.
  { apply bind_Some in Hu as (e & He' & Hx). destruct (wi_end _ HW _ _ He') as (x' & Hx' & <-). simplify_eq. by destruct (co_conn _ (wi_ok _ HW) _ _ He'). }
  destruct (move_process i j id cl c 999 HG Hj Hid Hc Hp) as (cl1 & Hl1 & Hm1). pose proof (leads_good _ _ _ _ Hl1 HG) as HG1.
  assert (exists rel lr, c_phase (process 999 c (LabRPC.net (sys cl))) = Handling (inr SERVERID) 0%nat rel lr None) as (rel & lr & E).
  { unfold process, readEndnameInfo. cbn [i_enabled i_servername i_server i_reliable i_longreordering]. rewrite He, Hen, Hconn.
    cbn [default Datatypes.id mbind option_bind]. rewrite (co_server _ (wi_ok _ HW) : serverAt _ (LabRPC.net (sys cl)) = _).
    change (Z.rem 999 1000 <? 100) with false. rewrite andb_false_r. by eexists _, _. }
  rewrite E in Hm1. destruct (mv_call _ _ _ _ Hm1) as (c1 & Hc1 & Hp1).
  assert (jobs cl1 !! i = Some j) as Hj1 by by rewrite (mv_jobs _ _ _ _ Hm1).
  destruct (move_handler i j id cl1 c1 _ _ _ _ HG1 Hj1 Hid Hc1 Hp1) as (cl2 & rep & Hrep & Hl2 & Hm2).
  pose proof (leads_good _ _ _ _ Hl2 HG1) as HG2. destruct (mv_call _ _ _ _ Hm2) as (c2 & Hc2 & Hp2).
  assert (jobs cl2 !! i = Some j) as Hj2 by by rewrite (mv_jobs _ _ _ _ Hm2).
  destruct (move_answer i j id cl2 c2 _ _ _ _ _ 999 600 HG2 Hj2 Hid Hc2 Hp2) as (cl3 & Hl3 & Hm3).
  exists cl3, rep. split; [by eapply (leads_trans i 1 2), (leads_trans i 1 1)|]. split; [|done].
  eapply moved_trans; [done|]. eapply moved_trans; [done|].
  pose proof HG2 as (_ & _ & more2 & w2 & HS2). destruct (job_end _ _ _ _ _ _ HS2 Hj2 Hid) as (x2 & c3 & _ & Hc3 & He2 & Hen2). simplify_eq.
  unfold answerWith, isServerDead in Hm3. rewrite He2, Hen2, bool_decide_eq_true_2 in Hm3; [|apply (co_server _ (wi_ok _ (sim_wired _ _ _ HS2)))].
  change (Z.rem 999 1000 <? 100) with false in Hm3. change (Z.rem 600 900 <? 600) with false in Hm3. by rewrite !andb_false_r in Hm3.
Qed.

Lemma finishes_ready i j cl : good cl -> jobs cl !! i = Some j -> j_stage j = Ready -> finishes 11 i cl.
Proof.
  intros HG Hj Hst. destruct (call_begins i j cl HG Hj) as (cl1 & c & Hl & Hc & Hp & Hcont); [unfold callOf; by rewrite Hst|].
  rewrite Hst in Hcont. set (id := nextCall cl) in *. pose proof (leads_good _ _ _ _ Hl HG) as HG1. pose proof (continues_lookup _ _ _ _ _ Hcont) as Hj1.
  eapply (finishes_after 10 1); [done..|].
  destruct (call_succeeds i (set_stage (Calling id) j) id cl1 c HG1 Hj1 eq_refl Hc Hp) as (cl2 & rep & Hl2 & Hm2 & Hok).
  pose proof (leads_good _ _ _ _ Hl2 HG1) as HG2. destruct (mv_call _ _ _ _ Hm2) as (c2 & Hc2 & Hp2).
  eapply (finishes_moved 7 3); [done..|].
  destruct (return_main i (set_stage (Calling id) j) id cl2 c2 rep HG2) as (cl3 & Hl3 & Hcase); [by rewrite (mv_jobs _ _ _ _ Hm2)|done..|].
  destruct Hcase as [Hf|[(v & Hv)|[? _]]]; [apply (finishes_mono 1); [lia|]; by exists 1%nat, cl3| |congruence].
  eapply (finishes_after 6 1); [done..|]. eapply finishes_clearing; [by eapply leads_good|by eapply continues_lookup|done].
Qed.

Lemma finishes_calling i j id cl : good cl -> jobs cl !! i = Some j -> j_stage j = Calling id -> finishes 16 i cl.
Proof.
  intros HG Hj Hst. assert (callOf j = Some id) as Hid by (unfold callOf; by rewrite Hst).
  destruct (call_settles i j id cl HG Hj Hid) as (m & cl1 & rep & Hle & Hl & Hm). pose proof (leads_good _ _ _ _ Hl HG) as HG1.
  destruct (mv_call _ _ _ _ Hm) as (c & Hc & Hp). apply (finishes_mono (m + 12)); [lia|]. eapply finishes_moved; [done..|].
  destruct (return_main i j id cl1 c rep HG1) as (cl2 & Hl2 & Hcase); [by rewrite (mv_jobs _ _ _ _ Hm)|done..|].
  pose proof (leads_good _ _ _ _ Hl2 HG1) as HG2. destruct Hcase as [Hf|[(v & Hv)|[_ Hv]]].
  - apply (finishes_mono 1); [lia|]. by exists 1%nat, cl2.
  - apply (finishes_mono (1 + 6)); [lia|]. eapply finishes_after; [done..|]. eapply finishes_clearing; [done|by eapply continues_lookup|done].
  - apply (finishes_mono (1 + 11)); [lia|]. eapply finishes_after; [done..|]. eapply finishes_ready; [done|by eapply continues_lookup|done].
Qed.

(** C7: A method of a clerk never gets stuck.  In every state that a run of the clerks over the simulated network reaches before the
    network is cleaned up, whatever was lost, delayed or repeated, at most sixteen more events of the method's own calls make a method
    in progress return: it is recorded with the time of its call, and the other methods are where they were. *)
Theorem clerk_method_returns unreliable evs cl i j :
  steps evs (fresh unreliable) = Some cl -> done (LabRPC.net (sys cl)) = false -> jobs cl !! i = Some j -> finishes 16 i cl.
Proof.
  intros HG%good_steps _ Hj. destruct (j_stage j) as [|id|v|v id] eqn:Hst.
  - apply (finishes_mono 11); [lia|]. by eapply finishes_ready.
  - by eapply finishes_calling.
  - apply (finishes_mono 6); [lia|]. by eapply finishes_clearing.
  - apply (finishes_mono 5); [lia|]. by eapply finishes_clearCalling.
Qed.
End Live.

(** ** The theorem at work *)

(** The reply of the first append was lost, and its clerk has not noticed yet. *)
Definition reply_lost : Cluster Msg := default (fresh true) (steps (take 8 appending) (fresh true)).

Lemma clerk_method_returns_witness : finishes 16 2 reply_lost.
Proof.
  assert (bool_decide (is_Some (steps (take 8 appending) (fresh true : Cluster Msg))) = true) as Hs%bool_decide_eq_true by (vm_compute; reflexivity).
  eapply (clerk_method_returns true (take 8 appending) reply_lost 2 (mkJob 0 (RWrite OpAppend (mkPutAppendArgs "k" "x" 1 (nrand (replicate 8 1)))) (Calling 0))).
  - unfold reply_lost. by destruct Hs as [cl ->].
  - vm_compute. reflexivity.
  - vm_compute. reflexivity.
Defined.
