(* ===== verification/UserService.v ===== *)
(** * UserService: the web service for users (src/gintest)

    The handlers, the check of the login, the tokens, the validators and the queries.  A
    handler is a program in a monad over the state of the service: the request's context, the
    table of users, the token store and the keys in memory.  [Panic] is a run-time panic, which
    the recovery middleware turns into a reply; [Exit] is [log.Fatal], which ends the process.

    The framework, the database, the token store and the token library are not part of the
    repository: each is a class of operations, with what their documentation promises as laws.
    The text of log messages is left out. *)

From S2P Require Import Prelude.
Local Open Scope Z_scope.

(** ** The monad *)

Inductive Result {S A : Type} :=
| Ret (a : A) (s : S)
| Panic (s : S)
| Exit (s : S).
Arguments Result : clear implicits.
Arguments Ret {S A}.
Arguments Panic {S A}.
Arguments Exit {S A}.

Definition M (S A : Type) : Type := S -> Result S A.
#[export] Instance M_ret S : MRet (M S) := fun A a s => Ret a s.
#[export] Instance M_bind S : MBind (M S) := fun A B f m s =>
  match m s with Ret a s => f a s | Panic s => Panic s | Exit s => Exit s end.

Section Ops.
Context {S : Type}.
Definition panic {A} : M S A := fun s => Panic s.
(** [log.Fatal]. *)
Definition exit {A} : M S A := fun s => Exit s.
Definition gets {A} (f : S -> A) : M S A := fun s => Ret (f s) s.
Definition modify (f : S -> S) : M S unit := fun s => Ret tt (f s).
End Ops.

(** A handler gets what [ctx.Next()] does, running the pending handlers, and tells whether it has
    called it. *)
Abbreviation HandlerOf S := (M S unit -> M S bool).

(** ** types/PostReq.go *)

Record PostReq := mkPostReq { Id : Z; pr_Name : string }.
Record MyForm := mkMyForm { Colors : list string }.
Record UserInfo := mkUserInfo { ui_ID : string; ui_Name : string }.
Record TestUser := mkTestUser { tu_Username : string; tu_Password : string; tu_ConfirmPassword : string }.
(** Without the columns that [gorm.Model] adds, which the program does not use. *)
Record LoginUser := mkLoginUser { Username : string; Password : string }.
Record Token := mkToken { tk_Username : string; tk_Token : string }.

Definition zeroLoginUser : LoginUser := mkLoginUser "" "".

(** ** handlers/validators/user_validator.go *)

(** The field a validator looks at, as an interface value. *)
Inductive Field := FString (s : string) | FInt (num : Z) | FOther.

Definition ValidateUUID (fl : Field) : bool := match fl with FString _ => true | _ => false end.

(** The loop, from [i] on; [i*i] and [i++] at 64 bits.  [None]: not finished within the fuel. *)
Fixpoint primeLoop (fuel : nat) (num i : Z) : option bool :=
  match fuel with
  | O => None
  | S fuel =>
      if swrap 64 (i * i) <=? num
      then if Z.rem num i =? 0 then Some false else primeLoop fuel num (swrap 64 (i + 1))
      else Some true
  end.
Definition ValidatePrime (fuel : nat) (fl : Field) : option bool :=
  match fl with
  | FInt num => if num <? 2 then Some false else primeLoop fuel num 2
  | _ => Some false
  end.

(** [describe] is [fl.Field().String()] of a field that is not a string. *)
Definition ValidatorPrefix (prefix : string) (describe : string) (fl : Field) : bool :=
  String.prefix prefix (match fl with FString value => value | _ => describe end).

(** What is reported: the value, the field and its alternative name, the tag. *)
Definition ValidatePassword (user : TestUser) : list (string * string * string * string) :=
  if bool_decide (tu_Password user = tu_ConfirmPassword user) then []
  else [(tu_Password user, "Password", "password", "passwordmatch")]%string.

(** ** handlers/validators/register_valiadtor.go *)

(** The message of a failed registration is only printed. *)
Definition PrintErr {E : Type} (err : option E) : bool := match err with Some _ => false | None => true end.

(** [register] and [registerStruct] are the methods of the library on its validator, a [V]. *)
Definition RegisterCustomValiadtor {V E : Type} (register : V -> string -> (Field -> option bool) -> V * option E)
    (registerStruct : V -> (TestUser -> list (string * string * string * string)) -> V) (fuel : nat) (describe : string) (validate : V) : V :=
  let '(validate, err) := register validate "uuid" (fun fl => Some (ValidateUUID fl)) in
  let _ := PrintErr err in
  let '(validate, err) := register validate "prime" (ValidatePrime fuel) in
  let _ := PrintErr err in
  let '(validate, err) := register validate "prefix" (fun fl => Some (ValidatorPrefix "Addr-" describe fl)) in
  let _ := PrintErr err in
  registerStruct validate ValidatePassword.

(** ** What the service uses of others *)

(** The replies: the values of the maps, and what is sent. *)
Inductive Val {Err : Type} := VS (s : string) | VE (e : Err) | VL (l : list string) | VU (u : TestUser).
Arguments Val : clear implicits.
Arguments VS {Err}.
Arguments VE {Err}.
Arguments VL {Err}.
Arguments VU {Err}.
Inductive Payload {Err User : Type} :=
| PH (h : list (string * Val Err))        (* gin.H *)
| PArray (l : list (list (string * Val Err))) (* the messages of successResp and serverErrorResp *)
| PReq (r : PostReq)
| PUser (u : User)
| PInfo (i : UserInfo).
Arguments Payload : clear implicits.
Arguments PH {Err User}.
Arguments PArray {Err User}.
Arguments PReq {Err User}.
Arguments PUser {Err User}.
Arguments PInfo {Err User}.
Inductive Reply {Err User : Type} :=
| RJSON (code : Z) (p : Payload Err User)
| RSecureJSON (code : Z) (p : Payload Err User)
| RStatus (code : Z)
| RCookie (name value : string) (maxAge : Z) (path domain : string) (secure httpOnly : bool)
| RData (code len : Z) (contentType body : string) (headers : list (string * string)).
Arguments Reply : clear implicits.
Arguments RJSON {Err User}.
Arguments RSecureJSON {Err User}.
Arguments RStatus {Err User}.
Arguments RCookie {Err User}.
Arguments RData {Err User}.

(** The request's context of gin.  A body can be read once: [ShouldBindJSON] decodes a value from what is left of
    it, and may leave something behind it; [ShouldBindBodyWithJSON] reads all of it into the context and decodes what it has there. *)
Class Gin (Ctx Body Err User : Type) := {
  urlPath : Ctx -> string;
  emptyBody : Body;
  unread : Ctx -> Body;
  cached : Ctx -> option Body;
  replies : Ctx -> list (Reply Err User);
  aborted : Ctx -> bool;
  readBody : Ctx -> Ctx * Body;
  readCached : Ctx -> Ctx * Body;
  reply : Reply Err User -> Ctx -> Ctx;
  Abort : Ctx -> Ctx;
  Cookie : string -> Ctx -> string * option Err;
  sessionSet : string -> string -> Ctx -> Ctx;
  readBody_body c : (readBody c).2 = unread c;
  readBody_replies c : replies (readBody c).1 = replies c;
  readBody_aborted c : aborted (readBody c).1 = aborted c;
  readCached_body c : (readCached c).2 = default (unread c) (cached c);
  readCached_unread c : unread (readCached c).1 = match cached c with Some _ => unread c | None => emptyBody end;
  readCached_cached c : cached (readCached c).1 = Some (default (unread c) (cached c));
  readCached_replies c : replies (readCached c).1 = replies c;
  readCached_aborted c : aborted (readCached c).1 = aborted c;
  readCached_path c : urlPath (readCached c).1 = urlPath c;
  reply_replies r c : replies (reply r c) = replies c ++ [r];
  reply_unread r c : unread (reply r c) = unread c;
  reply_cached r c : cached (reply r c) = cached c;
  reply_aborted r c : aborted (reply r c) = aborted c;
  reply_path r c : urlPath (reply r c) = urlPath c
}.

(** Decoding a body and validating it with the tags of the types: what is in the variable
    afterwards, and the error; [None] is a panic.  An empty body is an error that leaves the
    variable as it was. *)
Class Binding (Ctx Body Err User : Type) `{!Gin Ctx Body Err User} := {
  bind_PostReq : Body -> option (PostReq * option Err);
  bind_MyForm : Ctx -> Body -> option (MyForm * option Err);
  bind_User : Body -> option (User * option Err);
  bind_UserInfo : Ctx -> option (UserInfo * option Err);
  bind_TestUser : Body -> option (TestUser * option Err);
  bind_LoginUser : Body -> option (LoginUser * option Err);
  bind_Token : Body -> option (Token * option Err);
  bind_empty : exists err, bind_LoginUser emptyBody = Some (zeroLoginUser, Some err)
}.

(** The table of users: an insertion that updates the password on a conflict, and the password of the
    first row with a name.  [db_same]: the names that the collation of the column takes for the same. *)
Class UserTable (Db Err : Type) := {
  db_same : string -> string -> bool;
  db_Create : LoginUser -> Db -> Db * option Err;
  db_First : string -> Db -> string + Err;
  db_Create_stored u d d' : db_Create u d = (d', None) -> db_First (Username u) d' = inl (Password u);
  db_Create_others u d d' err name : db_Create u d = (d', err) -> db_same name (Username u) = false -> db_First name d' = db_First name d
}.

(** The token store.  Its commands may fail; [redis.Nil], when there is no key or its time to live is over, is an error of [Get].  With an error the
    result is the empty string.  A [Get] that is answered after a [Set] that was, with no command in between, gives
    its value, and its time to live is not over. *)
Class TokenStore (Rdb Err : Type) := {
  rdb_Get : Z -> string -> Rdb -> string * option Err;
  rdb_Set : Z -> string -> string -> Z -> Rdb -> Rdb * option Err;
  rdb_Get_error now k r e : (rdb_Get now k r).2 = Some e -> (rdb_Get now k r).1 = ""%string;
  rdb_Get_Set now now' k v ttl r r' s :
    rdb_Set now k v ttl r = (r', None) -> now <= now' -> rdb_Get now' k r' = (s, None) -> s = v /\ now' < now + ttl
}.

(** utils/jwts_util.go: the claims of a token, times in seconds. *)
Record MyClaim := mkMyClaim {
  mc_Username : string; Issuer : string; IssuedAt : Z; Audience : list string; NotBefore : Z; ExpiresAt : Z; mc_ID : string
}.

(** Keys, their PEM blocks and tokens.  A token verifies with the public key of the private key it was
    signed with, from [NotBefore] until before [ExpiresAt], and with no other key. *)
Class Jwt (KeyPair PrivKey PubKey Err : Type) := {
  privPEM : KeyPair -> string;
  pubPEM : KeyPair -> string;
  ParseRSAPrivateKeyFromPEM : string -> option PrivKey;
  ParseRSAPublicKeyFromPEM : string -> PubKey + Err;
  (* the empty string when it fails *)
  SignedString : option PrivKey -> MyClaim -> string;
  (* claim.Valid and the error *)
  ParseWithClaims : PubKey -> Z -> string -> bool * option Err;
  parse_priv k : exists p, ParseRSAPrivateKeyFromPEM (privPEM k) = Some p /\ forall cl, SignedString (Some p) cl <> ""%string;
  parse_pub k : exists q, ParseRSAPublicKeyFromPEM (pubPEM k) = inl q;
  verifies k k' q now cl :
    ParseRSAPublicKeyFromPEM (pubPEM k') = inl q ->
    (ParseWithClaims q now (SignedString (ParseRSAPrivateKeyFromPEM (privPEM k)) cl)).2 = None <->
    k = k' /\ IssuedAt cl <= now /\ NotBefore cl <= now < ExpiresAt cl;
  parse_valid q now t : (ParseWithClaims q now t).2 = None -> (ParseWithClaims q now t).1 = true
}.

(** ** The service *)

(** The values of [contentFile]. *)
Inductive KeyVal := KString (s : string) | KBytes (s : string) | KOther.

Section Service.
Context {Ctx Body Err User Db Rdb KeyPair PrivKey PubKey : Type}.
Context `{!Gin Ctx Body Err User} `{!Binding Ctx Body Err User} `{!UserTable Db Err} `{!TokenStore Rdb Err} `{!Jwt KeyPair PrivKey PubKey Err}.

(** The state: the context of the request, the table, the token store, the keys in memory, the file with
    the keys, and the time in seconds. *)
Record World := mkWorld {
  ctx : Ctx;
  db : Db;
  rdb : Rdb;
  contentFile : gmap string KeyVal;
  file : option string;
  now : Z
}.
Definition set_ctx x w := mkWorld x (db w) (rdb w) (contentFile w) (file w) (now w).
Definition set_db x w := mkWorld (ctx w) x (rdb w) (contentFile w) (file w) (now w).
Definition set_rdb x w := mkWorld (ctx w) (db w) x (contentFile w) (file w) (now w).
Definition set_contentFile x w := mkWorld (ctx w) (db w) (rdb w) x (file w) (now w).
Definition set_file x w := mkWorld (ctx w) (db w) (rdb w) (contentFile w) x (now w).

Local Abbreviation Prog := (M World).
Local Abbreviation Handler := (HandlerOf World).

(** *** The context *)

Definition send (r : Reply Err User) : Prog unit := modify (fun w => set_ctx (reply r (ctx w)) w).
Definition json (code : Z) (p : Payload Err User) : Prog unit := send (RJSON code p).
Definition secureJSON (code : Z) (p : Payload Err User) : Prog unit := send (RSecureJSON code p).

Definition orPanic {A} (x : option A) : Prog A := match x with Some a => mret a | None => panic end.
Definition takeBody (read : Ctx -> Ctx * Body) : Prog Body := fun w => let '(c, b) := read (ctx w) in Ret b (set_ctx c w).
Definition ShouldBindJSON {A} (decode : Body -> option (A * option Err)) : Prog (A * option Err) :=
  b ← takeBody readBody; orPanic (decode b).
Definition ShouldBindBodyWithJSON {A} (decode : Body -> option (A * option Err)) : Prog (A * option Err) :=
  b ← takeBody readCached; orPanic (decode b).
(** A form comes from the body and from the query of the URL. *)
Definition ShouldBind {A} (decode : Ctx -> Body -> option (A * option Err)) : Prog (A * option Err) :=
  c ← gets ctx; b ← takeBody readBody; orPanic (decode c b).
Definition ShouldBindUri {A} (decode : Ctx -> option (A * option Err)) : Prog (A * option Err) := c ← gets ctx; orPanic (decode c).

(** *** utils *)

Definition StringToBytes (s : string) : KeyVal := KBytes s.
Definition EqualToken (t1 t2 : string) : bool := bool_decide (t1 = t2).
Definition ErrorInLog (err : option Err) : Prog unit := match err with Some _ => exit | None => mret tt end.
(** [isNil]: the error is [redis.Nil]. *)
Definition IsRedisNotHaveToken (isNil : bool) : Prog bool := if isNil then mret true else exit.

(** A type assertion to bytes or to a string. *)
Definition asBytes (v : option KeyVal) : Prog string := match v with Some (KBytes s) => mret s | _ => panic end.
Definition asString (v : option KeyVal) : Prog string := match v with Some (KString s) => mret s | _ => panic end.

(** [k] is the generated key, [marshal] is [yaml.Marshal] and [written] whether the file could be written. *)
Definition CreatePrivateKeyFromPropertiesYAML (marshal : gmap string KeyVal -> string + Err) (written : bool) (k : KeyPair) : Prog unit :=
  modify (fun w => set_contentFile (<["PublicKey"%string := KString (pubPEM k)]> (<["PrivateKey"%string := KString (privPEM k)]> (contentFile w))) w);;
  newYaml ← gets (fun w => marshal (contentFile w));
  match newYaml with
  | inr _ => exit
  | inl yaml =>
      if negb written then exit
      else
        modify (set_file (Some yaml));;
        modify (fun w => set_contentFile (<["PublicKey"%string := KBytes (pubPEM k)]> (<["PrivateKey"%string := KBytes (privPEM k)]> (contentFile w))) w)
  end.
Definition InitKey marshal written k : Prog unit := CreatePrivateKeyFromPropertiesYAML marshal written k.

(** [unmarshal] is [yaml.Unmarshal] into the map there is. *)
Definition ReadPrivateKey marshal written k (unmarshal : string -> gmap string KeyVal -> gmap string KeyVal + Err) : Prog unit :=
  yamlFile ← gets file;
  match yamlFile with
  | None => exit
  | Some content =>
      m ← gets (fun w => unmarshal content (contentFile w));
      match m with
      | inr _ => CreatePrivateKeyFromPropertiesYAML marshal written k
      | inl m =>
          modify (set_contentFile m);;
          v ← gets (fun w => contentFile w !! "PrivateKey"%string); s ← asString v;
          modify (fun w => set_contentFile (<["PrivateKey"%string := StringToBytes s]> (contentFile w)) w);;
          v ← gets (fun w => contentFile w !! "PublicKey"%string); s ← asString v;
          modify (fun w => set_contentFile (<["PublicKey"%string := StringToBytes s]> (contentFile w)) w)
      end
  end.

Definition GetPrivateKey marshal written k (user : LoginUser) : Prog bool :=
  v ← gets (fun w => contentFile w !! "PrivateKey"%string);
  match v with
  | Some _ => CreatePrivateKeyFromPropertiesYAML marshal written k;; mret false
  | None => mret true
  end.

(** [id] is the random number as a string. *)
Definition claimsFor (user : LoginUser) (t : Z) (id : string) : MyClaim :=
  mkMyClaim (Username user) "WebServer" t [Username user] t (t + 3600) id.
Definition GenerateJWT (id : string) (user : LoginUser) : Prog string :=
  t ← gets now;
  v ← gets (fun w => contentFile w !! "PrivateKey"%string);
  pem ← asBytes v;
  let signalString := SignedString (ParseRSAPrivateKeyFromPEM pem) (claimsFor user t id) in
  if bool_decide (signalString = ""%string) then exit else mret signalString.

Definition ParseTokenCheckExpired (token : string) : Prog bool :=
  if bool_decide (token = ""%string) then mret false
  else
    v ← gets (fun w => contentFile w !! "PublicKey"%string);
    pem ← asBytes v;
    match ParseRSAPublicKeyFromPEM pem with
    | inr _ => exit
    | inl pubKey =>
        t ← gets now;
        let '(valid, err) := ParseWithClaims pubKey t token in
        ErrorInLog err;;
        if valid : bool then mret false else mret true
    end.

(** *** mydb/user_sqls.go *)

Definition RegisterUserIntoDB (user : LoginUser) : Prog bool :=
  d ← gets db;
  let '(d, err) := db_Create user d in
  modify (set_db d);;
  match err with Some _ => mret false | None => mret true end.

Definition QueryUserInfo (user : LoginUser) : Prog bool :=
  d ← gets db;
  match db_First (Username user) d with
  | inr _ => mret false
  | inl password =>
      if bool_decide (password = ""%string) then mret false
      else if negb (bool_decide (password = Password user)) then mret false
      else mret true
  end.

(** *** handlers *)

Definition successResp (msg : list (list (string * Val Err))) : Prog unit := json 200 (PArray msg).
Definition serverErrorResp (msg : list (list (string * Val Err))) : Prog unit := json 500 (PArray msg).
Definition ErrorResp (msg : list (list (string * Val Err))) : Prog unit := json 500 (PArray msg).

(** A handler that does not call [ctx.Next()]. *)
Definition endpoint (p : Prog unit) : Handler := fun _ => p;; mret false.

Local Open Scope string_scope.

Definition PostHandler : Handler := endpoint (
  '(req, err) ← ShouldBindJSON bind_PostReq;
  match err with
  | Some _ => json 400 (PH [("message", VS "Invaild JSON data")]);; modify (fun w => set_ctx (Abort (ctx w)) w)
  | None => json 200 (PReq req)
  end).

Definition FormHandler : Handler := endpoint (
  '(myForm, _) ← ShouldBind bind_MyForm;
  json 200 (PH [("color", VL (Colors myForm))])).

Definition UserFormHandler : Handler := endpoint ('(myForm, _) ← ShouldBindJSON bind_User; json 200 (PUser myForm)).

Definition UserIDFormHandler : Handler := endpoint (
  '(myForm, _) ← ShouldBindUri bind_UserInfo;
  json 200 (PInfo myForm)).

Definition SetCookieHandler : Handler := endpoint (
  send (RCookie "username" "ethan" 3600 "/" "localhost" false true);;
  json 200 (PH [("message", VS "success set cookie!")])).

(** There is no return after the first answer. *)
Definition GETCookieHandler : Handler := endpoint (
  '(cookie, err) ← gets (fun w => Cookie "username" (ctx w));
  match err with
  | Some _ => json 203 (PH [("message", VS "cookie expired or not set!")])
  | None => mret tt
  end;;
  json 200 (PH [("message", VS cookie)])).

(** [Struct] is [validate.Struct]: the failed fields with their messages, or another error. *)
Definition ValidationPasswordHandler (Struct : TestUser -> option (list (string * string) + Err)) : Handler := endpoint (
  modify (fun w => set_ctx (sessionSet "username" "john_doe" (ctx w)) w);;
  '(user, err) ← ShouldBindJSON bind_TestUser;
  match err with
  | Some e => json 400 (PH [("error", VE e)])
  | None =>
      match Struct user with
      | Some (inl validationErrors) =>
          json 400 (PH [("error", VL ((fun v => "Field " +:+ v.1 +:+ ": " +:+ v.2) <$> validationErrors))])
      | Some (inr _) => json 500 (PH [("error", VS "validation define!")])
      | None => secureJSON 200 (PH [("success", VU user)])
      end
  end).

(** The answer of [http.Get]: with an error there is mostly no response. *)
Record HttpResponse := mkHttpResponse { StatusCode : Z; ContentLength : Z; ContentType : string; RBody : string }.
Definition quote : string := String (Ascii.ascii_of_nat 34) "".
Definition DownloadFileHandler (resp : option HttpResponse) (err : option Err) : Handler := endpoint (
  match err with
  | Some _ => r ← orPanic resp; if negb (StatusCode r =? 200)%Z then send (RStatus 503) else mret tt
  | None => mret tt
  end;;
  r ← orPanic resp;
  send (RData 200 (ContentLength r) (ContentType r) (RBody r)
    [("Content-Disposition", "attachment; filename=" +:+ quote +:+ "gopher.png" +:+ quote)])).

Definition GetHello1Handler : Handler := endpoint (secureJSON 200 (PH [("message", VS "hello Gin!")])).

Definition PostAuthorizationHandler (id : string) : Handler := endpoint (
  '(user, err) ← ShouldBindJSON bind_LoginUser;
  match err with
  | Some e => json 400 (PH [("msg", VS "Request data format failure!"); ("err", VE e)])
  | None => token ← GenerateJWT id user; secureJSON 200 (PH [("token", VS token)])
  end).

Definition getUserFromContext : Prog LoginUser :=
  '(user, err) ← ShouldBindJSON bind_LoginUser;
  match err with
  | Some e => json 400 (PH [("msg", VS "Request data format failure!"); ("err", VE e)])
  | None => mret tt
  end;;
  mret user.

Definition RegisterUserHandler (id : string) : Handler := endpoint (
  user ← getUserFromContext;
  ok ← RegisterUserIntoDB user;
  if negb ok then json 500 (PH [("error", VS "register failure wait minutes!")])
  else
    token ← GenerateJWT id user;
    secureJSON 200 (PH [("message", VS "success registered!"); ("token", VS token)])).

Definition validationUserToken (token : Token) : Prog bool :=
  if bool_decide (tk_Token token = "") then mret false
  else
    rdbToken ← gets (fun w => (rdb_Get (now w) (tk_Username token) (rdb w)).1);
    if EqualToken (tk_Token token) rdbToken
    then expired ← ParseTokenCheckExpired (tk_Token token); mret (negb expired)
    else mret false.

Definition excludePath : list string := ["/user/login"].

Definition CheckLoginStatusHandler : Handler := fun Next =>
  path ← gets (fun w => urlPath (ctx w));
  if bool_decide (path ∈ excludePath) then Next;; mret true
  else
    '(token, _) ← ShouldBindBodyWithJSON bind_Token;
    valid ← validationUserToken token;
    if negb valid
    then
      successResp [[("statusCode", VS "200"); ("msg", VS "token have been invalidated, try to login!")]];;
      mret false
    else
      Next;;
      successResp [[("message", VS "success login check by redis!")]];;
      mret true.

Definition LoginUserHandler (id : string) : Handler := endpoint (
  user ← getUserFromContext;
  ok ← QueryUserInfo user;
  if negb ok
  then serverErrorResp [[("error", VS "Input User or Password value was failure, or the account not register!")]]
  else
    token ← GenerateJWT id user;
    modify (fun w => set_rdb (rdb_Set (now w) (Username user) token (24 * 3600) (rdb w)).1 w);;
    successResp [[("message", VS "success login & generator token!"); ("token", VS token)]]).

(** *** routers/routers.go and main.go *)

(** A route: the method, the path and its handlers, without the middleware. *)
Record Route := mkRoute { method : string; route : string; handlers : list Handler }.

(** [id] is the random number of the request, [resp] and [err] what the download answers; [basicAuth] is the
    middleware of gin for the group /admin. *)
Definition SetUpUserRoutes (id : string) : list Route :=
  [mkRoute "POST" "/user/ping" [PostHandler]; mkRoute "POST" "/user/color" [FormHandler];
   mkRoute "POST" "/user/info" [UserFormHandler]; mkRoute "GET" "/user/:name/:id" [UserIDFormHandler];
   mkRoute "POST" "/user/register" [RegisterUserHandler id]; mkRoute "POST" "/user/login" [LoginUserHandler id]].
Definition SetUpCookieRoutes (resp : option HttpResponse) (err : option Err) : list Route :=
  [mkRoute "GET" "/set_cookie" [SetCookieHandler]; mkRoute "GET" "/get_cookie" [GETCookieHandler];
   mkRoute "GET" "/hello" [DownloadFileHandler resp err]; mkRoute "POST" "/hello1" [GetHello1Handler]].
Definition SetUpAuthRoutes (id : string) (basicAuth : list (string * string) -> Handler) : list Route :=
  [mkRoute "POST" "/admin/dashboard" [basicAuth [("admin", "admin"); ("user", "123456")]; PostAuthorizationHandler id]].

(** The handlers of a request in the order in which main registers them; [sessions] is the middleware
    of the sessions.  The log and the recovery of panics come before. *)
Definition chainOf (sessions : Handler) (r : Route) : list Handler := CheckLoginStatusHandler :: sessions :: handlers r.
Definition mainRoutes (id : string) (resp : option HttpResponse) (err : option Err) (basicAuth : list (string * string) -> Handler) : list Route :=
  SetUpUserRoutes id ++ SetUpCookieRoutes resp err ++ SetUpAuthRoutes id basicAuth.
End Service.
Arguments World : clear implicits.

(** How gin runs the handlers of a request: [ctx.Next()] runs the pending ones, and after a handler
    that has not called it the next one runs, unless the handler has called [ctx.Abort()]. *)
Class Engine (S : Type) (isAborted : S -> bool) := {
  serve : list (HandlerOf S) -> M S unit;
  serve_nil : serve [] = mret tt;
  serve_cons h hs : serve (h :: hs) = (fun s =>
    match h (serve hs) s with
    | Ret true s' => Ret tt s'
    | Ret false s' => if isAborted s' then Ret tt s' else serve hs s'
    | Panic s' => Panic s'
    | Exit s' => Exit s'
    end)
}.
