(* ===== verification/UserPrime.v ===== *)
(** * UserPrime: the prime validator decides primality

    The square in the loop condition overflows for the largest numbers, and the loop then goes on past the
    square root.  It still ends with the right answer for every 64-bit integer. *)

From Stdlib Require Import Znumtheory.
From S2P Require Import Prelude UserService.
Local Open Scope Z_scope.

(** The largest number whose square fits. *)
Definition maxRoot : Z := 3037000499.
(** A number whose square is 2^63 - 7 modulo 2^64. *)
Definition wrapRoot : Z := 2759374635167858507.

Lemma square_fits i : 0 <= i <= maxRoot -> swrap 64 (i * i) = i * i.
Proof. intros Hi. apply swrap64_small. unfold is_int64, maxRoot in *. nia. Qed.

Lemma small_divisor num d : 1 < d < num -> (d | num) -> exists e, 1 < e < num /\ e * e <= num /\ (e | num).
Proof.
  intros Hd [q Hq]. destruct (Z.le_gt_cases (d * d) num).
  - exists d. split_and!; [lia..|by exists q].
  - exists q. split_and!; [nia..|]. exists d. lia.
Qed.

Lemma prime_no_divisor num d : prime num -> 1 < d < num -> ~ (d | num).
Proof. intros [_ Hno]%prime_alt. apply Hno. Qed.

Lemma root_fits num e : is_int64 num -> 1 < e -> e * e <= num -> e <= maxRoot.
Proof. unfold is_int64, maxRoot. intros. nia. Qed.

(** Every number from 4 on that could be a prime has a number below it at which the loop stops. *)
Lemma loop_stops num : 4 <= num -> is_int64 num -> prime num -> exists j, 2 <= j < num /\ num < swrap 64 (j * j).
Proof.
  intros H4 H64 Hp. destruct (Z.lt_ge_cases num (maxRoot * maxRoot)) as [Hlt|Hge].
  - exists (Z.sqrt num + 1). destruct (Z.sqrt_spec num) as [Hs1 Hs2]; [lia|].
    assert (2 <= Z.sqrt num) by (apply (Z.sqrt_le_mono 4); lia).
    assert (Z.sqrt num < maxRoot) by (apply Z.square_lt_simpl_nonneg; [unfold maxRoot|]; lia). rewrite square_fits by lia. split; [nia|]. unfold Z.succ in Hs2. lia.
  - exists wrapRoot. unfold is_int64, maxRoot, wrapRoot in *. replace (swrap 64 _) with (2 ^ 63 - 7) by (by vm_compute).
    split; [lia|]. destruct (Z.lt_ge_cases num (2 ^ 63 - 7)) as [|Hbig]; [done|exfalso].
    assert (Hno : forall d, 1 < d < 1000 -> num mod d <> 0).
    { intros d Hd Hm%Z.mod_divide; [|lia]. revert Hm. apply prime_no_divisor; [done|lia]. }
    assert (num mod 2 <> 0 /\ num mod 3 <> 0 /\ num mod 5 <> 0 /\ num mod 7 <> 0 /\ num mod 157 <> 0) as (N2 & N3 & N5 & N7 & N157)
      by (split_and!; apply Hno; lia).
    assert (num ∈ [2 ^ 63 - 7; 2 ^ 63 - 6; 2 ^ 63 - 5; 2 ^ 63 - 4; 2 ^ 63 - 3; 2 ^ 63 - 2; 2 ^ 63 - 1]) as Hc.
    { rewrite !elem_of_cons, elem_of_nil. lia. }
    clear Hno Hp. repeat (apply elem_of_cons in Hc as [-> | Hc]); [..|by apply not_elem_of_nil in Hc]; vm_compute in N2, N3, N5, N7, N157; done.
Qed.

(** Before [i] the loop has found no divisor and has not stopped. *)
Definition passed (num i : Z) : Prop := forall j, 2 <= j < i -> swrap 64 (j * j) <= num /\ ~ (j | num).

Lemma primeLoop_spec fuel num i :
  2 <= num -> is_int64 num -> 2 <= i <= num -> passed num i -> (Z.to_nat (num - i) < fuel)%nat ->
  exists b, primeLoop fuel num i = Some b /\ (b = true <-> prime num).
Proof.
  intros Hn H64 Hi Hpass Hf. revert i Hi Hpass Hf. induction fuel as [|fuel IH]; intros i Hi Hpass Hf; [lia|]. cbn [primeLoop].
  destruct (Z.leb_spec (swrap 64 (i * i)) num) as [Hle|Hgt].
  - destruct (Z.eqb_spec (Z.rem num i) 0) as [Hr|Hr].
    + exists false. split; [done|]. split; [done|]. intros Hp. exfalso. apply Z.rem_divide in Hr; [|lia].
      assert (i = num) as -> by (destruct (decide (i = num)); [done|]; exfalso; revert Hr; apply prime_no_divisor; [done|lia]).
      destruct (Z.lt_ge_cases num 4) as [Hs|H4].
      * rewrite square_fits in Hle; [nia|]. unfold maxRoot. clear - Hs Hn. lia.
      * destruct (loop_stops num H4 H64 Hp) as (j & Hj & Hjn). destruct (Hpass j Hj). lia.
    + assert (i <> num) as Hne by (intros ->; rewrite Z.rem_same in Hr; lia).
      rewrite swrap64_small by (unfold is_int64 in *; lia).
      apply IH; [lia| |lia]. intros j Hj. destruct (decide (j = i)) as [->|]; [|apply Hpass; lia].
      split; [done|]. rewrite <- Z.rem_divide by lia. done.
  - exists true. split; [done|]. split; [|done]. intros _. apply prime_alt. split; [lia|]. intros d Hd Hdiv.
    destruct (small_divisor num d Hd Hdiv) as (e & He & Hee & Hediv). pose proof (root_fits num e H64 ltac:(lia) Hee) as Hfit.
    destruct (Z.lt_ge_cases e i) as [Hlt|Hge]; [by destruct (Hpass e ltac:(lia))|].
    rewrite square_fits in Hgt by lia. nia.
Qed.

(** C36: [ValidatePrime] accepts exactly the primes, for every value of an int, and ends within [num] rounds,
    also where the square in its loop condition overflows; values of other types are refused. *)
Theorem ValidatePrime_correct fuel num :
  is_int64 num -> (Z.to_nat num <= fuel)%nat ->
  exists b, ValidatePrime fuel (FInt num) = Some b /\ (b = true <-> prime num).
Proof.
  intros H64 Hf. cbn [ValidatePrime]. destruct (Z.ltb_spec num 2) as [Hlt|Hge].
  - exists false. split; [done|]. split; [done|]. intros [Hp _]%prime_alt. lia.
  - apply primeLoop_spec; [done..|lia|intros j Hj; lia|lia].
Qed.

Lemma ValidatePrime_correct_witness : ~ prime 91 /\ prime 97.
Proof.
  destruct (ValidatePrime_correct 91 91) as (b & Hb & Hiff); [unfold is_int64; lia|vm_compute; lia|].
  destruct (ValidatePrime_correct 97 97) as (b' & Hb' & Hiff'); [unfold is_int64; lia|vm_compute; lia|].
  vm_compute in Hb, Hb'. injection Hb as <-. injection Hb' as <-. split; [intros Hp; by apply Hiff in Hp|by apply Hiff'].
Defined.
