(* ===== verification/UserTime.v ===== *)
(** * UserTime: the time of the user service as JSON
      (src/gintest/types/PostReq.go: CustomTime)

    [MarshalJSON] writes a time as "2006-01-02 15:04:05" and [UnmarshalJSON] reads it back with
    [time.Parse].  A time is kept as the date and the clock that it shows in its location, with the
    offset of the location in seconds; texts are lists of characters.  [None] is an error. *)

From S2P Require Import Prelude Decimal.
Local Open Scope Z_scope.

Record Time := mkTime { t_year : Z; t_month : Z; t_day : Z; t_hour : Z; t_min : Z; t_sec : Z; t_nsec : Z; t_offset : Z }.

Abbreviation text := (list Ascii.ascii).

(** ** [Time.Format] for the layout *)

Definition chr (n : Z) : Ascii.ascii := Ascii.ascii_of_N (Z.to_N n).
Definition utod (u : Z) : Ascii.ascii := chr (48 + u).
Abbreviation hyphen := (chr 45).
Abbreviation space := (chr 32).
Abbreviation colon := (chr 58).

(** Decimal digits, at most [fuel]. *)
Fixpoint digits (fuel : nat) (u : Z) : text :=
  match fuel with
  | O => []
  | S fuel => if u <? 10 then [utod u] else digits fuel (u / 10) ++ [utod (u mod 10)]
  end.

(** [appendInt]; a 64-bit number has at most 20 digits. *)
Definition appendInt (n : Z) (width : nat) : text :=
  let u := Z.abs n in
  (if n <? 0 then [hyphen] else []) ++
  match width with
  | 2%nat => if u <? 100 then [utod (u / 10); utod (u mod 10)] else digits 20 u
  | 4%nat => if u <? 10000 then [utod (u / 1000); utod (u / 100 mod 10); utod (u / 10 mod 10); utod (u mod 10)] else digits 20 u
  | _ => let d := digits 20 u in replicate (width - length d) (utod 0) ++ d
  end.

Definition Format (t : Time) : text :=
  appendInt (t_year t) 4 ++ [hyphen] ++ appendInt (t_month t) 2 ++ [hyphen] ++ appendInt (t_day t) 2 ++ [space] ++
  appendInt (t_hour t) 2 ++ [colon] ++ appendInt (t_min t) 2 ++ [colon] ++ appendInt (t_sec t) 2.

(** ** [time.Parse] for the layout *)

Definition getnum (s : text) (fixed : bool) : option (Z * text) :=
  match s with
  | a :: rest =>
      if negb (isDigit a) then None
      else match rest with
      | b :: rest' => if isDigit b then Some (10 * digitVal a + digitVal b, rest') else if fixed then None else Some (digitVal a, rest)
      | [] => if fixed then None else Some (digitVal a, rest)
      end
  | [] => None
  end.

(** Four digits. *)
Definition longYear (s : text) : option (Z * text) :=
  match s with
  | a :: b :: c :: d :: rest =>
      if isDigit a && isDigit b && isDigit c && isDigit d
      then Some (1000 * digitVal a + 100 * digitVal b + 10 * digitVal c + digitVal d, rest) else None
  | _ => None
  end.

(** [skip] over a character of the layout; a space stands for any number of them, but some unless the
    text ends. *)
Fixpoint cutspace (s : text) : text :=
  match s with a :: rest => if decide (a = space) then cutspace rest else s | [] => [] end.
Definition skip (c : Ascii.ascii) (s : text) : option text :=
  if decide (c = space) then
    match s with a :: _ => if decide (a = space) then Some (cutspace s) else None | [] => Some [] end
  else match s with a :: rest => if decide (a = c) then Some rest else None | [] => None end.

(** A number in a range. *)
Definition inRange (lo hi : Z) (x : option (Z * text)) : option (Z * text) :=
  '(v, rest) ← x; if (lo <=? v) && (v <=? hi) then Some (v, rest) else None.

(** [parseNanoseconds]: at most nine digits count. *)
Definition nanoseconds (d : text) : Z :=
  let d := take 9 d in decimal 0 d * 10 ^ (9 - zlen d).
(** A fraction after the seconds, which the layout need not have. *)
Definition fraction (s : text) : Z * text :=
  match s with
  | p :: (a :: _) as rest =>
      if bool_decide (p = chr 46 \/ p = chr 44) && isDigit a then let '(d, r) := spanDigits rest in (nanoseconds d, r) else (0, s)
  | _ => (0, s)
  end.

Definition isLeap (year : Z) : bool := (year mod 4 =? 0) && (negb (year mod 100 =? 0) || (year mod 400 =? 0)).
Definition daysIn (month year : Z) : Z :=
  if month =? 2 then (if isLeap year then 29 else 28)
  else if (month =? 4) || (month =? 6) || (month =? 9) || (month =? 11) then 30 else 31.

Definition Parse (s : text) : option Time :=
  '(year, s) ← longYear s; s ← skip hyphen s;
  '(month, s) ← inRange 1 12 (getnum s true); s ← skip hyphen s;
  '(day, s) ← getnum s true; s ← skip space s;
  '(hour, s) ← inRange 0 23 (getnum s false); s ← skip colon s;
  '(minute, s) ← inRange 0 59 (getnum s true); s ← skip colon s;
  '(sec, s) ← inRange 0 59 (getnum s true);
  let '(nsec, s) := fraction s in
  match s with
  | [] => if (1 <=? day) && (day <=? daysIn month year) then Some (mkTime year month day hour minute sec nsec 0) else None
  | _ :: _ => None
  end.

(** ** CustomTime *)

(** The characters that JSON writes as they are. *)
Definition plain (a : Ascii.ascii) : bool :=
  let n := Z.of_N (Ascii.N_of_ascii a) in
  (32 <=? n) && (n <? 127) && negb ((n =? 34) || (n =? 92) || (n =? 60) || (n =? 62) || (n =? 38)).

(** [json.Marshal] and [json.Unmarshal] on strings. *)
Class JsonStrings := {
  json_Marshal : text -> text;
  json_Unmarshal : text -> option text;
  json_plain s : Forall (fun a => plain a = true) s -> json_Unmarshal (json_Marshal s) = Some s
}.

Section CustomTime.
Context `{!JsonStrings}.

Definition MarshalJSON (c : Time) : text := json_Marshal (Format c).
Definition UnmarshalJSON (data : text) : option Time := s ← json_Unmarshal data; Parse s.
End CustomTime.

(** ** Valid times *)

(** The Gregorian calendar. *)
Definition leap_year (year : Z) : Prop := (4 | year) /\ ((100 | year) -> (400 | year)).
Definition calendar : list Z := [31; 28; 31; 30; 31; 30; 31; 31; 30; 31; 30; 31].
Definition is_date (year month day : Z) : Prop :=
  exists n, go_index calendar (month - 1) = Some n /\ 1 <= day /\ (day <= n \/ (month = 2 /\ day = 29 /\ leap_year year)).

Definition valid_time (t : Time) : Prop :=
  is_date (t_year t) (t_month t) (t_day t) /\
  0 <= t_hour t <= 23 /\ 0 <= t_min t <= 59 /\ 0 <= t_sec t <= 59 /\ 0 <= t_nsec t < 10 ^ 9.

Lemma isLeap_iff year : isLeap year = true <-> leap_year year.
Proof.
  unfold isLeap, leap_year. assert (forall k, 0 < k -> (year mod k =? 0) = true <-> (k | year)) as H by (intros k Hk; rewrite Z.eqb_eq, Z.mod_divide by lia; done).
  rewrite andb_true_iff, orb_true_iff, negb_true_iff, <- (not_true_iff_false (year mod 100 =? 0)), !H by lia. split.
  - intros [H4 [Hn|H400]]; (split; [done|]); [intros Hc; by destruct Hn|done].
  - intros [H4 Himp]. split; [done|]. destruct (decide (year mod 100 = 0)) as [E|E].
    + right. apply Himp, H; [lia|]. by apply Z.eqb_eq.
    + left. rewrite <- H by lia. by rewrite Z.eqb_eq.
Qed.

(** The months of [daysIn] are those of the calendar. *)
Lemma daysIn_date year month day : 1 <= month <= 12 /\ 1 <= day <= daysIn month year <-> is_date year month day.
Proof.
  unfold is_date. pose proof (isLeap_iff year) as Hl. assert (forall k, go_index calendar (month - 1) = Some k -> 1 <= month <= 12) as Hr.
  { intros k [Hb _]%go_index_Some. unfold zlen, calendar in Hb. cbn in Hb. lia. }
  split.
  - intros [Hm Hd]. assert (month = 1 \/ month = 2 \/ month = 3 \/ month = 4 \/ month = 5 \/ month = 6 \/ month = 7 \/ month = 8 \/ month = 9 \/ month = 10 \/ month = 11 \/ month = 12) as Hc by lia.
    repeat destruct Hc as [->|Hc]; try subst month; eexists; (split; [done|]); cbn in Hd |- *; try lia.
    destruct (isLeap year); [|lia]. split; [lia|]. destruct (decide (day = 29)); [right; split_and!; [done|done|by apply Hl]|left; lia].
  - intros (n & Hn & Hd1 & Hd). pose proof (Hr n Hn) as Hm. split; [done|].
    assert (month = 1 \/ month = 2 \/ month = 3 \/ month = 4 \/ month = 5 \/ month = 6 \/ month = 7 \/ month = 8 \/ month = 9 \/ month = 10 \/ month = 11 \/ month = 12) as Hc by lia.
    repeat destruct Hc as [->|Hc]; try subst month; injection Hn as <-; cbn; try (destruct Hd as [?|(? & _)]; lia).
    destruct Hd as [?|(_ & -> & Hleap)]; [destruct (isLeap year); lia|]. apply Hl in Hleap. rewrite Hleap. lia.
Qed.

Lemma utod_digit d : 0 <= d <= 9 -> isDigit (utod d) = true /\ digitVal (utod d) = d /\ plain (utod d) = true.
Proof.
  intros Hd. assert (d = 0 \/ d = 1 \/ d = 2 \/ d = 3 \/ d = 4 \/ d = 5 \/ d = 6 \/ d = 7 \/ d = 8 \/ d = 9) as Hc by lia.
  repeat destruct Hc as [->|Hc]; try done. by subst.
Qed.

Lemma digit_range a : isDigit a = true -> 0 <= digitVal a <= 9.
Proof. unfold isDigit, digitVal. lia. Qed.

Lemma appendInt_two n : 0 <= n < 100 -> appendInt n 2 = [utod (n / 10); utod (n mod 10)].
Proof.
  intros Hn. unfold appendInt. destruct (Z.ltb_spec n 0); [lia|]. rewrite Z.abs_eq by lia. by destruct (Z.ltb_spec n 100); [|lia].
Qed.

Lemma div_mod_ten n : 0 <= n < 100 -> 0 <= n / 10 <= 9 /\ 0 <= n mod 10 <= 9 /\ 10 * (n / 10) + n mod 10 = n.
Proof. intros Hn. pose proof (Z.div_mod n 10 ltac:(lia)). pose proof (Z.mod_pos_bound n 10 ltac:(lia)). lia. Qed.

Lemma getnum_two n fixed rest : 0 <= n < 100 -> getnum (appendInt n 2 ++ rest) fixed = Some (n, rest).
Proof.
  intros Hn. rewrite appendInt_two by done. destruct (div_mod_ten n Hn) as (H1 & H2 & H3). destruct (utod_digit _ H1) as (D1 & V1 & _), (utod_digit _ H2) as (D2 & V2 & _).
  cbn [app getnum]. rewrite D1, D2, V1, V2. cbn [negb]. by rewrite H3.
Qed.

Lemma plain_two n : 0 <= n < 100 -> Forall (fun a => plain a = true) (appendInt n 2).
Proof.
  intros Hn. rewrite appendInt_two by done. destruct (div_mod_ten n Hn) as (H1 & H2 & _). repeat constructor; by apply utod_digit.
Qed.

Lemma digits_digits fuel u : 0 <= u -> Forall (fun a => isDigit a = true /\ plain a = true) (digits fuel u).
Proof.
  revert u. induction fuel as [|fuel IH]; intros u Hu; cbn; [constructor|]. destruct (Z.ltb_spec u 10).
  - destruct (utod_digit u) as (? & _ & ?); [lia|]. by repeat constructor.
  - apply Forall_app. split; [apply IH; apply Z.div_pos; lia|]. pose proof (Z.mod_pos_bound u 10 ltac:(lia)). destruct (utod_digit (u mod 10)) as (? & _ & ?); [lia|]. by repeat constructor.
Qed.

(** A number of five digits or more. *)
Lemma digits_long fuel u : 10000 <= u -> exists a b c d e rest, digits (S (S (S (S (S fuel))))) u = a :: b :: c :: d :: e :: rest.
Proof.
  intros Hu. assert (forall f v, exists a l, digits (S f) v = a :: l) as Hone.
  { intros f v. cbn [digits]. destruct (v <? 10); [by eexists _, _|]. destruct (digits f (v / 10)) as [|a l]; by eexists _, _. }
  assert (forall f v, 10 <= v -> digits (S f) v = digits f (v / 10) ++ [utod (v mod 10)]) as Hstep by (intros f v Hv; cbn [digits]; by destruct (Z.ltb_spec v 10); [lia|]).
  assert (forall v w, 10 * w <= v -> w <= v / 10) as Hdiv by (intros v w Hvw; apply Z.div_le_lower_bound; lia).
  assert (1000 <= u / 10) as H1 by (apply Hdiv; lia). assert (100 <= u / 10 / 10) as H2 by (apply Hdiv; lia). assert (10 <= u / 10 / 10 / 10) as H3 by (apply Hdiv; lia).
  rewrite (Hstep _ u), (Hstep _ (u / 10)), (Hstep _ (u / 10 / 10)), (Hstep _ (u / 10 / 10 / 10)) by lia.
  destruct (Hone fuel (u / 10 / 10 / 10 / 10)) as (a & l & ->). destruct l as [|b l]; [by eexists _, _, _, _, _, _|]. destruct l as [|c l]; [by eexists _, _, _, _, _, _|].
  destruct l as [|d l]; [by eexists _, _, _, _, _, _|]. destruct l as [|e l]; by eexists _, _, _, _, _, _.
Qed.

Lemma longYear_four y rest : 0 <= y <= 9999 -> longYear (appendInt y 4 ++ rest) = Some (y, rest) /\ Forall (fun a => plain a = true) (appendInt y 4).
Proof.
  intros Hy. unfold appendInt. destruct (Z.ltb_spec y 0); [lia|]. rewrite Z.abs_eq by lia. destruct (Z.ltb_spec y 10000); [|lia].
  assert (1000 * (y / 1000) + 100 * (y / 100 mod 10) + 10 * (y / 10 mod 10) + y mod 10 = y /\ 0 <= y / 100 mod 10 <= 9 /\ 0 <= y / 10 mod 10 <= 9 /\ 0 <= y mod 10 <= 9)
    as (Hsum & H2 & H3 & H4) by (Z.to_euclidean_division_equations; lia).
  assert (0 <= y / 1000 <= 9) as H1000 by (split; [apply Z.div_pos; lia|apply Z.lt_succ_r, Z.div_lt_upper_bound; lia]).
  destruct (utod_digit (y / 1000)) as (D1 & V1 & P1); [lia|]. destruct (utod_digit (y / 100 mod 10)) as (D2 & V2 & P2); [lia|].
  destruct (utod_digit (y / 10 mod 10)) as (D3 & V3 & P3); [lia|]. destruct (utod_digit (y mod 10)) as (D4 & V4 & P4); [lia|].
  split; [|by repeat constructor]. cbn [app longYear]. rewrite D1, D2, D3, D4, V1, V2, V3, V4. cbn [andb]. by rewrite Hsum.
Qed.

Lemma skip_same c rest : c <> space -> skip c (c :: rest) = Some rest.
Proof. intros Hc. unfold skip. rewrite decide_False by done. by rewrite decide_True. Qed.

Lemma skip_space_digit a rest : a <> space -> skip space (space :: a :: rest) = Some (a :: rest).
Proof. intros Ha. unfold skip. rewrite !decide_True by done. cbn [cutspace]. rewrite decide_True by done. by rewrite decide_False. Qed.

Lemma digit_not (c a : Ascii.ascii) : isDigit c = false -> isDigit a = true -> a <> c.
Proof. intros Hc Ha ->. congruence. Qed.

(** ** Reading what was written *)

Lemma inRange_some lo hi v (rest : text) : lo <= v <= hi -> inRange lo hi (Some (v, rest)) = Some (v, rest).
Proof. intros Hv. cbn. by destruct (Z.leb_spec lo v), (Z.leb_spec v hi); [|lia..]. Qed.

Lemma days_in_month month year : daysIn month year <= 31.
Proof. unfold daysIn. destruct (month =? 2); [destruct (isLeap year); lia|]. destruct (_ || _); lia. Qed.

Lemma Parse_Format t : valid_time t -> 0 <= t_year t <= 9999 ->
  Parse (Format t) = Some (mkTime (t_year t) (t_month t) (t_day t) (t_hour t) (t_min t) (t_sec t) 0 0).
Proof.
  intros ([Hm Hd]%daysIn_date & Hh & Hmi & Hs & _) Hy. pose proof (days_in_month (t_month t) (t_year t)) as H31. unfold Parse, Format.
  rewrite (proj1 (longYear_four _ _ Hy)). cbn [mbind option_bind app]. rewrite skip_same by done. cbn [mbind option_bind].
  rewrite getnum_two, inRange_some by lia. cbn [mbind option_bind]. rewrite skip_same by done. cbn [mbind option_bind].
  rewrite getnum_two by lia. cbn [mbind option_bind].
  assert (forall rest, skip space (space :: appendInt (t_hour t) 2 ++ rest) = Some (appendInt (t_hour t) 2 ++ rest)) as ->.
  { intros rest. rewrite appendInt_two by lia. apply skip_space_digit. apply (digit_not space); [done|]. apply utod_digit. destruct (div_mod_ten (t_hour t)); lia. }
  cbn [mbind option_bind]. rewrite getnum_two, inRange_some by lia. cbn [mbind option_bind]. rewrite skip_same by done. cbn [mbind option_bind].
  rewrite getnum_two, inRange_some by lia. cbn [mbind option_bind]. rewrite skip_same by done. cbn [mbind option_bind].
  rewrite <- (app_nil_r (appendInt (t_sec t) 2)), getnum_two, inRange_some by lia. cbn [mbind option_bind fraction].
  by destruct (Z.leb_spec 1 (t_day t)), (Z.leb_spec (t_day t) (daysIn (t_month t) (t_year t))); [|lia..].
Qed.

Lemma Format_plain t : valid_time t -> Forall (fun a => plain a = true) (Format t).
Proof.
  intros ([Hm Hd]%daysIn_date & Hh & Hmi & Hs & _). pose proof (days_in_month (t_month t) (t_year t)) as H31. unfold Format.
  assert (Forall (fun a => plain a = true) (appendInt (t_year t) 4)) as Hy.
  { unfold appendInt. apply Forall_app. split; [by destruct (t_year t <? 0); repeat constructor|]. destruct (Z.ltb_spec (Z.abs (t_year t)) 10000) as [Hlt|Hge].
    - destruct (longYear_four (Z.abs (t_year t)) []) as [_ HF]; [lia|]. unfold appendInt in HF. destruct (Z.ltb_spec (Z.abs (t_year t)) 0); [lia|]. rewrite Z.abs_eq in HF by lia.
      by destruct (Z.ltb_spec (Z.abs (t_year t)) 10000); [|lia].
    - eapply Forall_impl; [apply digits_digits; lia|]. by intros a [_ ?]. }
  rewrite !Forall_app. split_and!; try done; try (apply plain_two; lia); by repeat constructor.
Qed.

(** A year that does not have four digits cannot be read back. *)
Lemma Parse_bad_year t : ~ (0 <= t_year t <= 9999) -> Parse (Format t) = None.
Proof.
  intros Hy. unfold Parse, Format. set (rest := [hyphen] ++ _). destruct (Z.ltb_spec (t_year t) 0) as [Hneg|Hpos].
  - assert (exists l, appendInt (t_year t) 4 = hyphen :: l) as (l & ->) by (unfold appendInt; destruct (Z.ltb_spec (t_year t) 0); [by eexists|lia]).
    cbn [app]. destruct (l ++ rest) as [|b [|c [|d r]]]; done.
  - unfold appendInt. destruct (Z.ltb_spec (t_year t) 0); [lia|]. rewrite Z.abs_eq by lia. destruct (Z.ltb_spec (t_year t) 10000); [lia|].
    destruct (digits_long 15 (t_year t)) as (a & b & c & d & e & r & E); [lia|]. pose proof (digits_digits 20 (t_year t) Hpos) as HF. rewrite E in HF |- *.
    repeat (apply Forall_cons in HF as [[? _] HF]). cbn [app longYear].
    destruct (isDigit a && isDigit b && isDigit c && isDigit d); [|done]. cbn [mbind option_bind]. unfold skip. rewrite decide_False by done. rewrite decide_False; [done|].
    by apply (digit_not hyphen).
Qed.

(** ** What is read is a date *)

Lemma bind_pair_Some {A} (x : option (Z * text)) (f : Z * text -> option A) a :
  (x ≫= f) = Some a -> exists v rest, x = Some (v, rest) /\ f (v, rest) = Some a.
Proof. intros ([v rest] & Hx & Hf)%bind_Some. by exists v, rest. Qed.

Lemma inRange_inv lo hi x v rest : inRange lo hi x = Some (v, rest) -> lo <= v <= hi.
Proof. unfold inRange. intros (w & r & _ & H)%bind_pair_Some. destruct (Z.leb_spec lo w), (Z.leb_spec w hi); cbn in H; [|done..]. injection H as <- <-. lia. Qed.

Lemma longYear_range s v rest : longYear s = Some (v, rest) -> 0 <= v <= 9999.
Proof.
  unfold longYear. destruct s as [|a [|b [|c [|d r]]]]; try done. destruct (isDigit a) eqn:Ea, (isDigit b) eqn:Eb, (isDigit c) eqn:Ec, (isDigit d) eqn:Ed; cbn [andb]; try done.
  intros [= <- _]. apply digit_range in Ea, Eb, Ec, Ed. lia.
Qed.

Lemma digits_value (d : text) n : Forall (fun a => isDigit a = true) d -> 0 <= n ->
  n * 10 ^ zlen d <= decimal n d < (n + 1) * 10 ^ zlen d.
Proof.
  intros Hd. revert n. induction Hd as [|a d Ha Hd IH]; intros n Hn; [change (zlen (@nil Ascii.ascii)) with 0; rewrite Z.pow_0_r; cbn; lia|]. change (decimal n (a :: d)) with (decimal (10 * n + digitVal a) d). apply digit_range in Ha.
  specialize (IH (10 * n + digitVal a) ltac:(lia)). unfold zlen in *. cbn [length]. rewrite Nat2Z.inj_succ, Z.pow_succ_r by lia.
  assert (0 < 10 ^ Z.of_nat (length d)) by (apply Z.pow_pos_nonneg; lia). nia.
Qed.

Lemma nanoseconds_range d : Forall (fun a => isDigit a = true) d -> 0 <= nanoseconds d < 10 ^ 9.
Proof.
  intros Hd. unfold nanoseconds. set (d' := take 9 d). assert (Forall (fun a => isDigit a = true) d') as Hd' by (by apply Forall_take).
  assert (zlen d' <= 9) as Hlen by (unfold d', zlen; rewrite length_take; lia). pose proof (digits_value d' 0 Hd' ltac:(lia)) as [H1 H2].
  assert (10 ^ 9 = 10 ^ zlen d' * 10 ^ (9 - zlen d')) as Hp by (rewrite <- Z.pow_add_r by (unfold zlen in *; lia); f_equal; lia).
  assert (0 < 10 ^ (9 - zlen d')) by (apply Z.pow_pos_nonneg; lia). rewrite Hp. nia.
Qed.

Lemma fraction_range s : 0 <= (fraction s).1 < 10 ^ 9.
Proof.
  unfold fraction. destruct s as [|p [|a r]]; [cbn; lia..|]. destruct (_ && _); [|cbn; lia]. pose proof (spanDigits_digits (a :: r)) as Hd.
  destruct (spanDigits (a :: r)) as [d r']. by apply nanoseconds_range.
Qed.

Lemma Parse_valid s t : Parse s = Some t -> valid_time t /\ 0 <= t_year t <= 9999 /\ t_offset t = 0.
Proof.
  unfold Parse. intros (year & s1 & Hy & H)%bind_pair_Some. apply bind_Some in H as (s2 & _ & H). apply bind_pair_Some in H as (month & s3 & Hm & H). apply bind_Some in H as (s4 & _ & H).
  apply bind_pair_Some in H as (day & s5 & _ & H). apply bind_Some in H as (s6 & _ & H). apply bind_pair_Some in H as (hour & s7 & Hh & H). apply bind_Some in H as (s8 & _ & H).
  apply bind_pair_Some in H as (minute & s9 & Hmi & H). apply bind_Some in H as (s10 & _ & H). apply bind_pair_Some in H as (sec & s11 & Hs & H).
  pose proof (fraction_range s11) as Hn. destruct (fraction s11) as [nsec s12]. cbn in Hn. destruct s12; [|done].
  destruct (Z.leb_spec 1 day), (Z.leb_spec day (daysIn month year)); cbn in H; [|done..]. injection H as <-. unfold valid_time. cbn.
  apply inRange_inv in Hm, Hh, Hmi, Hs. apply longYear_range in Hy. rewrite <- daysIn_date. lia.
Qed.

(** C37: what becomes of a time that is sent as JSON.  A valid time whose year has four digits is read back
    with the same date and clock, without its fraction of a second and without its location; with
    any other year reading it back is an error.  What is read from any text is a valid time. *)
Theorem CustomTime_roundtrip `{!JsonStrings} t :
  valid_time t ->
  UnmarshalJSON (MarshalJSON t) = (if bool_decide (0 <= t_year t <= 9999)
    then Some (mkTime (t_year t) (t_month t) (t_day t) (t_hour t) (t_min t) (t_sec t) 0 0) else None) /\
  forall data t', UnmarshalJSON data = Some t' -> valid_time t' /\ 0 <= t_year t' <= 9999 /\ t_offset t' = 0.
Proof.
  intros Ht. unfold UnmarshalJSON, MarshalJSON. split.
  - rewrite (json_plain _ (Format_plain t Ht)). cbn [mbind option_bind]. case_bool_decide as Hy; [by apply Parse_Format|by apply Parse_bad_year].
  - intros data t' (s & _ & Hs)%bind_Some. by eapply Parse_valid.
Qed.

(** Quotes around plain texts. *)
Definition unquote (s : text) : option text :=
  match s with q :: rest => if decide (q = chr 34 /\ last rest = Some (chr 34)) then Some (take (length rest - 1) rest) else None | [] => None end.

#[export] Program Instance quoted_strings : JsonStrings := {| json_Marshal s := chr 34 :: s ++ [chr 34]; json_Unmarshal := unquote |}.
Next Obligation.
  intros s _. unfold unquote. rewrite decide_True by (split; [done|apply last_snoc]). f_equal. rewrite length_app. cbn. rewrite Nat.add_sub. apply take_app_length.
Qed.

(** The last second of a leap day, in a location eight hours ahead. *)
Definition leap_second : Time := mkTime 2024 2 29 23 59 59 999 28800.

Lemma CustomTime_roundtrip_witness :
  UnmarshalJSON (MarshalJSON leap_second) = Some (mkTime 2024 2 29 23 59 59 0 0) /\
  chars "2024-02-29 23:59:59" = Format leap_second.
Proof. split; [|by vm_compute]. apply (CustomTime_roundtrip leap_second). unfold valid_time. rewrite <- daysIn_date. split_and!; by vm_compute. Defined.
