(* ===== verification/UserServiceProps.v ===== *)
(** * UserServiceProps: what a token is worth

    A login hands out a token exactly for the stored password, and the check accepts it for an
    hour, as long as the token store answers it.  From then on, as long as the store does, checking it ends the process.  A
    refused check does not keep a request from its handlers, and a registration reaches its
    handler without its body. *)

From S2P Require Import Prelude Decimal UserService.
Local Open Scope Z_scope.

Section Props.
Context {Ctx Body Err User Db Rdb KeyPair PrivKey PubKey : Type}.
Context `{!Gin Ctx Body Err User} `{!Binding Ctx Body Err User} `{!UserTable Db Err} `{!TokenStore Rdb Err} `{!Jwt KeyPair PrivKey PubKey Err}.

Local Abbreviation W := (World Ctx Db Rdb).
Implicit Types (w : W) (k : KeyPair).

(** The keys in memory are those of [k]. *)
Definition has_keys k w : Prop :=
  contentFile w !! "PrivateKey"%string = Some (KBytes (privPEM k)) /\ contentFile w !! "PublicKey"%string = Some (KBytes (pubPEM k)).

Lemma InitKey_keys marshal k w w' : InitKey marshal true k w = Ret tt w' -> has_keys k w' /\ db w' = db w /\ rdb w' = rdb w.
Proof.
  unfold InitKey, CreatePrivateKeyFromPropertiesYAML, mbind, M_bind, modify, gets. cbn. destruct (marshal _); cbn; [|done].
  intros [= <-]. unfold has_keys. cbn. split; [|done]. split; [|by rewrite lookup_insert_eq].
  rewrite lookup_insert_ne by done. by rewrite lookup_insert_eq.
Qed.

(** The same service later, at another request. *)
Definition later w (c : Ctx) (t : Z) : W := mkWorld c (db w) (rdb w) (contentFile w) (file w) t.

Lemma GenerateJWT_spec id user k w :
  has_keys k w -> exists token, GenerateJWT id user w = Ret token w /\ token <> ""%string /\
    token = SignedString (ParseRSAPrivateKeyFromPEM (privPEM k)) (claimsFor user (now w) id).
Proof.
  intros [Hk _]. unfold GenerateJWT, mbind, M_bind, gets, asBytes. rewrite Hk. cbn. destruct (parse_priv k) as (p & -> & Hs).
  eexists. rewrite bool_decide_eq_false_2 by apply Hs. split_and!; [reflexivity|apply Hs|reflexivity].
Qed.

(** What the check of a token that was issued at [t0] does at [now w]. *)
Lemma ParseTokenCheckExpired_spec id user k t0 w token :
  has_keys k w -> token <> ""%string -> token = SignedString (ParseRSAPrivateKeyFromPEM (privPEM k)) (claimsFor user t0 id) ->
  ParseTokenCheckExpired token w = if bool_decide (t0 <= now w < t0 + 3600) then Ret false w else Exit w.
Proof.
  intros [_ Hk] Hne Ht. unfold ParseTokenCheckExpired, mbind, M_bind, gets, asBytes. rewrite bool_decide_eq_false_2, Hk by done. cbn.
  destruct (parse_pub k) as (q & Hq). rewrite Hq. cbn.
  pose proof (verifies k k q (now w) (claimsFor user t0 id) Hq) as Hv. rewrite <- Ht in Hv. cbn in Hv. pose proof (parse_valid q (now w) token) as Hvalid.
  destruct (ParseWithClaims q (now w) token) as [valid [err|]]; cbn in *; case_bool_decide as E; try done.
  - exfalso. assert (Some err = None) by (apply Hv; split; [done|lia]). done.
  - by rewrite Hvalid.
  - exfalso. apply E. apply Hv. done.
Qed.

(** The password of the user is right. *)
Definition passwordRight (user : LoginUser) w : bool :=
  match db_First (Username user) (db w) with
  | inl password => negb (bool_decide (password = ""%string)) && bool_decide (password = Password user)
  | inr _ => false
  end.

Lemma QueryUserInfo_spec user w : QueryUserInfo user w = Ret (passwordRight user w) w.
Proof.
  unfold QueryUserInfo, passwordRight, mbind, M_bind, gets. destruct (db_First _ _); [|done]. repeat case_bool_decide; done.
Qed.

(** The reply to a body that is not accepted. *)
Definition formatReply (err : option Err) : list (Reply Err User) :=
  match err with
  | Some e => [RJSON 400 (PH [("msg", VS "Request data format failure!"); ("err", VE e)])]%string
  | None => []
  end.

Lemma getUserFromContext_spec w user err :
  bind_LoginUser (unread (ctx w)) = Some (user, err) ->
  exists c, getUserFromContext w = Ret user (set_ctx c w) /\ replies c = replies (ctx w) ++ formatReply err /\
    aborted c = aborted (ctx w).
Proof.
  intros Hb. unfold getUserFromContext, ShouldBindJSON, takeBody, mbind, M_bind, orPanic.
  pose proof (readBody_body (ctx w)) as B1. pose proof (readBody_replies (ctx w)) as B3.
  pose proof (readBody_aborted (ctx w)) as B4. destruct (readBody (ctx w)) as [c b]. cbn in *. subst b. rewrite Hb. cbn. destruct err as [e|]; cbn.
  - eexists. split; [done|]. by rewrite reply_replies, reply_aborted, B3.
  - exists c. rewrite app_nil_r. done.
Qed.

(** The replies of a login. *)
Definition loginReply (token : string) : Reply Err User :=
  RJSON 200 (PArray [[("message", VS "success login & generator token!"); ("token", VS token)]])%string.
Definition loginFailure : Reply Err User :=
  RJSON 500 (PArray [[("error", VS "Input User or Password value was failure, or the account not register!")]])%string.

Lemma login_right id k next w user err :
  has_keys k w -> bind_LoginUser (unread (ctx w)) = Some (user, err) -> passwordRight user w = true ->
  exists token c, token <> ""%string /\ token = SignedString (ParseRSAPrivateKeyFromPEM (privPEM k)) (claimsFor user (now w) id) /\
    LoginUserHandler id next w = Ret false (set_rdb (rdb_Set (now w) (Username user) token 86400 (rdb w)).1 (set_ctx c w)) /\
    replies c = replies (ctx w) ++ formatReply err ++ [loginReply token].
Proof.
  intros Hk Hb Hp. destruct (getUserFromContext_spec w user err Hb) as (c & Hg & Hr & _).
  destruct (GenerateJWT_spec id user k (set_ctx c w) Hk) as (token & Hgen & Hne & Ht).
  exists token, (reply (loginReply token) c). split; [done|]. split; [done|]. unfold LoginUserHandler, endpoint. cbv [mbind M_bind]. rewrite Hg.
  rewrite QueryUserInfo_spec. change (passwordRight user (set_ctx c w)) with (passwordRight user w). rewrite Hp. cbn [negb].
  rewrite Hgen. cbn. split; [reflexivity|]. by rewrite reply_replies, Hr, <- app_assoc.
Qed.

Lemma login_wrong id next w user err :
  bind_LoginUser (unread (ctx w)) = Some (user, err) -> passwordRight user w = false ->
  exists c, LoginUserHandler id next w = Ret false (set_ctx c w) /\ replies c = replies (ctx w) ++ formatReply err ++ [loginFailure].
Proof.
  intros Hb Hp. destruct (getUserFromContext_spec w user err Hb) as (c & Hg & Hr & _). exists (reply loginFailure c).
  unfold LoginUserHandler, endpoint. cbv [mbind M_bind]. rewrite Hg. rewrite QueryUserInfo_spec.
  change (passwordRight user (set_ctx c w)) with (passwordRight user w). rewrite Hp. cbn. split; [reflexivity|].
  by rewrite reply_replies, Hr, <- app_assoc.
Qed.

Lemma validationUserToken_spec tk w :
  validationUserToken tk w =
    if bool_decide (tk_Token tk = ""%string) then Ret false w
    else if EqualToken (tk_Token tk) (rdb_Get (now w) (tk_Username tk) (rdb w)).1
    then match ParseTokenCheckExpired (tk_Token tk) w with
         | Ret expired w' => Ret (negb expired) w'
         | Panic w' => Panic w'
         | Exit w' => Exit w'
         end
    else Ret false w.
Proof.
  unfold validationUserToken. cbv [mbind M_bind gets]. case_bool_decide; [done|]. destruct (EqualToken _ _); [|done].
  by destruct (ParseTokenCheckExpired _ _).
Qed.

(** A token that was issued at [t0], checked in any state with the same keys. *)
Lemma issued_token id user k w t0 token :
  has_keys k w -> token <> ""%string -> token = SignedString (ParseRSAPrivateKeyFromPEM (privPEM k)) (claimsFor user t0 id) ->
  validationUserToken (mkToken (Username user) token) w =
    if bool_decide ((rdb_Get (now w) (Username user) (rdb w)).1 = token)
    then if bool_decide (t0 <= now w < t0 + 3600) then Ret true w else Exit w
    else Ret false w.
Proof.
  intros Hk Hne Ht. rewrite validationUserToken_spec. cbn. rewrite bool_decide_eq_false_2 by done. unfold EqualToken.
  case_bool_decide as E; [|rewrite bool_decide_eq_false_2 by congruence; done]. rewrite bool_decide_eq_true_2 by congruence.
  rewrite (ParseTokenCheckExpired_spec id user k t0 w token) by done. by repeat case_bool_decide.
Qed.

(** C33: a login is worth an hour.  With a body that can be decoded, a login always answers, without a change
    of the table.  It hands out a token exactly when the user has a password in the table and the
    body has it, even after the reply that the body is not accepted, and asks the token store to keep it for a day; it does not look
    whether the store has done that.  In every later state with the same keys, the check of the user's name with that token depends on what the
    store answers for the name: a token that it does not answer, because a later login has replaced it, it was never stored or it was
    dropped, is refused; the token is accepted in the hour after the login, and ends the process after it.  So when the store has
    stored the token and nothing has been stored since, a check within the hour for which the store answers
    accepts it, and a check after a day refuses it. *)
Theorem login_worth_an_hour id k next w user err :
  has_keys k w -> bind_LoginUser (unread (ctx w)) = Some (user, err) ->
  exists w', LoginUserHandler id next w = Ret false w' /\ db w' = db w /\
    if passwordRight user w then
      exists token rerr, replies (ctx w') = replies (ctx w) ++ formatReply err ++ [loginReply token] /\
        rdb_Set (now w) (Username user) token 86400 (rdb w) = (rdb w', rerr) /\
        (forall w'', has_keys k w'' -> validationUserToken (mkToken (Username user) token) w'' =
           if bool_decide ((rdb_Get (now w'') (Username user) (rdb w'')).1 = token)
           then if bool_decide (now w <= now w'' < now w + 3600) then Ret true w'' else Exit w''
           else Ret false w'') /\
        (rerr = None -> forall c t, let w'' := later w' c t in
          (now w <= t < now w + 3600 -> (rdb_Get t (Username user) (rdb w')).2 = None ->
             validationUserToken (mkToken (Username user) token) w'' = Ret true w'') /\
          (now w + 86400 <= t -> validationUserToken (mkToken (Username user) token) w'' = Ret false w''))
    else rdb w' = rdb w /\ replies (ctx w') = replies (ctx w) ++ formatReply err ++ [loginFailure].
Proof.
  intros Hk Hb. destruct (passwordRight user w) eqn:Hp.
  - destruct (login_right id k next w user err Hk Hb Hp) as (token & c & Hne & Ht & Hrun & Hr). eexists. split; [exact Hrun|]. split; [done|].
    destruct (rdb_Set (now w) (Username user) token 86400 (rdb w)) as [r' rerr] eqn:Hset. exists token, rerr. split_and!; [done..| |].
    + intros w'' Hk''. by apply (issued_token id user k w'' (now w) token).
    + intros -> c' t w''. pose proof (issued_token id user k w'' (now w) token Hk Hne Ht) as Hcheck. cbn in Hcheck |- *.
      pose proof (rdb_Get_error t (Username user) r') as He. destruct (rdb_Get t (Username user) r') as [v e] eqn:Hget. cbn in Hcheck, He |- *. split.
      * intros Hh ->. destruct (rdb_Get_Set (now w) t _ _ _ _ _ v Hset ltac:(lia) Hget) as [-> _]. by rewrite !bool_decide_eq_true_2 in Hcheck.
      * intros Hd. rewrite bool_decide_eq_false_2 in Hcheck; [done|]. destruct e as [e|]; [by rewrite (He e)|].
        destruct (rdb_Get_Set (now w) t _ _ _ _ _ v Hset ltac:(lia) Hget). lia.
  - destruct (login_wrong id next w user err Hb Hp) as (c & Hrun & Hr). eexists. split; [exact Hrun|]. done.
Qed.


(** A second login of the user replaces the token: the first one is refused from then on, when the store answers. *)
Theorem second_login_replaces id id' k next w user err w1 user' err' c t :
  has_keys k w -> bind_LoginUser (unread (ctx w)) = Some (user, err) -> passwordRight user w = true ->
  has_keys k w1 -> bind_LoginUser (unread (ctx w1)) = Some (user', err') -> passwordRight user' w1 = true -> Username user' = Username user ->
  exists w' token w1' token', LoginUserHandler id next w = Ret false w' /\ replies (ctx w') = replies (ctx w) ++ formatReply err ++ [loginReply token] /\
    LoginUserHandler id' next w1 = Ret false w1' /\ replies (ctx w1') = replies (ctx w1) ++ formatReply err' ++ [loginReply token'] /\
    (token <> token' -> (rdb_Set (now w1) (Username user) token' 86400 (rdb w1)).2 = None -> now w1 <= t ->
     validationUserToken (mkToken (Username user) token) (later w1' c t) = Ret false (later w1' c t)).
Proof.
  intros Hk Hb Hp Hk1 Hb1 Hp1 Hu. destruct (login_right id k next w user err Hk Hb Hp) as (token & c0 & Hne & Ht & Hrun & Hr).
  destruct (login_right id' k next w1 user' err' Hk1 Hb1 Hp1) as (token' & c1 & Hne1 & Ht1 & Hrun1 & Hr1).
  eexists _, token, _, token'. split_and!; [exact Hrun|done|exact Hrun1|done|]. intros Hdiff Hset Hle.
  pose proof (issued_token id user k (later (set_rdb (rdb_Set (now w1) (Username user') token' 86400 (rdb w1)).1 (set_ctx c1 w1)) c t) (now w) token Hk1 Hne Ht) as Hcheck.
  rewrite Hu in *. cbn [later set_rdb set_ctx now rdb] in Hcheck |- *.
  destruct (rdb_Set (now w1) (Username user) token' 86400 (rdb w1)) as [r' e'] eqn:Hs. cbn in Hset. subst e'. cbn [fst] in Hcheck |- *.
  rewrite bool_decide_eq_false_2 in Hcheck; [exact Hcheck|]. pose proof (rdb_Get_error t (Username user) r') as He.
  destruct (rdb_Get t (Username user) r') as [v [e|]] eqn:Hget; cbn in He |- *; [by rewrite (He e)|].
  destruct (rdb_Get_Set (now w1) t _ _ _ _ _ v Hs Hle Hget) as [-> _]. congruence.
Qed.

(** ** The chain of handlers *)

Definition refusal : Reply Err User :=
  RJSON 200 (PArray [[("statusCode", VS "200"); ("msg", VS "token have been invalidated, try to login!")]])%string.

(** The token of the request is none, or not the one that the store answers. *)
Definition refused (token : Token) w : Prop :=
  tk_Token token = ""%string \/ tk_Token token <> (rdb_Get (now w) (tk_Username token) (rdb w)).1.

Lemma check_refused next w token terr :
  urlPath (ctx w) ∉ excludePath -> cached (ctx w) = None -> bind_Token (unread (ctx w)) = Some (token, terr) -> refused token w ->
  exists c, CheckLoginStatusHandler next w = Ret false (set_ctx c w) /\ replies c = replies (ctx w) ++ [refusal] /\
    unread c = emptyBody /\ aborted c = aborted (ctx w).
Proof.
  intros Hpath Hcache Htok Href. unfold CheckLoginStatusHandler. cbv [mbind M_bind gets]. rewrite bool_decide_eq_false_2 by done.
  unfold ShouldBindBodyWithJSON, takeBody, orPanic. cbv [mbind M_bind].
  pose proof (readCached_body (ctx w)) as B1. pose proof (readCached_unread (ctx w)) as B2. pose proof (readCached_replies (ctx w)) as B3.
  pose proof (readCached_aborted (ctx w)) as B4. rewrite Hcache in B1, B2. destruct (readCached (ctx w)) as [c b]. cbn in B1, B2, B3, B4. subst b.
  rewrite Htok. exists (reply refusal c). rewrite reply_replies, reply_unread, reply_aborted, B2, B3, B4. split; [|done].
  cbv [mret M_ret]. rewrite validationUserToken_spec. cbn [set_ctx now rdb].
  case_bool_decide as E; [done|]. destruct Href as [|Href]; [done|]. unfold EqualToken. by rewrite bool_decide_eq_false_2.
Qed.

Context `{!Engine W (fun w => aborted (ctx w))}.

(** C35: a refused check protects nothing.  When the token of a request is missing or is not the one in the
    store, the check of the login answers that the user should log in, and then every handler
    of the route runs all the same, with the request's body used up. *)
Theorem refused_request_served hs w token terr :
  urlPath (ctx w) ∉ excludePath -> cached (ctx w) = None -> aborted (ctx w) = false ->
  bind_Token (unread (ctx w)) = Some (token, terr) -> refused token w ->
  exists c, serve (CheckLoginStatusHandler :: hs) w = serve hs (set_ctx c w) /\
    replies c = replies (ctx w) ++ [refusal] /\ unread c = emptyBody /\ aborted c = false.
Proof.
  intros Hpath Hcache Hab Htok Href. destruct (check_refused (serve hs) w token terr Hpath Hcache Htok Href) as (c & Hrun & Hr & Hu & Ha).
  exists c. rewrite serve_cons, Hrun. cbn [set_ctx ctx]. rewrite Ha, Hab. done.
Qed.

(** The middleware of the sessions puts the session into the context and calls the next handler. *)
Context (sess : Ctx -> Ctx).
Context (sess_unread : forall c, unread (sess c) = unread c) (sess_replies : forall c, replies (sess c) = replies c).
Definition Sessions : HandlerOf W := fun Next => modify (fun w => set_ctx (sess (ctx w)) w);; Next;; mret true.

(** The answer to a registration: the token of a new user, or the failure. *)
Definition registerReply (ok : bool) (token : string) : Reply Err User :=
  if ok then RSecureJSON 200 (PH [("message", VS "success registered!"); ("token", VS token)])%string
  else RJSON 500 (PH [("error", VS "register failure wait minutes!")])%string.

Lemma register_empty id k next w :
  has_keys k w -> unread (ctx w) = emptyBody ->
  exists c d dberr e token, RegisterUserHandler id next w = Ret false (set_ctx c (set_db d w)) /\ db_Create zeroLoginUser (db w) = (d, dberr) /\
    replies c = replies (ctx w) ++ formatReply (Some e) ++ [registerReply (bool_decide (dberr = None)) token] /\ aborted c = aborted (ctx w).
Proof using Type.
  intros Hk Hu. destruct bind_empty as [e He]. rewrite <- Hu in He.
  destruct (getUserFromContext_spec w _ _ He) as (c & Hg & Hr & Ha). destruct (db_Create zeroLoginUser (db w)) as [d dberr] eqn:Hd.
  destruct (GenerateJWT_spec id zeroLoginUser k (set_ctx c (set_db d w)) Hk) as (token & Hgen & _).
  exists (reply (registerReply (bool_decide (dberr = None)) token) c), d, dberr, e, token.
  rewrite reply_replies, reply_aborted, Hr, Ha, <- app_assoc. split_and!; [|done..].
  unfold RegisterUserHandler, endpoint. cbv [mbind M_bind]. rewrite Hg. unfold RegisterUserIntoDB. cbv [mbind M_bind gets modify].
  cbn [set_ctx db]. rewrite Hd. destruct dberr as [err|].
  - rewrite bool_decide_eq_false_2 by done. done.
  - rewrite bool_decide_eq_true_2 by done. change (set_db d (set_ctx c w)) with (set_ctx c (set_db d w)). cbv [mret M_ret]. cbn [negb].
    rewrite Hgen. done.
Qed.

(** Nobody can register.  A registration comes without a token, and then, whatever its body says, the check
    of the login answers and reads the body, the handler answers that the body is not
    accepted, and the empty name with the empty password is put into the table; when that
    works, a success and a token are sent.  No name that the table tells from the empty one is touched. *)
Theorem register_loses_user id k w token terr :
  has_keys k w -> urlPath (ctx w) = "/user/register"%string -> cached (ctx w) = None -> aborted (ctx w) = false ->
  bind_Token (unread (ctx w)) = Some (token, terr) -> tk_Token token = ""%string ->
  exists w' dberr e t, serve (chainOf Sessions (mkRoute "POST" "/user/register" [RegisterUserHandler id])) w = Ret tt w' /\
    db_Create zeroLoginUser (db w) = (db w', dberr) /\
    replies (ctx w') = replies (ctx w) ++ [refusal] ++ formatReply (Some e) ++ [registerReply (bool_decide (dberr = None)) t] /\
    forall name, db_same name ""%string = false -> db_First name (db w') = db_First name (db w).
Proof using sess_unread sess_replies.
  intros Hk Hpath Hcache Hab Htok Hempty.
  destruct (check_refused (serve [Sessions; RegisterUserHandler id]) w token terr) as (c & Hrun & Hr & Hu & Ha);
    [rewrite Hpath; unfold excludePath; set_solver|done..|by left|].
  destruct (register_empty id k (serve []) (set_ctx (sess c) w) Hk) as (c' & d & dberr & e & t & Hreg & Hd & Hr' & Ha');
    [cbn [set_ctx ctx]; by rewrite sess_unread|].
  assert (serve [RegisterUserHandler id] (set_ctx (sess c) w) = Ret tt (set_ctx c' (set_db d w))) as Hserve.
  { rewrite serve_cons, Hreg, serve_nil. cbn. by case_match. }
  exists (set_ctx c' (set_db d w)), dberr, e, t. unfold chainOf. cbn [handlers]. split_and!.
  - rewrite serve_cons, Hrun. cbn [set_ctx ctx]. rewrite Ha, Hab. rewrite serve_cons. unfold Sessions. cbv [mbind M_bind modify].
    change (set_ctx (sess (ctx (set_ctx c w))) (set_ctx c w)) with (set_ctx (sess c) w). by rewrite Hserve.
  - done.
  - cbn [set_ctx ctx set_db] in Hr' |- *. by rewrite Hr', sess_replies, Hr, <- app_assoc.
  - intros name Hname. cbn [set_ctx set_db db]. by apply (db_Create_others zeroLoginUser (db w) d dberr).
Qed.
End Props.

(** ** A framework, a table, a store and tokens *)

(** The simplest ones with the laws: lists of replies, maps, and tokens that carry their key and
    their times in a string. *)
Module Simple.
Local Open Scope string_scope.

(** Bodies: nothing, a user, or a token. *)
Inductive Body := BEmpty | BUser (u : LoginUser) | BToken (t : Token).
Record Ctx := mkCtx { c_path : string; c_unread : Body; c_cached : option Body; c_replies : list (Reply unit unit); c_aborted : bool }.

Definition read_cached (c : Ctx) : Ctx * Body :=
  match c_cached c with
  | Some b => (c, b)
  | None => (mkCtx (c_path c) BEmpty (Some (c_unread c)) (c_replies c) (c_aborted c), c_unread c)
  end.

#[export] Program Instance gin : Gin Ctx Body unit unit := {|
  urlPath := c_path; emptyBody := BEmpty; unread := c_unread; cached := c_cached; replies := c_replies; aborted := c_aborted;
  readBody c := (mkCtx (c_path c) BEmpty (c_cached c) (c_replies c) (c_aborted c), c_unread c);
  readCached := read_cached;
  reply r c := mkCtx (c_path c) (c_unread c) (c_cached c) (c_replies c ++ [r])%list (c_aborted c);
  Abort c := mkCtx (c_path c) (c_unread c) (c_cached c) (c_replies c) true;
  Cookie _ _ := ("", Some tt);
  sessionSet _ _ c := c
|}.
Solve All Obligations with by intros; try match goal with c : Ctx |- _ => destruct c as [? ? [] ? ?] end.

Definition decodeUser (b : Body) : option (LoginUser * option unit) :=
  match b with BUser u => Some (u, None) | _ => Some (zeroLoginUser, Some tt) end.
Definition decodeToken (b : Body) : option (Token * option unit) :=
  match b with
  | BToken t => Some (t, None)
  | BUser u => Some (mkToken (Username u) "", None)
  | BEmpty => Some (mkToken "" "", Some tt)
  end.

#[export] Instance binding : Binding Ctx Body unit unit := {|
  bind_PostReq _ := Some (mkPostReq 0 "", Some tt);
  bind_MyForm _ _ := Some (mkMyForm [], None);
  bind_User _ := Some (tt, Some tt);
  bind_UserInfo _ := Some (mkUserInfo "" "", None);
  bind_TestUser _ := Some (mkTestUser "" "" "", Some tt);
  bind_LoginUser := decodeUser;
  bind_Token := decodeToken;
  bind_empty := ex_intro (fun e => decodeUser BEmpty = Some (zeroLoginUser, Some e)) tt eq_refl
|}.

Definition first (name : string) (d : gmap string string) : string + unit := match d !! name with Some p => inl p | None => inr tt end.
#[export] Program Instance table : UserTable (gmap string string) unit := {|
  db_same a b := bool_decide (a = b);
  db_Create u d := (<[Username u := Password u]> d, None);
  db_First := first
|}.
Next Obligation. intros u d d' [= <-]. unfold first. by rewrite lookup_insert_eq. Qed.
Next Obligation. intros u d d' err name [= <- _] Hne%bool_decide_eq_false. unfold first. by rewrite lookup_insert_ne. Qed.

Definition get (now : Z) (k : string) (r : gmap string (string * Z)) : string * option unit :=
  match r !! k with Some (v, until) => if (now <? until)%Z then (v, None) else ("", Some tt) | None => ("", Some tt) end.
#[export] Program Instance store : TokenStore (gmap string (string * Z)) unit := {|
  rdb_Get := get;
  rdb_Set now k v ttl r := (<[k := (v, (now + ttl)%Z)]> r, None)
|}.
Next Obligation. intros now k r e. unfold get. by repeat case_match. Qed.
Next Obligation.
  intros now now' k v ttl r r' s [= <-] Hle. unfold get. rewrite lookup_insert_eq. destruct (Z.ltb_spec now' (now + ttl)); [|done]. by intros [= ->].
Qed.

(** Numbers as strings, and back. *)
Definition zero : Ascii.ascii := Ascii.ascii_of_nat 48.
Definition one : Ascii.ascii := Ascii.ascii_of_nat 49.
Fixpoint posString (p : positive) : string :=
  match p with xH => "end" | xO p => String zero (posString p) | xI p => String one (posString p) end.
Fixpoint stringPos (s : string) : positive :=
  match s with
  | String c s => if Ascii.eqb c zero then xO (stringPos s) else if Ascii.eqb c one then xI (stringPos s) else xH
  | EmptyString => xH
  end.
Lemma stringPos_posString p : stringPos (posString p) = p.
Proof. induction p as [p IH|p IH|]; cbn; by rewrite ?IH. Qed.

Definition token (k : positive) (cl : MyClaim) : string := posString (encode (k, (IssuedAt cl, NotBefore cl, ExpiresAt cl))).
Definition readToken (s : string) : option (positive * (Z * Z * Z)) := decode (stringPos s).
Lemma readToken_token k cl : readToken (token k cl) = Some (k, (IssuedAt cl, NotBefore cl, ExpiresAt cl)).
Proof. unfold readToken, token. by rewrite stringPos_posString, decode_encode. Qed.

Definition sign (p : option positive) (cl : MyClaim) : string := match p with Some k => token k cl | None => "" end.
Definition parse (q : positive) (now : Z) (s : string) : bool * option unit :=
  match readToken s with
  | Some (k, (iat, nbf, exp)) => if bool_decide (k = q /\ iat <= now /\ nbf <= now < exp)%Z then (true, None) else (false, Some tt)
  | None => (false, Some tt)
  end.
#[export] Program Instance jwt : Jwt positive positive positive unit := {|
  privPEM := posString; pubPEM := posString;
  ParseRSAPrivateKeyFromPEM s := Some (stringPos s); ParseRSAPublicKeyFromPEM s := inl (stringPos s);
  SignedString := sign; ParseWithClaims := parse
|}.
Next Obligation.
  intros k. exists (stringPos (posString k)). split; [done|]. intros cl E.
  change (token (stringPos (posString k)) cl = "") in E.
  assert (readToken (token (stringPos (posString k)) cl) = None) as H by (rewrite E; by vm_compute). by rewrite readToken_token in H.
Qed.
Next Obligation. intros k. by eexists. Qed.
Next Obligation.
  intros k k' q now cl [= <-]. unfold sign, parse. rewrite readToken_token, !stringPos_posString. case_bool_decide as E; cbn; [|done]. done.
Qed.
Next Obligation. intros q now t. unfold parse. repeat case_match; done. Qed.

Fixpoint run {S} (isAborted : S -> bool) (hs : list (HandlerOf S)) : M S unit :=
  match hs with
  | [] => mret tt
  | h :: hs => fun s =>
      match h (run isAborted hs) s with
      | Ret true s' => Ret tt s'
      | Ret false s' => if isAborted s' then Ret tt s' else run isAborted hs s'
      | Panic s' => Panic s'
      | Exit s' => Exit s'
      end
  end.
#[export] Instance engine S (isAborted : S -> bool) : Engine S isAborted :=
  {| serve := run isAborted; serve_nil := eq_refl; serve_cons h hs := eq_refl |}.

Definition ann : LoginUser := mkLoginUser "ann" "secret".
Definition keys : gmap string KeyVal := <["PublicKey" := KBytes (pubPEM 5%positive)]> (<["PrivateKey" := KBytes (privPEM 5%positive)]> ∅).
Definition world (path : string) (b : Body) (d : gmap string string) : World Ctx (gmap string string) (gmap string (string * Z)) :=
  mkWorld (mkCtx path b None [] false) d ∅ keys None 1000.
Definition next0 : M (World Ctx (gmap string string) (gmap string (string * Z))) unit := mret tt.
End Simple.
Import Simple.

Lemma world_keys path b d : has_keys 5%positive (world path b d).
Proof. by split; vm_compute. Qed.

(** Ann logs in with the password in the table; her token is accepted ten minutes later. *)
Definition loginWorld : World Ctx (gmap string string) (gmap string (string * Z)) := world "/user/login" (BUser ann) {["ann"%string := "secret"%string]}.

Lemma login_worth_an_hour_witness :
  exists w' token, LoginUserHandler "id" next0 loginWorld = Ret false w' /\
    validationUserToken (mkToken "ann" token) (later w' (ctx loginWorld) 1600) = Ret true (later w' (ctx loginWorld) 1600).
Proof.
  destruct (login_worth_an_hour "id" 5%positive next0 loginWorld ann None) as (w' & Hrun & _ & H); [apply world_keys|done|].
  destruct H as (token & rerr & _ & Hset & _ & H). exists w', token. split; [exact Hrun|]. injection Hset as Hr <-.
  apply (H eq_refl (ctx loginWorld) 1600); [vm_compute; split; done|]. by rewrite <- Hr.
Defined.

(** What Ann's login at time [t] in the state [w] leaves. *)
Lemma ann_logs_in w w' token :
  has_keys 5%positive w -> unread (ctx w) = BUser ann -> passwordRight ann w = true ->
  LoginUserHandler "id" next0 w = Ret false w' -> replies (ctx w') = replies (ctx w) ++ formatReply None ++ [loginReply token] ->
  has_keys 5%positive w' /\ db w' = db w /\ rdb w' = <["ann"%string := (token, now w + 86400)]> (rdb w) /\ readToken token = Some (5%positive, (now w, now w, now w + 3600)).
Proof.
  intros Hk Hu Hp Hrun Hr. destruct (login_right "id" 5%positive next0 w ann None Hk) as (tok & c & _ & Htok & Hrun' & Hr'); [by rewrite Hu|done|].
  rewrite Hrun' in Hrun. injection Hrun as <-. cbn [set_rdb set_ctx ctx] in Hr. rewrite Hr' in Hr. apply app_inv_head, app_inv_head in Hr. injection Hr as ->.
  split_and!; [exact Hk|done..|]. rewrite Htok. cbn -[posString readToken Simple.token]. rewrite stringPos_posString. by rewrite readToken_token.
Qed.


(** Ann logs in again a minute later, and the first token is refused. *)
Lemma second_login_replaces_witness :
  exists w' token w1' token', LoginUserHandler "id" next0 loginWorld = Ret false w' /\
    LoginUserHandler "id" next0 (later w' (ctx loginWorld) 1060) = Ret false w1' /\ token <> token' /\
    validationUserToken (mkToken "ann" token) (later w1' (ctx loginWorld) 1600) = Ret false (later w1' (ctx loginWorld) 1600).
Proof.
  destruct (login_right "id" 5%positive next0 loginWorld ann None (world_keys _ _ _) ltac:(done) ltac:(by vm_compute)) as (tok & c & _ & _ & Hrun0 & Hr0).
  set (w0 := set_rdb _ _) in Hrun0. destruct (ann_logs_in loginWorld w0 tok (world_keys _ _ _) ltac:(done) ltac:(by vm_compute) Hrun0 Hr0) as (Hk0 & Hd0 & _ & Ht0).
  assert (passwordRight ann (later w0 (ctx loginWorld) 1060) = true) as Hp1 by (unfold passwordRight; cbn [later db]; by rewrite Hd0).
  destruct (second_login_replaces "id" "id" 5%positive next0 loginWorld ann None (later w0 (ctx loginWorld) 1060) ann None (ctx loginWorld) 1600
    (world_keys _ _ _) ltac:(done) ltac:(by vm_compute) Hk0 ltac:(done) Hp1 ltac:(done)) as (w' & token & w1' & token' & Hrun & Hr & Hrun1 & Hr1 & H).
  rewrite Hrun0 in Hrun. injection Hrun as <-.
  destruct (ann_logs_in loginWorld w0 token (world_keys _ _ _) ltac:(done) ltac:(by vm_compute) Hrun0 Hr) as (_ & _ & _ & Ht).
  destruct (ann_logs_in (later w0 (ctx loginWorld) 1060) w1' token' Hk0 ltac:(done) Hp1 Hrun1 Hr1) as (_ & _ & _ & Ht').
  assert (token <> token') as Hne by (intros ->; rewrite Ht in Ht'; discriminate Ht').
  exists w0, token, w1', token'. split; [exact Hrun0|]. split; [exact Hrun1|]. split; [exact Hne|]. apply H; [exact Hne|done|by vm_compute].
Defined.

(** Gin on these worlds. *)
Definition handle : list (HandlerOf (World Ctx (gmap string string) (gmap string (string * Z)))) -> M _ unit :=
  serve (isAborted := fun w => aborted (ctx w)).

(** A request without a token gets the greeting of /hello1 after the refusal. *)
Lemma refused_request_served_witness :
  exists c, handle [CheckLoginStatusHandler; GetHello1Handler] (world "/hello1" BEmpty ∅) = handle [GetHello1Handler] (set_ctx c (world "/hello1" BEmpty ∅)) /\
    replies c = [refusal].
Proof.
  destruct (refused_request_served [GetHello1Handler] (world "/hello1" BEmpty ∅) (mkToken "" "") (Some tt)) as (c & Hs & Hr & _);
    [apply (bool_decide_unpack _); by vm_compute|done|done|done|by left|].
  exists c. exact (conj Hs Hr).
Defined.

(** Ann's registration puts the empty name into the table. *)
Lemma register_loses_user_witness :
  exists w', handle (chainOf (Sessions (fun c => c)) (mkRoute "POST" "/user/register" [RegisterUserHandler "id"])) (world "/user/register" (BUser ann) ∅) = Ret tt w' /\
    db_First "ann" (db w') = inr tt.
Proof.
  destruct (register_loses_user (fun c => c) ltac:(done) ltac:(done) "id" 5%positive (world "/user/register" (BUser ann) ∅) (mkToken "ann" "") None)
    as (w' & dberr & e & t & Hs & _ & _ & Hn); [apply world_keys|done..|].
  exists w'. exact (conj Hs (Hn "ann"%string ltac:(by vm_compute))).
Defined.
